(* ===== verification/_CoqProject ===== *)
-Q . S2P
Prelude.v
Domain.v
ObjectPool.v
DList.v
BookSpec.v
OrderList.v
SideBook.v
OrderBook.v
BookRefine.v
BookOps.v
BookClear.v
BookProperties.v
MatchSpec.v
TradeBuilder.v
MatchingEngine.v
MatchRefine.v
MatchProperties.v
RiskState.v
RiskEngine.v
RiskRefine.v
RiskProperties.v
RingBuffer.v
QueueConcurrency.v
MPSCQueue.v
MPSCConcurrency.v
QueueProperties.v
Wire.v
Sessions.v
Gateway.v
GatewayRefine.v
GatewayFraming.v
GatewayProperties.v
GatewayThreads.v
TcpTransport.v
Checksum.v
ChecksumHardware.v
Journal.v
JournalRefine.v
GatewayTyping.v
JournalProperties.v
JournalDisk.v
Snapshot.v
SnapshotRefine.v
SnapshotDamage.v
DependencyResolver.v
ResolverRefine.v
Kernel.v
KernelProperties.v
EventBus.v
EngineManager.v
EngineRefine.v
EngineProperties.v
Recovery.v
Exchange.v
ExchangeProperties.v
ExchangeInvariant.v
Shutdown.v
LiveRecovery.v
Halt.v
Events.v
Expected.v
Platform.v
