(* ===== verification/Prelude.v ===== *)
(** * FluxTrade: verification of the exchange

    FluxTrade (src/) is a single-process exchange in C++20.  Clients speak a
    binary protocol to a gateway; order commands travel over lock-free queues
    through a dispatcher to one engine thread per symbol; the engine checks risk,
    journals the command, matches it against a limit order book and reports back
    through the gateway.  A snapshot and the journal rebuild the book after a
    crash; a kernel starts and stops modules in dependency order.  This library
    translates that code into executable Rocq definitions and proves what it
    does.

    ** Conventions

    This file is shared by all the others: outcomes of C++ code ([outcome]:
    return, exception, [std::terminate], undefined behaviour, out of fuel),
    integers of fixed width as [Z] with the wrap-around written out ([u64],
    [u32], [u16], [i64]; signed overflow is [Undefined]), memory as a finite map
    from addresses to live objects ([rd], [upd]), fixed arrays ([arr_get],
    [arr_set]), lemmas on lists, and the tactic [mem_step].  C++ names are kept
    where Rocq allows them.  A pointer is an [option Z].  A clock is an argument:
    a sequence of readings.  Bytes the language leaves unspecified (padding,
    uninitialised stack) are arguments too.

    ** Parts, files and sources

    - Domain types: [Domain] (src/domain).
    - Object pool: [ObjectPool] (src/common object_pool.hpp).
    - Order book (src/matching/order_book): [DList] is the theory of linked
      structures in a store; [OrderList] the queue of a level
      (intrusive_list.hpp), [SideBook] levels and sides (price_level.hpp,
      price_level_index.hpp, bid_book.hpp, ask_book.hpp), [OrderBook] the book
      (order_book.cpp, order_lookup.hpp).  [BookSpec] is the abstract book: two
      sorted lists of levels, each a FIFO of orders.  [BookRefine], [BookOps],
      [BookClear] prove that every operation refines its abstract counterpart
      ([abs b B]); [BookProperties] states it.
    - Matching engine (src/matching): [TradeBuilder] (trade_builder.cpp,
      execution_context.hpp), [MatchingEngine] (matching_engine.cpp,
      exchange_simulator.hpp), [MatchSpec] price-time priority on abstract books,
      [MatchRefine] and [MatchProperties].
    - Risk engine (src/risk): [RiskState] (accounts, positions, limits),
      [RiskEngine] (the pipeline of policies), [RiskRefine], [RiskProperties].
    - Queues (src/common ring_buffer.hpp): [RingBuffer] and [MPSCQueue] (calls
      nobody interrupts), [QueueConcurrency] and [MPSCConcurrency] (the same code
      cut at its atomic accesses, as step relations), [QueueProperties].
      [Expected] is expected.hpp.
    - Gateway (src/gateway): [Wire] (protocol.hpp, encoder and decoder),
      [Sessions] (session_manager.hpp), [Gateway] (gateway.cpp and the transport
      interface, a type class), [GatewayRefine], [GatewayFraming],
      [GatewayProperties]; [GatewayThreads] ([send_packet] between two threads),
      [GatewayTyping] (the ranges of every value); [TcpTransport]
      (tcp_transport.hpp).
    - Persistence (src/persistence): [Checksum] and [ChecksumHardware]
      (checksum.hpp, the bit loop and the processor instructions), [Journal]
      (records, disk journal, metadata, replay of a file), [JournalRefine],
      [JournalProperties]; [Snapshot] (writer, reader, recover),
      [SnapshotRefine], [SnapshotDamage] (files cut short), [Recovery];
      [JournalDisk] (the files a run leaves in a directory).
    - Exchange (src/exchange): [EngineManager] (engine_manager.hpp),
      [EngineRefine], [EngineProperties]; [Exchange] (dispatcher.hpp,
      exchange.cpp), [ExchangeProperties]; [ExchangeInvariant] (all the threads
      and the owner's calls as one step relation, [system_step]); [Shutdown]
      ([EngineManager::stop] between the engine's loop and the journal's);
      [LiveRecovery] (the recovered book against the stopped engine's);
      [Halt] (the flags of the process that halt trading on every engine).
    - Kernel (src/kernel): [DependencyResolver], [ResolverRefine], [Kernel]
      (modules are the class [IModule]), [KernelProperties]; [EventBus] (the
      event bus between threads).
    - Events (src/events): [Events].
    - Platform: [Platform] (clock.hpp, thread_pinning.hpp), with the system's
      calls as classes.

    ** What is shown

    - Book and matching.  The pointer structures implement the abstract book:
      [insert], [cancel], [modify_qty] and [fill_order] refine it, and
      [submit_order] refines price-time-priority matching, with the trades and
      reports it writes.  From it follow priority, conservation of quantity, price
      protection, totality (only exhausted pools end in [std::terminate]), and that
      no reachable engine has a crossed book.
    - Risk.  Validation is total, names the first policy that fails, reserves an
      accepted order's exact cost; the rate limit is a sliding window.
    - Queues.  FIFO with the capacity as the only reason to refuse, for a lone
      caller; under any interleaving nothing is lost, duplicated or reordered and
      no slot is raced for, with one producer and one consumer on the SPSC queue
      and any number of producers on the MPSC queue.  Two producers on the SPSC
      queue do lose an element.
    - Gateway.  Packets survive encoding; the stream is cut into the frames that
      were sent however the transport cuts it; the session table is a bounded map; every
      value that reaches the engines is in the range of its type.
    - Persistence.  A snapshot restores the book it was taken of, and one cut short
      is refused; recovery is the
      snapshot's book with the later journaled commands applied, which is the live
      engine's book as long as nothing trades; damage to a
      record or to the metadata is detected, by the same checksum on every
      processor; the journal drains when it stops.  Stopping an engine, in any
      interleaving, leaves every journaled command but at most the last in the
      files.  What [recover] rebuilds is stated for commands that fit
      ([commands_fit]): replay inserts orders and does not match them, so it can put
      one price on both sides, which the book's operations take to be impossible;
      [replayed_cancel_takes_other_level] is such a journal.
    - Exchange.  One command through an engine refines the abstract engine, and
      an order packet of a logged-in client is answered with exactly the reports of
      its execution; in every reachable state of the whole exchange the books are
      sound and uncrossed and the queues hold well-typed commands; a trading halt
      holds until a symbol is added, which lifts it.
    - Kernel.  The resolver finds an order exactly when there is one, and the
      modules are initialised in it, up to the first that fails; the destructor
      takes all of them down and joins the workers.  The event bus delivers an
      event to the callbacks of one moment, whatever its threads do.
    - Where the code does something else than it means to, the theorem says what
      it does: a partly filled order rests in full, a cancel never passes the price
      band, a zero length spins, a frame shorter than its packet is read past its
      end, two threads overwrite each other's packet, a recovered book can be
      crossed, [stop] can lose a command it has answered, a restarted engine
      overwrites its journal.

    ** Bounds and fuel

    The loops over linked structures take as fuel one more than the number of live
    objects; the refinement theorems show that this always suffices.  The parser
    loop of [on_read], the replay loops and the queue-draining loops take a fuel
    argument; their theorems ask for more fuel than there are frames, records or
    elements, and the one about the zero-length frame shows divergence for every
    amount.  Pool sizes (10240 orders, 1024 levels), queue and table sizes are the
    source's.

    ** Simplifications

    The threads of the exchange are interleaved turn by turn (an engine's,
    the gateway's, the response thread's), which the queues' theorems justify for
    one producer and one consumer each; the outbound queue has more producers
    than that when there are two engines, and [QueueProperties] shows what it then
    loses.  The buffer two threads share is treated in [GatewayThreads], the
    turns of an engine that is being stopped in [Shutdown].  The C++
    memory model is represented by stale loads: on the SPSC queue the other
    thread's index may have any value since the one last seen, on the MPSC queue
    an index or a sequence number may have any value up to the present one.
    Every engine's state has a copy of the process-wide flags of the kill switch
    and the circuit breaker; the steps of [Halt] keep the copies equal, the others
    leave them alone.  Hash maps whose iteration order the code observes are given
    with that order as an argument.  Files are lists of bytes; opening and writing
    them succeeds, and a crash may cut the last write short.

    ** Not modelled

    The creation of threads themselves, the alignment of the words checksum.hpp
    reads, the kernel's registration of its own services and its console output,
    deleted copy operations and other declarations without behaviour, tests,
    benchmarks and build files. *)
From stdpp Require Export base gmap sets list sorting.
From Stdlib Require Export ZArith Lia.
Global Open Scope Z_scope.

(** ** Outcomes of C++ code

    [Ret a]: the code returns [a].  [Throw]: an exception ([std::bad_alloc]) is
    propagating.  [Terminate]: [std::terminate] was called, as it is when an
    exception reaches the boundary of a [noexcept] function.  [Undefined]: the
    code has undefined behaviour here (null or dangling dereference, failed
    [assert], signed overflow).  [Diverge]: the fuel given to a loop ran out. *)
Inductive outcome (A : Type) : Type :=
| Ret (a : A)
| Throw
| Terminate
| Undefined
| Diverge.
Arguments Ret {A} _.
Arguments Throw {A}.
Arguments Terminate {A}.
Arguments Undefined {A}.
Arguments Diverge {A}.

#[export] Instance outcome_ret : MRet outcome := @Ret.
#[export] Instance outcome_bind : MBind outcome := fun A B f m =>
  match m with
  | Ret a => f a
  | Throw => Throw
  | Terminate => Terminate
  | Undefined => Undefined
  | Diverge => Diverge
  end.

(** A [noexcept] function turns an escaping exception into [std::terminate]. *)
Definition noexcept {A} (m : outcome A) : outcome A :=
  match m with Throw => Terminate | _ => m end.

(** [assert c] in the source; a failed assertion is never recovered from. *)
Definition assert_ (c : bool) : outcome unit := if c then Ret tt else Undefined.

Lemma bind_Ret {A B} (a : A) (f : A -> outcome B) : (Ret a ≫= f) = f a.
Proof. reflexivity. Qed.

Lemma bind_Ret_inv {A B} (m : outcome A) (f : A -> outcome B) b :
  (m ≫= f) = Ret b -> exists a, m = Ret a /\ f a = Ret b.
Proof. destruct m; naive_solver. Qed.

Lemma bind_assoc {A B C} (m : outcome A) (f : A -> outcome B) (g : B -> outcome C) :
  ((m ≫= f) ≫= g) = (m ≫= fun a => f a ≫= g).
Proof. by destruct m. Qed.

Lemma noexcept_Ret {A} (m : outcome A) a : noexcept m = Ret a <-> m = Ret a.
Proof. destruct m; naive_solver. Qed.

(** ** Machine integers: a w-bit integer is a [Z], with its wrap-around explicit *)
Definition u64 (z : Z) : Z := z mod 2 ^ 64.
Definition u32 (z : Z) : Z := z mod 2 ^ 32.
Definition u16 (z : Z) : Z := z mod 2 ^ 16.
Definition u8 (z : Z) : Z := z mod 2 ^ 8.
(** [static_cast<int64_t>], [static_cast<int32_t>] (two's complement since C++20) *)
Definition i64 (z : Z) : Z := let m := z mod 2 ^ 64 in if m <? 2 ^ 63 then m else m - 2 ^ 64.
Definition i32 (z : Z) : Z := let m := z mod 2 ^ 32 in if m <? 2 ^ 31 then m else m - 2 ^ 32.
Definition in_i64 (z : Z) : bool := (- 2 ^ 63 <=? z) && (z <? 2 ^ 63).
Definition in_u64 (z : Z) : bool := (0 <=? z) && (z <? 2 ^ 64).
Definition in_u32 (z : Z) : bool := (0 <=? z) && (z <? 2 ^ 32).
(** Signed 64-bit arithmetic: overflow is undefined. *)
Definition signed64 (z : Z) : outcome Z := if in_i64 z then Ret z else Undefined.

Lemma u64_bound z : 0 <= u64 z < 2 ^ 64.
Proof. apply Z.mod_pos_bound. lia. Qed.
Lemma u32_bound z : 0 <= u32 z < 2 ^ 32.
Proof. apply Z.mod_pos_bound. lia. Qed.
Lemma u16_bound z : 0 <= u16 z < 2 ^ 16.
Proof. apply Z.mod_pos_bound. lia. Qed.
Lemma u64_small z : 0 <= z < 2 ^ 64 -> u64 z = z.
Proof. apply Z.mod_small. Qed.
Lemma u32_small z : 0 <= z < 2 ^ 32 -> u32 z = z.
Proof. apply Z.mod_small. Qed.
Lemma u16_small z : 0 <= z < 2 ^ 16 -> u16 z = z.
Proof. apply Z.mod_small. Qed.
Lemma u64_add_l a b : u64 (u64 a + b) = u64 (a + b).
Proof. unfold u64. by rewrite Zplus_mod_idemp_l. Qed.
Lemma u64_add_r a b : u64 (a + u64 b) = u64 (a + b).
Proof. unfold u64. by rewrite Zplus_mod_idemp_r. Qed.
Lemma u64_sub_l a b : u64 (u64 a - b) = u64 (a - b).
Proof. unfold u64. by rewrite Zminus_mod_idemp_l. Qed.
Lemma u64_sub_r a b : u64 (a - u64 b) = u64 (a - b).
Proof. unfold u64. by rewrite Zminus_mod_idemp_r. Qed.
Lemma u32_add_l a b : u32 (u32 a + b) = u32 (a + b).
Proof. unfold u32. by rewrite Zplus_mod_idemp_l. Qed.
Lemma u32_sub_l a b : u32 (u32 a - b) = u32 (a - b).
Proof. unfold u32. by rewrite Zminus_mod_idemp_l. Qed.
Lemma u64_u64 a : u64 (u64 a) = u64 a.
Proof. unfold u64. by rewrite Zmod_mod. Qed.
#[global] Arguments u64 : simpl never.
#[global] Arguments u32 : simpl never.
#[global] Arguments u16 : simpl never.
#[global] Arguments u8 : simpl never.
#[global] Arguments i64 : simpl never.

Create HintDb machine.
#[export] Hint Rewrite u64_add_l u64_add_r u64_sub_l u64_sub_r u32_add_l u32_sub_l u64_u64 : machine.

Lemma i64_small z : - 2 ^ 63 <= z < 2 ^ 63 -> i64 z = z.
Proof.
  intros H. unfold i64. destruct (decide (0 <= z)) as [Hz|Hz].
  - rewrite Z.mod_small by lia. by destruct (Z.ltb_spec z (2 ^ 63)); [|lia].
  - assert (z mod 2 ^ 64 = z + 2 ^ 64) as ->.
    { symmetry. apply (Z.mod_unique_pos z (2 ^ 64) (-1)); lia. }
    destruct (Z.ltb_spec (z + 2 ^ 64) (2 ^ 63)); lia.
Qed.
Lemma i64_bound z : - 2 ^ 63 <= i64 z < 2 ^ 63.
Proof.
  unfold i64. pose proof (Z.mod_pos_bound z (2 ^ 64)) as ?.
  destruct (Z.ltb_spec (z mod 2 ^ 64) (2 ^ 63)); lia.
Qed.

Lemma signed64_Ret z : - 2 ^ 63 <= z < 2 ^ 63 -> signed64 z = Ret z.
Proof.
  intros H. unfold signed64, in_i64.
  destruct (Z.leb_spec (- 2 ^ 63) z), (Z.ltb_spec z (2 ^ 63)); simpl; (done || lia).
Qed.

(** ** Memory: a store maps the addresses that hold a live object to it

    A pointer is an [option Z], [None] being [nullptr]; dereferencing null or an
    address that holds no live object is undefined. *)
Abbreviation ptr := (option Z).

Definition rd {T} (h : gmap Z T) (p : ptr) : outcome T :=
  match p with
  | None => Undefined
  | Some a => match h !! a with Some v => Ret v | None => Undefined end
  end.

Definition upd {T} (h : gmap Z T) (p : ptr) (f : T -> T) : outcome (gmap Z T) :=
  match p with
  | None => Undefined
  | Some a => match h !! a with Some v => Ret (<[a := f v]> h) | None => Undefined end
  end.

Lemma rd_Some {T} (h : gmap Z T) a v : h !! a = Some v -> rd h (Some a) = Ret v.
Proof. intros H. unfold rd. by rewrite H. Qed.
Lemma upd_Some {T} (h : gmap Z T) a f v : h !! a = Some v -> upd h (Some a) f = Ret (<[a := f v]> h).
Proof. intros H. unfold upd. by rewrite H. Qed.
#[export] Hint Resolve rd_Some upd_Some : core.
#[global] Arguments rd : simpl never.
#[global] Arguments upd : simpl never.

(** ** Fixed arrays: an index out of range is undefined *)
Definition arr_get {A} (l : list A) (i : Z) : outcome A :=
  if i <? 0 then Undefined else match l !! Z.to_nat i with Some x => Ret x | None => Undefined end.
Definition arr_set {A} (l : list A) (i : Z) (x : A) : outcome (list A) :=
  if (0 <=? i) && (i <? Z.of_nat (length l)) then Ret (<[Z.to_nat i := x]> l) else Undefined.

Lemma arr_get_Ret {A} (l : list A) i x : 0 <= i -> l !! Z.to_nat i = Some x -> arr_get l i = Ret x.
Proof. intros H E. unfold arr_get. rewrite E. by destruct (Z.ltb_spec i 0); [lia|]. Qed.
Lemma arr_get_live {A} (l : list A) i : 0 <= i < Z.of_nat (length l) -> exists x, l !! Z.to_nat i = Some x /\ arr_get l i = Ret x.
Proof.
  intros H. destruct (lookup_lt_is_Some_2 l (Z.to_nat i)) as [x E]; [lia|].
  exists x. split; [done|]. apply arr_get_Ret; [lia|done].
Qed.
Lemma arr_set_Ret {A} (l : list A) i x : 0 <= i < Z.of_nat (length l) -> arr_set l i x = Ret (<[Z.to_nat i := x]> l).
Proof.
  intros H. unfold arr_set. destruct (Z.leb_spec 0 i), (Z.ltb_spec i (Z.of_nat (length l))); simpl; (done || lia).
Qed.
Lemma arr_get_inv {A} (l : list A) i x : arr_get l i = Ret x -> 0 <= i /\ l !! Z.to_nat i = Some x.
Proof.
  unfold arr_get. destruct (Z.ltb_spec i 0); [done|].
  destruct (l !! Z.to_nat i); [|done]. intros [= ->]. by split.
Qed.
Lemma arr_set_inv {A} (l k : list A) i x :
  arr_set l i x = Ret k -> 0 <= i < Z.of_nat (length l) /\ k = <[Z.to_nat i := x]> l.
Proof.
  unfold arr_set. destruct (Z.leb_spec 0 i), (Z.ltb_spec i (Z.of_nat (length l))); simpl; try done.
  intros [= <-]. by split.
Qed.
#[global] Arguments arr_get : simpl never.
#[global] Arguments arr_set : simpl never.

(** ** Generic lemmas on lists shared by the components *)
Definition hd_or {A} (l : list A) (d : option A) : option A :=
  match l with [] => d | x :: _ => Some x end.
Definition last_or {A} (l : list A) (d : option A) : option A :=
  match last l with None => d | s => s end.

Lemma hd_or_app {A} (l k : list A) d : hd_or (l ++ k) d = hd_or l (hd_or k d).
Proof. by destruct l. Qed.
Lemma hd_or_None {A} (l : list A) : hd_or l None = head l.
Proof. by destruct l. Qed.
Lemma last_or_None {A} (l : list A) : last_or l None = last l.
Proof. unfold last_or. by destruct (last l). Qed.
Lemma last_or_app {A} (l k : list A) d : last_or (l ++ k) d = last_or k (last_or l d).
Proof. unfold last_or. rewrite last_app. by destruct (last k). Qed.
Lemma last_or_snoc {A} (l : list A) x d : last_or (l ++ [x]) d = Some x.
Proof. by rewrite last_or_app. Qed.
Lemma last_or_cons {A} (x : A) l d : last_or (x :: l) d = last_or l (Some x).
Proof. change (x :: l) with ([x] ++ l). by rewrite last_or_app. Qed.

Definition sumZ (l : list Z) : Z := foldr Z.add 0 l.
Lemma sumZ_app l k : sumZ (l ++ k) = sumZ l + sumZ k.
Proof. induction l as [|x l IH]; simpl; [done|]. unfold sumZ in *; simpl in *. lia. Qed.
Lemma sumZ_nil : sumZ [] = 0.
Proof. reflexivity. Qed.
Lemma sumZ_cons x l : sumZ (x :: l) = x + sumZ l.
Proof. reflexivity. Qed.
#[global] Arguments sumZ : simpl never.
Lemma sumZ_perm l k : l ≡ₚ k -> sumZ l = sumZ k.
Proof. induction 1; rewrite ?sumZ_cons in *; lia. Qed.
Lemma sumZ_nonneg l : Forall (fun x => 0 <= x) l -> 0 <= sumZ l.
Proof. induction 1; rewrite ?sumZ_cons; [done|]. lia. Qed.

Lemma elem_of_concat {A} (x : A) (ls : list (list A)) : x ∈ concat ls <-> exists l, l ∈ ls /\ x ∈ l.
Proof.
  induction ls as [|l ls IH]; simpl; [set_solver|].
  rewrite elem_of_app, IH. set_solver.
Qed.

Lemma filter_all {A} (P : A -> Prop) `{forall x, Decision (P x)} (l : list A) :
  (forall x, x ∈ l -> P x) -> filter P l = l.
Proof.
  induction l as [|x l IH]; intros F; [done|]. rewrite filter_cons, decide_True by (apply F; set_solver).
  f_equal. apply IH. intros. apply F. set_solver.
Qed.

Section Forall2.
Context {A B : Type} (R : A -> B -> Prop).
Lemma Forall2_impl_mem (R' : A -> B -> Prop) l k :
  Forall2 R l k -> (forall x y, x ∈ l -> R x y -> R' x y) -> Forall2 R' l k.
Proof. induction 1; intros I; constructor; [apply I; set_solver|]. apply IHForall2. set_solver. Qed.
Lemma Forall2_split_l l1 x l2 k :
  Forall2 R (l1 ++ x :: l2) k ->
  exists k1 y k2, k = k1 ++ y :: k2 /\ Forall2 R l1 k1 /\ R x y /\ Forall2 R l2 k2.
Proof. intros (k1 & k' & F1 & (y & k2 & F & F2 & ->)%Forall2_cons_inv_l & ->)%Forall2_app_inv_l. eauto 10. Qed.
Lemma Forall2_split_r l k1 y k2 :
  Forall2 R l (k1 ++ y :: k2) ->
  exists l1 x l2, l = l1 ++ x :: l2 /\ Forall2 R l1 k1 /\ R x y /\ Forall2 R l2 k2.
Proof. intros (l1 & l' & F1 & (x & l2 & F & F2 & ->)%Forall2_cons_inv_r & ->)%Forall2_app_inv_r. eauto 10. Qed.
Lemma Forall2_join l1 x l2 k1 y k2 :
  Forall2 R l1 k1 -> R x y -> Forall2 R l2 k2 -> Forall2 R (l1 ++ x :: l2) (k1 ++ y :: k2).
Proof. intros. apply Forall2_app; [done|]. by constructor. Qed.
End Forall2.

(** ** Tactics *)
(** Evaluate the reads and updates whose address is known to be live. *)
Ltac mem_step :=
  repeat first
    [ rewrite bind_Ret
    | erewrite rd_Some by (eassumption || (simplify_map_eq; done))
    | erewrite upd_Some by (eassumption || (simplify_map_eq; done)) ].
