(* ===== verification/Domain.v ===== *)
(** * Domain value types ([src/domain/include/domain])

    Strong identifiers, fixed-point [Price] (signed 64-bit ticks) and [Quantity]
    (unsigned 64-bit units), the enumerations with their wire codes, the order,
    trade and report records, and the field validators.

    A scoped enumeration of C++ can hold any value of its underlying type (the
    code casts wire bytes to [TimeInForce] and reinterprets journal bytes as
    commands), so the enumerations that are read from bytes have a constructor
    for the unnamed values. *)
From S2P Require Import Prelude.
From Stdlib Require Import SpecFloat.

(** ** Enumerations *)
Inductive Side := Buy | Sell | SideUnnamed (code : Z).
Inductive OrderType := Limit | Market | Stop | OrderTypeUnnamed (code : Z).
Inductive TimeInForce := GTC | IOC | FOK | TimeInForceUnnamed (code : Z).
Inductive ExecutionType := ExecNew | ExecTrade | ExecCancel | ExecReject.
Inductive OrderStatus := StNew | StPartiallyFilled | StFilled | StCancelled | StRejected.
Inductive RejectReason :=
| RR_None | InvalidPrice | InvalidQuantity | InvalidSymbol
| DuplicateOrder | OrderNotFound | RiskLimitExceeded.

#[export] Instance Side_eq_dec : EqDecision Side.
Proof. solve_decision. Defined.
#[export] Instance OrderType_eq_dec : EqDecision OrderType.
Proof. solve_decision. Defined.
#[export] Instance TimeInForce_eq_dec : EqDecision TimeInForce.
Proof. solve_decision. Defined.
#[export] Instance ExecutionType_eq_dec : EqDecision ExecutionType.
Proof. solve_decision. Defined.
#[export] Instance RejectReason_eq_dec : EqDecision RejectReason.
Proof. solve_decision. Defined.

Definition Side_code (s : Side) : Z :=
  match s with Buy => 1 | Sell => 2 | SideUnnamed c => c end.
Definition Side_of_code (c : Z) : Side :=
  if c =? 1 then Buy else if c =? 2 then Sell else SideUnnamed c.
Definition OrderType_code (t : OrderType) : Z :=
  match t with Limit => 1 | Market => 2 | Stop => 3 | OrderTypeUnnamed c => c end.
Definition OrderType_of_code (c : Z) : OrderType :=
  if c =? 1 then Limit else if c =? 2 then Market else if c =? 3 then Stop else OrderTypeUnnamed c.
Definition TimeInForce_code (t : TimeInForce) : Z :=
  match t with GTC => 1 | IOC => 2 | FOK => 3 | TimeInForceUnnamed c => c end.
Definition TimeInForce_of_code (c : Z) : TimeInForce :=
  if c =? 1 then GTC else if c =? 2 then IOC else if c =? 3 then FOK else TimeInForceUnnamed c.
Definition ExecutionType_code (t : ExecutionType) : Z :=
  match t with ExecNew => 1 | ExecTrade => 2 | ExecCancel => 3 | ExecReject => 4 end.
Definition OrderStatus_code (t : OrderStatus) : Z :=
  match t with
  | StNew => 1 | StPartiallyFilled => 2 | StFilled => 3 | StCancelled => 4 | StRejected => 5
  end.
Definition RejectReason_code (r : RejectReason) : Z :=
  match r with
  | RR_None => 0 | InvalidPrice => 1 | InvalidQuantity => 2 | InvalidSymbol => 3
  | DuplicateOrder => 4 | OrderNotFound => 5 | RiskLimitExceeded => 6
  end.

(** [enum class OrderFlags : uint8_t] is a bit set, so it stays an 8-bit integer. *)
Definition FlagNone : Z := 0.
Definition PostOnly : Z := Z.shiftl 1 0.
Definition ReduceOnly : Z := Z.shiftl 1 1.
Definition flags_or (a b : Z) : Z := u8 (Z.lor (u8 a) (u8 b)).
Definition flags_and (a b : Z) : Z := u8 (Z.land (u8 a) (u8 b)).
Definition has_flag (flags flag : Z) : bool := negb (Z.land (u8 flags) (u8 flag) =? 0).

(** ** Identifiers: [StrongId<Tag, uint64_t>] and [StrongId<Tag, uint32_t>] are their value *)
Module StrongId.
Definition init : Z := 0.
Definition get (id : Z) : Z := id.
Definition eqb (a b : Z) : bool := a =? b.
Definition neb (a b : Z) : bool := negb (a =? b).
Definition ltb (a b : Z) : bool := a <? b.
Definition gtb (a b : Z) : bool := b <? a.
End StrongId.

Record OrderKey := MkOrderKey { key_symbol_id : Z; key_order_id : Z }.
#[export] Instance OrderKey_eq_dec : EqDecision OrderKey.
Proof. solve_decision. Defined.
Definition OrderKey_eqb (a b : OrderKey) : bool :=
  StrongId.eqb (key_symbol_id a) (key_symbol_id b) && StrongId.eqb (key_order_id a) (key_order_id b).
Definition OrderKey_neb (a b : OrderKey) : bool := negb (OrderKey_eqb a b).
Definition OrderKey_ltb (a b : OrderKey) : bool :=
  if StrongId.neb (key_symbol_id a) (key_symbol_id b) then StrongId.ltb (key_symbol_id a) (key_symbol_id b)
  else StrongId.ltb (key_order_id a) (key_order_id b).

(** ** IEEE-754 binary64, as the language's [double]

    [SpecFloat] is the Standard Library's executable definition of the IEEE
    operations with rounding to nearest even. *)
Module Double.
Definition prec : Z := 53.
Definition emax : Z := 1024.
Definition of_int (z : Z) : spec_float := binary_normalize prec emax z 0 false.
Definition add := SFadd prec emax.
Definition sub := SFsub prec emax.
Definition mul := SFmul prec emax.
Definition div := SFdiv prec emax.
(** [0.5], [-0.5] and [0.10]: the doubles nearest to the literals *)
Definition half : spec_float := S754_finite false 4503599627370496 (-53).
Definition minus_half : spec_float := S754_finite true 4503599627370496 (-53).
Definition tenth : spec_float := S754_finite false 7205759403792794 (-56).
Definition gtb (a b : spec_float) : bool := SFltb b a.
Definition ltb (a b : spec_float) : bool := SFltb a b.
Definition geb (a b : spec_float) : bool := SFleb b a.
(** Conversion to an integer truncates towards zero; undefined out of range. *)
Definition trunc (x : spec_float) : option Z :=
  match x with
  | S754_zero _ => Some 0
  | S754_finite s m e =>
      let a := if 0 <=? e then Z.pos m * 2 ^ e else Z.pos m / 2 ^ (- e) in
      Some (if s then - a else a)
  | _ => None
  end.
Definition to_int (in_range : Z -> bool) (x : spec_float) : outcome Z :=
  match trunc x with
  | Some z => if in_range z then Ret z else Undefined
  | None => Undefined
  end.
End Double.

(** ** [Price]: signed ticks *)
Module Price.
Definition SCALE : Z := 100000000.
Definition to_double (ticks : Z) : spec_float := Double.div (Double.of_int ticks) (Double.of_int SCALE).
Definition from_double (val : spec_float) : outcome Z :=
  Double.to_int in_i64
    (Double.add (Double.mul val (Double.of_int SCALE))
       (if Double.geb val (Double.of_int 0) then Double.half else Double.minus_half)).
(** The comparison operators; the rest of the development writes them as those
    of [Z]. *)
Definition eqb (a b : Z) : bool := a =? b.
Definition neb (a b : Z) : bool := negb (a =? b).
Definition ltb (a b : Z) : bool := a <? b.
Definition gtb (a b : Z) : bool := b <? a.
Definition leb (a b : Z) : bool := a <=? b.
Definition geb (a b : Z) : bool := b <=? a.
Definition add (a b : Z) : outcome Z := signed64 (a + b).
Definition sub (a b : Z) : outcome Z := signed64 (a - b).
(** [a += b] and [a -= b]: the new value of [a] *)
Definition add_assign (a b : Z) : outcome Z := signed64 (a + b).
Definition sub_assign (a b : Z) : outcome Z := signed64 (a - b).
End Price.

(** ** [Quantity]: unsigned units *)
Module Quantity.
Definition SCALE : Z := 1000000.
Definition to_double (units : Z) : spec_float := Double.div (Double.of_int units) (Double.of_int SCALE).
Definition from_double (val : spec_float) : outcome Z :=
  Double.to_int in_u64 (Double.add (Double.mul val (Double.of_int SCALE)) Double.half).
Definition eqb (a b : Z) : bool := a =? b.
Definition neb (a b : Z) : bool := negb (a =? b).
Definition ltb (a b : Z) : bool := a <? b.
Definition gtb (a b : Z) : bool := b <? a.
Definition leb (a b : Z) : bool := a <=? b.
Definition geb (a b : Z) : bool := b <=? a.
Definition add (a b : Z) : Z := u64 (a + b).
Definition sub (a b : Z) : Z := u64 (a - b).
Definition add_assign (a b : Z) : Z := u64 (a + b).
Definition sub_assign (a b : Z) : Z := u64 (a - b).
End Quantity.

(** ** Records *)
Record Order := MkOrder {
  order_id : Z; price : Z; qty : Z; seq_num : Z; client_timestamp : Z;
  exchange_timestamp : Z; client_id : Z; account_id : Z; symbol_id : Z;
  side : Side; type : OrderType; tif : TimeInForce; flags : Z }.

Record LiveOrder := MkLiveOrder {
  lo_key : OrderKey; lo_price : Z; lo_remaining_qty : Z; lo_priority_seq : Z;
  lo_next : ptr; lo_prev : ptr }.

Record Trade := MkTrade {
  tr_trade_id : Z; tr_buy_order_id : Z; tr_sell_order_id : Z; tr_price : Z;
  tr_qty : Z; tr_timestamp : Z; tr_symbol_id : Z }.

Record Fill := MkFill {
  fl_fill_id : Z; fl_trade_id : Z; fl_order_id : Z; fl_price : Z; fl_qty : Z; fl_timestamp : Z }.

Record Execution := MkExecution {
  ex_execution_id : Z; ex_order_id : Z; ex_price : Z; ex_executed_qty : Z;
  ex_remaining_qty : Z; ex_timestamp : Z; ex_exec_type : ExecutionType }.

Record PriceLevel := MkPriceLevel { pl_price : Z; pl_aggregated_qty : Z; pl_order_count : Z }.

(** ** Validators *)
Definition is_valid_price (p : Z) : bool := p >? 0.
Definition is_valid_quantity (q : Z) : bool := q >? 0.
Definition is_valid_side (s : Side) : bool := bool_decide (s = Buy) || bool_decide (s = Sell).
Definition is_valid_order_type (t : OrderType) : bool :=
  bool_decide (t = Limit) || bool_decide (t = Market) || bool_decide (t = Stop).
Definition is_valid_time_in_force (t : TimeInForce) : bool :=
  bool_decide (t = GTC) || bool_decide (t = IOC) || bool_decide (t = FOK).

(** ** Lemmas *)
Lemma Side_of_code_named c : is_valid_side (Side_of_code c) = (c =? 1) || (c =? 2).
Proof. unfold Side_of_code. by destruct (c =? 1), (c =? 2). Qed.

Lemma TimeInForce_code_of_code c : TimeInForce_code (TimeInForce_of_code c) = c.
Proof.
  unfold TimeInForce_of_code.
  destruct (Z.eqb_spec c 1), (Z.eqb_spec c 2), (Z.eqb_spec c 3); by subst.
Qed.
Lemma Side_code_of_code c : Side_code (Side_of_code c) = c.
Proof. unfold Side_of_code. destruct (Z.eqb_spec c 1), (Z.eqb_spec c 2); by subst. Qed.
Lemma OrderType_code_of_code c : OrderType_code (OrderType_of_code c) = c.
Proof.
  unfold OrderType_of_code.
  destruct (Z.eqb_spec c 1), (Z.eqb_spec c 2), (Z.eqb_spec c 3); by subst.
Qed.
Lemma OrderKey_eqb_spec a b : OrderKey_eqb a b = true <-> a = b.
Proof.
  destruct a as [s o], b as [s' o']; unfold OrderKey_eqb, StrongId.eqb; simpl.
  rewrite andb_true_iff, !Z.eqb_eq. naive_solver.
Qed.

(** The order of the keys is a strict total order, lexicographic. *)
Lemma OrderKey_ltb_spec a b :
  OrderKey_ltb a b = true <->
  key_symbol_id a < key_symbol_id b \/ key_symbol_id a = key_symbol_id b /\ key_order_id a < key_order_id b.
Proof.
  unfold OrderKey_ltb, StrongId.neb, StrongId.ltb.
  destruct (Z.eqb_spec (key_symbol_id a) (key_symbol_id b)); cbn; rewrite Z.ltb_lt; lia.
Qed.
#[export] Instance OrderKey_strict : StrictOrder (fun a b => OrderKey_ltb a b = true).
Proof. split; [intros a H%OrderKey_ltb_spec|intros a b c; rewrite !OrderKey_ltb_spec]; lia. Qed.
Lemma OrderKey_total a b : OrderKey_ltb a b = true \/ a = b \/ OrderKey_ltb b a = true.
Proof.
  rewrite !OrderKey_ltb_spec. destruct a as [s o], b as [s' o']; cbn.
  destruct (Z.lt_total s s') as [?|[->|?]]; [lia| |lia]. destruct (Z.lt_total o o') as [?|[->|?]]; auto.
Qed.
