(* ===== verification/ObjectPool.v ===== *)
(** * [ObjectPool<T, Capacity>] ([src/common/include/common/object_pool.hpp])

    A preallocated array of slots and the vector of the indices of the free
    ones.  A [T*] into the pool is the index of its slot; [storage_] maps the
    slots that hold a live object to it.  [free_list_] lists the vector from its
    back, which is the end the code pushes to and pops from. *)
From S2P Require Import Prelude.

Record ObjectPool (T : Type) := MkPool { storage_ : gmap Z T; free_list_ : list Z }.
Arguments MkPool {T} _ _.
Arguments storage_ {T} _.
Arguments free_list_ {T} _.

Section operations.
Context {T : Type} (Capacity : Z).

(** The constructor's loop pushes [0, 1, ..., Capacity - 1]. *)
Definition push_indices (n : nat) : Z * list Z :=
  Nat.iter n (fun st => (st.1 + 1, st.1 :: st.2)) (0, []).
Definition ObjectPool_init : ObjectPool T :=
  MkPool ∅ (push_indices (Z.to_nat Capacity)).2.

Definition allocate (init : T) (p : ObjectPool T) : outcome (Z * ObjectPool T) :=
  match free_list_ p with
  | [] => Throw
  | index :: rest => Ret (index, MkPool (<[index := init]> (storage_ p)) rest)
  end.

Definition deallocate (q : ptr) (p : ObjectPool T) : ObjectPool T :=
  match q with
  | None => p
  | Some index =>
      if (index <? 0) || (index >=? Capacity) then p
      else MkPool (delete index (storage_ p)) (index :: free_list_ p)
  end.

Definition available (p : ObjectPool T) : Z := Z.of_nat (length (free_list_ p)).

(** ** Well-formedness: every slot is either free or live, never both, never twice free *)
Record pool_wf (p : ObjectPool T) : Prop := {
  pool_nodup : NoDup (free_list_ p);
  pool_cover : forall i, 0 <= i < Capacity <-> i ∈ free_list_ p \/ is_Some (storage_ p !! i);
  pool_disj : forall i, i ∈ free_list_ p -> storage_ p !! i = None }.

Lemma push_indices_spec n :
  (push_indices n).1 = Z.of_nat n /\ NoDup (push_indices n).2 /\
  forall i, i ∈ (push_indices n).2 <-> 0 <= i < Z.of_nat n.
Proof.
  induction n as [|n (E & ND & IN)]; [split_and!; [done|constructor|]; simpl; set_solver by lia|].
  simpl. rewrite E. split_and!; [lia| |].
  - constructor; [rewrite IN; lia | done].
  - intros i. rewrite elem_of_cons, IN. lia.
Qed.

Lemma pool_init_wf : 0 <= Capacity -> pool_wf ObjectPool_init.
Proof.
  intros H. destruct (push_indices_spec (Z.to_nat Capacity)) as (_ & ND & IN).
  split; simpl; [done| |].
  - intros i. rewrite IN, lookup_empty, Z2Nat.id by done. split; [by left|].
    intros [?|[? [=]]]; lia.
  - done.
Qed.

Lemma allocate_Ret (p : ObjectPool T) v i p' :
  allocate v p = Ret (i, p') <->
  exists rest, free_list_ p = i :: rest /\ p' = MkPool (<[i := v]> (storage_ p)) rest.
Proof. unfold allocate. destruct (free_list_ p); naive_solver. Qed.

Lemma allocate_wf p v i p' :
  pool_wf p -> allocate v p = Ret (i, p') ->
  pool_wf p' /\ storage_ p !! i = None /\ 0 <= i < Capacity /\
  storage_ p' = <[i := v]> (storage_ p).
Proof.
  intros [ND CV DJ] (rest & E & ->)%allocate_Ret. simpl. rewrite E in *.
  apply NoDup_cons in ND as [NI ND].
  split_and!; try (apply CV; left; set_solver); [|apply DJ; set_solver|done].
  split; simpl; [done| |].
  - intros j. rewrite CV, elem_of_cons.
    destruct (decide (i = j)) as [->|N].
    + rewrite lookup_insert_eq. naive_solver.
    + rewrite lookup_insert_ne by done. naive_solver.
  - intros j Hj. rewrite lookup_insert_ne by (intros ->; done). apply DJ. set_solver.
Qed.

Lemma deallocate_live_eq p i v :
  pool_wf p -> storage_ p !! i = Some v ->
  deallocate (Some i) p = MkPool (delete i (storage_ p)) (i :: free_list_ p).
Proof.
  intros [_ CV _] E. unfold deallocate.
  assert (0 <= i < Capacity) as B by (apply CV; right; eauto).
  by destruct (Z.ltb_spec i 0); [lia|]; destruct (Z.geb_spec i Capacity); [lia|].
Qed.

Lemma deallocate_wf p i v :
  pool_wf p -> storage_ p !! i = Some v -> pool_wf (deallocate (Some i) p).
Proof.
  intros W E. rewrite (deallocate_live_eq p i v) by done. destruct W as [ND CV DJ].
  split; simpl.
  - constructor; [|done]. intros Hi%DJ. congruence.
  - intros j. rewrite CV, elem_of_cons. destruct (decide (i = j)) as [->|N].
    + rewrite E. naive_solver.
    + rewrite lookup_delete_ne by done. naive_solver.
  - intros j [->|Hj]%elem_of_cons; [apply lookup_delete_eq|].
    rewrite lookup_delete_ne; [by apply DJ|]. intros ->. apply DJ in Hj. congruence.
Qed.

(** A store update at a live slot leaves the pool well-formed. *)
Lemma pool_wf_storage p s :
  pool_wf p -> dom s = dom (storage_ p) -> pool_wf (MkPool s (free_list_ p)).
Proof.
  intros [ND CV DJ] D.
  assert (forall i, is_Some (s !! i) <-> is_Some (storage_ p !! i)) as E
    by (intros i; rewrite <-!elem_of_dom; by rewrite D).
  split; simpl; [done| |].
  - intros i. by rewrite CV, E.
  - intros i Hi%DJ. apply eq_None_not_Some. rewrite E, Hi. by intros [? ?].
Qed.

End operations.
#[export] Hint Resolve allocate_wf deallocate_wf : pool.
#[global] Arguments deallocate : simpl never.
#[global] Arguments allocate : simpl never.

(** ** Occupancy: the pool is exhausted exactly when [Capacity] objects are live *)
Section occupancy.
Context {T : Type} (Capacity : Z).
Lemma pool_occupancy (p : ObjectPool T) (ps : list Z) :
  0 <= Capacity -> pool_wf Capacity p -> NoDup ps -> (forall a, is_Some (storage_ p !! a) <-> a ∈ ps) ->
  Z.of_nat (length (free_list_ p)) + Z.of_nat (length ps) = Capacity.
Proof.
  intros HC [ND CV DJ] NP L.
  assert (NoDup (free_list_ p ++ ps)) as NA.
  { apply NoDup_app. split_and!; [done| |done]. intros a Ha%DJ Hp%L. rewrite Ha in Hp. by destruct Hp. }
  assert (free_list_ p ++ ps ≡ₚ seqZ 0 Capacity) as P.
  { apply NoDup_Permutation; [done|apply NoDup_seqZ|]. intros a.
    rewrite elem_of_app, elem_of_seqZ, <-L, <-CV, Z.add_0_l. done. }
  apply Permutation_length in P. rewrite length_app, length_seqZ in P. lia.
Qed.
Lemma pool_room (p : ObjectPool T) (ps : list Z) :
  pool_wf Capacity p -> NoDup ps -> (forall a, is_Some (storage_ p !! a) <-> a ∈ ps) ->
  Z.of_nat (length ps) < Capacity -> exists a rest, free_list_ p = a :: rest.
Proof.
  intros W NP L B. pose proof (pool_occupancy p ps ltac:(lia) W NP L) as O.
  destruct (free_list_ p) as [|a rest]; [simpl in O; lia|eauto].
Qed.
End occupancy.
