(* ===== verification/DList.v ===== *)
(** * Doubly-linked structures in a store

    [IntrusiveOrderList] links [LiveOrder]s, the bid and ask books link
    [PriceLevelNode]s, both through [next]/[prev] pointers stored in the nodes.
    [Linked] is what the theory needs from a node type; [dlseg h pv ps nx] says
    that in the store [h] the nodes at addresses [ps] are linked in this order,
    the first one's [prev] being [pv] and the last one's [next] being [nx]. *)
From S2P Require Import Prelude.

Class Linked (T : Type) := {
  get_next : T -> ptr;
  get_prev : T -> ptr;
  set_next : ptr -> T -> T;
  set_prev : ptr -> T -> T }.

Class LinkedLaws (T : Type) `{Linked T} := {
  next_set_next p (t : T) : get_next (set_next p t) = p;
  next_set_prev p (t : T) : get_next (set_prev p t) = get_next t;
  prev_set_prev p (t : T) : get_prev (set_prev p t) = p;
  prev_set_next p (t : T) : get_prev (set_next p t) = get_prev t }.

Section dlseg.
Context {T : Type} `{LinkedLaws T}.
Implicit Types h : gmap Z T.

Fixpoint dlseg h (pv : ptr) (ps : list Z) (nx : ptr) : Prop :=
  match ps with
  | [] => True
  | p :: ps' => (exists n, h !! p = Some n /\ get_prev n = pv /\ get_next n = hd_or ps' nx) /\
               dlseg h (Some p) ps' nx
  end.

(** Two nodes with the same links; two stores with the same links at an address. *)
Definition same_links (a b : T) : Prop := get_next a = get_next b /\ get_prev a = get_prev b.

Lemma dlseg_app h pv l1 l2 nx :
  dlseg h pv (l1 ++ l2) nx <-> dlseg h pv l1 (hd_or l2 nx) /\ dlseg h (last_or l1 pv) l2 nx.
Proof.
  revert pv. induction l1 as [|p l1 IH]; intros pv; simpl; [naive_solver|].
  rewrite IH, hd_or_app, last_or_cons. naive_solver.
Qed.

Lemma dlseg_lookup h pv ps nx p : dlseg h pv ps nx -> p ∈ ps -> is_Some (h !! p).
Proof.
  revert pv. induction ps as [|q ps IH]; simpl; intros pv HD HI; [set_solver|].
  destruct HD as [(n & E & _) D]. apply elem_of_cons in HI as [->|HI]; eauto.
Qed.

Lemma dlseg_frame h h' pv ps nx :
  (forall p n, p ∈ ps -> h !! p = Some n -> exists n', h' !! p = Some n' /\ same_links n n') ->
  dlseg h pv ps nx -> dlseg h' pv ps nx.
Proof.
  revert pv. induction ps as [|p ps IH]; intros pv F; simpl; [done|].
  intros [(n & E & P & N) D]. split.
  - destruct (F p n) as (n' & E' & S1 & S2); [set_solver|done|].
    exists n'. rewrite <-S1, <-S2. done.
  - apply IH; [|done]. intros q m Hq. apply F. set_solver.
Qed.

Lemma dlseg_frame_eq h h' pv ps nx :
  (forall p, p ∈ ps -> h' !! p = h !! p) -> dlseg h pv ps nx -> dlseg h' pv ps nx.
Proof.
  intros F. apply dlseg_frame. intros p n Hp E. exists n. rewrite F by done. done.
Qed.

Lemma dlseg_insert_fresh h pv ps nx p n :
  p ∉ ps -> dlseg h pv ps nx -> dlseg (<[p := n]> h) pv ps nx.
Proof.
  intros N. apply dlseg_frame_eq. intros q Hq. apply lookup_insert_ne. set_solver.
Qed.

Lemma dlseg_delete h pv ps nx p :
  p ∉ ps -> dlseg h pv ps nx -> dlseg (delete p h) pv ps nx.
Proof.
  intros N. apply dlseg_frame_eq. intros q Hq. apply lookup_delete_ne. set_solver.
Qed.

Lemma dlseg_alter h pv ps nx p (f : T -> T) n :
  h !! p = Some n -> same_links n (f n) -> dlseg h pv ps nx ->
  dlseg (<[p := f n]> h) pv ps nx.
Proof.
  intros E S. apply dlseg_frame. intros q m Hq Eq.
  destruct (decide (p = q)) as [->|N].
  - rewrite lookup_insert_eq. simplify_eq. eauto.
  - rewrite lookup_insert_ne by done. exists m. done.
Qed.

(** Redirecting the outgoing [next] of the last node of a segment. *)
Lemma dlseg_set_next h pv l p nx n :
  NoDup (l ++ [p]) -> h !! p = Some n -> dlseg h pv (l ++ [p]) nx ->
  forall nx', dlseg (<[p := set_next nx' n]> h) pv (l ++ [p]) nx'.
Proof.
  intros ND E (D1 & (n0 & E0 & P & N) & _)%dlseg_app nx'. apply dlseg_app.
  apply NoDup_app in ND as (_ & Hni & _). split.
  - apply dlseg_insert_fresh; [set_solver | done].
  - simpl. split; [|done]. eexists. rewrite lookup_insert_eq. split; [done|].
    rewrite prev_set_next, next_set_next. simplify_eq. done.
Qed.

(** Redirecting the outgoing [prev] of the first node of a segment. *)
Lemma dlseg_set_prev h pv p l nx n :
  NoDup (p :: l) -> h !! p = Some n -> dlseg h pv (p :: l) nx ->
  forall pv', dlseg (<[p := set_prev pv' n]> h) pv' (p :: l) nx.
Proof.
  intros [NI ND]%NoDup_cons E [(n0 & E0 & P & N) D] pv'. simpl. split.
  - eexists. rewrite lookup_insert_eq. split; [done|].
    rewrite prev_set_prev, next_set_prev. simplify_eq. done.
  - by apply dlseg_insert_fresh.
Qed.

(** A node of a segment: its links point at its neighbours in the list. *)
Lemma dlseg_node h pv l1 p l2 nx :
  dlseg h pv (l1 ++ p :: l2) nx ->
  exists n, h !! p = Some n /\ get_prev n = last_or l1 pv /\ get_next n = hd_or l2 nx.
Proof. intros (_ & Hn & _)%dlseg_app. done. Qed.

(** ** Splicing

    [put_next h q x] and [put_prev h q x] are the effect of the guarded stores
    [if (q) q->next = x] and [if (q) q->prev = x] at a live node. *)
Definition put_next h (q x : ptr) : gmap Z T :=
  match q with Some a => alter (set_next x) a h | None => h end.
Definition put_prev h (q x : ptr) : gmap Z T :=
  match q with Some a => alter (set_prev x) a h | None => h end.

Lemma alter_insert h a f n : h !! a = Some n -> alter f a h = <[a := f n]> h.
Proof.
  intros E. apply map_eq. intros i. destruct (decide (a = i)) as [->|N].
  - rewrite lookup_alter_eq, lookup_insert_eq, E. done.
  - rewrite lookup_alter_ne, lookup_insert_ne; done.
Qed.

Lemma upd_alter h a f n : h !! a = Some n -> upd h (Some a) f = Ret (alter f a h).
Proof. intros E. rewrite (alter_insert _ _ _ n) by done. by apply upd_Some. Qed.

Lemma put_next_ne h q x p : q <> Some p -> put_next h q x !! p = h !! p.
Proof. destruct q; simpl; [|done]. intros. apply lookup_alter_ne. naive_solver. Qed.
Lemma put_prev_ne h q x p : q <> Some p -> put_prev h q x !! p = h !! p.
Proof. destruct q; simpl; [|done]. intros. apply lookup_alter_ne. naive_solver. Qed.
Lemma put_next_eq h p x n : h !! p = Some n -> put_next h (Some p) x !! p = Some (set_next x n).
Proof. intros E. simpl. by rewrite lookup_alter_eq, E. Qed.
Lemma put_prev_eq h p x n : h !! p = Some n -> put_prev h (Some p) x !! p = Some (set_prev x n).
Proof. intros E. simpl. by rewrite lookup_alter_eq, E. Qed.
Lemma dom_put_next h q x : dom (put_next h q x) = dom h.
Proof. destruct q; [apply dom_alter_L | done]. Qed.
Lemma dom_put_prev h q x : dom (put_prev h q x) = dom h.
Proof. destruct q; [apply dom_alter_L | done]. Qed.

Lemma dlseg_put_next h pv l q nx nx' :
  q = last l -> NoDup l -> dlseg h pv l nx -> dlseg (put_next h q nx') pv l nx'.
Proof.
  intros -> ND D. destruct l as [|a l _] using rev_ind; [done|].
  rewrite last_snoc. destruct (dlseg_lookup _ _ _ _ a D) as [n E]; [set_solver|].
  simpl. rewrite (alter_insert _ _ _ n) by done. by eapply dlseg_set_next.
Qed.

Lemma dlseg_put_prev h pv l q nx pv' :
  q = head l -> NoDup l -> dlseg h pv l nx -> dlseg (put_prev h q pv') pv' l nx.
Proof.
  intros -> ND D. destruct l as [|a l]; [done|].
  destruct (dlseg_lookup _ _ _ _ a D) as [n E]; [set_solver|].
  simpl head. simpl put_prev. rewrite (alter_insert _ _ _ n) by done. by eapply dlseg_set_prev.
Qed.

Lemma put_next_frame h pv l q x nx :
  (forall a, q = Some a -> a ∉ l) -> dlseg h pv l nx -> dlseg (put_next h q x) pv l nx.
Proof.
  intros F. apply dlseg_frame_eq. intros p Hp. apply put_next_ne. intros ->. by eapply F.
Qed.
Lemma put_prev_frame h pv l q x nx :
  (forall a, q = Some a -> a ∉ l) -> dlseg h pv l nx -> dlseg (put_prev h q x) pv l nx.
Proof.
  intros F. apply dlseg_frame_eq. intros p Hp. apply put_prev_ne. intros ->. by eapply F.
Qed.

Lemma last_notin (l k : list Z) a : NoDup (l ++ k) -> last l = Some a -> a ∉ k.
Proof.
  intros (_ & F & _)%NoDup_app E. apply F. apply last_Some_elem_of in E. done.
Qed.
Lemma head_notin (l k : list Z) a : NoDup (l ++ k) -> head k = Some a -> a ∉ l.
Proof.
  intros (_ & F & _)%NoDup_app E Hl. destruct k; simplify_eq/=. eapply F; [done|set_solver].
Qed.

(** Bridging two segments: what both [remove] and the insertions come down to. *)
Lemma dlseg_bridge h l1 l2 pv nx x y :
  NoDup (l1 ++ l2) -> dlseg h pv l1 x -> dlseg h y l2 nx ->
  dlseg (put_prev (put_next h (last l1) (hd_or l2 nx)) (head l2) (last_or l1 pv)) pv (l1 ++ l2) nx.
Proof.
  intros ND D1 D2. pose proof ND as (ND1 & _ & ND2)%NoDup_app. apply dlseg_app. split.
  - apply put_prev_frame; [intros a; by apply head_notin|].
    eapply dlseg_put_next; eauto.
  - eapply dlseg_put_prev; [done..|].
    apply put_next_frame; [intros a; by apply last_notin|done].
Qed.

Lemma dlseg_unlink h l1 p l2 :
  NoDup (l1 ++ p :: l2) -> dlseg h None (l1 ++ p :: l2) None ->
  dlseg (put_prev (put_next h (last l1) (head l2)) (head l2) (last l1)) None (l1 ++ l2) None.
Proof.
  intros ND (D1 & _ & D2)%dlseg_app.
  pose proof (dlseg_bridge h l1 l2 None None (Some p) (Some p)) as B.
  rewrite hd_or_None, last_or_None in B. apply B; [|done..].
  apply NoDup_app in ND as (? & F & [? ?]%NoDup_cons). apply NoDup_app. set_solver.
Qed.

Lemma dlseg_link h l1 p l2 n :
  NoDup (l1 ++ p :: l2) -> h !! p = Some n -> get_prev n = last l1 -> get_next n = head l2 ->
  dlseg h None (l1 ++ l2) None ->
  dlseg (put_prev (put_next h (last l1) (Some p)) (head l2) (Some p)) None (l1 ++ p :: l2) None.
Proof.
  intros ND E Ep En (D1 & D2)%dlseg_app.
  pose proof ND as (ND1 & F & [NI2 ND2]%NoDup_cons)%NoDup_app.
  assert (p ∉ l1) as NI1 by set_solver.
  apply dlseg_app. split.
  - apply put_prev_frame.
    { intros a Ha. destruct l2; simplify_eq/=. set_solver. }
    eapply dlseg_put_next; eauto.
  - simpl. split.
    + exists n. rewrite put_prev_ne, put_next_ne.
      * by rewrite hd_or_None, last_or_None.
      * intros Ha%last_Some_elem_of. done.
      * intros Ha. destruct l2; simplify_eq/=. set_solver.
    + eapply dlseg_put_prev; [done..|].
      apply put_next_frame; [|done]. intros a Ha%last_Some_elem_of. set_solver.
Qed.

(** The guarded stores of the code, at pointers that are null or live. *)
Lemma guarded_next h q x :
  (forall a, q = Some a -> is_Some (h !! a)) ->
  match q with Some _ => upd h q (set_next x) | None => Ret h end = Ret (put_next h q x).
Proof. intros L. destruct q as [a|]; [|done]. destruct (L a eq_refl) as [n E]. by eapply upd_alter. Qed.
Lemma guarded_prev h q x :
  (forall a, q = Some a -> is_Some (h !! a)) ->
  match q with Some _ => upd h q (set_prev x) | None => Ret h end = Ret (put_prev h q x).
Proof. intros L. destruct q as [a|]; [|done]. destruct (L a eq_refl) as [n E]. by eapply upd_alter. Qed.

Lemma put_next_live h q x a : is_Some (put_next h q x !! a) <-> is_Some (h !! a).
Proof. by rewrite <-!elem_of_dom, dom_put_next. Qed.
Lemma put_prev_live h q x a : is_Some (put_prev h q x !! a) <-> is_Some (h !! a).
Proof. by rewrite <-!elem_of_dom, dom_put_prev. Qed.

Lemma put_comm h q x r y :
  (q = r -> q = None) -> put_prev (put_next h q x) r y = put_next (put_prev h r y) q x.
Proof.
  intros N. destruct q as [a|], r as [b|]; simpl; try done.
  assert (a <> b) by (intros ->; by discriminate (N eq_refl)).
  apply map_eq. intros i. rewrite !lookup_alter. by repeat case_decide; subst.
Qed.

(** A view of the nodes that ignores their links is not changed by relinking. *)
Section view.
Context {V : Type} (view : T -> V).
Hypothesis view_next : forall p t, view (set_next p t) = view t.
Hypothesis view_prev : forall p t, view (set_prev p t) = view t.

Lemma view_alter_same (f : T -> T) p h :
  (forall t, view (f t) = view t) -> view <$> alter f p h = view <$> h.
Proof.
  intros F. apply map_eq. intros i. rewrite !lookup_fmap, lookup_alter.
  case_decide; [subst|done]. destruct (h !! i); simpl; by rewrite ?F.
Qed.
Lemma put_next_view h q x : view <$> put_next h q x = view <$> h.
Proof. destruct q; [|done]. apply view_alter_same. auto. Qed.
Lemma put_prev_view h q x : view <$> put_prev h q x = view <$> h.
Proof. destruct q; [|done]. apply view_alter_same. auto. Qed.
End view.

End dlseg.

(** An address list of live nodes without repetition fits the store. *)
Lemma nodup_live_length {T} (h : gmap Z T) (ps : list Z) :
  NoDup ps -> (forall p, p ∈ ps -> is_Some (h !! p)) -> (length ps <= size h)%nat.
Proof.
  intros ND L. rewrite <-(size_list_to_set (C := gset Z) ps), <-size_dom by done.
  apply subseteq_size. intros p Hp%elem_of_list_to_set. apply elem_of_dom. auto.
Qed.
