(* ===== verification/BookSpec.v ===== *)
(** * Abstract specification of the limit order book

    What the pointer structures of [src/matching/order_book] promise, with no
    pointers: each side is a list of price levels, best first, a level is its
    price and its FIFO queue of resting orders.  The refinement theorems of
    [OrderBook.v] and [MatchingEngine.v] relate the code to this file. *)
From S2P Require Import Prelude Domain.

Record Resting := MkResting { r_key : OrderKey; r_price : Z; r_qty : Z; r_seq : Z }.
Record Level := MkLevel { lv_price : Z; lv_orders : list Resting }.
Record Book := MkBook { bk_bids : list Level; bk_asks : list Level }.

Definition r_id (r : Resting) : Z := key_order_id (r_key r).
Definition with_qty (q : Z) (r : Resting) : Resting := MkResting (r_key r) (r_price r) q (r_seq r).
Definition with_qty_seq (q s : Z) (r : Resting) : Resting := MkResting (r_key r) (r_price r) q s.
Definition with_orders (os : list Resting) (L : Level) : Level := MkLevel (lv_price L) os.
Definition resting_of (o : Order) (seq : Z) : Resting :=
  MkResting (MkOrderKey (symbol_id o) (order_id o)) (price o) (qty o) seq.

(** Bids are sorted by decreasing price, asks by increasing price. *)
Definition bid_before (p q : Z) : bool := p >? q.
Definition ask_before (p q : Z) : bool := p <? q.

Definition side_orders (Ls : list Level) : list Resting := concat (map lv_orders Ls).
Definition book_orders (B : Book) : list Resting := side_orders (bk_bids B ++ bk_asks B).
Definition level_qty (L : Level) : Z := sumZ (map r_qty (lv_orders L)).
Definition side_qty (Ls : list Level) : Z := sumZ (map r_qty (side_orders Ls)).
Definition best_price (Ls : list Level) : Z := match Ls with [] => 0 | L :: _ => lv_price L end.

Section side.
Variable before : Z -> Z -> bool.

(** Join the level of the order's price at its tail, or open a level at the
    position that keeps the side sorted. *)
Fixpoint place (r : Resting) (Ls : list Level) : list Level :=
  match Ls with
  | [] => [MkLevel (r_price r) [r]]
  | L :: Ls' =>
      if lv_price L =? r_price r then with_orders (lv_orders L ++ [r]) L :: Ls'
      else if before (r_price r) (lv_price L) then MkLevel (r_price r) [r] :: Ls
      else L :: place r Ls'
  end.
End side.

(** Remove an order; a level left without orders disappears. *)
Definition keep_level (os : list Resting) (L : Level) : list Level :=
  match os with [] => [] | _ => [with_orders os L] end.
Definition drop_id (id : Z) (Ls : list Level) : list Level :=
  concat (map (fun L => keep_level (filter (fun r => r_id r <> id) (lv_orders L)) L) Ls).

(** A decrease keeps the place in the queue, an increase goes to the tail. *)
Fixpoint resize (id q s : Z) (os : list Resting) : list Resting :=
  match os with
  | [] => []
  | r :: os' =>
      if r_id r =? id then
        if q <? r_qty r then with_qty q r :: os'
        else if q >? r_qty r then os' ++ [with_qty_seq q s r]
        else os
      else r :: resize id q s os'
  end.
Definition resize_id (id q s : Z) (Ls : list Level) : list Level :=
  map (fun L => with_orders (resize id q s (lv_orders L)) L) Ls.

Definition spec_insert (o : Order) (seq : Z) (B : Book) : Book :=
  if decide (side o = Buy)
  then MkBook (place bid_before (resting_of o seq) (bk_bids B)) (bk_asks B)
  else MkBook (bk_bids B) (place ask_before (resting_of o seq) (bk_asks B)).
Definition spec_cancel (id : Z) (B : Book) : Book :=
  MkBook (drop_id id (bk_bids B)) (drop_id id (bk_asks B)).
Definition spec_modify (id q s : Z) (B : Book) : Book :=
  MkBook (resize_id id q s (bk_bids B)) (resize_id id q s (bk_asks B)).
Definition spec_find (id : Z) (B : Book) : option Resting :=
  snd <$> list_find (fun r => r_id r = id) (book_orders B).

(** ** Well-formed books *)
Definition sorted_by (before : Z -> Z -> bool) (Ls : list Level) : Prop :=
  StronglySorted (fun p q => before p q = true) (map lv_price Ls).

Definition level_ok (L : Level) : Prop :=
  lv_orders L <> [] /\
  Forall (fun r => r_price r = lv_price L /\ 0 <= r_qty r < 2 ^ 64) (lv_orders L).

Record book_wf (B : Book) : Prop := {
  wf_bids : sorted_by bid_before (bk_bids B);
  wf_asks : sorted_by ask_before (bk_asks B);
  wf_levels : Forall level_ok (bk_bids B ++ bk_asks B);
  wf_sides : forall p, p ∈ map lv_price (bk_bids B) -> p ∈ map lv_price (bk_asks B) -> False;
  wf_ids : NoDup (map r_id (book_orders B)) }.

(** The best bid is below the best ask: nothing is left to match. *)
Definition uncrossed (B : Book) : Prop :=
  forall p q, p ∈ map lv_price (bk_bids B) -> q ∈ map lv_price (bk_asks B) -> p < q.

(** ** The two level orders *)
Class LevelOrder (before : Z -> Z -> bool) : Prop := {
  before_irrefl p : before p p = false;
  before_trans p q r : before p q = true -> before q r = true -> before p r = true;
  before_total p q : p <> q -> before p q = true \/ before q p = true }.

#[export] Instance bid_order : LevelOrder bid_before.
Proof.
  unfold bid_before.
  split; intros; rewrite ?Z.gtb_lt in *; [rewrite Z.gtb_ltb; apply Z.ltb_irrefl|lia|lia].
Qed.
#[export] Instance ask_order : LevelOrder ask_before.
Proof. unfold ask_before. split; intros; rewrite ?Z.ltb_lt in *; [apply Z.ltb_irrefl|lia|lia]. Qed.

(** ** Elementary facts *)
Lemma side_orders_app L1 L2 : side_orders (L1 ++ L2) = side_orders L1 ++ side_orders L2.
Proof. unfold side_orders. by rewrite map_app, concat_app. Qed.
Lemma side_orders_cons L Ls : side_orders (L :: Ls) = lv_orders L ++ side_orders Ls.
Proof. reflexivity. Qed.
Lemma book_orders_eq B : book_orders B = side_orders (bk_bids B) ++ side_orders (bk_asks B).
Proof. apply side_orders_app. Qed.
#[export] Hint Rewrite side_orders_app side_orders_cons book_orders_eq : book.

Lemma sorted_by_app before L1 L2 :
  sorted_by before (L1 ++ L2) <->
  sorted_by before L1 /\ sorted_by before L2 /\
  forall K L, K ∈ L1 -> L ∈ L2 -> before (lv_price K) (lv_price L) = true.
Proof.
  unfold sorted_by. induction L1 as [|K L1 IH]; simpl.
  - split; [|naive_solver]. intros H. split_and!; [constructor|done|set_solver].
  - split.
    + intros [S F]%StronglySorted_inv. apply IH in S as (S1 & S2 & C).
      rewrite map_app, Forall_app in F. destruct F as [F1 F2]. split_and!.
      * by constructor.
      * done.
      * intros K' L [->|HK]%elem_of_cons HL; [|by apply C].
        rewrite Forall_forall in F2. apply F2. by apply list_elem_of_fmap_2.
    + intros ([S1 F1]%StronglySorted_inv & S2 & C). constructor.
      * apply IH. split_and!; [done..|]. intros. apply C; set_solver.
      * rewrite map_app, Forall_app. split; [done|].
        apply Forall_forall. intros p (L & -> & HL)%list_elem_of_fmap. apply C; set_solver.
Qed.

Section order.
Context (before : Z -> Z -> bool) `{!LevelOrder before}.

Lemma before_asym p q : before p q = true -> before q p = false.
Proof.
  intros H. destruct (before q p) eqn:E; [|done].
  pose proof (before_trans _ _ _ H E). pose proof (before_irrefl (before := before) p). congruence.
Qed.

Lemma sorted_prices_nodup Ls : sorted_by before Ls -> NoDup (map lv_price Ls).
Proof.
  unfold sorted_by. induction 1 as [|p ps S IH F]; constructor; [|done].
  intros Hp. rewrite Forall_forall in F. apply F in Hp. rewrite before_irrefl in Hp. done.
Qed.

Lemma place_join r L1 L L2 :
  sorted_by before (L1 ++ L :: L2) -> lv_price L = r_price r ->
  place before r (L1 ++ L :: L2) = L1 ++ with_orders (lv_orders L ++ [r]) L :: L2.
Proof.
  intros S E. induction L1 as [|K L1 IH]; simpl.
  - by rewrite E, Z.eqb_refl.
  - apply (sorted_by_app _ [K]) in S as (_ & S & C).
    assert (before (lv_price K) (r_price r) = true) as B by (rewrite <-E; apply C; set_solver).
    destruct (Z.eqb_spec (lv_price K) (r_price r)) as [e|_].
    { rewrite e, before_irrefl in B. done. }
    rewrite (before_asym _ _ B). by rewrite IH.
Qed.

(** The split depends on the price alone. *)
Lemma place_new p Ls :
  sorted_by before Ls -> p ∉ map lv_price Ls ->
  exists L1 L2, Ls = L1 ++ L2 /\
    (forall r, r_price r = p -> place before r Ls = L1 ++ MkLevel p [r] :: L2) /\
    (forall L, L ∈ L1 -> before (lv_price L) p = true) /\
    (forall L, L ∈ L2 -> before p (lv_price L) = true).
Proof.
  intros S N. induction Ls as [|L Ls IH]; simpl.
  - exists [], []. split_and!; [done| |set_solver..]. by intros r ->.
  - apply (sorted_by_app _ [L]) in S as (_ & S & C). simpl in N.
    assert (lv_price L =? p = false) as Ne by (apply Z.eqb_neq; set_solver).
    destruct (before p (lv_price L)) eqn:B.
    + exists [], (L :: Ls). split_and!; [done| |set_solver|].
      * intros r ->. by rewrite Ne, B.
      * intros K [->|HK]%elem_of_cons; [done|]. eapply before_trans; [done|]. apply C; set_solver.
    + destruct IH as (L1 & L2 & -> & E & F1 & F2); [done|set_solver|].
      exists (L :: L1), L2. split_and!; [done| | |done].
      * intros r Er. rewrite Er, Ne, B, E; done.
      * intros K [->|HK]%elem_of_cons; [|by apply F1].
        apply Z.eqb_neq in Ne. destruct (before_total (lv_price L) p); congruence.
Qed.

Lemma place_sorted r Ls : sorted_by before Ls -> sorted_by before (place before r Ls).
Proof.
  intros S. destruct (decide (r_price r ∈ map lv_price Ls)) as [I|N].
  - apply list_elem_of_fmap in I as (L & E & I). apply list_elem_of_split in I as (L1 & L2 & ->).
    rewrite place_join by done. unfold sorted_by in *. by rewrite !map_app in *.
  - destruct (place_new (r_price r) Ls S N) as (L1 & L2 & -> & E & F1 & F2). rewrite E by done.
    apply sorted_by_app in S as (S1 & S2 & C). apply sorted_by_app. split_and!; [done| |].
    + apply (sorted_by_app _ [_]). split_and!; [by constructor; constructor|done|set_solver].
    + intros K L HK [->|HL]%elem_of_cons; simpl; [by apply F1|by apply C].
Qed.
End order.

Lemma place_prices before r Ls p :
  p ∈ map lv_price (place before r Ls) <-> p = r_price r \/ p ∈ map lv_price Ls.
Proof.
  induction Ls as [|L Ls IH]; simpl; [set_solver|].
  destruct (Z.eqb_spec (lv_price L) (r_price r)); simpl; [set_solver|].
  destruct (before _ _); simpl; set_solver.
Qed.

Lemma place_perm before r Ls : side_orders (place before r Ls) ≡ₚ r :: side_orders Ls.
Proof.
  induction Ls as [|L Ls IH]; simpl; [done|].
  destruct (_ =? _); [|destruct (before _ _)]; rewrite ?side_orders_cons; simpl.
  - rewrite <-app_assoc. simpl. by rewrite Permutation_middle.
  - done.
  - rewrite IH. by rewrite Permutation_middle.
Qed.

Lemma place_level_ok before r Ls :
  0 <= r_qty r < 2 ^ 64 -> Forall level_ok Ls -> Forall level_ok (place before r Ls).
Proof.
  intros Q. assert (level_ok (MkLevel (r_price r) [r])) as ON by (split; [done|by apply Forall_singleton]).
  induction 1 as [|L Ls [NE OK] F IH]; simpl; [by constructor|].
  destruct (Z.eqb_spec (lv_price L) (r_price r)) as [E|_]; [|destruct (before _ _)].
  - constructor; [|done]. split; simpl; [by destruct (lv_orders L)|].
    apply Forall_app. split; [done|]. by apply Forall_singleton.
  - constructor; [done|by constructor].
  - constructor; done.
Qed.

(** ** Removal *)
Lemma side_orders_keep os L : side_orders (keep_level os L) = os.
Proof. unfold keep_level, side_orders. destruct os; simpl; by rewrite ?app_nil_r. Qed.

Lemma drop_id_orders id Ls : side_orders (drop_id id Ls) = filter (fun r => r_id r <> id) (side_orders Ls).
Proof.
  unfold drop_id. induction Ls as [|L Ls IH]; [done|]. simpl.
  by rewrite side_orders_app, IH, side_orders_keep, side_orders_cons, filter_app.
Qed.

Lemma filter_id_all id (os : list Resting) :
  id ∉ map r_id os -> filter (fun r => r_id r <> id) os = os.
Proof.
  intros N. induction os as [|r os IH]; [done|]. simpl in N.
  rewrite filter_cons_True by set_solver. rewrite IH by set_solver. done.
Qed.

Lemma filter_id_split id o1 r o2 :
  NoDup (map r_id (o1 ++ r :: o2)) -> r_id r = id ->
  filter (fun r => r_id r <> id) (o1 ++ r :: o2) = o1 ++ o2.
Proof.
  intros ND E. rewrite map_app in ND. simpl in ND.
  apply NoDup_app in ND as (_ & F & [N _]%NoDup_cons).
  rewrite filter_app, filter_cons_False by (rewrite E; naive_solver).
  rewrite !filter_id_all; [done|subst; done|subst; set_solver].
Qed.

Lemma drop_id_app id L1 L2 : drop_id id (L1 ++ L2) = drop_id id L1 ++ drop_id id L2.
Proof. unfold drop_id. by rewrite map_app, concat_app. Qed.

Lemma with_orders_id L : with_orders (lv_orders L) L = L.
Proof. by destruct L. Qed.

Lemma drop_id_notin id Ls :
  Forall level_ok Ls -> id ∉ map r_id (side_orders Ls) -> drop_id id Ls = Ls.
Proof.
  induction 1 as [|L Ls [NE _] F IH]; [done|]. rewrite side_orders_cons, map_app. intros N.
  unfold drop_id in *. simpl. rewrite filter_id_all by set_solver. rewrite IH by set_solver.
  unfold keep_level. destruct L as [p [|r os]]; done.
Qed.

Lemma drop_id_split id L1 L L2 o1 r o2 :
  Forall level_ok (L1 ++ L :: L2) -> NoDup (map r_id (side_orders (L1 ++ L :: L2))) ->
  lv_orders L = o1 ++ r :: o2 -> r_id r = id ->
  drop_id id (L1 ++ L :: L2) = L1 ++ keep_level (o1 ++ o2) L ++ L2.
Proof.
  intros F ND E <-. apply Forall_app in F as [F1 [_ F2]%Forall_cons].
  rewrite side_orders_app, side_orders_cons, !map_app in ND.
  apply NoDup_app in ND as (_ & N1 & (ND & N2 & _)%NoDup_app).
  assert (r_id r ∈ map r_id (lv_orders L)) as I by (rewrite E, map_app; set_solver).
  rewrite drop_id_app, (drop_id_notin _ L1) by first [done | intros ?; eapply N1; [done|set_solver]].
  f_equal. change (L :: L2) with ([L] ++ L2).
  rewrite drop_id_app, (drop_id_notin _ L2) by first [done | by apply N2].
  f_equal. unfold drop_id. simpl. rewrite E in *. by rewrite filter_id_split, app_nil_r.
Qed.

Lemma drop_id_level_ok id Ls : Forall level_ok Ls -> Forall level_ok (drop_id id Ls).
Proof.
  induction 1 as [|L Ls [NE OK] F IH]; [done|]. unfold drop_id in *. simpl.
  apply Forall_app. split; [|done]. unfold keep_level.
  destruct (filter _ _) as [|r os] eqn:E; [done|]. constructor; [|done]. split; simpl; [done|].
  rewrite <-E. rewrite Forall_forall in OK |- *. intros k [_ Hk]%list_elem_of_filter. by apply OK.
Qed.

Lemma drop_id_prices id Ls p : p ∈ map lv_price (drop_id id Ls) -> p ∈ map lv_price Ls.
Proof.
  unfold drop_id. induction Ls as [|L Ls IH]; simpl; [done|].
  rewrite map_app, elem_of_app. unfold keep_level. destruct (filter _ _); simpl; set_solver.
Qed.

Lemma drop_id_sorted before id Ls : sorted_by before Ls -> sorted_by before (drop_id id Ls).
Proof.
  induction Ls as [|L Ls IH]; [done|]. intros (_ & S & C)%(sorted_by_app _ [L]).
  unfold drop_id in *. simpl. apply sorted_by_app. split_and!; [|by apply IH|].
  - unfold keep_level. destruct (filter _ _); constructor; constructor.
  - intros K M HK HM. assert (lv_price K = lv_price L) as ->.
    { unfold keep_level in HK. destruct (filter _ _); set_solver. }
    assert (lv_price M ∈ map lv_price Ls) as (M' & -> & HM')%list_elem_of_fmap.
    { apply (drop_id_prices id). by apply list_elem_of_fmap_2. }
    apply C; set_solver.
Qed.

(** ** Resizing *)
Lemma resize_notin id q s os : id ∉ map r_id os -> resize id q s os = os.
Proof.
  induction os as [|r os IH]; simpl; [done|]. intros N.
  destruct (Z.eqb_spec (r_id r) id); [set_solver|]. rewrite IH; set_solver.
Qed.
Lemma resize_ids id q s os : map r_id (resize id q s os) ≡ₚ map r_id os.
Proof.
  induction os as [|r os IH]; simpl; [done|].
  destruct (_ =? _); [|simpl; by rewrite IH].
  destruct (_ <? _); [done|]. destruct (_ >? _); [|done].
  rewrite map_app. simpl. by rewrite <-Permutation_cons_append.
Qed.
Lemma resize_nil id q s os : resize id q s os = [] -> os = [].
Proof.
  intros E. pose proof (resize_ids id q s os) as P. rewrite E in P.
  apply Permutation_nil in P. by destruct os.
Qed.
Lemma resize_split id q s o1 r o2 :
  id ∉ map r_id o1 -> r_id r = id ->
  resize id q s (o1 ++ r :: o2) =
    if q <? r_qty r then o1 ++ with_qty q r :: o2
    else if q >? r_qty r then o1 ++ o2 ++ [with_qty_seq q s r] else o1 ++ r :: o2.
Proof.
  intros N E. induction o1 as [|k o1 IH]; simpl.
  - by rewrite E, Z.eqb_refl.
  - simpl in N. destruct (Z.eqb_spec (r_id k) id) as [e|_]; [set_solver|].
    rewrite IH by set_solver. by repeat case_match.
Qed.
Lemma resize_level_ok id q s Ls :
  0 <= q < 2 ^ 64 -> Forall level_ok Ls -> Forall level_ok (resize_id id q s Ls).
Proof.
  intros Q. unfold resize_id. induction 1 as [|L Ls [NE OK] F IH]; simpl; constructor; [|done].
  split; simpl. { intros E%resize_nil. done. }
  clear NE. induction OK as [|r os [P R] OK IHo]; simpl; [done|].
  destruct (_ =? _); [|by constructor].
  destruct (_ <? _); [by constructor|]. destruct (_ >? _); [|by constructor].
  apply Forall_app. split; [done|]. by apply Forall_singleton.
Qed.
Lemma resize_prices id q s Ls : map lv_price (resize_id id q s Ls) = map lv_price Ls.
Proof. unfold resize_id. rewrite map_map. done. Qed.
Lemma resize_side_ids id q s Ls :
  map r_id (side_orders (resize_id id q s Ls)) ≡ₚ map r_id (side_orders Ls).
Proof.
  induction Ls as [|L Ls IH]; [done|]. unfold resize_id in *. simpl.
  rewrite !side_orders_cons, !map_app, IH. simpl. by rewrite resize_ids.
Qed.
Lemma resize_id_notin id q s Ls :
  id ∉ map r_id (side_orders Ls) -> resize_id id q s Ls = Ls.
Proof.
  induction Ls as [|L Ls IH]; [done|]. rewrite side_orders_cons, map_app. intros N.
  unfold resize_id in *. simpl. rewrite resize_notin by set_solver. rewrite IH by set_solver.
  by rewrite with_orders_id.
Qed.
Lemma resize_id_split id q s L1 L L2 :
  NoDup (map r_id (side_orders (L1 ++ L :: L2))) -> id ∈ map r_id (lv_orders L) ->
  resize_id id q s (L1 ++ L :: L2) = L1 ++ with_orders (resize id q s (lv_orders L)) L :: L2.
Proof.
  intros ND I. rewrite side_orders_app, side_orders_cons, !map_app in ND.
  apply NoDup_app in ND as (_ & N1 & (_ & N2 & _)%NoDup_app).
  unfold resize_id at 1. rewrite map_app. simpl. fold (resize_id id q s L1) (resize_id id q s L2).
  rewrite !resize_id_notin; [done|by apply N2|]. intros ?. eapply N1; [done|set_solver].
Qed.

(** ** The operations preserve well-formedness *)
Lemma spec_insert_orders o seq B :
  book_orders (spec_insert o seq B) ≡ₚ resting_of o seq :: book_orders B.
Proof.
  unfold spec_insert. destruct (decide _); autorewrite with book; simpl; rewrite place_perm; [done|].
  by rewrite Permutation_middle.
Qed.

Lemma spec_insert_wf o seq B :
  book_wf B -> 0 <= qty o < 2 ^ 64 -> order_id o ∉ map r_id (book_orders B) ->
  (if decide (side o = Buy) then price o ∉ map lv_price (bk_asks B)
   else price o ∉ map lv_price (bk_bids B)) ->
  book_wf (spec_insert o seq B).
Proof.
  intros [Wb Wa Wl Ws Wi] Q Ni Np. apply Forall_app in Wl as [Wlb Wla].
  assert (NoDup (map r_id (book_orders (spec_insert o seq B)))) as NI.
  { rewrite spec_insert_orders. simpl. by constructor. }
  revert Np NI. unfold spec_insert. destruct (decide (side o = Buy)); intros Np NI; split; simpl; try done.
  - apply place_sorted; [apply _|done].
  - apply Forall_app. split; [by apply place_level_ok|done].
  - intros p [->|Hp]%place_prices; [done|by apply Ws].
  - apply place_sorted; [apply _|done].
  - apply Forall_app. split; [done|by apply place_level_ok].
  - intros p Hp [->|Hq]%place_prices; [done|by eapply Ws].
Qed.

Lemma spec_cancel_wf id B : book_wf B -> book_wf (spec_cancel id B).
Proof.
  intros [Wb Wa Wl Ws Wi]. apply Forall_app in Wl as [Wlb Wla].
  split; simpl; [by apply drop_id_sorted..| | |].
  - apply Forall_app. split; by apply drop_id_level_ok.
  - intros p Hp%drop_id_prices Hq%drop_id_prices. eauto.
  - autorewrite with book in *. simpl. rewrite !drop_id_orders, <-filter_app.
    eapply sublist_NoDup; [exact Wi|]. apply fmap_sublist, sublist_filter.
Qed.

Lemma spec_modify_wf id q s B : 0 <= q < 2 ^ 64 -> book_wf B -> book_wf (spec_modify id q s B).
Proof.
  intros Q [Wb Wa Wl Ws Wi]. apply Forall_app in Wl as [Wlb Wla].
  split; simpl; unfold sorted_by; rewrite ?resize_prices; try done.
  - apply Forall_app. split; by apply resize_level_ok.
  - autorewrite with book in *. simpl. by rewrite map_app, !resize_side_ids, <-map_app.
Qed.

(** ** Sides selected by a boolean: [true] for the bids *)
Definition spec_at (s : bool) (B : Book) : list Level := if s then bk_bids B else bk_asks B.
Definition set_spec (s : bool) (Ls : list Level) (B : Book) : Book :=
  if s then MkBook Ls (bk_asks B) else MkBook (bk_bids B) Ls.
Definition before_at (s : bool) : Z -> Z -> bool := if s then bid_before else ask_before.
#[export] Instance before_at_order s : LevelOrder (before_at s).
Proof. destruct s; apply _. Qed.

Lemma spec_at_sorted s B : book_wf B -> sorted_by (before_at s) (spec_at s B).
Proof. intros W. destruct s; apply W. Qed.
Lemma spec_at_prices s B : book_wf B -> NoDup (map lv_price (spec_at s B)).
Proof. intros W. eapply sorted_prices_nodup; [apply before_at_order|]. by apply spec_at_sorted. Qed.
Lemma spec_at_levels s B : book_wf B -> Forall level_ok (spec_at s B).
Proof. intros [_ _ F _ _]. apply Forall_app in F as [? ?]. by destruct s. Qed.
Lemma spec_at_orders s B :
  book_orders B ≡ₚ side_orders (spec_at s B) ++ side_orders (spec_at (negb s) B).
Proof. rewrite book_orders_eq. destruct s; simpl; [done|]. apply Permutation_app_comm. Qed.
Lemma spec_at_ids s B : book_wf B -> NoDup (map r_id (side_orders (spec_at s B))).
Proof.
  intros W. pose proof (wf_ids B W) as N. rewrite (spec_at_orders s), map_app in N.
  by apply NoDup_app in N as (? & _).
Qed.
Lemma spec_at_disjoint s B p :
  book_wf B -> p ∈ map lv_price (spec_at s B) -> p ∉ map lv_price (spec_at (negb s) B).
Proof. intros W H1 H2. destruct s; simpl in *; by eapply (wf_sides B W p). Qed.

Definition order_side (o : Order) : bool := bool_decide (side o = Buy).

Lemma spec_insert_at o seq B :
  spec_insert o seq B = set_spec (order_side o)
    (place (before_at (order_side o)) (resting_of o seq) (spec_at (order_side o) B)) B.
Proof. unfold spec_insert, order_side. case_bool_decide; by destruct (decide _). Qed.

Lemma spec_at_set s Ls B : spec_at s (set_spec s Ls B) = Ls.
Proof. by destruct s. Qed.
Lemma spec_at_set_other s Ls B : spec_at (negb s) (set_spec s Ls B) = spec_at (negb s) B.
Proof. by destruct s. Qed.

(** The order is new and its price is not taken by the opposite side. *)
Record insert_ok (o : Order) (B : Book) : Prop := {
  ok_qty : 0 <= qty o < 2 ^ 64;
  ok_id : order_id o ∉ map r_id (book_orders B);
  ok_price : price o ∉ map lv_price (spec_at (negb (order_side o)) B) }.

Lemma insert_ok_wf o seq B : insert_ok o B -> book_wf B -> book_wf (spec_insert o seq B).
Proof.
  intros [Q I P] W. apply spec_insert_wf; [done..|]. unfold order_side in P.
  destruct (decide (side o = Buy)); [rewrite bool_decide_eq_true_2 in P by done|
    rewrite bool_decide_eq_false_2 in P by done]; done.
Qed.
