(* ===== verification/OrderList.v ===== *)
(** * [IntrusiveOrderList] ([src/matching/order_book/intrusive_list.hpp])

    The FIFO of a price level: [LiveOrder]s of the order pool linked through
    their own [next]/[prev] fields, with head and tail pointers. *)
From S2P Require Import Prelude Domain DList BookSpec.

Record IntrusiveOrderList := MkOrderList { head_ : ptr; tail_ : ptr }.

Definition lo_set_next (p : ptr) (o : LiveOrder) : LiveOrder :=
  MkLiveOrder (lo_key o) (lo_price o) (lo_remaining_qty o) (lo_priority_seq o) p (lo_prev o).
Definition lo_set_prev (p : ptr) (o : LiveOrder) : LiveOrder :=
  MkLiveOrder (lo_key o) (lo_price o) (lo_remaining_qty o) (lo_priority_seq o) (lo_next o) p.
Definition lo_set_qty (q : Z) (o : LiveOrder) : LiveOrder :=
  MkLiveOrder (lo_key o) (lo_price o) q (lo_priority_seq o) (lo_next o) (lo_prev o).
Definition lo_set_seq (s : Z) (o : LiveOrder) : LiveOrder :=
  MkLiveOrder (lo_key o) (lo_price o) (lo_remaining_qty o) s (lo_next o) (lo_prev o).

#[export] Instance LiveOrder_linked : Linked LiveOrder :=
  { get_next := lo_next; get_prev := lo_prev; set_next := lo_set_next; set_prev := lo_set_prev }.
#[export] Instance LiveOrder_linked_laws : LinkedLaws LiveOrder.
Proof. by split. Qed.

Definition list_empty (l : IntrusiveOrderList) : bool := bool_decide (head_ l = None).

Definition append (order : ptr) (l : IntrusiveOrderList) (h : gmap Z LiveOrder)
    : outcome (IntrusiveOrderList * gmap Z LiveOrder) :=
  match order with
  | None => Ret (l, h)
  | Some _ =>
      h ← upd h order (lo_set_next None);
      h ← upd h order (lo_set_prev (tail_ l));
      match tail_ l with
      | Some _ =>
          h ← upd h (tail_ l) (lo_set_next order);
          Ret (MkOrderList (head_ l) order, h)
      | None => Ret (MkOrderList order order, h)
      end
  end.

Definition remove (order : ptr) (l : IntrusiveOrderList) (h : gmap Z LiveOrder)
    : outcome (IntrusiveOrderList * gmap Z LiveOrder) :=
  match order with
  | None => Ret (l, h)
  | Some _ =>
      o ← rd h order;
      '(l, h) ← match lo_prev o with
                | Some _ => h ← upd h (lo_prev o) (lo_set_next (lo_next o)); Ret (l, h)
                | None => Ret (MkOrderList (lo_next o) (tail_ l), h)
                end;
      o ← rd h order;
      '(l, h) ← match lo_next o with
                | Some _ => h ← upd h (lo_next o) (lo_set_prev (lo_prev o)); Ret (l, h)
                | None => Ret (MkOrderList (head_ l) (lo_prev o), h)
                end;
      h ← upd h order (lo_set_next None);
      h ← upd h order (lo_set_prev None);
      Ret (l, h)
  end.

(** ** Representation *)
Definition resting_view (o : LiveOrder) : Resting :=
  MkResting (lo_key o) (lo_price o) (lo_remaining_qty o) (lo_priority_seq o).

(** [l] is the list object of the orders at the addresses [ps], in this order. *)
Definition list_rep (h : gmap Z LiveOrder) (l : IntrusiveOrderList) (ps : list Z) : Prop :=
  head_ l = head ps /\ tail_ l = last ps /\ NoDup ps /\ dlseg h None ps None.

(** Two stores that differ at most in the links of the nodes at [ps]. *)
Definition relinked (ps : list Z) (h h' : gmap Z LiveOrder) : Prop :=
  resting_view <$> h' = resting_view <$> h /\ forall p, p ∉ ps -> h' !! p = h !! p.

Lemma view_alter f p (h : gmap Z LiveOrder) :
  (forall o, resting_view (f o) = resting_view o) ->
  resting_view <$> alter f p h = resting_view <$> h.
Proof.
  intros F. apply map_eq. intros i. rewrite !lookup_fmap.
  destruct (decide (p = i)) as [->|N].
  - rewrite lookup_alter_eq. destruct (h !! i); simpl; by rewrite ?F.
  - by rewrite lookup_alter_ne.
Qed.

Lemma relinked_refl ps h : relinked ps h h.
Proof. done. Qed.
Lemma relinked_trans ps h1 h2 h3 : relinked ps h1 h2 -> relinked ps h2 h3 -> relinked ps h1 h3.
Proof. intros [V1 F1] [V2 F2]. split; [congruence|]. intros p N. by rewrite F2, F1. Qed.
Lemma relinked_alter ps h f p :
  (forall o, resting_view (f o) = resting_view o) -> p ∈ ps -> relinked ps h (alter f p h).
Proof.
  intros F P. split; [by apply view_alter|]. intros q N. apply lookup_alter_ne. set_solver.
Qed.
Lemma relinked_put_next ps h q x : (forall a, q = Some a -> a ∈ ps) -> relinked ps h (put_next h q x).
Proof. intros P. destruct q; simpl; [|done]. apply relinked_alter; [done|auto]. Qed.
Lemma relinked_put_prev ps h q x : (forall a, q = Some a -> a ∈ ps) -> relinked ps h (put_prev h q x).
Proof. intros P. destruct q; simpl; [|done]. apply relinked_alter; [done|auto]. Qed.
Lemma relinked_dom ps h h' : relinked ps h h' -> dom h' = dom h.
Proof. intros [V _]. apply (f_equal dom) in V. by rewrite !dom_fmap_L in V. Qed.
Lemma relinked_lookup ps h h' p o :
  relinked ps h h' -> h !! p = Some o ->
  exists o', h' !! p = Some o' /\ resting_view o' = resting_view o.
Proof.
  intros [V _] E. apply (f_equal (lookup p)) in V. rewrite !lookup_fmap, E in V.
  destruct (h' !! p) as [o'|]; simpl in V; [|done]. exists o'. split; [done|congruence].
Qed.
Lemma relinked_mono ps ps' h h' : ps ⊆ ps' -> relinked ps h h' -> relinked ps' h h'.
Proof. intros S [V F]. split; [done|]. intros p N. apply F. set_solver. Qed.

(** ** The operations implement the sequence operations *)
Lemma append_spec h l ps p o :
  list_rep h l ps -> h !! p = Some o -> p ∉ ps ->
  exists l' h', append (Some p) l h = Ret (l', h') /\
    list_rep h' l' (ps ++ [p]) /\ relinked (ps ++ [p]) h h'.
Proof.
  intros (Hh & Ht & ND & D) E NI. unfold append.
  set (h1 := alter (lo_set_next None) p h).
  set (h2 := alter (lo_set_prev (tail_ l)) p h1).
  assert (h1 !! p = Some (lo_set_next None o)) as E1 by (unfold h1; by rewrite lookup_alter_eq, E).
  assert (h2 !! p = Some (lo_set_prev (tail_ l) (lo_set_next None o))) as E2
    by (unfold h2; by rewrite lookup_alter_eq, E1).
  rewrite (upd_alter h p _ o) by done. rewrite bind_Ret. fold h1.
  rewrite (upd_alter h1 p _ _ E1). rewrite bind_Ret. fold h2.
  assert (NoDup (ps ++ [p])) as ND' by (apply NoDup_app; set_solver by auto using NoDup_singleton).
  assert (relinked (ps ++ [p]) h h2) as R2.
  { eapply relinked_trans; apply relinked_alter; set_solver. }
  assert (dlseg h2 None (ps ++ []) None) as D2.
  { rewrite app_nil_r. eapply dlseg_frame_eq; [|exact D]. intros q Hq. unfold h2, h1.
    rewrite !lookup_alter_ne; [done|set_solver..]. }
  pose proof (dlseg_link h2 ps p [] _ ND' E2) as DL. simpl in DL.
  specialize (DL Ht eq_refl D2). rewrite Ht in *. destruct (last ps) as [t|] eqn:L.
  - assert (t ∈ ps) as Hin by by apply last_Some_elem_of.
    destruct (dlseg_lookup _ _ _ _ t D2) as [tn Et]; [set_solver|].
    rewrite (upd_alter h2 t _ tn Et), bind_Ret. eexists _, _. split; [done|]. split.
    + split_and!; simpl; [|by rewrite last_snoc|done|done].
      rewrite Hh. by destruct ps.
    + eapply relinked_trans; [exact R2|]. apply relinked_alter; set_solver.
  - apply last_None in L as ->. eexists _, _. split; [done|]. done.
Qed.

(** [remove] first redirects the order before, then the one after. *)
Lemma unlink_before h l l1 l2 p :
  head_ l = head (l1 ++ p :: l2) -> dlseg h None (l1 ++ p :: l2) None ->
  match last l1 with
  | Some _ => h' ← upd h (last l1) (lo_set_next (head l2)); Ret (l, h')
  | None => Ret (MkOrderList (head l2) (tail_ l), h)
  end = Ret (MkOrderList (head (l1 ++ l2)) (tail_ l), put_next h (last l1) (head l2)).
Proof.
  intros Hh D. destruct l as [lh lt]; simpl in *. subst lh.
  destruct l1 as [|a l1 _] using rev_ind; [done|]. rewrite last_snoc.
  destruct (dlseg_lookup _ _ _ _ a D) as [n Ea]; [set_solver|].
  rewrite (upd_alter h a _ n Ea), bind_Ret. by destruct l1.
Qed.
Lemma unlink_after h h1 l1 l2 p hd tl :
  tl = last (l1 ++ p :: l2) -> dlseg h None (l1 ++ p :: l2) None -> dom h1 = dom h ->
  match head l2 with
  | Some _ => h' ← upd h1 (head l2) (lo_set_prev (last l1)); Ret (MkOrderList hd tl, h')
  | None => Ret (MkOrderList hd (last l1), h1)
  end = Ret (MkOrderList hd (last (l1 ++ l2)), put_prev h1 (head l2) (last l1)).
Proof.
  intros -> D Dm. destruct l2 as [|b l2]; [by rewrite app_nil_r|].
  assert (is_Some (h1 !! b)) as [n Eb].
  { apply elem_of_dom. rewrite Dm. apply elem_of_dom. eapply dlseg_lookup; [exact D|set_solver]. }
  simpl head. cbn match. rewrite (upd_alter h1 b _ n Eb), bind_Ret. do 3 f_equal. rewrite !last_app. done.
Qed.

Lemma remove_spec h l l1 p l2 :
  list_rep h l (l1 ++ p :: l2) ->
  exists l' h', remove (Some p) l h = Ret (l', h') /\
    list_rep h' l' (l1 ++ l2) /\ relinked (l1 ++ p :: l2) h h'.
Proof.
  intros (Hh & Ht & ND & D). unfold remove.
  destruct (dlseg_node _ _ _ _ _ _ D) as (o & E & Ep & En). simpl in Ep, En.
  rewrite last_or_None in Ep. rewrite hd_or_None in En.
  rewrite (rd_Some h p o) by done. rewrite bind_Ret, Ep, En.
  set (h1 := put_next h (last l1) (head l2)).
  set (h2 := put_prev h1 (head l2) (last l1)).
  pose proof (dlseg_unlink h l1 p l2 ND D) as D2. fold h1 in D2. fold h2 in D2.
  pose proof ND as (ND1 & F & [NI2 ND2]%NoDup_cons)%NoDup_app.
  assert (p ∉ l1) as NI1 by set_solver.
  assert (last l1 <> Some p) as Nl by (intros ?%last_Some_elem_of; done).
  assert (head l2 <> Some p) as Nh by (intros ?%head_Some_elem_of; done).
  assert (h1 !! p = Some o) as E1 by (unfold h1; by rewrite put_next_ne).
  assert (h2 !! p = Some o) as E2 by (unfold h2; by rewrite put_prev_ne).
  assert (relinked (l1 ++ p :: l2) h h2) as R2.
  { eapply relinked_trans; [apply relinked_put_next|apply relinked_put_prev].
    - intros a Ha%last_Some_elem_of. set_solver.
    - intros a Ha%head_Some_elem_of. set_solver. }
  rewrite (unlink_before h l l1 l2 p Hh D). fold h1.
  rewrite bind_Ret. rewrite (rd_Some h1 p o), bind_Ret, En, Ep by done.
  simpl head_ in *. simpl tail_ in *.
  rewrite (unlink_after h h1 l1 l2 p _ _ Ht D) by (unfold h1; by rewrite dom_put_next).
  fold h2. rewrite bind_Ret.
  rewrite (upd_alter h2 p _ o E2), bind_Ret.
  erewrite upd_alter by (rewrite lookup_alter_eq, E2; done). rewrite bind_Ret.
  eexists _, _. split; [done|]. split.
  - split_and!; [done|done| |].
    + apply NoDup_app. set_solver.
    + eapply dlseg_frame_eq; [|exact D2]. intros q Hq.
      rewrite !lookup_alter_ne; [done|set_solver..].
  - eapply relinked_trans; [exact R2|]. eapply relinked_trans; apply relinked_alter; set_solver.
Qed.
