(* ===== verification/SideBook.v ===== *)
(** * [PriceLevelNode], [PriceLevelIndex], [BidBook], [AskBook]

    ([src/matching/order_book/price_level.hpp], [price_level_index.hpp],
    [bid_book.hpp], [ask_book.hpp].)  The two book classes are the same text up to
    the comparison that orders their levels; [SideBook] is their state and the
    operations take the comparison ([bid_before], [ask_before]) as an argument. *)
From S2P Require Import Prelude Domain ObjectPool DList BookSpec OrderList.

Record PriceLevelNode := MkNode {
  nd_price : Z; nd_total_qty : Z; nd_order_count : Z; nd_orders : IntrusiveOrderList;
  nd_next : ptr; nd_prev : ptr }.

Definition default_node : PriceLevelNode := MkNode 0 0 0 (MkOrderList None None) None None.
Definition nd_set_next (p : ptr) (n : PriceLevelNode) : PriceLevelNode :=
  MkNode (nd_price n) (nd_total_qty n) (nd_order_count n) (nd_orders n) p (nd_prev n).
Definition nd_set_prev (p : ptr) (n : PriceLevelNode) : PriceLevelNode :=
  MkNode (nd_price n) (nd_total_qty n) (nd_order_count n) (nd_orders n) (nd_next n) p.
Definition nd_set_qty (q : Z) (n : PriceLevelNode) : PriceLevelNode :=
  MkNode (nd_price n) q (nd_order_count n) (nd_orders n) (nd_next n) (nd_prev n).
Definition nd_set_count (c : Z) (n : PriceLevelNode) : PriceLevelNode :=
  MkNode (nd_price n) (nd_total_qty n) c (nd_orders n) (nd_next n) (nd_prev n).
Definition nd_set_orders (l : IntrusiveOrderList) (n : PriceLevelNode) : PriceLevelNode :=
  MkNode (nd_price n) (nd_total_qty n) (nd_order_count n) l (nd_next n) (nd_prev n).

#[export] Instance PriceLevelNode_linked : Linked PriceLevelNode :=
  { get_next := nd_next; get_prev := nd_prev; set_next := nd_set_next; set_prev := nd_set_prev }.
#[export] Instance PriceLevelNode_linked_laws : LinkedLaws PriceLevelNode.
Proof. by split. Qed.

Definition node_empty (n : PriceLevelNode) : bool := list_empty (nd_orders n).
Definition has_orders (n : PriceLevelNode) : bool := negb (list_empty (nd_orders n)).

(** [PriceLevelIndex<Compare>]: a [std::map] from prices to level pointers.  Only
    its lookups are used, never its iteration order. *)
Definition index_find (index : gmap Z Z) (p : Z) : ptr := index !! p.
Definition index_insert (p node : Z) (index : gmap Z Z) : gmap Z Z := <[p := node]> index.
Definition index_erase (p : Z) (index : gmap Z Z) : gmap Z Z := delete p index.
Definition index_size (index : gmap Z Z) : nat := size index.
Definition index_is_empty (index : gmap Z Z) : bool := bool_decide (index = ∅).

Record SideBook := MkSide { best_level_ : ptr; index_ : gmap Z Z }.
Definition SideBook_init : SideBook := MkSide None ∅.
Definition side_empty (b : SideBook) : bool := bool_decide (best_level_ b = None).
Definition side_size (b : SideBook) : nat := index_size (index_ b).
Definition find_level (p : Z) (b : SideBook) : ptr := index_find (index_ b) p.

Definition LEVELS : Z := 1024.
Definition ORDERS : Z := 10240.
Abbreviation LevelPool := (ObjectPool PriceLevelNode).
Abbreviation OrderPool := (ObjectPool LiveOrder).
Definition set_storage {T} (s : gmap Z T) (p : ObjectPool T) : ObjectPool T := MkPool s (free_list_ p).

Section side.
Variable before : Z -> Z -> bool.

(** [while (curr->next && curr->next->price precedes price) curr = curr->next;] *)
Fixpoint find_slot (fuel : nat) (ls : gmap Z PriceLevelNode) (curr : ptr) (p : Z) : outcome ptr :=
  match fuel with
  | O => Diverge
  | S fuel =>
      c ← rd ls curr;
      match nd_next c with
      | None => Ret curr
      | Some _ =>
          n ← rd ls (nd_next c);
          if before (nd_price n) p then find_slot fuel ls (nd_next c) p else Ret curr
      end
  end.

Definition create_level (p : Z) (b : SideBook) (pool : LevelPool)
    : outcome (Z * SideBook * LevelPool) :=
  '(a, pool) ← allocate default_node pool;
  let new_node := Some a in
  ls ← upd (storage_ pool) new_node (fun n => MkNode p 0 0 (nd_orders n) None None);
  let index := index_insert p a (index_ b) in
  match best_level_ b with
  | None => Ret (a, MkSide new_node index, set_storage ls pool)
  | Some _ =>
      best ← rd ls (best_level_ b);
      if before p (nd_price best) then
        ls ← upd ls new_node (nd_set_next (best_level_ b));
        ls ← upd ls (best_level_ b) (nd_set_prev new_node);
        Ret (a, MkSide new_node index, set_storage ls pool)
      else
        curr ← find_slot (S (size ls)) ls (best_level_ b) p;
        c ← rd ls curr;
        ls ← upd ls new_node (nd_set_next (nd_next c));
        ls ← upd ls new_node (nd_set_prev curr);
        c ← rd ls curr;
        ls ← match nd_next c with
             | Some _ => upd ls (nd_next c) (nd_set_prev new_node)
             | None => Ret ls
             end;
        ls ← upd ls curr (nd_set_next new_node);
        Ret (a, MkSide (best_level_ b) index, set_storage ls pool)
  end.
End side.

Definition remove_level (node : ptr) (b : SideBook) (pool : LevelPool)
    : outcome (SideBook * LevelPool) :=
  match node with
  | None => Ret (b, pool)
  | Some _ =>
      let ls := storage_ pool in
      n ← rd ls node;
      let index := index_erase (nd_price n) (index_ b) in
      '(best, ls) ←
        (if bool_decide (node = best_level_ b) then
           ls ← match nd_next n with
                | Some _ => upd ls (nd_next n) (nd_set_prev None)
                | None => Ret ls
                end;
           Ret (nd_next n, ls)
         else
           ls ← match nd_prev n with
                | Some _ => upd ls (nd_prev n) (nd_set_next (nd_next n))
                | None => Ret ls
                end;
           n ← rd ls node;
           ls ← match nd_next n with
                | Some _ => upd ls (nd_next n) (nd_set_prev (nd_prev n))
                | None => Ret ls
                end;
           Ret (best_level_ b, ls));
      Ret (MkSide best index, deallocate LEVELS node (set_storage ls pool))
  end.

(** The two nested loops of [clear]. *)
Fixpoint clear_orders (fuel : nat) (curr : ptr) (orders : OrderPool) : outcome OrderPool :=
  match curr with
  | None => Ret orders
  | Some _ =>
      match fuel with
      | O => Diverge
      | S fuel =>
          o ← rd (storage_ orders) curr;
          clear_orders fuel (lo_next o) (deallocate ORDERS curr orders)
      end
  end.

Fixpoint clear_levels (fuel ofuel : nat) (curr : ptr) (levels : LevelPool) (orders : OrderPool)
    : outcome (LevelPool * OrderPool) :=
  match curr with
  | None => Ret (levels, orders)
  | Some _ =>
      match fuel with
      | O => Diverge
      | S fuel =>
          n ← rd (storage_ levels) curr;
          orders ← clear_orders ofuel (head_ (nd_orders n)) orders;
          clear_levels fuel ofuel (nd_next n) (deallocate LEVELS curr levels) orders
      end
  end.

Definition side_clear (b : SideBook) (levels : LevelPool) (orders : OrderPool)
    : outcome (SideBook * LevelPool * OrderPool) :=
  '(levels, orders) ←
    clear_levels (S (size (storage_ levels))) (S (size (storage_ orders))) (best_level_ b) levels orders;
  Ret (SideBook_init, levels, orders).

(** [verify_invariants] with its assertions enabled. *)
Fixpoint verify_levels (before : Z -> Z -> bool) (fuel : nat) (ls : gmap Z PriceLevelNode)
    (curr : ptr) (prev_price : Z) : outcome unit :=
  match curr with
  | None => Ret tt
  | Some _ =>
      match fuel with
      | O => Diverge
      | S fuel =>
          n ← rd ls curr;
          _ ← assert_ (negb (before (nd_price n) prev_price));
          _ ← assert_ (has_orders n);
          _ ← assert_ (bool_decide (head_ (nd_orders n) <> None));
          _ ← assert_ (bool_decide (tail_ (nd_orders n) <> None));
          _ ← match nd_next n with
              | Some _ => m ← rd ls (nd_next n); assert_ (bool_decide (nd_prev m = curr))
              | None => Ret tt
              end;
          verify_levels before fuel ls (nd_next n) (nd_price n)
      end
  end.

Definition side_verify (before : Z -> Z -> bool) (b : SideBook) (ls : gmap Z PriceLevelNode) : outcome unit :=
  match best_level_ b with
  | None => assert_ (index_is_empty (index_ b))
  | Some _ =>
      best ← rd ls (best_level_ b);
      _ ← assert_ (bool_decide (nd_prev best = None));
      verify_levels before (S (size ls)) ls (best_level_ b) (nd_price best)
  end.

(** ** The two instances *)
Definition BidBook_create_level p b pool := noexcept (create_level bid_before p b pool).
Definition AskBook_create_level p b pool := noexcept (create_level ask_before p b pool).
Definition BidBook_remove_level := remove_level.
Definition AskBook_remove_level := remove_level.
Definition BidBook_clear := side_clear.
Definition AskBook_clear := side_clear.
Definition BidBook_verify := side_verify bid_before.
Definition AskBook_verify := side_verify ask_before.

(** ** Representation of one side

    A shape lists, best level first, the address of each level node with the
    addresses of its orders in queue order. *)
Abbreviation shape := (list (Z * list Z)).
Definition level_ptrs (A : shape) : list Z := map fst A.
Definition order_ptrs (A : shape) : list Z := concat (map snd A).

Lemma nd_guarded_next (h : gmap Z PriceLevelNode) q x :
  (forall a, q = Some a -> is_Some (h !! a)) ->
  match q with Some _ => upd h q (nd_set_next x) | None => Ret h end = Ret (put_next h q x).
Proof. exact (guarded_next h q x). Qed.
Lemma nd_guarded_prev (h : gmap Z PriceLevelNode) q x :
  (forall a, q = Some a -> is_Some (h !! a)) ->
  match q with Some _ => upd h q (nd_set_prev x) | None => Ret h end = Ret (put_prev h q x).
Proof. exact (guarded_prev h q x). Qed.

Definition node_view (n : PriceLevelNode) := (nd_price n, nd_total_qty n, nd_order_count n, nd_orders n).
Definition orders_rep (os : gmap Z LiveOrder) : list Z -> list Resting -> Prop :=
  Forall2 (fun p r => resting_view <$> os !! p = Some r).

Definition level_rep (ls : gmap Z PriceLevelNode) (os : gmap Z LiveOrder) (x : Z * list Z) (L : Level) : Prop :=
  exists l, node_view <$> ls !! x.1 =
      Some (lv_price L, u64 (level_qty L), u32 (Z.of_nat (length (lv_orders L))), l) /\
    list_rep os l x.2 /\ orders_rep os x.2 (lv_orders L).

Record side_rep (ls : gmap Z PriceLevelNode) (os : gmap Z LiveOrder) (sb : SideBook)
    (A : shape) (Ls : list Level) : Prop := {
  sr_best : best_level_ sb = head (level_ptrs A);
  sr_links : dlseg ls None (level_ptrs A) None;
  sr_levels : Forall2 (level_rep ls os) A Ls;
  sr_index : forall p a, index_ sb !! p = Some a <-> (p, a) ∈ zip (map lv_price Ls) (level_ptrs A) }.

Lemma level_ptrs_app A1 A2 : level_ptrs (A1 ++ A2) = level_ptrs A1 ++ level_ptrs A2.
Proof. apply map_app. Qed.
Lemma order_ptrs_app A1 A2 : order_ptrs (A1 ++ A2) = order_ptrs A1 ++ order_ptrs A2.
Proof. unfold order_ptrs. by rewrite map_app, concat_app. Qed.
Lemma level_ptrs_cons x A : level_ptrs (x :: A) = x.1 :: level_ptrs A.
Proof. reflexivity. Qed.
Lemma order_ptrs_cons x A : order_ptrs (x :: A) = x.2 ++ order_ptrs A.
Proof. reflexivity. Qed.
#[export] Hint Rewrite level_ptrs_app order_ptrs_app level_ptrs_cons order_ptrs_cons : shape.

Lemma elem_level_ptrs x A : x ∈ A -> x.1 ∈ level_ptrs A.
Proof. apply list_elem_of_fmap_2. Qed.
Lemma elem_order_ptrs x A p : x ∈ A -> p ∈ x.2 -> p ∈ order_ptrs A.
Proof.
  intros Hx Hp. apply elem_of_concat. exists x.2. split; [|done]. by apply list_elem_of_fmap_2.
Qed.

Lemma level_rep_frame ls os ls' os' x L :
  node_view <$> ls' !! x.1 = node_view <$> ls !! x.1 ->
  (forall p, p ∈ x.2 -> os' !! p = os !! p) ->
  level_rep ls os x L -> level_rep ls' os' x L.
Proof.
  intros El Eo (l & N & (Hh & Ht & ND & D) & R). exists l. rewrite El. split_and!; [done| |].
  - split_and!; [done..|]. by eapply dlseg_frame_eq.
  - unfold orders_rep in *. eapply Forall2_impl_mem; [exact R|].
    intros p r Hp E. by rewrite Eo.
Qed.

(** Framing: a side only depends on its own nodes. *)
Lemma side_levels_frame ls os ls' os' A Ls :
  (forall a, a ∈ level_ptrs A -> node_view <$> ls' !! a = node_view <$> ls !! a) ->
  (forall p, p ∈ order_ptrs A -> os' !! p = os !! p) ->
  Forall2 (level_rep ls os) A Ls -> Forall2 (level_rep ls' os') A Ls.
Proof.
  intros El Eo F. eapply Forall2_impl_mem; [exact F|]. intros x L Hx. apply level_rep_frame.
  - by apply El, elem_level_ptrs.
  - intros p Hp. by eapply Eo, elem_order_ptrs.
Qed.

Lemma side_rep_frame ls os ls' os' sb A Ls :
  (forall a, a ∈ level_ptrs A -> ls' !! a = ls !! a) ->
  (forall p, p ∈ order_ptrs A -> os' !! p = os !! p) ->
  side_rep ls os sb A Ls -> side_rep ls' os' sb A Ls.
Proof.
  intros El Eo [B D L I]. split; [done| | |done].
  - by eapply dlseg_frame_eq.
  - eapply side_levels_frame; [|done..]. intros a Ha. by rewrite El.
Qed.

Lemma side_rep_live ls os sb A Ls a : side_rep ls os sb A Ls -> a ∈ level_ptrs A -> is_Some (ls !! a).
Proof. intros [_ D _ _]. by eapply dlseg_lookup. Qed.

Lemma side_rep_length ls os sb A Ls : side_rep ls os sb A Ls -> length A = length Ls.
Proof. intros [_ _ L _]. by eapply Forall2_length. Qed.

Lemma zip_split A1 x A2 L1 L L2 :
  length A1 = length L1 ->
  zip (map lv_price (L1 ++ L :: L2)) (level_ptrs (A1 ++ x :: A2)) =
  zip (map lv_price L1) (level_ptrs A1) ++ (lv_price L, x.1) :: zip (map lv_price L2) (level_ptrs A2).
Proof.
  intros E. rewrite map_app, level_ptrs_app. simpl.
  rewrite zip_with_app; [done|]. unfold level_ptrs. by rewrite !length_map.
Qed.

Lemma find_level_Some ls os sb A Ls p a :
  side_rep ls os sb A Ls -> find_level p sb = Some a ->
  exists A1 ops A2 L1 L L2, A = A1 ++ (a, ops) :: A2 /\ Ls = L1 ++ L :: L2 /\
    length A1 = length L1 /\ lv_price L = p.
Proof.
  intros S F. unfold find_level, index_find in F. apply (sr_index _ _ _ _ _ S) in F.
  pose proof (sr_levels _ _ _ _ _ S) as FL. clear S.
  induction FL as [|[b ops] L A Ls _ FL IH]; [simpl in F; set_solver|].
  cbn in F. apply elem_of_cons in F as [[= -> ->]|F].
  - by exists [], ops, A, [], L, Ls.
  - destruct (IH F) as (A1 & ops' & A2 & L1 & L' & L2 & -> & -> & E & P).
    exists ((b, ops) :: A1), ops', A2, (L :: L1), L', L2. split_and!; [done..|by simpl; f_equal|done].
Qed.

Lemma find_level_None ls os sb A Ls p :
  side_rep ls os sb A Ls -> find_level p sb = None -> p ∉ map lv_price Ls.
Proof.
  intros S F I. apply list_elem_of_fmap in I as (L & -> & I).
  apply list_elem_of_split in I as (L1 & L2 & ->).
  destruct (Forall2_split_r _ _ _ _ _ (sr_levels _ _ _ _ _ S)) as (A1 & x & A2 & -> & F1 & _ & _).
  unfold find_level, index_find in F.
  assert (index_ sb !! lv_price L = Some x.1) as E; [|congruence].
  apply (sr_index _ _ _ _ _ S). rewrite zip_split by (by eapply Forall2_length). set_solver.
Qed.

Lemma find_level_at ls os sb A1 a ops A2 L1 L L2 :
  side_rep ls os sb (A1 ++ (a, ops) :: A2) (L1 ++ L :: L2) -> length A1 = length L1 ->
  find_level (lv_price L) sb = Some a.
Proof.
  intros S E. unfold find_level, index_find. apply (sr_index _ _ _ _ _ S).
  rewrite zip_split by done. set_solver.
Qed.

(** ** Editing one level in place *)
Lemma side_edit ls os ls' os' sb A1 a ops ops' A2 L1 L L' L2 n n' :
  side_rep ls os sb (A1 ++ (a, ops) :: A2) (L1 ++ L :: L2) -> length A1 = length L1 ->
  NoDup (level_ptrs (A1 ++ (a, ops) :: A2)) ->
  ls !! a = Some n -> same_links n n' -> ls' = <[a := n']> ls ->
  (forall p, p ∈ order_ptrs A1 \/ p ∈ order_ptrs A2 -> os' !! p = os !! p) ->
  lv_price L' = lv_price L -> level_rep ls' os' (a, ops') L' ->
  side_rep ls' os' sb (A1 ++ (a, ops') :: A2) (L1 ++ L' :: L2).
Proof.
  intros [B D F I] E ND En SL -> Eo P R. autorewrite with shape in *. simpl in *.
  apply NoDup_app in ND as (_ & N1 & [N2 _]%NoDup_cons).
  apply Forall2_app_inv in F as [F1 [_ F2]%Forall2_cons_1]; [|done].
  split; autorewrite with shape; simpl.
  - done.
  - by apply (dlseg_alter _ _ _ _ a (fun _ => n') n).
  - apply Forall2_join; [|done|].
    + eapply side_levels_frame; [| |exact F1]; [|set_solver].
      intros b Hb. rewrite lookup_insert_ne; [done|set_solver].
    + eapply side_levels_frame; [| |exact F2]; [|set_solver].
      intros b Hb. rewrite lookup_insert_ne; [done|set_solver].
  - intros p b. rewrite I. pose proof (zip_split A1 (a, ops) A2 L1 L L2 E) as Z1.
    pose proof (zip_split A1 (a, ops') A2 L1 L' L2 E) as Z2.
    autorewrite with shape in *. simpl in *. by rewrite Z1, Z2, P.
Qed.

(** ** Removing a level *)
Lemma remove_level_Ret sb (pool : LevelPool) l1 a l2 n :
  let ls := storage_ pool in
  dlseg ls None (l1 ++ a :: l2) None -> NoDup (l1 ++ a :: l2) ->
  best_level_ sb = head (l1 ++ a :: l2) -> ls !! a = Some n ->
  remove_level (Some a) sb pool =
    Ret (MkSide (head (l1 ++ l2)) (delete (nd_price n) (index_ sb)),
         deallocate LEVELS (Some a)
           (set_storage (put_prev (put_next ls (last l1) (head l2)) (head l2) (last l1)) pool)).
Proof.
  intros ls D ND B E. unfold remove_level. fold ls. rewrite (rd_Some _ _ _ E), bind_Ret.
  destruct (dlseg_node _ _ _ _ _ _ D) as (n' & E' & Ep & En). simplify_eq. simpl in Ep, En.
  rewrite last_or_None in Ep. rewrite hd_or_None in En.
  assert (forall b, head l2 = Some b -> is_Some (ls !! b)) as Lh.
  { intros b Hb%head_Some_elem_of. eapply dlseg_lookup; [exact D|set_solver]. }
  assert (forall b, last l1 = Some b -> is_Some (ls !! b)) as Ll.
  { intros b Hb%last_Some_elem_of. eapply dlseg_lookup; [exact D|set_solver]. }
  pose proof ND as (_ & F & [NI2 _]%NoDup_cons)%NoDup_app. rewrite B.
  destruct l1 as [|b l1].
  - rewrite bool_decide_eq_true_2 by done. simpl. rewrite En, nd_guarded_prev by done. done.
  - rewrite bool_decide_eq_false_2.
    2: { simpl. intros [= ->]. apply (F b); set_solver. }
    rewrite Ep, En, nd_guarded_next, bind_Ret by done.
    rewrite (rd_Some _ _ n) by (rewrite put_next_ne; [done|]; intros Ha%last_Some_elem_of; set_solver).
    rewrite bind_Ret, En, Ep, nd_guarded_prev by (intros c Hc; apply put_next_live; auto).
    done.
Qed.

Lemma side_remove ls os sb A1 a ops A2 L1 L L2 :
  side_rep ls os sb (A1 ++ (a, ops) :: A2) (L1 ++ L :: L2) -> length A1 = length L1 ->
  NoDup (level_ptrs (A1 ++ (a, ops) :: A2)) -> NoDup (map lv_price (L1 ++ L :: L2)) ->
  let l1 := level_ptrs A1 in let l2 := level_ptrs A2 in
  side_rep (delete a (put_prev (put_next ls (last l1) (head l2)) (head l2) (last l1))) os
    (MkSide (head (l1 ++ l2)) (delete (lv_price L) (index_ sb))) (A1 ++ A2) (L1 ++ L2).
Proof.
  intros [B D F I] E ND NP l1 l2. autorewrite with shape in *. simpl in *.
  fold l1 l2 in B, D, I, ND |- *.
  pose proof ND as (_ & N1 & [N2 _]%NoDup_cons)%NoDup_app.
  assert (a ∉ l1 ++ l2) as Na by set_solver.
  apply Forall2_app_inv in F as [F1 [_ F2]%Forall2_cons_1]; [|done].
  split; autorewrite with shape; fold l1 l2; simpl.
  - done.
  - apply dlseg_delete; [done|]. by apply (dlseg_unlink ls l1 a l2).
  - assert (forall b, b ∈ l1 ++ l2 ->
      node_view <$> delete a (put_prev (put_next ls (last l1) (head l2)) (head l2) (last l1)) !! b
      = node_view <$> ls !! b) as V.
    { intros b Hb. rewrite lookup_delete_ne by set_solver.
      rewrite <-!lookup_fmap, put_prev_view, put_next_view; done. }
    apply Forall2_app; eapply side_levels_frame; [|done|exact F1| |done|exact F2];
      intros b Hb; apply V; set_solver.
  - intros p b. rewrite map_app, zip_with_app by (unfold l1, level_ptrs; by rewrite !length_map).
    rewrite map_app in NP. simpl in NP. apply NoDup_app in NP as (_ & P1 & [P2 _]%NoDup_cons).
    destruct (decide (lv_price L = p)) as [<-|Np].
    + rewrite lookup_delete_eq. split; [done|].
      intros [H%elem_of_zip_l|H%elem_of_zip_l]%elem_of_app; set_solver.
    + rewrite lookup_delete_ne, I by done.
      pose proof (zip_split A1 (a, ops) A2 L1 L L2 E) as Z1.
      autorewrite with shape in Z1. simpl in Z1. fold l1 l2 in Z1. rewrite Z1. set_solver.
Qed.

(** ** Creating a level *)
Lemma find_slot_Ret before ls pv c k1 k2 p fuel :
  dlseg ls pv (c :: k1 ++ k2) None ->
  (forall a, a ∈ k1 -> exists n, ls !! a = Some n /\ before (nd_price n) p = true) ->
  (forall a, head k2 = Some a -> exists n, ls !! a = Some n /\ before (nd_price n) p = false) ->
  (length k1 < fuel)%nat ->
  find_slot before fuel ls (Some c) p = Ret (last_or k1 (Some c)).
Proof.
  revert pv c fuel. induction k1 as [|d k1 IH]; intros pv c fuel D F1 F2 Fu;
    (destruct fuel as [|fuel]; [lia|]); destruct D as [(n & E & _ & En) D]; simpl in En;
    simpl find_slot; rewrite (rd_Some _ _ _ E), bind_Ret, En.
  - destruct k2 as [|d k2]; simpl; [done|].
    destruct (F2 d eq_refl) as (m & Em & Bm). by rewrite (rd_Some _ _ _ Em), bind_Ret, Bm.
  - simpl hd_or. destruct (F1 d) as (m & Em & Bm); [set_solver|].
    rewrite (rd_Some _ _ _ Em), bind_Ret, Bm, last_or_cons.
    eapply IH; [exact D| |done|simpl in Fu; lia]. intros a Ha. apply F1. set_solver.
Qed.

(** The level that [create_level] links in has no orders yet: the caller appends one. *)
Lemma level_rep_empty ls os a p :
  node_view <$> ls !! a = Some (p, 0, 0, MkOrderList None None) ->
  level_rep ls os (a, []) (MkLevel p []).
Proof.
  intros E. exists (MkOrderList None None). split_and!; [done| |constructor].
  split_and!; [done..|constructor|done].
Qed.

Section create.
Context (before : Z -> Z -> bool) `{!LevelOrder before}.

Lemma level_node_price ls os A Ls :
  Forall2 (level_rep ls os) A Ls ->
  Forall2 (fun a L => exists n, ls !! a = Some n /\ nd_price n = lv_price L) (level_ptrs A) Ls.
Proof.
  induction 1 as [|x L A Ls (l & V & _) _ IH]; constructor; [|done].
  destruct (ls !! x.1) as [n|]; [|done]. exists n. simpl in V. unfold node_view in V. split; congruence.
Qed.

Lemma Forall2_before (ls : gmap Z PriceLevelNode) ps Ls (P : Z -> Prop) :
  Forall2 (fun a L => exists n, ls !! a = Some n /\ nd_price n = lv_price L) ps Ls ->
  (forall L, L ∈ Ls -> P (lv_price L)) ->
  forall a, a ∈ ps -> exists n, ls !! a = Some n /\ P (nd_price n).
Proof.
  induction 1 as [|a L ps Ls (n & E & Ep) _ IH]; intros F b Hb; [set_solver|].
  apply elem_of_cons in Hb as [->|Hb].
  - exists n. rewrite Ep. split; [done|]. apply F. set_solver.
  - apply IH; [|done]. intros K HK. apply F. set_solver.
Qed.

(** Linking a fresh node in behind the last node of [l1]. *)
Lemma link_after ls l1 l2 a n0 (r : Z * SideBook) (pool : LevelPool) :
  dlseg ls None (l1 ++ l2) None -> NoDup (l1 ++ l2) -> a ∉ l1 ++ l2 -> ls !! a = Some n0 ->
  l1 <> [] ->
  let ls' := <[a := nd_set_prev (last l1) (nd_set_next (head l2) n0)]> ls in
  (c ← rd ls (last l1);
   ls ← upd ls (Some a) (nd_set_next (nd_next c));
   ls ← upd ls (Some a) (nd_set_prev (last l1));
   c ← rd ls (last l1);
   ls ← match nd_next c with
        | Some _ => upd ls (nd_next c) (nd_set_prev (Some a))
        | None => Ret ls
        end;
   ls ← upd ls (last l1) (nd_set_next (Some a));
   Ret (r, set_storage ls pool)) =
  Ret (r, set_storage (put_prev (put_next ls' (last l1) (Some a)) (head l2) (Some a)) pool).
Proof.
  intros D ND Na Ea Nl ls'. destruct l1 as [|t l1 _] using rev_ind; [done|]. clear Nl.
  rewrite last_snoc. rewrite <-app_assoc in D, ND, Na. simpl in D, ND, Na.
  destruct (dlseg_node _ _ _ _ _ _ D) as (nt & Et & _ & En). simpl in En. rewrite hd_or_None in En.
  rewrite (rd_Some _ _ _ Et), bind_Ret, En.
  rewrite (upd_Some _ _ _ n0 Ea), bind_Ret.
  rewrite (upd_Some _ _ _ _ (lookup_insert_eq _ _ _)), bind_Ret, insert_insert_eq.
  assert (a <> t) as Nat by set_solver.
  subst ls'. rewrite last_snoc. set (ls' := <[a := _]> ls).
  assert (forall b, b ∈ l1 ++ t :: l2 -> ls' !! b = ls !! b) as E'.
  { intros b Hb. unfold ls'. rewrite lookup_insert_ne; [done|]. intros ->. done. }
  rewrite (rd_Some ls' t nt) by (rewrite E'; [done|set_solver]).
  rewrite bind_Ret, En, nd_guarded_prev, bind_Ret.
  2: { intros b Hb%head_Some_elem_of. rewrite E' by set_solver. eapply dlseg_lookup; [exact D|set_solver]. }
  apply NoDup_app in ND as (_ & _ & [Nt _]%NoDup_cons).
  assert (head l2 <> Some t) as Nh by (intros ?%head_Some_elem_of; done).
  rewrite (upd_alter _ t _ nt), bind_Ret.
  2: { rewrite put_prev_ne by done. rewrite E'; [done|set_solver]. }
  rewrite put_comm; [done|]. intros e. by rewrite <-e in Nh.
Qed.

Lemma create_level_Ret sb (pool pool1 : LevelPool) os A1 A2 L1 L2 p a :
  side_rep (storage_ pool) os sb (A1 ++ A2) (L1 ++ L2) -> length A1 = length L1 ->
  NoDup (level_ptrs (A1 ++ A2)) -> storage_ pool !! a = None ->
  allocate default_node pool = Ret (a, pool1) -> storage_ pool1 = <[a := default_node]> (storage_ pool) ->
  (forall L, L ∈ L1 -> before (lv_price L) p = true) ->
  (forall L, L ∈ L2 -> before p (lv_price L) = true) ->
  let l1 := level_ptrs A1 in let l2 := level_ptrs A2 in
  let ls := <[a := MkNode p 0 0 (MkOrderList None None) (head l2) (last l1)]> (storage_ pool) in
  create_level before p sb pool =
    Ret (a, MkSide (head (l1 ++ a :: l2)) (<[p := a]> (index_ sb)),
         set_storage (put_prev (put_next ls (last l1) (Some a)) (head l2) (Some a)) pool1).
Proof.
  intros [B D F _] EL ND Na Al Es F1 F2 l1 l2 ls.
  apply Forall2_app_inv in F as [G1%level_node_price G2%level_node_price]; [|done].
  rewrite level_ptrs_app in B, D, ND. fold l1 l2 in B, D, ND, G1, G2.
  assert (a ∉ l1 ++ l2) as Nl.
  { intros Ha. destruct (dlseg_lookup _ _ _ _ a D Ha) as [? ?]. congruence. }
  unfold create_level. rewrite Al, bind_Ret, Es.
  rewrite (upd_Some _ _ _ default_node), bind_Ret by apply lookup_insert_eq.
  rewrite insert_insert_eq. cbn beta. cbn [nd_orders default_node].
  set (n0 := MkNode p 0 0 (MkOrderList None None) None None).
  set (ls0 := <[a := n0]> (storage_ pool)).
  assert (forall b, b ∈ l1 ++ l2 -> ls0 !! b = storage_ pool !! b) as E0.
  { intros b Hb. unfold ls0. rewrite lookup_insert_ne; [done|]. intros ->. done. }
  assert (forall b, b ∈ l1 -> exists n, ls0 !! b = Some n /\ before (nd_price n) p = true) as P1.
  { intros b Hb. rewrite E0 by set_solver.
    apply (Forall2_before _ _ _ (fun q => before q p = true) G1); done. }
  assert (forall b, b ∈ l2 -> exists n, ls0 !! b = Some n /\ before p (nd_price n) = true) as P2.
  { intros b Hb. rewrite E0 by set_solver.
    apply (Forall2_before _ _ _ (fun q => before p q = true) G2); done. }
  rewrite B. destruct l1 as [|c k1] eqn:El1.
  - (* the new level is the best one *)
    simpl app in *. destruct l2 as [|d k2] eqn:El2; [done|].
    change (head (d :: k2)) with (Some d).
    destruct (P2 d) as (nd & Ed & Bd); [set_solver|].
    rewrite (rd_Some _ _ _ Ed), bind_Ret, Bd.
    rewrite (upd_Some _ _ _ n0), bind_Ret by apply lookup_insert_eq.
    unfold ls0. rewrite insert_insert_eq.
    erewrite upd_alter, bind_Ret; [done|]. rewrite lookup_insert_ne by set_solver.
    rewrite <-E0; [exact Ed|set_solver].
  - (* it goes after the last level that precedes it *)
    simpl app in *. change (head (c :: k1 ++ l2)) with (Some c).
    destruct (P1 c) as (nc & Ec & Bc); [set_solver|].
    rewrite (rd_Some _ _ _ Ec), bind_Ret, (before_asym before _ _ Bc).
    assert (dlseg ls0 None (c :: k1 ++ l2) None) as D0 by (eapply dlseg_frame_eq; [exact E0|done]).
    rewrite (find_slot_Ret before ls0 None c k1 l2 p); [|done|intros; apply P1; set_solver| |].
    2: { intros b Hb. destruct (P2 b) as (nb & Eb & Bb); [by apply head_Some_elem_of|].
         exists nb. split; [done|]. by apply before_asym. }
    2: { pose proof (nodup_live_length ls0 (c :: k1 ++ l2) ND) as Sz. simpl in Sz.
         rewrite length_app in Sz. enough (S (length k1 + length l2) <= size ls0)%nat by lia.
         apply Sz. intros b Hb. by eapply dlseg_lookup. }
    rewrite bind_Ret.
    replace (last_or k1 (Some c)) with (last (c :: k1)) by (by rewrite <-last_or_None, last_or_cons).
    pose proof (link_after ls0 (c :: k1) l2 a n0 (a, MkSide (Some c) (index_insert p a (index_ sb))) pool1 D0) as LA.
    simpl app in LA. rewrite LA; [|done|exact Nl|apply lookup_insert_eq|done].
    unfold ls0, ls. rewrite insert_insert_eq. done.
Qed.

Lemma side_create ls os sb A1 A2 L1 L2 p a n :
  side_rep ls os sb (A1 ++ A2) (L1 ++ L2) -> length A1 = length L1 ->
  NoDup (level_ptrs (A1 ++ A2)) -> ls !! a = None -> p ∉ map lv_price (L1 ++ L2) ->
  let l1 := level_ptrs A1 in let l2 := level_ptrs A2 in
  n = MkNode p 0 0 (MkOrderList None None) (head l2) (last l1) ->
  side_rep (put_prev (put_next (<[a := n]> ls) (last l1) (Some a)) (head l2) (Some a)) os
    (MkSide (head (l1 ++ a :: l2)) (<[p := a]> (index_ sb)))
    (A1 ++ (a, []) :: A2) (L1 ++ MkLevel p [] :: L2).
Proof.
  intros [B D F I] E ND Na Np l1 l2 En. autorewrite with shape in *. fold l1 l2 in B, D, I, ND |- *.
  assert (a ∉ l1 ++ l2) as Nl.
  { intros Ha. destruct (dlseg_lookup _ _ _ _ a D Ha) as [? ?]. congruence. }
  assert (NoDup (l1 ++ a :: l2)) as ND'.
  { apply NoDup_Permutation_proper with (a :: l1 ++ l2); [by rewrite Permutation_middle|]. by constructor. }
  set (ls' := put_prev _ _ _).
  assert (forall b, node_view <$> ls' !! b = node_view <$> (<[a := n]> ls) !! b) as V.
  { intros b. unfold ls'. rewrite <-!lookup_fmap, put_prev_view, put_next_view; done. }
  apply Forall2_app_inv in F as [F1 F2]; [|done].
  split; autorewrite with shape; fold l1 l2; simpl.
  - done.
  - apply (dlseg_link _ l1 a l2 n); [done|apply lookup_insert_eq|by subst n..|].
    by apply dlseg_insert_fresh.
  - apply Forall2_join.
    + eapply side_levels_frame; [|done|exact F1]. intros b Hb.
      rewrite V, lookup_insert_ne; [done|]. set_solver.
    + apply level_rep_empty. simpl. rewrite V, lookup_insert_eq. by subst n.
    + eapply side_levels_frame; [|done|exact F2]. intros b Hb.
      rewrite V, lookup_insert_ne; [done|]. set_solver.
  - intros q b. rewrite map_app in *. simpl.
    rewrite zip_with_app in * by (unfold l1, level_ptrs; by rewrite !length_map). simpl.
    destruct (decide (p = q)) as [<-|Nq].
    + rewrite lookup_insert_eq. split; [intros [= ->]; set_solver|].
      intros [H%elem_of_zip_l|[[= ->]|H%elem_of_zip_l]%elem_of_cons]%elem_of_app; set_solver.
    + rewrite lookup_insert_ne, I by done. set_solver.
Qed.
End create.
