(* ===== verification/OrderBook.v ===== *)
(** * [LimitOrderBook] ([src/matching/order_book/order_book.hpp], [order_book.cpp], [order_lookup.hpp])

    The book's state is the two sides, the lookup map and the two pools.  A
    listener, when there is one, is a class outside the component: [events_]
    records the notifications it receives, in order. *)
From S2P Require Import Prelude Domain ObjectPool DList BookSpec OrderList SideBook.

(** ** [OrderLookup]: an [unordered_map] from order ids to live orders *)
Definition lookup_find (id : Z) (m : gmap Z Z) : ptr := m !! id.
Definition lookup_insert (id order : Z) (m : gmap Z Z) : gmap Z Z := <[id := order]> m.
Definition lookup_erase (id : Z) (m : gmap Z Z) : gmap Z Z := delete id m.
Definition lookup_size (m : gmap Z Z) : nat := size m.

(** ** [IOrderBookListener] *)
Inductive BookEvent :=
| on_order_inserted (order : LiveOrder)
| on_order_cancelled (order : LiveOrder)
| on_order_filled (order : LiveOrder) (filled_qty : Z)
| on_price_level_created (price : Z) (s : Side)
| on_price_level_removed (price : Z) (s : Side).

Record LimitOrderBook := MkLob {
  listener_ : bool; events_ : list BookEvent;
  bids_ : SideBook; asks_ : SideBook; lookup_ : gmap Z Z;
  level_pool_ : LevelPool; order_pool_ : OrderPool }.

Definition LimitOrderBook_init (listener : bool) : LimitOrderBook :=
  MkLob listener [] SideBook_init SideBook_init ∅ (ObjectPool_init LEVELS) (ObjectPool_init ORDERS).

Definition notify (e : BookEvent) (b : LimitOrderBook) : LimitOrderBook :=
  if listener_ b
  then MkLob (listener_ b) (events_ b ++ [e]) (bids_ b) (asks_ b) (lookup_ b) (level_pool_ b) (order_pool_ b)
  else b.
Definition set_bids (s : SideBook) (b : LimitOrderBook) : LimitOrderBook :=
  MkLob (listener_ b) (events_ b) s (asks_ b) (lookup_ b) (level_pool_ b) (order_pool_ b).
Definition set_asks (s : SideBook) (b : LimitOrderBook) : LimitOrderBook :=
  MkLob (listener_ b) (events_ b) (bids_ b) s (lookup_ b) (level_pool_ b) (order_pool_ b).
Definition set_lookup (m : gmap Z Z) (b : LimitOrderBook) : LimitOrderBook :=
  MkLob (listener_ b) (events_ b) (bids_ b) (asks_ b) m (level_pool_ b) (order_pool_ b).
Definition set_level_pool (p : LevelPool) (b : LimitOrderBook) : LimitOrderBook :=
  MkLob (listener_ b) (events_ b) (bids_ b) (asks_ b) (lookup_ b) p (order_pool_ b).
Definition set_order_pool (p : OrderPool) (b : LimitOrderBook) : LimitOrderBook :=
  MkLob (listener_ b) (events_ b) (bids_ b) (asks_ b) (lookup_ b) (level_pool_ b) p.
Definition levels (b : LimitOrderBook) : gmap Z PriceLevelNode := storage_ (level_pool_ b).
Definition orders (b : LimitOrderBook) : gmap Z LiveOrder := storage_ (order_pool_ b).
Definition set_levels (s : gmap Z PriceLevelNode) (b : LimitOrderBook) : LimitOrderBook :=
  set_level_pool (set_storage s (level_pool_ b)) b.
Definition set_orders (s : gmap Z LiveOrder) (b : LimitOrderBook) : LimitOrderBook :=
  set_order_pool (set_storage s (order_pool_ b)) b.

Definition default_order : LiveOrder := MkLiveOrder (MkOrderKey 0 0) 0 0 0 None None.

Definition find_order (id : Z) (b : LimitOrderBook) : ptr := lookup_find id (lookup_ b).
Definition best_bid_level (b : LimitOrderBook) : ptr := best_level_ (bids_ b).
Definition best_ask_level (b : LimitOrderBook) : ptr := best_level_ (asks_ b).
Definition best_bid (b : LimitOrderBook) : outcome Z :=
  if side_empty (bids_ b) then Ret 0 else n ← rd (levels b) (best_bid_level b); Ret (nd_price n).
Definition best_ask (b : LimitOrderBook) : outcome Z :=
  if side_empty (asks_ b) then Ret 0 else n ← rd (levels b) (best_ask_level b); Ret (nd_price n).

(** Locate or create the price level of an order (step 3 of [insert]). *)
Definition bid_level_for (p : Z) (b : LimitOrderBook) : outcome (Z * LimitOrderBook) :=
  match find_level p (bids_ b) with
  | Some level => Ret (level, b)
  | None =>
      '(level, bids, pool) ← BidBook_create_level p (bids_ b) (level_pool_ b);
      Ret (level, notify (on_price_level_created p Buy) (set_level_pool pool (set_bids bids b)))
  end.
Definition ask_level_for (p : Z) (b : LimitOrderBook) : outcome (Z * LimitOrderBook) :=
  match find_level p (asks_ b) with
  | Some level => Ret (level, b)
  | None =>
      '(level, asks, pool) ← AskBook_create_level p (asks_ b) (level_pool_ b);
      Ret (level, notify (on_price_level_created p Sell) (set_level_pool pool (set_asks asks b)))
  end.

(** Append an allocated order to its level (steps 4 and 5 of [insert]). *)
Definition enqueue (live level q : Z) (b : LimitOrderBook) : outcome LimitOrderBook :=
  n ← rd (levels b) (Some level);
  '(l, os) ← append (Some live) (nd_orders n) (orders b);
  ls ← upd (levels b) (Some level) (nd_set_orders l);
  ls ← upd ls (Some level) (fun n => nd_set_qty (Quantity.add (nd_total_qty n) q) n);
  ls ← upd ls (Some level) (fun n => nd_set_count (u32 (nd_order_count n + 1)) n);
  o ← rd os (Some live);
  Ret (notify (on_order_inserted o) (set_levels ls (set_orders os b))).

Definition insert (order : Order) (priority_seq : Z) (b : LimitOrderBook)
    : outcome (Z * LimitOrderBook) :=
  noexcept (
    '(live, pool) ← allocate default_order (order_pool_ b);
    os ← upd (storage_ pool) (Some live) (fun _ =>
           MkLiveOrder (MkOrderKey (symbol_id order) (order_id order)) (price order) (qty order)
             priority_seq None None);
    let b := set_order_pool (set_storage os pool) b in
    let b := set_lookup (lookup_insert (order_id order) live (lookup_ b)) b in
    '(level, b) ← (if decide (side order = Buy) then bid_level_for (price order) b
                   else ask_level_for (price order) b);
    b ← enqueue live level (qty order) b;
    Ret (live, b)).

(** The level of a resting order: looked up by price in the bids, then in the asks. *)
Definition level_of (p : Z) (b : LimitOrderBook) : ptr * Side :=
  match find_level p (bids_ b) with
  | Some level => (Some level, Buy)
  | None => (find_level p (asks_ b), Sell)
  end.

Definition unlink_order (order level : ptr) (b : LimitOrderBook) : outcome LimitOrderBook :=
  n ← rd (levels b) level;
  '(l, os) ← remove order (nd_orders n) (orders b);
  ls ← upd (levels b) level (nd_set_orders l);
  Ret (set_levels ls (set_orders os b)).

Definition level_add_qty (level : ptr) (d : Z) (b : LimitOrderBook) : outcome LimitOrderBook :=
  ls ← upd (levels b) level (fun n => nd_set_qty (u64 (nd_total_qty n + d)) n);
  Ret (set_levels ls b).
Definition level_decrement (level : ptr) (b : LimitOrderBook) : outcome LimitOrderBook :=
  ls ← upd (levels b) level (fun n => nd_set_count (u32 (nd_order_count n - 1)) n);
  Ret (set_levels ls b).

(** Clean up an empty price level. *)
Definition reap_level (level : ptr) (s : Side) (p : Z) (b : LimitOrderBook) : outcome LimitOrderBook :=
  n ← rd (levels b) level;
  if node_empty n then
    b ← (if decide (s = Buy) then
           '(sb, pool) ← BidBook_remove_level level (bids_ b) (level_pool_ b);
           Ret (set_level_pool pool (set_bids sb b))
         else
           '(sb, pool) ← AskBook_remove_level level (asks_ b) (level_pool_ b);
           Ret (set_level_pool pool (set_asks sb b)));
    Ret (notify (on_price_level_removed p s) b)
  else Ret b.

(** Drop the order from the lookup map and return its slot to the pool. *)
Definition release (id order : Z) (b : LimitOrderBook) : LimitOrderBook :=
  set_order_pool (deallocate ORDERS (Some order) (order_pool_ b))
    (set_lookup (lookup_erase id (lookup_ b)) b).

Definition cancel (id : Z) (b : LimitOrderBook) : outcome (bool * LimitOrderBook) :=
  match lookup_find id (lookup_ b) with
  | None => Ret (false, b)
  | Some order =>
      o ← rd (orders b) (Some order);
      let '(level, s) := level_of (lo_price o) b in
      _ ← assert_ (bool_decide (level <> None));
      b ← unlink_order (Some order) level b;
      o ← rd (orders b) (Some order);
      b ← level_add_qty level (- lo_remaining_qty o) b;
      b ← level_decrement level b;
      let b := notify (on_order_cancelled o) b in
      b ← reap_level level s (lo_price o) b;
      Ret (true, release id order b)
  end.

Definition modify_qty (id new_qty priority_seq : Z) (b : LimitOrderBook)
    : outcome (bool * LimitOrderBook) :=
  match lookup_find id (lookup_ b) with
  | None => Ret (false, b)
  | Some order =>
      o ← rd (orders b) (Some order);
      let '(level, _) := level_of (lo_price o) b in
      _ ← assert_ (bool_decide (level <> None));
      if new_qty <? lo_remaining_qty o then
        b ← level_add_qty level (- Quantity.sub (lo_remaining_qty o) new_qty) b;
        os ← upd (orders b) (Some order) (lo_set_qty new_qty);
        Ret (true, set_orders os b)
      else if new_qty >? lo_remaining_qty o then
        b ← level_add_qty level (Quantity.sub new_qty (lo_remaining_qty o)) b;
        os ← upd (orders b) (Some order) (lo_set_qty new_qty);
        os ← upd os (Some order) (lo_set_seq priority_seq);
        b ← unlink_order (Some order) level (set_orders os b);
        n ← rd (levels b) level;
        '(l, os) ← append (Some order) (nd_orders n) (orders b);
        ls ← upd (levels b) level (nd_set_orders l);
        Ret (true, set_levels ls (set_orders os b))
      else Ret (true, b)
  end.

Definition fill_order (order : ptr) (filled_qty : Z) (b : LimitOrderBook) : outcome LimitOrderBook :=
  match order with
  | None => Undefined
  | Some a =>
      o ← rd (orders b) order;
      _ ← assert_ (filled_qty <=? lo_remaining_qty o);
      let '(level, s) := level_of (lo_price o) b in
      _ ← assert_ (bool_decide (level <> None));
      b ← level_add_qty level (- filled_qty) b;
      os ← upd (orders b) order (fun o => lo_set_qty (Quantity.sub (lo_remaining_qty o) filled_qty) o);
      let b := set_orders os b in
      o ← rd (orders b) order;
      let b := notify (on_order_filled o filled_qty) b in
      if lo_remaining_qty o =? 0 then
        b ← unlink_order order level b;
        b ← level_decrement level b;
        b ← reap_level level s (lo_price o) b;
        Ret (release (key_order_id (lo_key o)) a b)
      else Ret b
  end.

Definition clear (b : LimitOrderBook) : outcome LimitOrderBook :=
  '(bids, lp, op) ← BidBook_clear (bids_ b) (level_pool_ b) (order_pool_ b);
  '(asks, lp, op) ← AskBook_clear (asks_ b) lp op;
  Ret (MkLob (listener_ b) (events_ b) bids asks ∅ lp op).

Definition verify_invariants (b : LimitOrderBook) : outcome unit :=
  _ ← BidBook_verify (bids_ b) (levels b);
  AskBook_verify (asks_ b) (levels b).
