(* ===== verification/BookRefine.v ===== *)
(** * The limit order book refines its abstract specification

    [rep_at s b As Ao B]: the pointer structure of [b], seen from side [s], stands
    for the abstract book [B]; [As] and [Ao] are the shapes of side [s] and of the
    other one.  [abs b B] hides the shapes.  Every operation of [LimitOrderBook]
    started in a represented state returns (no dangling pointer is followed, no
    assertion fails) and ends in a state that represents the result of the
    abstract operation. *)
From S2P Require Import Prelude Domain ObjectPool DList BookSpec OrderList SideBook OrderBook.

(** ** Component projections of the updated states *)
Lemma notify_levels e b : levels (notify e b) = levels b.
Proof. unfold notify. by destruct (listener_ b). Qed.
Lemma notify_orders e b : orders (notify e b) = orders b.
Proof. unfold notify. by destruct (listener_ b). Qed.
Lemma notify_bids e b : bids_ (notify e b) = bids_ b.
Proof. unfold notify. by destruct (listener_ b). Qed.
Lemma notify_asks e b : asks_ (notify e b) = asks_ b.
Proof. unfold notify. by destruct (listener_ b). Qed.
Lemma notify_lookup e b : lookup_ (notify e b) = lookup_ b.
Proof. unfold notify. by destruct (listener_ b). Qed.
Lemma notify_level_pool e b : level_pool_ (notify e b) = level_pool_ b.
Proof. unfold notify. by destruct (listener_ b). Qed.
Lemma notify_order_pool e b : order_pool_ (notify e b) = order_pool_ b.
Proof. unfold notify. by destruct (listener_ b). Qed.
Create HintDb lob.
#[export] Hint Rewrite notify_levels notify_orders notify_bids notify_asks notify_lookup
  notify_level_pool notify_order_pool : lob.

(** ** Addresses in use *)
Definition covers {T} (h : gmap Z T) (ps : list Z) : Prop :=
  NoDup ps /\ forall a, is_Some (h !! a) <-> a ∈ ps.

Section covers.
Context {T : Type}.
Implicit Types h : gmap Z T.
Lemma covers_perm h ps qs : ps ≡ₚ qs -> covers h ps -> covers h qs.
Proof. intros P [ND C]. split; [by rewrite <-P|]. intros a. by rewrite <-P. Qed.
Lemma covers_dom h h' ps : dom h' = dom h -> covers h ps -> covers h' ps.
Proof. intros D [ND C]. split; [done|]. intros a. by rewrite <-elem_of_dom, D, elem_of_dom. Qed.
Lemma covers_insert h ps a v : h !! a = None -> covers h ps -> covers (<[a := v]> h) (a :: ps).
Proof.
  intros E [ND C]. split.
  - constructor; [|done]. rewrite <-C, E. by intros [? ?].
  - intros b. rewrite lookup_insert_is_Some, C, elem_of_cons. destruct (decide (a = b)); naive_solver.
Qed.
Lemma covers_delete h ps a : covers h (a :: ps) -> covers (delete a h) ps.
Proof.
  intros [[N ND]%NoDup_cons C]. split; [done|]. intros b.
  rewrite lookup_delete_is_Some, C, elem_of_cons. naive_solver.
Qed.
Lemma covers_insert_live h ps a v : is_Some (h !! a) -> covers h ps -> covers (<[a := v]> h) ps.
Proof. intros S. apply covers_dom. rewrite dom_insert_L. apply elem_of_dom in S. set_solver. Qed.
End covers.

(** ** Sides selected by a boolean: [true] for the bids *)
Definition side_at (s : bool) (b : LimitOrderBook) : SideBook := if s then bids_ b else asks_ b.
Definition side_name (s : bool) : Side := if s then Buy else Sell.
Record rep_core (s : bool) (b : LimitOrderBook) (As Ao : shape) (Ls Lo : list Level) : Prop := {
  rc_side : side_rep (levels b) (orders b) (side_at s b) As Ls;
  rc_other : side_rep (levels b) (orders b) (side_at (negb s) b) Ao Lo;
  rc_pool : pool_wf LEVELS (level_pool_ b);
  rc_cover : covers (levels b) (level_ptrs As ++ level_ptrs Ao);
  rc_orders : NoDup (order_ptrs As ++ order_ptrs Ao) }.

Record rep_at (s : bool) (b : LimitOrderBook) (As Ao : shape) (B : Book) : Prop := {
  ra_core : rep_core s b As Ao (spec_at s B) (spec_at (negb s) B);
  ra_wf : book_wf B;
  ra_pool : pool_wf ORDERS (order_pool_ b);
  ra_cover : covers (orders b) (order_ptrs As ++ order_ptrs Ao);
  ra_lookup : forall id p, lookup_ b !! id = Some p <->
                exists o, orders b !! p = Some o /\ key_order_id (lo_key o) = id }.

Definition abs (b : LimitOrderBook) (B : Book) : Prop := exists Ab Aa, rep_at true b Ab Aa B.

Lemma rep_core_flip s b As Ao Ls Lo : rep_core s b As Ao Ls Lo -> rep_core (negb s) b Ao As Lo Ls.
Proof.
  intros [S O P C N]. split; [done|by rewrite negb_involutive|done| |].
  - eapply covers_perm; [|exact C]. apply Permutation_app_comm.
  - by rewrite Permutation_app_comm.
Qed.
Lemma rep_at_flip s b As Ao B : rep_at s b As Ao B -> rep_at (negb s) b Ao As B.
Proof.
  intros [C W P V L]. split; [|done..| |done].
  - apply rep_core_flip in C. by rewrite negb_involutive.
  - eapply covers_perm; [|exact V]. apply Permutation_app_comm.
Qed.
Lemma abs_at s b B : abs b B <-> exists As Ao, rep_at s b As Ao B.
Proof.
  unfold abs. destruct s; [done|].
  split; intros (A1 & A2 & R); exists A2, A1; by apply rep_at_flip in R.
Qed.

(** ** Editing a level of a represented state *)
Lemma core_edit s b b' A1 a ops ops' A2 Ao L1 L L' L2 Lo n n' :
  rep_core s b (A1 ++ (a, ops) :: A2) Ao (L1 ++ L :: L2) Lo -> length A1 = length L1 ->
  levels b !! a = Some n -> same_links n n' ->
  bids_ b' = bids_ b -> asks_ b' = asks_ b ->
  level_pool_ b' = set_storage (<[a := n']> (levels b)) (level_pool_ b) ->
  (forall p, p ∈ order_ptrs A1 ++ order_ptrs A2 ++ order_ptrs Ao -> orders b' !! p = orders b !! p) ->
  NoDup (order_ptrs A1 ++ ops' ++ order_ptrs A2 ++ order_ptrs Ao) ->
  lv_price L' = lv_price L -> level_rep (levels b') (orders b') (a, ops') L' ->
  rep_core s b' (A1 ++ (a, ops') :: A2) Ao (L1 ++ L' :: L2) Lo.
Proof.
  intros [S O P C N] E En SL Eb Ea Ep Eo N' Pr R.
  assert (levels b' = <[a := n']> (levels b)) as El by (unfold levels at 1; by rewrite Ep).
  assert (forall t, side_at t b' = side_at t b) as Es by (intros []; simpl; congruence).
  destruct C as [NC C]. autorewrite with shape in *. simpl in *.
  pose proof NC as (NCs & Fs & _)%NoDup_app.
  split.
  - rewrite Es. eapply side_edit; try done.
    + by autorewrite with shape.
    + intros p Hp. apply Eo. set_solver.
  - rewrite Es. eapply side_rep_frame; [| |exact O].
    + intros c Hc. rewrite El, lookup_insert_ne; [done|]. intros <-. eapply Fs; [|exact Hc]. set_solver.
    + intros p Hp. apply Eo. set_solver.
  - rewrite Ep. apply pool_wf_storage; [done|]. rewrite dom_insert_L.
    assert (a ∈ dom (storage_ (level_pool_ b))) by (by apply elem_of_dom; exists n). set_solver.
  - autorewrite with shape. simpl. rewrite El. apply covers_insert_live; [by exists n|]. done.
  - autorewrite with shape. simpl. by rewrite <-!app_assoc.
Qed.

Lemma core_orders s b A1 a ops A2 Ao Ls Lo :
  rep_core s b (A1 ++ (a, ops) :: A2) Ao Ls Lo ->
  NoDup (order_ptrs A1 ++ ops ++ order_ptrs A2 ++ order_ptrs Ao) /\
  forall q, q ∈ order_ptrs A1 ++ order_ptrs A2 ++ order_ptrs Ao -> q ∉ ops.
Proof.
  intros [_ _ _ _ N]. autorewrite with shape in N. simpl in N.
  replace ((order_ptrs A1 ++ ops ++ order_ptrs A2) ++ order_ptrs Ao)
    with (order_ptrs A1 ++ ops ++ order_ptrs A2 ++ order_ptrs Ao) in N by (by rewrite <-!app_assoc).
  split; [done|]. apply NoDup_app in N as (_ & F1 & (_ & F2 & _)%NoDup_app). set_solver.
Qed.

(** ** Cleaning up an empty level *)
Definition keep_shape (x : Z * list Z) : shape := match x.2 with [] => [] | _ => [x] end.

(** The book without the level [a], whose node was unlinked and deallocated. *)
Lemma core_drop_level s b A1 a A2 Ao L1 L L2 Lo ls' sb' :
  rep_core s b (A1 ++ (a, []) :: A2) Ao (L1 ++ L :: L2) Lo ->
  ls' = put_prev (put_next (levels b) (last (level_ptrs A1)) (head (level_ptrs A2))) (head (level_ptrs A2)) (last (level_ptrs A1)) ->
  side_rep (delete a ls') (orders b) sb' (A1 ++ A2) (L1 ++ L2) ->
  let pool' := deallocate LEVELS (Some a) (set_storage ls' (level_pool_ b)) in
  rep_core s (if s then set_level_pool pool' (set_bids sb' b) else set_level_pool pool' (set_asks sb' b))
    (A1 ++ A2) Ao (L1 ++ L2) Lo.
Proof.
  intros [S O P C N] Els SR pool'. autorewrite with shape in *. simpl in *. destruct C as [NC C].
  pose proof NC as (NCs & Fs & _)%NoDup_app.
  assert (dom ls' = dom (levels b)) as Dl by (rewrite Els; by rewrite dom_put_prev, dom_put_next).
  assert (is_Some (levels b !! a)) as Sa by (apply C; set_solver).
  assert (is_Some (ls' !! a)) as [n' En'] by (rewrite <-elem_of_dom, Dl, elem_of_dom; exact Sa).
  assert (pool_wf LEVELS (set_storage ls' (level_pool_ b))) as P' by (by apply pool_wf_storage).
  assert (storage_ pool' = delete a ls') as Es by (unfold pool'; by rewrite (deallocate_live_eq LEVELS _ a n')).
  set (b' := if s then _ else _).
  assert (levels b' = delete a ls') as El' by (rewrite <-Es; by destruct s).
  assert (orders b' = orders b) as Eo' by (by destruct s).
  split; autorewrite with shape; rewrite ?El', ?Eo'.
  - assert (side_at s b' = sb') as -> by (by destruct s). exact SR.
  - assert (side_at (negb s) b' = side_at (negb s) b) as -> by (by destruct s).
    eapply side_rep_frame; [|done|exact O]. intros c Hc.
    rewrite lookup_delete_ne by (intros ->; eapply Fs; [|exact Hc]; set_solver).
    rewrite Els, put_prev_ne, put_next_ne; [done| |].
    + intros H%last_Some_elem_of. eapply Fs; [|exact Hc]. set_solver.
    + intros H%head_Some_elem_of. eapply Fs; [|exact Hc]. set_solver.
  - assert (level_pool_ b' = pool') as -> by (by destruct s). by eapply deallocate_wf.
  - apply covers_delete. eapply covers_dom; [exact Dl|]. eapply covers_perm; [|exact (conj NC C)].
    by rewrite <-Permutation_middle.
  - done.
Qed.

Lemma reap_level_spec s b A1 a ops A2 Ao L1 L L2 Lo p :
  rep_core s b (A1 ++ (a, ops) :: A2) Ao (L1 ++ L :: L2) Lo -> length A1 = length L1 ->
  NoDup (map lv_price (L1 ++ L :: L2)) ->
  exists b', reap_level (Some a) (side_name s) p b = Ret b' /\
    rep_core s b' (A1 ++ keep_shape (a, ops) ++ A2) Ao (L1 ++ keep_level (lv_orders L) L ++ L2) Lo /\
    orders b' = orders b /\ order_pool_ b' = order_pool_ b /\ lookup_ b' = lookup_ b.
Proof.
  intros RC E NP. pose proof RC as [S O P C N].
  destruct (Forall2_app_inv _ _ _ _ _ E (sr_levels _ _ _ _ _ S)) as [_ [R _]%Forall2_cons_1].
  destruct R as (l & V & (Hh & Ht & _ & _) & Ro). simpl in V, Hh, Ro.
  destruct (levels b !! a) as [n|] eqn:En; [|done]. simpl in V. injection V as Ep Eq Ec El.
  unfold reap_level. rewrite (rd_Some _ _ _ En), bind_Ret. 
  assert (node_empty n = match ops with [] => true | _ => false end) as ->
    by (unfold node_empty, list_empty; rewrite El, Hh; by destruct ops).
  unfold keep_shape. simpl. destruct ops as [|p0 ops]; simpl.
  2: { exists b.
       apply Forall2_cons_inv_l in Ro as (r & rs & _ & _ & Elo).
       unfold keep_level. rewrite Elo. simpl. rewrite <-Elo, with_orders_id. done. }
  apply Forall2_nil_inv_l in Ro as ELo. rewrite ELo. simpl.
  pose proof S as [SB SD _ _]. autorewrite with shape in *. simpl in *. destruct C as [NC C].
  pose proof NC as (NCs & _ & _)%NoDup_app.
  pose proof (remove_level_Ret _ (level_pool_ b) _ a _ n SD NCs SB En) as RM.
  pose proof (side_remove _ _ _ _ _ _ _ _ _ _ S E) as SR. autorewrite with shape in SR.
  specialize (SR NCs NP). simpl in SR. rewrite <-Ep in SR.
  pose proof (core_drop_level s b A1 a A2 Ao L1 L L2 Lo _ _ RC eq_refl SR) as RC'. cbv zeta in RC'.
  set (b' := if s then _ else _) in RC'.
  exists (notify (on_price_level_removed p (side_name s)) b'). split.
  - unfold BidBook_remove_level, AskBook_remove_level. destruct s; simpl; simpl in RM; rewrite RM; done.
  - split; [|autorewrite with lob; by destruct s].
    destruct RC' as [? ? ? ? ?]. split; autorewrite with lob; try done;
      unfold side_at in *; destruct s; simpl in *; by autorewrite with lob.
Qed.

(** ** Orders of a level *)
Lemma orders_rep_view os os' ps rs :
  resting_view <$> os' = resting_view <$> os -> orders_rep os ps rs -> orders_rep os' ps rs.
Proof.
  intros V F. eapply Forall2_impl_mem; [exact F|]. intros p r _ E.
  by rewrite <-lookup_fmap, V, lookup_fmap.
Qed.

Lemma orders_rep_frame os os' ps rs :
  (forall p, p ∈ ps -> os' !! p = os !! p) -> orders_rep os ps rs -> orders_rep os' ps rs.
Proof. intros E F. eapply Forall2_impl_mem; [exact F|]. intros p r Hp Ep. by rewrite E. Qed.

Lemma orders_rep_update os o1 p o2 q1 r q2 o' :
  NoDup (o1 ++ p :: o2) -> orders_rep os (o1 ++ p :: o2) (q1 ++ r :: q2) -> length o1 = length q1 ->
  orders_rep (<[p := o']> os) (o1 ++ p :: o2) (q1 ++ resting_view o' :: q2).
Proof.
  intros (_ & F & [N _]%NoDup_cons)%NoDup_app R E.
  apply Forall2_app_inv in R as [R1 [_ R2]%Forall2_cons_1]; [|done].
  apply Forall2_join.
  - eapply orders_rep_frame; [|exact R1]. intros q Hq. rewrite lookup_insert_ne; [done|]. set_solver.
  - by rewrite lookup_insert_eq.
  - eapply orders_rep_frame; [|exact R2]. intros q Hq. rewrite lookup_insert_ne; [done|]. set_solver.
Qed.

Lemma list_rep_update os l ps p o o' :
  list_rep os l ps -> os !! p = Some o -> same_links o o' -> list_rep (<[p := o']> os) l ps.
Proof.
  intros (Hh & Ht & ND & D) E S. split_and!; [done..|].
  by apply (dlseg_alter os None ps None p (fun _ => o') o).
Qed.

Lemma orders_rep_lookup os ps rs p : orders_rep os ps rs -> p ∈ ps -> is_Some (os !! p).
Proof.
  intros R (l1 & l2 & ->)%list_elem_of_split. apply Forall2_split_l in R as (? & r & ? & -> & _ & E & _).
  destruct (os !! p); [eauto|done].
Qed.

(** The position of a live order: its side, its level and its place in the queue. *)
Record located (s : bool) (b : LimitOrderBook) (Ls : list Level) (p : Z) (o : LiveOrder)
    (A1 : shape) (a : Z) (o1 o2 : list Z) (A2 : shape)
    (L1 : list Level) (L : Level) (q1 q2 : list Resting) (L2 : list Level) : Prop := {
  lc_spec : Ls = L1 ++ L :: L2;
  lc_lenA : length A1 = length L1;
  lc_queue : lv_orders L = q1 ++ resting_view o :: q2;
  lc_lenO : length o1 = length q1;
  lc_order : orders b !! p = Some o }.

Lemma locate_in s b As Ao B p o :
  rep_at s b As Ao B -> orders b !! p = Some o -> p ∈ order_ptrs As ->
  exists A1 a o1 o2 A2 L1 L q1 q2 L2, As = A1 ++ (a, o1 ++ p :: o2) :: A2 /\
    located s b (spec_at s B) p o A1 a o1 o2 A2 L1 L q1 q2 L2.
Proof.
  intros R E (x & (y & -> & Hy)%list_elem_of_fmap & Hp)%elem_of_concat.
  apply list_elem_of_split in Hy as (A1 & A2 & ->). destruct y as [a ops]. simpl in Hp.
  apply list_elem_of_split in Hp as (o1 & o2 & ->).
  pose proof (sr_levels _ _ _ _ _ (rc_side _ _ _ _ _ _ (ra_core _ _ _ _ _ R))) as F.
  apply Forall2_split_l in F as (L1 & L & L2 & EL & F1 & (l & _ & _ & Ro) & _). simpl in Ro.
  apply Forall2_split_l in Ro as (q1 & r & q2 & Eq & Q1 & Er & _).
  rewrite E in Er. simpl in Er. injection Er as <-.
  exists A1, a, o1, o2, A2, L1, L, q1, q2, L2. split; [done|].
  split; [done|by eapply Forall2_length|done|by eapply Forall2_length|done].
Qed.

Lemma locate b B id p :
  abs b B -> lookup_ b !! id = Some p ->
  exists s A1 a o1 o2 A2 Ao o L1 L q1 q2 L2,
    rep_at s b (A1 ++ (a, o1 ++ p :: o2) :: A2) Ao B /\ r_id (resting_view o) = id /\
    located s b (spec_at s B) p o A1 a o1 o2 A2 L1 L q1 q2 L2.
Proof.
  intros (Ab & Aa & R) (o & E & Ei)%(ra_lookup _ _ _ _ _ R).
  assert (p ∈ order_ptrs Ab ++ order_ptrs Aa) as Hp.
  { apply (proj2 (ra_cover _ _ _ _ _ R)). eauto. }
  apply elem_of_app in Hp as [Hp|Hp].
  - destruct (locate_in _ _ _ _ _ _ _ R E Hp) as (A1 & a & o1 & o2 & A2 & L1 & L & q1 & q2 & L2 & -> & C).
    by exists true, A1, a, o1, o2, A2, Aa, o, L1, L, q1, q2, L2.
  - apply rep_at_flip in R.
    destruct (locate_in _ _ _ _ _ _ _ R E Hp) as (A1 & a & o1 & o2 & A2 & L1 & L & q1 & q2 & L2 & -> & C).
    by exists false, A1, a, o1, o2, A2, Ab, o, L1, L, q1, q2, L2.
Qed.

Lemma side_orders_live os ls A Ls r :
  Forall2 (level_rep ls os) A Ls -> r ∈ side_orders Ls ->
  exists p o, p ∈ order_ptrs A /\ os !! p = Some o /\ resting_view o = r.
Proof.
  intros F (x & (L & -> & HL)%list_elem_of_fmap & Hr)%elem_of_concat.
  apply list_elem_of_split in HL as (L1 & L2 & ->).
  apply Forall2_split_r in F as (A1 & [a ops] & A2 & -> & _ & (l & _ & _ & Ro) & _). simpl in Ro.
  apply list_elem_of_split in Hr as (q1 & q2 & Eq). rewrite Eq in Ro.
  apply Forall2_split_r in Ro as (o1 & p & o2 & -> & _ & E & _).
  destruct (os !! p) as [o|] eqn:Eo; [|done]. exists p, o.
  split; [|split; [done|by injection E]].
  autorewrite with shape. simpl. set_solver.
Qed.

Lemma lookup_None_spec b B id :
  abs b B -> lookup_ b !! id = None -> id ∉ map r_id (book_orders B).
Proof.
  intros (Ab & Aa & R) E (r & -> & Hr)%list_elem_of_fmap.
  rewrite book_orders_eq in Hr. pose proof (ra_core _ _ _ _ _ R) as [S O _ _ _].
  assert (exists p o, orders b !! p = Some o /\ resting_view o = r) as (p & o & Eo & <-).
  { apply elem_of_app in Hr as [Hr|Hr].
    - destruct (side_orders_live _ _ _ _ _ (sr_levels _ _ _ _ _ S) Hr) as (p & o & _ & ? & ?). eauto.
    - destruct (side_orders_live _ _ _ _ _ (sr_levels _ _ _ _ _ O) Hr) as (p & o & _ & ? & ?). eauto. }
  assert (lookup_ b !! key_order_id (lo_key o) = Some p) as E'
    by (apply (ra_lookup _ _ _ _ _ R); eauto).
  unfold r_id in E. simpl in E. congruence.
Qed.

Lemma located_id b B s p o A1 a o1 o2 A2 L1 L q1 q2 L2 :
  located s b (spec_at s B) p o A1 a o1 o2 A2 L1 L q1 q2 L2 ->
  r_id (resting_view o) ∈ map r_id (lv_orders L) /\ r_id (resting_view o) ∈ map r_id (book_orders B).
Proof.
  intros [E _ Q _ _].
  assert (r_id (resting_view o) ∈ map r_id (lv_orders L)) as I
    by (rewrite Q, map_app; simpl; set_solver).
  split; [done|]. rewrite (spec_at_orders s), E. autorewrite with book. rewrite !map_app. set_solver.
Qed.

Lemma located_price b B s p o A1 a o1 o2 A2 L1 L q1 q2 L2 :
  located s b (spec_at s B) p o A1 a o1 o2 A2 L1 L q1 q2 L2 -> book_wf B -> lo_price o = lv_price L.
Proof.
  intros [E _ Q _ _] W. pose proof (spec_at_levels s B W) as F. rewrite E in F.
  apply Forall_app in F as [_ [[_ F] _]%Forall_cons]. rewrite Q in F.
  apply Forall_app in F as [_ [[P _] _]%Forall_cons]. done.
Qed.

(** [level_of] finds the level an order rests in: prices are unique across the two sides. *)
Lemma level_of_at s b A1 a ops A2 Ao B L1 L L2 :
  rep_at s b (A1 ++ (a, ops) :: A2) Ao B -> spec_at s B = L1 ++ L :: L2 -> length A1 = length L1 ->
  level_of (lv_price L) b = (Some a, side_name s).
Proof.
  intros [C W _ _ _] E EL. pose proof C as [S O _ _ _]. rewrite E in S, C.
  pose proof (find_level_at _ _ _ _ _ _ _ _ _ _ S EL) as F. unfold level_of.
  destruct s; simpl in F; [by rewrite F|].
  destruct (find_level (lv_price L) (bids_ b)) as [c|] eqn:Fb; [|by rewrite F].
  destruct (find_level_Some _ _ _ _ _ _ _ O Fb) as (? & ? & ? & K1 & K & K2 & _ & E2 & _ & P).
  exfalso. apply (spec_at_disjoint false B (lv_price L) W); [rewrite E|rewrite E2, <-P];
    rewrite map_app; simpl; set_solver.
Qed.

(** Unlinking an order from its level's queue. *)
Lemma unlink_spec s b A1 a o1 p o2 A2 Ao L1 L L2 Lo :
  rep_core s b (A1 ++ (a, o1 ++ p :: o2) :: A2) Ao (L1 ++ L :: L2) Lo -> length A1 = length L1 ->
  exists n l os, levels b !! a = Some n /\
    nd_price n = lv_price L /\ nd_total_qty n = u64 (level_qty L) /\
    nd_order_count n = u32 (Z.of_nat (length (lv_orders L))) /\
    unlink_order (Some p) (Some a) b =
      Ret (set_levels (<[a := nd_set_orders l n]> (levels b)) (set_orders os b)) /\
    list_rep os l (o1 ++ o2) /\ relinked (o1 ++ p :: o2) (orders b) os /\
    orders_rep (orders b) (o1 ++ p :: o2) (lv_orders L).
Proof.
  intros [S _ _ _ _] E.
  destruct (Forall2_app_inv _ _ _ _ _ E (sr_levels _ _ _ _ _ S)) as [_ [R _]%Forall2_cons_1].
  destruct R as (l & V & Rl & Ro). simpl in V, Rl, Ro.
  destruct (levels b !! a) as [n|] eqn:En; [|done]. simpl in V. injection V as Ep Eq Ec El.
  rewrite <-El in Rl. destruct (remove_spec _ _ _ _ _ Rl) as (l' & os & Er & Rl' & Re).
  exists n, l', os. split_and!; [done..| |done|done|done].
  unfold unlink_order. rewrite (rd_Some _ _ _ En), bind_Ret, Er, bind_Ret.
  by rewrite (upd_Some _ _ _ _ En), bind_Ret.
Qed.

Lemma order_ptrs_keep a ops : order_ptrs (keep_shape (a, ops)) = ops.
Proof. destruct ops; [done|]. unfold keep_shape, order_ptrs. simpl. by rewrite app_nil_r. Qed.

Lemma core_frame_orders s b b' As Ao Ls Lo :
  rep_core s b As Ao Ls Lo ->
  bids_ b' = bids_ b -> asks_ b' = asks_ b -> level_pool_ b' = level_pool_ b ->
  (forall p, p ∈ order_ptrs As ++ order_ptrs Ao -> orders b' !! p = orders b !! p) ->
  rep_core s b' As Ao Ls Lo.
Proof.
  intros [S O P C N] Eb Ea El Eo.
  assert (levels b' = levels b) as Ell by (unfold levels; by rewrite El).
  assert (forall t, side_at t b' = side_at t b) as Es by (intros []; simpl; congruence).
  split; rewrite ?Es, ?El, ?Ell; try done.
  - eapply side_rep_frame; [done| |exact S]. intros. apply Eo. set_solver.
  - eapply side_rep_frame; [done| |exact O]. intros. apply Eo. set_solver.
Qed.

Lemma spec_at_cancel s id B : spec_at s (spec_cancel id B) = drop_id id (spec_at s B).
Proof. by destruct s. Qed.

Lemma relinked_ids ps os os' id q :
  relinked ps os os' ->
  (exists o, os !! q = Some o /\ key_order_id (lo_key o) = id) <->
  (exists o, os' !! q = Some o /\ key_order_id (lo_key o) = id).
Proof.
  intros [V _]. apply (f_equal (lookup q)) in V. rewrite !lookup_fmap in V.
  destruct (os !! q) as [o|], (os' !! q) as [o'|]; simpl in V; [|done|done|naive_solver].
  assert (resting_view o' = resting_view o) as V' by congruence.
  pose proof (f_equal r_key V') as K. simpl in K.
  split; intros (k & Ek & <-); injection Ek as <-; eexists; (split; [done|]); congruence.
Qed.

(** The common end of [cancel] and of a complete fill. *)
Lemma finish_removal s b B A1 a o1 p o2 A2 Ao L1 L q1 r q2 L2 o pr :
  rep_core s b (A1 ++ (a, o1 ++ o2) :: A2) Ao (L1 ++ with_orders (q1 ++ q2) L :: L2)
    (spec_at (negb s) B) ->
  spec_at s B = L1 ++ L :: L2 -> length A1 = length L1 -> lv_orders L = q1 ++ r :: q2 ->
  book_wf B -> pool_wf ORDERS (order_pool_ b) ->
  covers (orders b) (order_ptrs (A1 ++ (a, o1 ++ p :: o2) :: A2) ++ order_ptrs Ao) ->
  (forall id q, lookup_ b !! id = Some q <->
     exists o, orders b !! q = Some o /\ key_order_id (lo_key o) = id) ->
  orders b !! p = Some o -> key_order_id (lo_key o) = r_id r ->
  exists b', reap_level (Some a) (side_name s) pr b = Ret b' /\
    rep_at s (release (r_id r) p b') (A1 ++ keep_shape (a, o1 ++ o2) ++ A2) Ao (spec_cancel (r_id r) B).
Proof.
  intros RC Es EL Eq W P C LK Eo Ei.
  pose proof (spec_at_prices s B W) as NP. rewrite Es in NP.
  destruct (reap_level_spec _ _ _ _ _ _ _ _ _ _ _ pr RC EL) as (b4 & -> & RC4 & O4 & P4 & K4).
  { rewrite map_app in *. done. }
  exists b4. split; [done|].
  assert (order_pool_ (release (r_id r) p b4) =
          MkPool (delete p (orders b)) (p :: free_list_ (order_pool_ b))) as EP.
  { unfold release. simpl. rewrite P4. by rewrite (deallocate_live_eq ORDERS _ p o). }
  assert (orders (release (r_id r) p b4) = delete p (orders b)) as EO by (unfold orders at 1; by rewrite EP).
  assert (covers (orders b) (p :: order_ptrs A1 ++ (o1 ++ o2) ++ order_ptrs A2 ++ order_ptrs Ao)) as C'.
  { eapply covers_perm; [|exact C]. autorewrite with shape. simpl.
    rewrite <-(Permutation_middle o1 o2 p), <-app_assoc. simpl. by rewrite <-Permutation_middle, <-!app_assoc. }
  pose proof (covers_delete _ _ _ C') as Cd.
  pose proof C' as [[Np _]%NoDup_cons _].
  pose proof (spec_at_ids s B W) as NI. rewrite Es in NI.
  assert (r_id r ∈ map r_id (side_orders (spec_at s B))) as Hin.
  { rewrite Es. autorewrite with book. rewrite Eq, !map_app. set_solver. }
  split; rewrite ?spec_at_cancel.
  - rewrite Es, (drop_id_split _ L1 L L2 q1 r q2); [|rewrite <-Es; by apply spec_at_levels|done..].
    rewrite drop_id_notin; [|by apply spec_at_levels|].
    2: { pose proof (wf_ids B W) as NB. rewrite (spec_at_orders s), map_app in NB.
         apply NoDup_app in NB as (_ & F & _). by apply F. }
    eapply core_frame_orders; [exact RC4|done..|].
    intros q Hq. rewrite EO, O4, lookup_delete_ne; [done|]. intros <-. apply Np.
    autorewrite with shape in Hq. rewrite order_ptrs_keep in Hq. set_solver.
  - by apply spec_cancel_wf.
  - unfold release. simpl. rewrite P4. by eapply deallocate_wf.
  - rewrite EO. autorewrite with shape. rewrite order_ptrs_keep, <-!app_assoc. by rewrite <-!app_assoc in Cd.
  - intros id q. rewrite EO. simpl. unfold lookup_erase. rewrite K4, lookup_delete_Some, LK. split.
    + intros (Nid & o' & E' & Ei'). exists o'. rewrite lookup_delete_ne; [done|]. intros <-. naive_solver.
    + intros (o' & [Nq E']%lookup_delete_Some & Ei'). split; [|eauto]. intros <-.
      apply Nq. pose proof (proj2 (LK _ _) (ex_intro _ o' (conj E' Ei'))).
      pose proof (proj2 (LK _ _) (ex_intro _ o (conj Eo Ei))). congruence.
Qed.

Lemma level_qty_split q1 r q2 L :
  lv_orders L = q1 ++ r :: q2 ->
  level_qty L = level_qty (with_orders (q1 ++ q2) L) + r_qty r /\
  Z.of_nat (length (lv_orders L)) = Z.of_nat (length (q1 ++ q2)) + 1.
Proof.
  intros E. unfold level_qty. rewrite E. simpl. rewrite !map_app, !sumZ_app, !length_app. simpl.
  rewrite sumZ_cons. lia.
Qed.

(** The state after an order was unlinked and its level's totals adjusted. *)
Lemma unlinked_core s b b3 A1 a o1 p o2 A2 Ao L1 L q1 r q2 L2 Lo n l os n3 :
  rep_core s b (A1 ++ (a, o1 ++ p :: o2) :: A2) Ao (L1 ++ L :: L2) Lo -> length A1 = length L1 ->
  lv_orders L = q1 ++ r :: q2 -> length o1 = length q1 ->
  levels b !! a = Some n -> list_rep os l (o1 ++ o2) -> relinked (o1 ++ p :: o2) (orders b) os ->
  orders_rep (orders b) (o1 ++ p :: o2) (lv_orders L) ->
  bids_ b3 = bids_ b -> asks_ b3 = asks_ b -> orders b3 = os ->
  level_pool_ b3 = set_storage (<[a := n3]> (levels b)) (level_pool_ b) -> same_links n n3 ->
  node_view n3 = (lv_price L, u64 (level_qty L - r_qty r),
                  u32 (Z.of_nat (length (lv_orders L)) - 1), l) ->
  rep_core s b3 (A1 ++ (a, o1 ++ o2) :: A2) Ao (L1 ++ with_orders (q1 ++ q2) L :: L2) Lo.
Proof.
  intros RC EL Eq Eo En Rl Re Ro Eb Ea EO EP SL V.
  destruct (core_orders _ _ _ _ _ _ _ _ _ RC) as [NO NQ].
  assert (levels b3 = <[a := n3]> (levels b)) as L3 by (unfold levels at 1; by rewrite EP).
  eapply (core_edit s b b3 A1 a (o1 ++ p :: o2) (o1 ++ o2) A2 Ao L1 L _ L2 _ n n3);
    [exact RC|done|done|done|done|done|done| | |done|].
  - intros q Hq. rewrite EO. apply Re. by apply NQ.
  - rewrite <-(Permutation_middle o1 o2 p) in NO. simpl in NO.
    rewrite <-Permutation_middle in NO. by apply NoDup_cons in NO as [_ NO].
  - exists l. rewrite L3, EO. simpl. rewrite lookup_insert_eq. split_and!; [|done|].
    + simpl. rewrite V. destruct (level_qty_split q1 r q2 L Eq) as [LQ LN].
      replace (level_qty L - r_qty r) with (level_qty (with_orders (q1 ++ q2) L)) by lia.
      replace (Z.of_nat (length (lv_orders L)) - 1) with (Z.of_nat (length (q1 ++ q2))) by lia. done.
    + simpl. rewrite Eq in Ro. apply Forall2_app_inv in Ro as [R1 [_ R2]%Forall2_cons_1]; [|done].
      eapply orders_rep_view; [apply Re|]. by apply Forall2_app.
Qed.

Lemma levels_set_levels m b : levels (set_levels m b) = m.
Proof. reflexivity. Qed.
Lemma orders_set_levels m b : orders (set_levels m b) = orders b.
Proof. reflexivity. Qed.
Lemma orders_set_orders m b : orders (set_orders m b) = m.
Proof. reflexivity. Qed.
Lemma levels_set_orders m b : levels (set_orders m b) = levels b.
Proof. reflexivity. Qed.
Lemma set_levels_twice m m' b : set_levels m' (set_levels m b) = set_levels m' b.
Proof. reflexivity. Qed.
#[export] Hint Rewrite levels_set_levels orders_set_levels orders_set_orders levels_set_orders
  set_levels_twice : lob.

Lemma level_add_qty_Ret a d b n :
  levels b !! a = Some n ->
  level_add_qty (Some a) d b = Ret (set_levels (<[a := nd_set_qty (u64 (nd_total_qty n + d)) n]> (levels b)) b).
Proof. intros E. unfold level_add_qty. by rewrite (upd_Some _ _ _ _ E), bind_Ret. Qed.
Lemma level_decrement_Ret a b n :
  levels b !! a = Some n ->
  level_decrement (Some a) b =
    Ret (set_levels (<[a := nd_set_count (u32 (nd_order_count n - 1)) n]> (levels b)) b).
Proof. intros E. unfold level_decrement. by rewrite (upd_Some _ _ _ _ E), bind_Ret. Qed.

Lemma spec_cancel_absent b B id :
  abs b B -> id ∉ map r_id (book_orders B) -> spec_cancel id B = B.
Proof.
  intros (Ab & Aa & R) N. pose proof (wf_levels B (ra_wf _ _ _ _ _ R)) as F.
  apply Forall_app in F as [Fb Fa]. rewrite book_orders_eq, map_app in N.
  unfold spec_cancel. rewrite !drop_id_notin by first [done|set_solver]. by destruct B.
Qed.

Lemma cancel_abs b B id :
  abs b B ->
  exists b', cancel id b = Ret (bool_decide (id ∈ map r_id (book_orders B)), b') /\
    abs b' (spec_cancel id B).
Proof.
  intros R. unfold cancel, lookup_find. destruct (lookup_ b !! id) as [p|] eqn:E.
  2: { pose proof (lookup_None_spec _ _ _ R E) as N. rewrite bool_decide_eq_false_2 by done.
       exists b. split; [done|]. by rewrite (spec_cancel_absent _ _ _ R N). }
  destruct (locate _ _ _ _ R E) as (s & A1 & a & o1 & o2 & A2 & Ao & o & L1 & L & q1 & q2 & L2 & RA & <- & LC).
  rewrite bool_decide_eq_true_2 by (by eapply located_id).
  pose proof (located_price _ _ _ _ _ _ _ _ _ _ _ _ _ _ _ LC (ra_wf _ _ _ _ _ RA)) as Ep.
  pose proof RA as [RC W P C LK]. pose proof LC as [Es EL Eq Eo Eop]. rewrite Es in RC.
  rewrite (rd_Some _ _ _ Eop), bind_Ret, Ep, (level_of_at _ _ _ _ _ _ _ _ _ _ _ RA Es EL).
  rewrite bool_decide_eq_true_2 by done. simpl assert_. rewrite bind_Ret.
  destruct (unlink_spec _ _ _ _ _ _ _ _ _ _ _ _ _ RC EL)
    as (n & l & os & En & Np & Nq & Nc & -> & Rl & Re & Ro).
  destruct (relinked_lookup _ _ _ _ _ Re Eop) as (o' & Eo' & Vo).
  pose proof (f_equal r_key Vo) as Vk. pose proof (f_equal r_price Vo) as Vp.
  pose proof (f_equal r_qty Vo) as Vq. simpl in Vk, Vp, Vq.
  rewrite bind_Ret. autorewrite with lob. rewrite (rd_Some _ _ _ Eo'), bind_Ret.
  erewrite level_add_qty_Ret by apply lookup_insert_eq. rewrite bind_Ret. autorewrite with lob.
  rewrite insert_insert_eq.
  erewrite level_decrement_Ret by apply lookup_insert_eq. rewrite bind_Ret. autorewrite with lob.
  rewrite insert_insert_eq, Vp.
  set (n3 := nd_set_count _ _). set (b3 := notify _ _).
  destruct (finish_removal s b3 B A1 a o1 p o2 A2 Ao L1 L q1 (resting_view o) q2 L2 o' (lo_price o))
    as (b' & -> & A'); unfold b3; autorewrite with lob; try done.
  - eapply (unlinked_core s b _ A1 a o1 p o2 A2 Ao L1 L q1 (resting_view o) q2 L2 _ n l os n3);
      autorewrite with lob; try done.
    unfold n3, node_view. simpl. rewrite Np, Nq, Nc, Vq. by autorewrite with machine.
  - apply pool_wf_storage; [done|]. by rewrite (relinked_dom _ _ _ Re).
  - eapply covers_dom; [by apply (relinked_dom _ _ _ Re)|done].
  - intros id q. simpl. rewrite LK. apply relinked_ids with (1 := Re).
  - unfold r_id. simpl. by rewrite Vk.
  - rewrite bind_Ret. eexists. split; [done|]. apply (abs_at s). eauto.
Qed.

(** ** Insertion *)
Definition level_for (s : bool) (p : Z) (b : LimitOrderBook) : outcome (Z * LimitOrderBook) :=
  if s then bid_level_for p b else ask_level_for p b.

Lemma level_for_found s p b a : find_level p (side_at s b) = Some a -> level_for s p b = Ret (a, b).
Proof. destruct s; simpl; unfold bid_level_for, ask_level_for; by intros ->. Qed.

Definition with_side (s : bool) (sb : SideBook) (pool : LevelPool) (b : LimitOrderBook) : LimitOrderBook :=
  set_level_pool pool (if s then set_bids sb b else set_asks sb b).

Lemma level_for_created s p b a sb pool :
  find_level p (side_at s b) = None ->
  create_level (before_at s) p (side_at s b) (level_pool_ b) = Ret (a, sb, pool) ->
  level_for s p b = Ret (a, notify (on_price_level_created p (side_name s)) (with_side s sb pool b)).
Proof.
  destruct s; simpl; unfold bid_level_for, ask_level_for, BidBook_create_level, AskBook_create_level;
    intros -> ->; done.
Qed.

Lemma core_notify s e b As Ao Ls Lo : rep_core s b As Ao Ls Lo -> rep_core s (notify e b) As Ao Ls Lo.
Proof.
  intros [S O P C N]. assert (forall t, side_at t (notify e b) = side_at t b) as Es
    by (intros []; simpl; by autorewrite with lob).
  split; rewrite ?Es; by autorewrite with lob.
Qed.

Lemma core_create s b As Ao Ls Lo p :
  rep_core s b As Ao Ls Lo -> sorted_by (before_at s) Ls -> p ∉ map lv_price Ls ->
  Z.of_nat (length Ls + length Lo) < LEVELS ->
  exists a sb pool A1 A2 L1 L2, As = A1 ++ A2 /\ Ls = L1 ++ L2 /\ length A1 = length L1 /\
    create_level (before_at s) p (side_at s b) (level_pool_ b) = Ret (a, sb, pool) /\
    rep_core s (with_side s sb pool b) (A1 ++ (a, []) :: A2) Ao (L1 ++ MkLevel p [] :: L2) Lo /\
    forall r, r_price r = p -> place (before_at s) r Ls = L1 ++ MkLevel p [r] :: L2.
Proof.
  intros [S O P C N] SO Np Room.
  destruct (place_new (before_at s) p Ls SO Np) as (L1 & L2 & -> & Epl & F1 & F2).
  pose proof (side_rep_length _ _ _ _ _ S) as EA. pose proof (side_rep_length _ _ _ _ _ O) as EO.
  assert (exists A1 A2, As = A1 ++ A2 /\ length A1 = length L1) as (A1 & A2 & -> & E1).
  { exists (take (length L1) As), (drop (length L1) As). rewrite take_drop, length_take.
    rewrite length_app in EA. split; [done|lia]. }
  assert (NoDup (level_ptrs (A1 ++ A2))) as ND by (destruct C as [C _]; by apply NoDup_app in C as (? & _)).
  destruct (pool_room LEVELS (level_pool_ b) _ P (proj1 C) (proj2 C)) as (a & rest & Ef).
  { unfold level_ptrs. rewrite length_app, !length_map, EO, EA. done. }
  assert (allocate default_node (level_pool_ b) =
          Ret (a, MkPool (<[a := default_node]> (levels b)) rest)) as Al
    by (apply allocate_Ret; eauto).
  destruct (allocate_wf LEVELS _ _ _ _ P Al) as (P1 & Na & _ & Es1).
  pose proof (create_level_Ret (before_at s) (side_at s b) _ _ (orders b) A1 A2 L1 L2 p a
                S E1 ND Na Al Es1 F1 F2) as CR.
  pose proof (side_create (before_at s) (levels b) (orders b) (side_at s b) A1 A2 L1 L2 p a _
                S E1 ND Na Np eq_refl) as SC.
  simpl in CR, SC. set (ls' := put_prev _ _ _) in *. eexists a, _, _, A1, A2, L1, L2.
  split_and!; [done|done|done|exact CR| |exact Epl].
  - assert (dom ls' = dom (<[a := default_node]> (levels b))) as Dl.
    { unfold ls'. by rewrite dom_put_prev, dom_put_next, !dom_insert_L. }
    set (pool' := set_storage ls' _). set (sb' := MkSide _ _) in *.
    assert (levels (with_side s sb' pool' b) = ls') as El by (by destruct s).
    assert (orders (with_side s sb' pool' b) = orders b) as Eo by (by destruct s).
    split; rewrite ?El, ?Eo.
    + assert (side_at s (with_side s sb' pool' b) = sb') as -> by (by destruct s). exact SC.
    + assert (side_at (negb s) (with_side s sb' pool' b) = side_at (negb s) b) as -> by (by destruct s).
      eapply side_rep_frame; [|done|exact O]. intros c Hc.
      destruct C as [NC C]. rewrite level_ptrs_app in NC. apply NoDup_app in NC as (_ & Fc & _).
      unfold ls'. rewrite put_prev_ne, put_next_ne, lookup_insert_ne; [done| | |].
      * intros ->. assert (is_Some (levels b !! c)) as [? ?] by (apply C; set_solver).
        unfold levels in *. congruence.
      * intros H%last_Some_elem_of. eapply Fc; [|exact Hc]. set_solver.
      * intros H%head_Some_elem_of. eapply Fc; [|exact Hc]. set_solver.
    + assert (level_pool_ (with_side s sb' pool' b) = pool') as -> by (by destruct s).
      apply pool_wf_storage; [done|]. by rewrite Dl.
    + autorewrite with shape. simpl. eapply covers_dom; [exact Dl|].
      rewrite level_ptrs_app in C. eapply covers_perm; [|by apply (covers_insert _ _ a _ Na C)].
      by rewrite <-app_assoc, Permutation_middle, <-app_assoc.
    + by autorewrite with shape in *.
Qed.

Lemma side_at_insert o b :
  (if decide (side o = Buy) then bid_level_for (price o) b else ask_level_for (price o) b) =
  level_for (bool_decide (side o = Buy)) (price o) b.
Proof. unfold level_for. case_bool_decide; by destruct (decide _). Qed.

Lemma level_for_spec s b As Ao Ls Lo p :
  rep_core s b As Ao Ls Lo -> sorted_by (before_at s) Ls ->
  p ∈ map lv_price Ls \/ Z.of_nat (length Ls + length Lo) < LEVELS ->
  exists a b1 A1 ops A2 L1 L L2, level_for s p b = Ret (a, b1) /\
    rep_core s b1 (A1 ++ (a, ops) :: A2) Ao (L1 ++ L :: L2) Lo /\ length A1 = length L1 /\
    order_ptrs (A1 ++ (a, ops) :: A2) = order_ptrs As /\
    (forall r, r_price r = p -> place (before_at s) r Ls = L1 ++ with_orders (lv_orders L ++ [r]) L :: L2) /\
    order_pool_ b1 = order_pool_ b /\ lookup_ b1 = lookup_ b.
Proof.
  intros RC SO Room. destruct (find_level p (side_at s b)) as [a|] eqn:F.
  - rewrite (level_for_found _ _ _ _ F). pose proof (rc_side _ _ _ _ _ _ RC) as S.
    destruct (find_level_Some _ _ _ _ _ _ _ S F) as (A1 & ops & A2 & L1 & L & L2 & -> & -> & E & P).
    exists a, b, A1, ops, A2, L1, L, L2. split_and!; try done.
    intros r Er. apply place_join; [apply before_at_order|done|congruence].
  - pose proof (find_level_None _ _ _ _ _ _ (rc_side _ _ _ _ _ _ RC) F) as N.
    destruct Room as [?|Room]; [done|].
    destruct (core_create _ _ _ _ _ _ _ RC SO N Room)
      as (a & sb & pool & A1 & A2 & L1 & L2 & -> & -> & E & CR & RC' & Pl).
    rewrite (level_for_created _ _ _ _ _ _ F CR).
    exists a, (notify (on_price_level_created p (side_name s)) (with_side s sb pool b)),
      A1, [], A2, L1, (MkLevel p []), L2.
    split_and!; [done|by apply core_notify|done| |done|..].
    + by autorewrite with shape.
    + autorewrite with lob. by destruct s.
    + autorewrite with lob. by destruct s.
Qed.

Lemma level_qty_snoc L r :
  level_qty (with_orders (lv_orders L ++ [r]) L) = level_qty L + r_qty r.
Proof. unfold level_qty. simpl. rewrite map_app, sumZ_app. simpl. rewrite sumZ_cons. unfold sumZ. simpl. lia. Qed.

Lemma enqueue_spec s b A1 a ops A2 Ao L1 L L2 Lo p o q :
  rep_core s b (A1 ++ (a, ops) :: A2) Ao (L1 ++ L :: L2) Lo -> length A1 = length L1 ->
  orders b !! p = Some o -> q = lo_remaining_qty o ->
  p ∉ order_ptrs (A1 ++ (a, ops) :: A2) ++ order_ptrs Ao ->
  exists b', enqueue p a q b = Ret b' /\
    rep_core s b' (A1 ++ (a, ops ++ [p]) :: A2) Ao
      (L1 ++ with_orders (lv_orders L ++ [resting_view o]) L :: L2) Lo /\
    relinked (ops ++ [p]) (orders b) (orders b') /\
    order_pool_ b' = set_storage (orders b') (order_pool_ b) /\ lookup_ b' = lookup_ b.
Proof.
  intros RC EL Eo -> Np. pose proof (core_orders _ _ _ _ _ _ _ _ _ RC) as [NO NQ].
  destruct (Forall2_app_inv _ _ _ _ _ EL (sr_levels _ _ _ _ _ (rc_side _ _ _ _ _ _ RC)))
    as [_ [R _]%Forall2_cons_1].
  destruct R as (l & V & Rl & Ro). simpl in V, Rl, Ro.
  destruct (levels b !! a) as [n|] eqn:En; [|done]. simpl in V. injection V as Ep Eq Ec El.
  rewrite <-El in Rl. autorewrite with shape in Np. simpl in Np.
  destruct (append_spec _ _ _ _ _ Rl Eo) as (l' & os & Ea & Rl' & Re); [set_solver|].
  destruct (relinked_lookup _ _ _ _ _ Re Eo) as (o' & Eo' & Vo).
  unfold enqueue. rewrite (rd_Some _ _ _ En), bind_Ret, Ea, bind_Ret.
  rewrite (upd_Some _ _ _ _ En), bind_Ret.
  erewrite upd_Some by apply lookup_insert_eq. rewrite bind_Ret, insert_insert_eq.
  erewrite upd_Some by apply lookup_insert_eq. rewrite bind_Ret, insert_insert_eq.
  rewrite (rd_Some _ _ _ Eo'), bind_Ret. set (n' := nd_set_count _ _).
  eexists. split; [done|]. autorewrite with lob. split_and!; [|done|done|done].
  eapply (core_edit s b _ A1 a ops (ops ++ [p]) A2 Ao L1 L _ L2 Lo n n');
    try done; autorewrite with lob; try done.
  - intros x Hx. apply Re. pose proof (NQ x Hx). set_solver.
  - rewrite <-app_assoc. simpl. rewrite <-!Permutation_middle. constructor; [set_solver|done].
  - exists l'. simpl. rewrite lookup_insert_eq. split_and!; [|done|].
    + unfold n', node_view. simpl. rewrite Ep, Eq, Ec, level_qty_snoc. autorewrite with machine.
      unfold Quantity.add. autorewrite with machine. rewrite length_app, Nat2Z.inj_add. done.
    + apply Forall2_app; [by eapply orders_rep_view; [apply Re|]|].
      constructor; [|done]. by rewrite Eo', <-Vo.
Qed.
