(* ===== verification/BookOps.v ===== *)
(** * Insertion, fills, resizing and clearing of the order book

    The refinement of the remaining operations of [LimitOrderBook]: see
    [BookRefine] for the representation relation. *)
From S2P Require Import Prelude Domain ObjectPool DList BookSpec OrderList SideBook OrderBook BookRefine.

Lemma order_ptrs_length ls os A Ls :
  Forall2 (level_rep ls os) A Ls -> length (order_ptrs A) = length (side_orders Ls).
Proof.
  induction 1 as [|[a ops] L A Ls (l & _ & _ & R) F IH]; [done|]. rewrite order_ptrs_cons, side_orders_cons.
  rewrite !length_app, IH. f_equal. by eapply Forall2_length.
Qed.

Lemma rep_orders_length s b As Ao B :
  rep_at s b As Ao B -> length (order_ptrs As ++ order_ptrs Ao) = length (book_orders B).
Proof.
  intros R. pose proof (ra_core _ _ _ _ _ R) as [S O _ _ _]. rewrite (spec_at_orders s), !length_app.
  f_equal; eapply order_ptrs_length; eapply sr_levels; eassumption.
Qed.

Lemma lookup_Some_spec b B id p :
  abs b B -> lookup_ b !! id = Some p -> id ∈ map r_id (book_orders B).
Proof.
  intros R E. destruct (locate _ _ _ _ R E)
    as (s & A1 & a & o1 & o2 & A2 & Ao & o & L1 & L & q1 & q2 & L2 & RA & <- & LC).
  by eapply located_id.
Qed.

(** The book has a free slot for the order, and one for its level if it must be created. *)
Record insert_room (o : Order) (B : Book) : Prop := {
  room_orders : Z.of_nat (length (book_orders B)) < ORDERS;
  room_levels : price o ∈ map lv_price (spec_at (order_side o) B) \/
                Z.of_nat (length (bk_bids B) + length (bk_asks B)) < LEVELS }.

(** The lookup map after an order with a new id is stored in a free slot. *)
Lemma index_add (m : gmap Z Z) (os : gmap Z LiveOrder) p o :
  os !! p = None -> m !! key_order_id (lo_key o) = None ->
  (forall id q, m !! id = Some q <-> exists o', os !! q = Some o' /\ key_order_id (lo_key o') = id) ->
  forall id q, lookup_insert (key_order_id (lo_key o)) p m !! id = Some q <->
    exists o', <[p := o]> os !! q = Some o' /\ key_order_id (lo_key o') = id.
Proof.
  intros Na Ni LK id q. unfold lookup_insert. destruct (decide (p = q)) as [<-|Nq].
  - rewrite lookup_insert_eq. split.
    + intros [[<- _]|[_ H]]%lookup_insert_Some; [eauto|]. apply LK in H as (o' & E & _). congruence.
    + intros (o' & [= <-] & <-). by rewrite lookup_insert_eq.
  - rewrite (lookup_insert_ne os) by done. rewrite <-LK. split.
    + intros [[_ H]|[_ H]]%lookup_insert_Some; [congruence|done].
    + intros H. rewrite lookup_insert_ne; [done|]. intros <-. congruence.
Qed.

Lemma insert_abs o seq b B :
  abs b B -> insert_ok o B -> insert_room o B ->
  exists p b', insert o seq b = Ret (p, b') /\ abs b' (spec_insert o seq B) /\
    lookup_ b' !! order_id o = Some p.
Proof.
  intros R OK [Ro Rl]. pose proof (insert_ok_wf o seq B OK) as WF. destruct OK as [Q I Np].
  apply (abs_at (order_side o)) in R as (As & Ao & R). set (s := order_side o) in *.
  pose proof (rep_orders_length _ _ _ _ _ R) as EL. pose proof R as [RC W P C LK].
  destruct (pool_room ORDERS (order_pool_ b) _ P (proj1 C) (proj2 C)) as (p & rest & Ef); [lia|].
  assert (allocate default_order (order_pool_ b) =
          Ret (p, MkPool (<[p := default_order]> (orders b)) rest)) as Al by (apply allocate_Ret; eauto).
  destruct (allocate_wf ORDERS _ _ _ _ P Al) as (P1 & Na & _ & _).
  unfold insert. rewrite Al, bind_Ret. cbn [storage_ free_list_].
  erewrite upd_Some by apply lookup_insert_eq. rewrite bind_Ret, insert_insert_eq.
  set (o1 := MkLiveOrder _ _ _ _ _ _).
  set (b1 := set_lookup _ _).
  assert (orders b1 = <[p := o1]> (orders b)) as EO by done.
  assert (p ∉ order_ptrs As ++ order_ptrs Ao) as Npp.
  { intros Hp. apply (proj2 C) in Hp as [? ?]. unfold orders in *. congruence. }
  assert (rep_core s b1 As Ao (spec_at s B) (spec_at (negb s) B)) as RC1.
  { eapply core_frame_orders; [exact RC|done..|]. intros q Hq.
    rewrite EO, lookup_insert_ne; [done|]. by intros <-. }
  destruct (level_for_spec _ _ _ _ _ _ (price o) RC1 (spec_at_sorted s B W))
    as (a & b2 & A1 & ops & A2 & L1 & L & L2 & El & RC2 & E1 & EP & Pl & OP2 & LK2).
  { destruct Rl as [?|Rl]; [by left|right]. destruct s; simpl in *; lia. }
  rewrite side_at_insert. fold (order_side o) s. rewrite El, bind_Ret.
  assert (orders b2 = <[p := o1]> (orders b)) as EO2 by (unfold orders at 1; rewrite OP2; done).
  destruct (enqueue_spec _ _ _ _ _ _ _ _ _ _ _ p o1 (qty o) RC2 E1) as (b3 & -> & RC3 & Re & OP3 & LK3).
  { by rewrite EO2, lookup_insert_eq. }
  { done. }
  { by rewrite EP. }
  rewrite bind_Ret. exists p, b3. split; [done|]. rewrite LK3, LK2. simpl. split.
  2: { unfold lookup_insert. by rewrite lookup_insert_eq. }
  assert (dom (orders b3) = dom (<[p := o1]> (orders b))) as D3 by (rewrite (relinked_dom _ _ _ Re); by rewrite EO2).
  apply (abs_at s). exists (A1 ++ (a, ops ++ [p]) :: A2), Ao. split.
  - rewrite spec_insert_at. fold s. rewrite spec_at_set, spec_at_set_other, Pl by done. exact RC3.
  - by apply WF.
  - rewrite OP3, OP2. apply (pool_wf_storage ORDERS (MkPool (<[p := default_order]> (orders b)) rest)); [done|].
    simpl. by rewrite D3, !dom_insert_L.
  - eapply covers_dom; [exact D3|]. eapply covers_perm; [|by apply (covers_insert _ _ p o1 Na C)].
    rewrite <-EP. autorewrite with shape. simpl. rewrite <-!app_assoc. simpl.
    rewrite <-!Permutation_middle. done.
  - intros id q. rewrite LK3, LK2, <-(relinked_ids _ _ _ id q Re), EO2.
    apply (index_add (lookup_ b) (orders b) p o1); [done| |exact LK].
    destruct (lookup_ b !! _) as [x|] eqn:El'; [|done]. exfalso. apply I.
    eapply lookup_Some_spec; [|exact El']. apply (abs_at s). eauto.
Qed.

(** ** Exhaustion *)
Lemma insert_exhausted o seq b B :
  abs b B -> Z.of_nat (length (book_orders B)) >= ORDERS -> insert o seq b = Terminate.
Proof.
  intros (Ab & Aa & R) Full. pose proof (rep_orders_length _ _ _ _ _ R) as EL.
  destruct R as [_ _ P C _].
  pose proof (pool_occupancy ORDERS (order_pool_ b) _ ltac:(done) P (proj1 C) (proj2 C)) as O.
  unfold insert, allocate. destruct (free_list_ (order_pool_ b)) as [|x rest]; [done|].
  simpl in O. lia.
Qed.

Lemma core_level_pool_full s b As Ao Ls Lo :
  rep_core s b As Ao Ls Lo -> Z.of_nat (length Ls + length Lo) >= LEVELS -> free_list_ (level_pool_ b) = [].
Proof.
  intros [S O P C _] Full.
  pose proof (pool_occupancy LEVELS (level_pool_ b) _ ltac:(done) P (proj1 C) (proj2 C)) as E.
  rewrite length_app in E. unfold level_ptrs in E. rewrite !length_map in E.
  pose proof (side_rep_length _ _ _ _ _ S). pose proof (side_rep_length _ _ _ _ _ O).
  destruct (free_list_ (level_pool_ b)) as [|x l]; [done|]. simpl in E. lia.
Qed.

(** No free level: the order was allocated and indexed, then [create_level] throws. *)
Lemma insert_level_exhausted o seq b B :
  abs b B -> Z.of_nat (length (book_orders B)) < ORDERS ->
  price o ∉ map lv_price (spec_at (order_side o) B) ->
  Z.of_nat (length (bk_bids B) + length (bk_asks B)) >= LEVELS ->
  insert o seq b = Terminate.
Proof.
  intros R Ro Np Full. apply (abs_at (order_side o)) in R as (As & Ao & R). set (s := order_side o) in *.
  pose proof (rep_orders_length _ _ _ _ _ R) as EL. pose proof R as [RC W P C LK].
  destruct (pool_room ORDERS (order_pool_ b) _ P (proj1 C) (proj2 C)) as (p & rest & Ef); [lia|].
  assert (allocate default_order (order_pool_ b) =
          Ret (p, MkPool (<[p := default_order]> (orders b)) rest)) as Al by (apply allocate_Ret; eauto).
  unfold insert. rewrite Al, bind_Ret. cbn [storage_ free_list_].
  erewrite upd_Some by apply lookup_insert_eq. rewrite bind_Ret, insert_insert_eq.
  rewrite side_at_insert. fold (order_side o) s. set (b1 := set_lookup _ _).
  assert (find_level (price o) (side_at s b) = None) as F.
  { destruct (find_level _ _) as [a|] eqn:E; [|done]. exfalso. apply Np.
    destruct (find_level_Some _ _ _ _ _ _ _ (rc_side _ _ _ _ _ _ RC) E) as (? & ? & ? & L1 & L & L2 & _ & -> & _ & <-).
    rewrite map_app. set_solver. }
  assert (free_list_ (level_pool_ b) = []) as FL.
  { eapply core_level_pool_full; [exact RC|]. destruct s; simpl; lia. }
  unfold level_for. destruct s; simpl in F; unfold bid_level_for, ask_level_for; simpl; rewrite F;
    unfold BidBook_create_level, AskBook_create_level, create_level, allocate; by rewrite FL.
Qed.

(** ** Changing the quantity of a resting order *)
Lemma book_wf_replace s B L1 L q1 r r' q2 L2 :
  book_wf B -> spec_at s B = L1 ++ L :: L2 -> lv_orders L = q1 ++ r :: q2 ->
  r_id r' = r_id r -> r_price r' = r_price r -> 0 <= r_qty r' < 2 ^ 64 ->
  book_wf (set_spec s (L1 ++ with_orders (q1 ++ r' :: q2) L :: L2) B).
Proof.
  intros W E Eq Ei Ep Q. set (Ls := L1 ++ _ :: L2).
  assert (map lv_price Ls = map lv_price (spec_at s B)) as P
    by (unfold Ls; rewrite E, !map_app; done).
  assert (map r_id (side_orders Ls) = map r_id (side_orders (spec_at s B))) as I.
  { unfold Ls. rewrite E. autorewrite with book. simpl.
    rewrite Eq, !map_app. simpl. by rewrite ?map_app, Ei. }
  assert (Forall level_ok Ls) as F.
  { pose proof (spec_at_levels s B W) as F. rewrite E in F. apply Forall_app in F as [F1 [[NE OK] F2]%Forall_cons].
    apply Forall_app. split; [done|]. constructor; [|done]. split; simpl; [by destruct q1|].
    rewrite Eq in OK. apply Forall_app in OK as [O1 [O O2]%Forall_cons].
    apply Forall_app. split; [done|]. constructor; [|done]. destruct O. split; [congruence|done]. }
  destruct W as [Wb Wa Wl Ws Wi]. apply Forall_app in Wl as [Wlb Wla].
  rewrite book_orders_eq, map_app in Wi.
  destruct s; simpl in *; split; simpl; unfold sorted_by; rewrite ?P; try done.
  - by apply Forall_app.
  - rewrite book_orders_eq, map_app. simpl. by rewrite I.
  - by apply Forall_app.
  - rewrite book_orders_eq, map_app. simpl. by rewrite I.
Qed.

Lemma located_qty s b B p o A1 a o1 o2 A2 L1 L q1 q2 L2 :
  located s b (spec_at s B) p o A1 a o1 o2 A2 L1 L q1 q2 L2 -> book_wf B ->
  0 <= lo_remaining_qty o < 2 ^ 64.
Proof.
  intros [E _ Q _ _] W. pose proof (spec_at_levels s B W) as F. rewrite E in F.
  apply Forall_app in F as [_ [[_ F] _]%Forall_cons]. rewrite Q in F.
  by apply Forall_app in F as [_ [[_ ?] _]%Forall_cons].
Qed.

Lemma level_qty_replace L q1 r r' q2 :
  lv_orders L = q1 ++ r :: q2 ->
  level_qty (with_orders (q1 ++ r' :: q2) L) = level_qty L + (r_qty r' - r_qty r).
Proof.
  intros E. unfold level_qty. rewrite E. simpl. rewrite !map_app, !sumZ_app. simpl. rewrite !sumZ_cons. lia.
Qed.

(** The node of a level and what it records. *)
Lemma level_node s b A1 a ops A2 Ao L1 L L2 Lo :
  rep_core s b (A1 ++ (a, ops) :: A2) Ao (L1 ++ L :: L2) Lo -> length A1 = length L1 ->
  exists n, levels b !! a = Some n /\ list_rep (orders b) (nd_orders n) ops /\
    orders_rep (orders b) ops (lv_orders L) /\
    node_view n = (lv_price L, u64 (level_qty L), u32 (Z.of_nat (length (lv_orders L))), nd_orders n).
Proof.
  intros RC EL.
  destruct (Forall2_app_inv _ _ _ _ _ EL (sr_levels _ _ _ _ _ (rc_side _ _ _ _ _ _ RC)))
    as [_ [(l & V & Rl & Ro) _]%Forall2_cons_1]. simpl in V, Rl, Ro.
  destruct (levels b !! a) as [n|] eqn:En; [|done]. simpl in V. exists n.
  injection V as Ep Eq Ec El. unfold node_view. by rewrite Ep, Eq, Ec, El.
Qed.

Lemma requant s b b' A1 a o1 p o2 A2 Ao B o o' L1 L q1 q2 L2 n d :
  rep_at s b (A1 ++ (a, o1 ++ p :: o2) :: A2) Ao B ->
  located s b (spec_at s B) p o A1 a o1 o2 A2 L1 L q1 q2 L2 ->
  levels b !! a = Some n -> same_links o o' -> lo_key o' = lo_key o -> lo_price o' = lo_price o ->
  0 <= lo_remaining_qty o' < 2 ^ 64 -> d = lo_remaining_qty o' - lo_remaining_qty o ->
  bids_ b' = bids_ b -> asks_ b' = asks_ b -> lookup_ b' = lookup_ b ->
  level_pool_ b' = set_storage (<[a := nd_set_qty (u64 (nd_total_qty n + d)) n]> (levels b)) (level_pool_ b) ->
  order_pool_ b' = set_storage (<[p := o']> (orders b)) (order_pool_ b) ->
  rep_at s b' (A1 ++ (a, o1 ++ p :: o2) :: A2) Ao
    (set_spec s (L1 ++ with_orders (q1 ++ resting_view o' :: q2) L :: L2) B).
Proof.
  intros [RC W P C LK] LC En SL Ek Ep Q Ed Eb Ea El EP EO.
  pose proof LC as [Es EL Eq Elo Eo]. rewrite Es in RC.
  pose proof (core_orders _ _ _ _ _ _ _ _ _ RC) as [NO NQ].
  assert (orders b' = <[p := o']> (orders b)) as EO' by (unfold orders at 1; by rewrite EO).
  assert (levels b' = <[a := nd_set_qty (u64 (nd_total_qty n + d)) n]> (levels b)) as EL'
    by (unfold levels at 1; by rewrite EP).
  assert (dom (<[p := o']> (orders b)) = dom (orders b)) as Do.
  { rewrite dom_insert_L. assert (p ∈ dom (orders b)) by (by apply elem_of_dom; eauto). set_solver. }
  assert (NoDup (o1 ++ p :: o2)) as NDo by (apply NoDup_app in NO as (_ & _ & (? & _)%NoDup_app); done).
  split.
  - rewrite spec_at_set, spec_at_set_other.
    destruct (level_node _ _ _ _ _ _ _ _ _ _ _ RC EL) as (n' & En' & Rl & Ro & V).
    replace n' with n in * by congruence.
    eapply (core_edit s b b' A1 a _ (o1 ++ p :: o2) A2 Ao L1 L _ L2 _ n
              (nd_set_qty (u64 (nd_total_qty n + d)) n)); try done.
    + intros x Hx. rewrite EO', lookup_insert_ne; [done|]. intros <-. apply (NQ _ Hx). set_solver.
    + exists (nd_orders n). simpl. rewrite EO', EL', lookup_insert_eq. split_and!.
      * rewrite (level_qty_replace L q1 (resting_view o) _ q2 Eq). unfold node_view in *. simpl.
        injection V as V1 V2 V3. rewrite V1, V2, V3, Eq, !length_app. simpl. autorewrite with machine. by subst d.
      * by eapply list_rep_update.
      * rewrite Eq in Ro. by eapply orders_rep_update.
  - eapply book_wf_replace; try done. unfold r_id. simpl. by rewrite Ek.
  - rewrite EO. by apply pool_wf_storage.
  - rewrite EO'. by eapply covers_dom.
  - intros id q. rewrite El, LK, EO'. destruct (decide (p = q)) as [<-|Nq].
    + rewrite lookup_insert_eq, Eo. split; intros (? & [= <-] & <-); eexists; (split; [done|]); congruence.
    + by rewrite lookup_insert_ne.
Qed.

(** ** Fills *)
Definition reduced (q : Z) (o : LiveOrder) : LiveOrder := lo_set_qty (lo_remaining_qty o - q) o.

(** The state of [fill_order] after the quantities are updated and the listener told. *)
Definition filled (a p : Z) (n : PriceLevelNode) (o : LiveOrder) (q : Z) (b : LimitOrderBook) : LimitOrderBook :=
  notify (on_order_filled (reduced q o) q)
    (set_orders (<[p := reduced q o]> (orders b))
      (set_levels (<[a := nd_set_qty (u64 (nd_total_qty n + - q)) n]> (levels b)) b)).

Section fill.
Context (s : bool) (b : LimitOrderBook) (A1 : shape) (a : Z) (o1 : list Z) (p : Z) (o2 : list Z)
  (A2 Ao : shape) (B : Book) (o : LiveOrder) (L1 : list Level) (L : Level) (q1 q2 : list Resting)
  (L2 : list Level) (q : Z).
Context (RA : rep_at s b (A1 ++ (a, o1 ++ p :: o2) :: A2) Ao B)
  (LC : located s b (spec_at s B) p o A1 a o1 o2 A2 L1 L q1 q2 L2)
  (Hq : 0 <= q <= lo_remaining_qty o).

Let B1 := set_spec s (L1 ++ with_orders (q1 ++ with_qty (lo_remaining_qty o - q) (resting_view o) :: q2) L :: L2) B.

Lemma filled_rep n :
  levels b !! a = Some n ->
  rep_at s (filled a p n o q b) (A1 ++ (a, o1 ++ p :: o2) :: A2) Ao B1 /\
  located s (filled a p n o q b) (spec_at s B1) p (reduced q o) A1 a o1 o2 A2 L1
    (with_orders (q1 ++ resting_view (reduced q o) :: q2) L) q1 q2 L2.
Proof.
  intros En. pose proof (located_qty _ _ _ _ _ _ _ _ _ _ _ _ _ _ _ LC (ra_wf _ _ _ _ _ RA)) as Bd.
  pose proof LC as [Es EL Eq Elo Eo]. unfold filled. split.
  - eapply (requant s b _ A1 a o1 p o2 A2 Ao B o (reduced q o) L1 L q1 q2 L2 n (- q));
      autorewrite with lob; try done; simpl; lia.
  - split; [by unfold B1; rewrite spec_at_set|done|done|done|].
    autorewrite with lob. apply lookup_insert_eq.
Qed.

Lemma fill_order_reduce :
  exists n, levels b !! a = Some n /\
    fill_order (Some p) q b =
      if lo_remaining_qty o - q =? 0 then
        (b ← unlink_order (Some p) (Some a) (filled a p n o q b);
         b ← level_decrement (Some a) b;
         b ← reap_level (Some a) (side_name s) (lo_price o) b;
         Ret (release (key_order_id (lo_key o)) p b))
      else Ret (filled a p n o q b).
Proof.
  pose proof (located_qty _ _ _ _ _ _ _ _ _ _ _ _ _ _ _ LC (ra_wf _ _ _ _ _ RA)) as Bd.
  pose proof (located_price _ _ _ _ _ _ _ _ _ _ _ _ _ _ _ LC (ra_wf _ _ _ _ _ RA)) as Ep.
  pose proof LC as [Es EL Eq Elo Eo]. pose proof (ra_core _ _ _ _ _ RA) as RC. rewrite Es in RC.
  destruct (level_node _ _ _ _ _ _ _ _ _ _ _ RC EL) as (n & En & _). exists n. split; [done|].
  unfold fill_order. rewrite (rd_Some _ _ _ Eo), bind_Ret.
  rewrite (proj2 (Z.leb_le _ _)) by lia. simpl assert_. rewrite bind_Ret.
  rewrite Ep, (level_of_at _ _ _ _ _ _ _ _ _ _ _ RA Es EL), bool_decide_eq_true_2 by done.
  simpl assert_. rewrite bind_Ret, (level_add_qty_Ret _ _ _ _ En), bind_Ret.
  autorewrite with lob. rewrite (upd_Some _ _ _ _ Eo), bind_Ret. autorewrite with lob.
  erewrite rd_Some by apply lookup_insert_eq. rewrite bind_Ret.
  replace (Quantity.sub (lo_remaining_qty o) q) with (lo_remaining_qty o - q)
    by (unfold Quantity.sub; rewrite u64_small; lia).
  unfold filled. cbn [lo_remaining_qty lo_set_qty lo_price lo_key reduced]. by rewrite Ep.
Qed.

Lemma fill_partial :
  q < lo_remaining_qty o ->
  exists b', fill_order (Some p) q b = Ret b' /\ rep_at s b' (A1 ++ (a, o1 ++ p :: o2) :: A2) Ao B1.
Proof.
  intros Lt. destruct fill_order_reduce as (n & En & ->).
  rewrite (proj2 (Z.eqb_neq _ _)) by lia. eexists. split; [done|]. by apply filled_rep.
Qed.

Lemma spec_cancel_filled : spec_cancel (r_id (resting_view o)) B1 = spec_cancel (r_id (resting_view o)) B.
Proof.
  pose proof LC as [Es EL Eq Elo Eo]. pose proof (ra_wf _ _ _ _ _ RA) as W.
  pose proof (located_qty _ _ _ _ _ _ _ _ _ _ _ _ _ _ _ LC W) as Bd.
  assert (book_wf B1) as W1 by (eapply book_wf_replace; try done; simpl; lia).
  assert (drop_id (r_id (resting_view o)) (spec_at s B1) = drop_id (r_id (resting_view o)) (spec_at s B)) as D.
  { rewrite Es. unfold B1 in *. pose proof (spec_at_levels s _ W1) as F1. pose proof (spec_at_ids s _ W1) as I1.
    pose proof (spec_at_levels s _ W) as F. pose proof (spec_at_ids s _ W) as I. rewrite Es in F, I.
    rewrite spec_at_set in *.
    rewrite (drop_id_split _ L1 L L2 q1 (resting_view o) q2) by done.
    by erewrite drop_id_split by done. }
  unfold spec_cancel, B1 in *. destruct s; simpl in *; by rewrite D.
Qed.

Lemma fill_complete :
  q = lo_remaining_qty o ->
  exists b', fill_order (Some p) q b = Ret b' /\
    rep_at s b' (A1 ++ keep_shape (a, o1 ++ o2) ++ A2) Ao (spec_cancel (r_id (resting_view o)) B).
Proof.
  intros Eqq. destruct fill_order_reduce as (n & En & ->).
  rewrite (proj2 (Z.eqb_eq _ _)) by lia.
  destruct (filled_rep n En) as [RA1 LC1]. pose proof RA1 as [RC1 W1 P1 C1 LK1].
  pose proof LC1 as [Es EL Eq Elo Eo]. rewrite Es in RC1.
  destruct (unlink_spec _ _ _ _ _ _ _ _ _ _ _ _ _ RC1 EL)
    as (n1 & l & os & En1 & Np & Nq & Nc & -> & Rl & Re & Ro). rewrite bind_Ret.
  destruct (relinked_lookup _ _ _ _ _ Re Eo) as (o' & Eo' & Vo).
  pose proof (f_equal r_key Vo) as Vk. simpl in Vk.
  autorewrite with lob. erewrite level_decrement_Ret by (autorewrite with lob; apply lookup_insert_eq).
  rewrite bind_Ret. autorewrite with lob. rewrite insert_insert_eq.
  set (n3 := nd_set_count _ _). set (b3 := set_levels _ _).
  destruct (finish_removal s b3 B1 A1 a o1 p o2 A2 Ao L1
    (with_orders (q1 ++ resting_view (reduced q o) :: q2) L) q1 (resting_view (reduced q o)) q2 L2 o' (lo_price o))
    as (b' & E' & A'); unfold b3; autorewrite with lob; try done.
  - eapply (unlinked_core s _ _ A1 a o1 p o2 A2 Ao L1 _ q1 (resting_view (reduced q o)) q2 L2 _ n1 l os n3);
      autorewrite with lob; try done.
    unfold n3, node_view. simpl. rewrite Np, Nq, Nc. autorewrite with machine.
    rewrite Eqq, Z.sub_diag, Z.sub_0_r. done.
  - apply pool_wf_storage; [done|]. by rewrite (relinked_dom _ _ _ Re).
  - eapply covers_dom; [by apply (relinked_dom _ _ _ Re)|done].
  - intros id x. simpl. rewrite LK1. apply relinked_ids with (1 := Re).
  - unfold r_id. simpl. by rewrite Vk.
  - unfold b3 in E'. rewrite E', bind_Ret. eexists. split; [done|].
    rewrite <-spec_cancel_filled. done.
Qed.
End fill.

(** ** Resizing *)
Lemma spec_modify_located s B id v sq L1 L q1 r q2 L2 :
  book_wf B -> spec_at s B = L1 ++ L :: L2 -> lv_orders L = q1 ++ r :: q2 -> r_id r = id ->
  spec_modify id v sq B = set_spec s (L1 ++ with_orders (
    if v <? r_qty r then q1 ++ with_qty v r :: q2
    else if v >? r_qty r then q1 ++ q2 ++ [with_qty_seq v sq r] else q1 ++ r :: q2) L :: L2) B.
Proof.
  intros W Es Eq Ei. pose proof (wf_ids B W) as NB. rewrite (spec_at_orders s), map_app in NB.
  apply NoDup_app in NB as (NI & FD & _).
  assert (id ∈ map r_id (lv_orders L)) as I by (rewrite Eq, map_app; simpl; set_solver).
  assert (id ∈ map r_id (side_orders (spec_at s B))) as I'
    by (rewrite Es; autorewrite with book; rewrite !map_app; set_solver).
  assert (resize_id id v sq (spec_at (negb s) B) = spec_at (negb s) B) as E2
    by (apply resize_id_notin; intros H; by eapply FD).
  rewrite Es in NI. pose proof (resize_id_split id v sq L1 L L2 NI I) as E1. rewrite <-Es in E1.
  rewrite Eq, resize_split in E1; [|..|done].
  2: { autorewrite with book in NI. rewrite Eq, !map_app in NI. simpl in NI. rewrite Ei in NI.
       apply NoDup_app in NI as (_ & _ & ((_ & F & _)%NoDup_app & _)%NoDup_app). set_solver. }
  unfold spec_modify. destruct s; simpl in *; by rewrite E1, E2.
Qed.

Lemma spec_modify_absent b B id v sq :
  abs b B -> id ∉ map r_id (book_orders B) -> spec_modify id v sq B = B.
Proof.
  intros _ N. rewrite book_orders_eq, map_app in N. unfold spec_modify.
  rewrite !resize_id_notin by set_solver. by destruct B.
Qed.

(** The state of [modify_qty] after the quantities are updated. *)
Definition resized (a p : Z) (n : PriceLevelNode) (o' : LiveOrder) (d : Z) (b : LimitOrderBook) : LimitOrderBook :=
  set_orders (<[p := o']> (orders b))
    (set_levels (<[a := nd_set_qty (u64 (nd_total_qty n + d)) n]> (levels b)) b).

Lemma level_qty_perm L os :
  lv_orders L ≡ₚ os -> level_qty (with_orders os L) = level_qty L /\ length os = length (lv_orders L).
Proof.
  intros P. split; [|by rewrite P]. unfold level_qty. simpl. apply sumZ_perm. by rewrite P.
Qed.

Lemma book_wf_perm s B L1 L os L2 :
  book_wf B -> spec_at s B = L1 ++ L :: L2 -> lv_orders L ≡ₚ os ->
  book_wf (set_spec s (L1 ++ with_orders os L :: L2) B).
Proof.
  intros W E Eq. set (Ls := L1 ++ _ :: L2).
  assert (map lv_price Ls = map lv_price (spec_at s B)) as P
    by (unfold Ls; rewrite E, !map_app; done).
  assert (map r_id (side_orders Ls) ≡ₚ map r_id (side_orders (spec_at s B))) as I.
  { unfold Ls. rewrite E. autorewrite with book. simpl. by rewrite Eq. }
  assert (Forall level_ok Ls) as F.
  { pose proof (spec_at_levels s B W) as F. rewrite E in F. apply Forall_app in F as [F1 [[NE OK] F2]%Forall_cons].
    apply Forall_app. split; [done|]. constructor; [|done]. split; simpl; [|by rewrite <-Eq].
    intros ->. by apply Permutation_nil_r in Eq. }
  destruct W as [Wb Wa Wl Ws Wi]. apply Forall_app in Wl as [Wlb Wla].
  rewrite book_orders_eq, map_app in Wi.
  destruct s; simpl in *; split; simpl; unfold sorted_by; rewrite ?P; try done.
  - by apply Forall_app.
  - rewrite book_orders_eq, map_app. simpl. by rewrite I.
  - by apply Forall_app.
  - rewrite book_orders_eq, map_app. simpl. by rewrite I.
Qed.

(** Moving an order to the tail of its queue. *)
Lemma move_to_tail s b A1 a o1 p o2 A2 Ao B o L1 L q1 q2 L2 :
  rep_at s b (A1 ++ (a, o1 ++ p :: o2) :: A2) Ao B ->
  located s b (spec_at s B) p o A1 a o1 o2 A2 L1 L q1 q2 L2 ->
  exists b', (b ← unlink_order (Some p) (Some a) b;
               n ← rd (levels b) (Some a);
               '(l, os) ← append (Some p) (nd_orders n) (orders b);
               ls ← upd (levels b) (Some a) (nd_set_orders l);
               Ret (true, set_levels ls (set_orders os b))) = Ret (true, b') /\
    rep_at s b' (A1 ++ (a, o1 ++ o2 ++ [p]) :: A2) Ao
      (set_spec s (L1 ++ with_orders (q1 ++ q2 ++ [resting_view o]) L :: L2) B).
Proof.
  intros [RC W P C LK] LC. pose proof LC as [Es EL Eq Elo Eo]. rewrite Es in RC.
  destruct (core_orders _ _ _ _ _ _ _ _ _ RC) as [NO NQ].
  destruct (unlink_spec _ _ _ _ _ _ _ _ _ _ _ _ _ RC EL)
    as (n & l & os & En & Np & Nq & Nc & Eu & Rl & Re & Ro).
  destruct (relinked_lookup _ _ _ _ _ Re Eo) as (o' & Eo' & Vo).
  assert (p ∉ o1 ++ o2) as Npo.
  { rewrite <-(Permutation_middle o1 o2 p) in NO. simpl in NO.
    rewrite <-Permutation_middle in NO. apply NoDup_cons in NO as [NO _]. set_solver. }
  destruct (append_spec _ _ _ _ _ Rl Eo' Npo) as (l' & os' & Ea & Rl' & Re').
  assert (relinked (o1 ++ p :: o2) (orders b) os') as Re2.
  { eapply relinked_trans; [exact Re|]. eapply relinked_mono; [|exact Re']. set_solver. }
  assert (lv_orders L ≡ₚ q1 ++ q2 ++ [resting_view o]) as PQ.
  { rewrite Eq, app_assoc, <-Permutation_cons_append. by rewrite Permutation_middle. }
  exists (set_levels (<[a := nd_set_orders l' n]> (levels b)) (set_orders os' b)). split.
  - rewrite Eu, bind_Ret. autorewrite with lob.
    rewrite (rd_Some _ _ _ (lookup_insert_eq _ _ _)), bind_Ret. simpl nd_orders. rewrite Ea, bind_Ret.
    rewrite (upd_Some _ _ _ _ (lookup_insert_eq _ _ _)), bind_Ret, insert_insert_eq. done.
  - split; autorewrite with lob.
    + rewrite spec_at_set, spec_at_set_other.
      eapply (core_edit s b _ A1 a (o1 ++ p :: o2) _ A2 Ao L1 L _ L2 _ n (nd_set_orders l' n));
        autorewrite with lob; try done.
      * intros x Hx. apply Re2. by apply NQ.
      * replace (o1 ++ o2 ++ [p]) with ((o1 ++ o2) ++ [p]) by (by rewrite <-app_assoc).
        rewrite <-Permutation_cons_append. by rewrite (Permutation_middle o1 o2 p).
      * exists l'. simpl. rewrite lookup_insert_eq. split_and!; [| |].
        -- simpl. unfold node_view. simpl. rewrite Np, Nq, Nc.
           by destruct (level_qty_perm L _ PQ) as [-> ->].
        -- by rewrite app_assoc.
        -- simpl. rewrite Eq in Ro. apply Forall2_app_inv in Ro as [R1 [R0 R2]%Forall2_cons_1]; [|done].
           eapply orders_rep_view; [apply Re2|]. apply Forall2_app; [done|]. apply Forall2_app; [done|].
           by constructor.
    + by eapply book_wf_perm.
    + by apply pool_wf_storage, (relinked_dom _ _ _ Re2).
    + eapply covers_dom; [by apply (relinked_dom _ _ _ Re2)|]. eapply covers_perm; [|exact C].
      autorewrite with shape. simpl. f_equiv. f_equiv. f_equiv. rewrite app_assoc, <-Permutation_cons_append.
      by rewrite (Permutation_middle o1 o2 p).
    + intros id x. simpl. rewrite LK. apply relinked_ids with (1 := Re2).
Qed.

Lemma modify_abs id v sq b B :
  abs b B -> 0 <= v < 2 ^ 64 ->
  exists b', modify_qty id v sq b = Ret (bool_decide (id ∈ map r_id (book_orders B)), b') /\
    abs b' (spec_modify id v sq B).
Proof.
  intros R Hv. unfold modify_qty, lookup_find. destruct (lookup_ b !! id) as [p|] eqn:E.
  2: { pose proof (lookup_None_spec _ _ _ R E) as N. rewrite bool_decide_eq_false_2 by done.
       exists b. split; [done|]. by rewrite (spec_modify_absent _ _ _ _ _ R N). }
  destruct (locate _ _ _ _ R E) as (s & A1 & a & o1 & o2 & A2 & Ao & o & L1 & L & q1 & q2 & L2 & RA & Ei & LC).
  pose proof (ra_wf _ _ _ _ _ RA) as W.
  rewrite bool_decide_eq_true_2 by (rewrite <-Ei; by eapply located_id).
  pose proof (located_price _ _ _ _ _ _ _ _ _ _ _ _ _ _ _ LC W) as Ep.
  pose proof (located_qty _ _ _ _ _ _ _ _ _ _ _ _ _ _ _ LC W) as Bd.
  pose proof LC as [Es EL Eq Elo Eo]. pose proof (ra_core _ _ _ _ _ RA) as RC. rewrite Es in RC.
  destruct (level_node _ _ _ _ _ _ _ _ _ _ _ RC EL) as (n & En & _).
  rewrite (spec_modify_located s B id v sq L1 L q1 (resting_view o) q2 L2) by done. simpl r_qty.
  rewrite (rd_Some _ _ _ Eo), bind_Ret, Ep, (level_of_at _ _ _ _ _ _ _ _ _ _ _ RA Es EL).
  rewrite bool_decide_eq_true_2 by done. simpl assert_. rewrite bind_Ret.
  destruct (Z.ltb_spec v (lo_remaining_qty o)).
  - rewrite (level_add_qty_Ret _ _ _ _ En), bind_Ret. autorewrite with lob.
    rewrite (upd_Some _ _ _ _ Eo), bind_Ret. eexists. split; [done|]. apply (abs_at s). eexists _, _.
    eapply (requant s b _ A1 a o1 p o2 A2 Ao B o (lo_set_qty v o) L1 L q1 q2 L2 n
              (- Quantity.sub (lo_remaining_qty o) v)); autorewrite with lob; try done.
    unfold Quantity.sub. rewrite u64_small by lia. simpl. lia.
  - destruct (Z.gtb_spec v (lo_remaining_qty o)).
    2: { exists b. split; [done|]. rewrite <-Eq, with_orders_id, <-Es. apply (abs_at s). eexists _, _.
         replace (set_spec s (spec_at s B) B) with B by (by destruct s, B). done. }
    rewrite (level_add_qty_Ret _ _ _ _ En), bind_Ret. autorewrite with lob.
    rewrite (upd_Some _ _ _ _ Eo), bind_Ret.
    rewrite (upd_Some _ _ _ _ (lookup_insert_eq _ _ _)), bind_Ret, insert_insert_eq.
    set (o' := lo_set_seq sq (lo_set_qty v o)). set (b1 := set_orders _ _).
    assert (rep_at s b1 (A1 ++ (a, o1 ++ p :: o2) :: A2) Ao
      (set_spec s (L1 ++ with_orders (q1 ++ resting_view o' :: q2) L :: L2) B)) as RA1.
    { eapply (requant s b _ A1 a o1 p o2 A2 Ao B o o' L1 L q1 q2 L2 n
        (Quantity.sub v (lo_remaining_qty o))); try done.
      unfold Quantity.sub. rewrite u64_small by lia. done. }
    destruct (move_to_tail s b1 A1 a o1 p o2 A2 Ao _ o' L1
      (with_orders (q1 ++ resting_view o' :: q2) L) q1 q2 L2 RA1) as (b' & E' & A').
    { split; [by rewrite spec_at_set|done|done|done|]. unfold b1. autorewrite with lob. apply lookup_insert_eq. }
    exists b'. split; [exact E'|]. apply (abs_at s). eexists _, _.
    replace (set_spec s _ B) with
      (set_spec s (L1 ++ with_orders (q1 ++ q2 ++ [resting_view o'])
         (with_orders (q1 ++ resting_view o' :: q2) L) :: L2)
         (set_spec s (L1 ++ with_orders (q1 ++ resting_view o' :: q2) L :: L2) B)) by (by destruct s).
    exact A'.
Qed.
