(* ===== verification/BookClear.v ===== *)
(** * Construction, clearing, inspection and self-checks of the order book *)
From S2P Require Import Prelude Domain ObjectPool DList BookSpec OrderList SideBook OrderBook BookRefine BookOps.

Definition empty_book : Book := MkBook [] [].

Lemma empty_book_wf : book_wf empty_book.
Proof. split; simpl; try constructor. set_solver. Qed.

Lemma side_rep_empty ls os : side_rep ls os SideBook_init [] [].
Proof. split; simpl; [done|done|constructor|]. intros p a. rewrite lookup_empty. set_solver. Qed.

Lemma covers_empty {T} : covers (∅ : gmap Z T) [].
Proof. split; [constructor|]. intros a. rewrite lookup_empty. split; [by intros [? ?]|set_solver]. Qed.

Lemma empty_abs b :
  bids_ b = SideBook_init -> asks_ b = SideBook_init -> lookup_ b = ∅ ->
  levels b = ∅ -> orders b = ∅ -> pool_wf LEVELS (level_pool_ b) -> pool_wf ORDERS (order_pool_ b) ->
  abs b empty_book.
Proof.
  intros Eb Ea El ELs EOs PL PO. exists [], []. split; [|apply empty_book_wf|done|by rewrite EOs; apply covers_empty|].
  - split; simpl; [rewrite Eb|rewrite Ea|done|by rewrite ELs; apply covers_empty|constructor];
      apply side_rep_empty.
  - intros id p. rewrite El, EOs. setoid_rewrite lookup_empty. split; [done|]. by intros (? & [=] & _).
Qed.

Lemma init_abs listener : abs (LimitOrderBook_init listener) empty_book.
Proof. apply empty_abs; try done; by apply pool_init_wf. Qed.

(** ** Best prices *)
Lemma side_best s b As Ao Ls Lo :
  rep_core s b As Ao Ls Lo ->
  side_empty (side_at s b) = match Ls with [] => true | _ => false end /\
  forall L Ls', Ls = L :: Ls' -> exists n, rd (levels b) (best_level_ (side_at s b)) = Ret n /\ nd_price n = lv_price L.
Proof.
  intros [[B D F I] _ _ _ _]. unfold side_empty. rewrite B. split.
  - inversion F as [|[a ops] L As' Ls' _ _]; by subst.
  - intros L Ls' ->. inversion F as [|[a ops] ? As' ? (l & V & _) _]; subst. simpl in *.
    destruct (levels b !! a) as [n|] eqn:E; [|done]. exists n. rewrite (rd_Some _ _ _ E).
    split; [done|]. by injection V.
Qed.

Lemma best_bid_spec b B : abs b B -> best_bid b = Ret (best_price (bk_bids B)).
Proof.
  intros (Ab & Aa & [RC _ _ _ _]). destruct (side_best _ _ _ _ _ _ RC) as [E H]. simpl in E, H.
  unfold best_bid, best_bid_level. rewrite E. destruct (bk_bids B) as [|L Ls] eqn:EB; [done|].
  destruct (H _ _ eq_refl) as (n & -> & P). rewrite bind_Ret. simpl. by f_equal.
Qed.

Lemma best_ask_spec b B : abs b B -> best_ask b = Ret (best_price (bk_asks B)).
Proof.
  intros (Aa & Ab & [RC _ _ _ _])%(abs_at false). destruct (side_best _ _ _ _ _ _ RC) as [E H]. simpl in E, H.
  unfold best_ask, best_ask_level. rewrite E. destruct (bk_asks B) as [|L Ls] eqn:EB; [done|].
  destruct (H _ _ eq_refl) as (n & -> & P). rewrite bind_Ret. simpl. by f_equal.
Qed.

(** ** Clearing *)
Lemma clear_orders_spec ps : forall fuel pv (pool : OrderPool),
  dlseg (storage_ pool) pv ps None -> NoDup ps -> pool_wf ORDERS pool -> (length ps <= fuel)%nat ->
  exists pool', clear_orders fuel (head ps) pool = Ret pool' /\ pool_wf ORDERS pool' /\
    forall q, storage_ pool' !! q = if decide (q ∈ ps) then None else storage_ pool !! q.
Proof.
  induction ps as [|p ps IH]; intros fuel pv pool D ND P Fu.
  - exists pool. destruct fuel; split_and!; try done; intros q; by rewrite decide_False by set_solver.
  - destruct fuel as [|fuel]; simpl in Fu; [lia|]. simpl in D. destruct D as [(o & E & _ & N) D].
    apply NoDup_cons in ND as [Np ND].
    destruct (IH fuel (Some p) (deallocate ORDERS (Some p) pool)) as (pool' & E' & P' & H'); [|done| |lia|].
    + rewrite (deallocate_live_eq ORDERS _ p o) by done. by apply dlseg_delete.
    + by eapply deallocate_wf.
    + exists pool'. split_and!; [|done|].
      * simpl. rewrite (rd_Some _ _ _ E), bind_Ret. simpl in N. rewrite N, hd_or_None. exact E'.
      * intros q. rewrite H', (deallocate_live_eq ORDERS _ p o) by done. simpl.
        destruct (decide (p = q)) as [->|Nq].
        -- rewrite (decide_True (P := q ∈ q :: ps)), lookup_delete_eq by set_solver. by destruct (decide _).
        -- rewrite lookup_delete_ne by done. destruct (decide (q ∈ ps)).
           ++ by rewrite decide_True by set_solver.
           ++ by rewrite decide_False by set_solver.
Qed.

Lemma clear_levels_spec A : forall Ls fuel ofuel pv (lp : LevelPool) (op : OrderPool),
  dlseg (storage_ lp) pv (level_ptrs A) None -> NoDup (level_ptrs A) -> NoDup (order_ptrs A) ->
  Forall2 (level_rep (storage_ lp) (storage_ op)) A Ls ->
  pool_wf LEVELS lp -> pool_wf ORDERS op -> (length A <= fuel)%nat -> (length (order_ptrs A) <= ofuel)%nat ->
  exists lp' op', clear_levels fuel ofuel (head (level_ptrs A)) lp op = Ret (lp', op') /\
    pool_wf LEVELS lp' /\ pool_wf ORDERS op' /\
    (forall q, storage_ lp' !! q = if decide (q ∈ level_ptrs A) then None else storage_ lp !! q) /\
    (forall q, storage_ op' !! q = if decide (q ∈ order_ptrs A) then None else storage_ op !! q).
Proof.
  induction A as [|[a ops] A IH]; intros Ls fuel ofuel pv lp op D ND NO F PL PO Fu Ou.
  - exists lp, op. destruct fuel; split_and!; try done; intros q; by rewrite decide_False by set_solver.
  - destruct fuel as [|fuel]; simpl in Fu; [lia|]. autorewrite with shape in *. simpl in *.
    destruct D as [(n & E & _ & N) D]. apply NoDup_cons in ND as [Na ND].
    apply NoDup_app in NO as (NOo & NOd & NOr).
    apply Forall2_cons_inv_l in F as (L & Ls' & (l & V & Rl & _) & F & ->). simpl in V, Rl.
    rewrite E in V. simpl in V. injection V as _ _ _ <-.
    destruct Rl as (Hh & _ & _ & Do). rewrite length_app in Ou.
    destruct (clear_orders_spec ops ofuel None op Do NOo PO) as (op1 & E1 & P1 & H1); [lia|].
    destruct (IH Ls' fuel ofuel (Some a) (deallocate LEVELS (Some a) lp) op1)
      as (lp' & op' & E' & PL' & PO' & HL & HO); try done; try lia.
    + rewrite (deallocate_live_eq LEVELS _ a n) by done. by apply dlseg_delete.
    + rewrite (deallocate_live_eq LEVELS _ a n) by done. simpl.
      eapply side_levels_frame; [| |exact F].
      * intros c Hc. rewrite lookup_delete_ne; [done|]. by intros <-.
      * intros p Hp. rewrite H1, decide_False; [done|]. intros Hp'. by eapply NOd.
    + by eapply deallocate_wf.
    + exists lp', op'. split_and!; try done.
      * simpl. rewrite (rd_Some _ _ _ E), bind_Ret, Hh, E1, bind_Ret. simpl in N. rewrite N, hd_or_None. exact E'.
      * intros q. rewrite HL, (deallocate_live_eq LEVELS _ a n) by done. simpl.
        destruct (decide (a = q)) as [->|Nq].
        -- rewrite (decide_True (P := q ∈ q :: _)), lookup_delete_eq by set_solver. by destruct (decide _).
        -- rewrite lookup_delete_ne by done. destruct (decide (q ∈ level_ptrs A)).
           ++ by rewrite decide_True by set_solver.
           ++ by rewrite decide_False by set_solver.
      * intros q. rewrite HO, H1. destruct (decide (q ∈ order_ptrs A)).
        -- by rewrite decide_True by set_solver.
        -- destruct (decide (q ∈ ops)).
           ++ by rewrite decide_True by set_solver.
           ++ by rewrite decide_False by set_solver.
Qed.

Lemma covers_size {T} (h : gmap Z T) ps : covers h ps -> length ps = size h.
Proof.
  intros [ND C]. assert (list_to_set ps = dom h) as E.
  { apply set_eq. intros a. by rewrite elem_of_list_to_set, elem_of_dom, C. }
  rewrite <-size_dom, <-E. by rewrite size_list_to_set.
Qed.

Lemma clear_abs b B : abs b B -> exists b', clear b = Ret b' /\ abs b' empty_book /\ listener_ b' = listener_ b /\ events_ b' = events_ b.
Proof.
  intros (Ab & Aa & [RC W P C LK]). pose proof RC as [S O PL CL NO]. simpl in *.
  pose proof CL as [NL _]. apply NoDup_app in NL as (NLb & NLd & NLa).
  apply NoDup_app in NO as (NOb & NOd & NOa).
  pose proof (covers_size _ _ CL) as ZL. pose proof (covers_size _ _ C) as ZO. rewrite length_app in ZL, ZO.
  unfold level_ptrs in ZL at 1 2. rewrite !length_map in ZL.
  destruct S as [B1 D1 F1 _], O as [B2 D2 F2 _].
  destruct (clear_levels_spec Ab _ (S (size (levels b))) (S (size (orders b))) None (level_pool_ b) (order_pool_ b)
    D1 NLb NOb F1 PL P) as (lp1 & op1 & E1 & PL1 & PO1 & HL1 & HO1); [lia..|].
  assert (forall c, c ∈ level_ptrs Aa -> storage_ lp1 !! c = levels b !! c) as KL.
  { intros c Hc. rewrite HL1, decide_False; [done|]. intros Hc'. by eapply NLd. }
  assert (forall q, q ∈ order_ptrs Aa -> storage_ op1 !! q = orders b !! q) as KO.
  { intros q Hq. rewrite HO1, decide_False; [done|]. intros Hq'. by eapply NOd. }
  destruct (clear_levels_spec Aa (bk_asks B) (S (size (storage_ lp1))) (S (size (storage_ op1))) None lp1 op1)
    as (lp2 & op2 & E2 & PL2 & PO2 & HL2 & HO2); try done.
  { eapply dlseg_frame_eq; [exact KL|exact D2]. }
  { eapply side_levels_frame; [| |exact F2]; [|exact KO]. intros c Hc. by rewrite KL. }
  { enough (length (level_ptrs Aa) <= size (storage_ lp1))%nat by (unfold level_ptrs in *; rewrite length_map in *; lia).
    apply nodup_live_length; [done|]. intros c Hc. rewrite KL by done. by eapply dlseg_lookup. }
  { enough (length (order_ptrs Aa) <= size (storage_ op1))%nat by lia.
    apply nodup_live_length; [done|]. intros c Hc. rewrite KO by done. apply C. set_solver. }
  unfold clear, BidBook_clear, AskBook_clear, side_clear. rewrite B1. unfold levels, orders in E1. rewrite E1, !bind_Ret, B2, E2, !bind_Ret.
  eexists. split; [done|]. split; [|done]. apply empty_abs; try done.
  - apply map_eq. intros a. rewrite lookup_empty. unfold levels. simpl. rewrite HL2, HL1.
    destruct (decide _); [done|]. destruct (decide _); [done|]. apply eq_None_not_Some.
    intros H%(proj2 CL). set_solver.
  - apply map_eq. intros a. rewrite lookup_empty. unfold orders. simpl. rewrite HO2, HO1.
    destruct (decide _); [done|]. destruct (decide _); [done|]. apply eq_None_not_Some.
    intros H%(proj2 C). set_solver.
Qed.

(** ** The assertions of [verify_invariants] hold *)
Lemma dlseg_next_back {T} `{LinkedLaws T} (h : gmap Z T) pv p ps n q m :
  dlseg h pv (p :: ps) None -> h !! p = Some n -> get_next n = Some q -> h !! q = Some m ->
  get_prev m = Some p.
Proof.
  intros [(n' & E' & _ & N') D] E N Eq. assert (n' = n) as -> by congruence.
  destruct ps as [|q' ps]; simpl in N'; [congruence|]. destruct D as [(m' & Em & Pm & _) _].
  congruence.
Qed.

Lemma verify_levels_spec before `{!LevelOrder before} A : forall ls os Ls fuel pv price,
  dlseg ls pv (level_ptrs A) None -> Forall2 (level_rep ls os) A Ls ->
  Forall level_ok Ls -> sorted_by before Ls -> (length A <= fuel)%nat ->
  (forall L, L ∈ Ls -> before (lv_price L) price = false) ->
  verify_levels before fuel ls (head (level_ptrs A)) price = Ret tt.
Proof.
  induction A as [|[a ops] A IH]; intros ls os Ls fuel pv price D F OK SO Fu Pr.
  - by destruct fuel.
  - destruct fuel as [|fuel]; simpl in Fu; [lia|].
    pose proof D as [(n & E & _ & N) D'].
    apply Forall2_cons_inv_l in F as (L & Ls' & (l & V & Rl & Ro) & F & ->). simpl in V, Rl, Ro.
    change ((a, ops).1) with a in E, V.
    rewrite E in V. injection V as Ep _ _ <-. destruct Rl as (Hh & Ht & _ & _).
    apply Forall_cons in OK as [[NE _] OK]. apply (sorted_by_app _ [L]) in SO as (_ & SO & C).
    destruct ops as [|p ops]; [by apply Forall2_nil_inv_l in Ro|].
    simpl. rewrite (rd_Some _ _ _ E), bind_Ret, Ep, Pr by set_solver. simpl assert_. rewrite bind_Ret.
    unfold has_orders, list_empty. rewrite Hh, Ht.
    rewrite (bool_decide_eq_false_2 (head _ = None)), !bool_decide_eq_true_2 by first [done|by rewrite last_cons; destruct (last ops)].
    simpl assert_. rewrite !bind_Ret.
    assert (match nd_next n with
            | Some _ => m ← rd ls (nd_next n); assert_ (bool_decide (nd_prev m = Some a))
            | None => Ret tt
            end = Ret tt) as ->.
    { destruct (nd_next n) as [q|] eqn:Eq; [|done].
      simpl in N. rewrite Eq, hd_or_None in N. symmetry in N.
      destruct (dlseg_lookup _ _ _ _ q D') as [m Em]; [by apply head_Some_elem_of|].
      rewrite (rd_Some _ _ _ Em), bind_Ret, bool_decide_eq_true_2; [done|].
      by apply (dlseg_next_back ls pv a _ n q m D). }
    rewrite bind_Ret. simpl in N. rewrite N, hd_or_None.
    eapply IH; try done; [lia|]. intros K HK. apply before_asym; [done|]. apply C; set_solver.
Qed.

Lemma side_verify_spec s b As Ao Ls Lo :
  rep_core s b As Ao Ls Lo -> Forall level_ok Ls -> sorted_by (before_at s) Ls ->
  side_verify (before_at s) (side_at s b) (levels b) = Ret tt.
Proof.
  intros [[B D F I] _ _ C _] OK SO. unfold side_verify. rewrite B.
  destruct As as [|[a ops] As].
  - simpl. apply Forall2_nil_inv_l in F as ->. unfold index_is_empty. rewrite bool_decide_eq_true_2; [done|].
    apply map_eq. intros p. rewrite lookup_empty. apply eq_None_not_Some. intros [x Hx]. apply I in Hx. set_solver.
  - pose proof D as [(n & E & Pn & _) _]. change ((a, ops).1) with a in E. change (head (level_ptrs ((a, ops) :: As))) with (Some a).
    cbv iota. rewrite (rd_Some _ _ _ E), bind_Ret. simpl in Pn.
    rewrite Pn, bool_decide_eq_true_2 by done. simpl assert_. rewrite bind_Ret.
    change (Some a) with (head (level_ptrs ((a, ops) :: As))) at 1.
    eapply verify_levels_spec; try done; try apply _.
    + pose proof (covers_size _ _ C) as Z. rewrite length_app in Z. unfold level_ptrs in Z.
      rewrite !length_map in Z. lia.
    + inversion F as [|? L ? Ls' (l & V & _) _]; subst. simpl in V. rewrite E in V. injection V as Ep _ _ _.
      rewrite Ep. intros K [->|HK]%elem_of_cons; [apply before_irrefl|].
      apply (sorted_by_app _ [L]) in SO as (_ & _ & C'). apply before_asym; [apply _|]. apply C'; set_solver.
Qed.

Lemma verify_spec b B : abs b B -> verify_invariants b = Ret tt.
Proof.
  intros (Ab & Aa & R). unfold verify_invariants. pose proof R as [RC W _ _ _].
  pose proof (rep_core_flip _ _ _ _ _ _ RC) as RC'.
  pose proof (side_verify_spec _ _ _ _ _ _ RC (spec_at_levels true B W) (spec_at_sorted true B W)) as V1.
  pose proof (side_verify_spec _ _ _ _ _ _ RC' (spec_at_levels false B W) (spec_at_sorted false B W)) as V2.
  simpl in V1, V2. unfold BidBook_verify, AskBook_verify. by rewrite V1, bind_Ret.
Qed.
