(* ===== verification/BookProperties.v ===== *)
(** * Properties of the order book

    The theorems of the order book, stated on [LimitOrderBook] states that stand
    for an abstract book ([abs]); each is followed by a concrete instance. *)
From S2P Require Import Prelude Domain ObjectPool DList BookSpec OrderList SideBook OrderBook BookRefine BookOps BookClear.

(** The instances start from an empty book or from one with a single order. *)
Definition sample_order (id p q : Z) (s : Side) : Order := MkOrder id p q id 0 0 1 1 7 s Limit GTC 0.
Definition one_bid : Book := MkBook [MkLevel 100 [resting_of (sample_order 1 100 10 Buy) 1]] [].

Lemma sample_insert_ok : insert_ok (sample_order 1 100 10 Buy) empty_book.
Proof. split; simpl; [lia|set_solver|set_solver]. Qed.
Lemma sample_room : insert_room (sample_order 1 100 10 Buy) empty_book.
Proof. split; [done|by right]. Qed.
Lemma one_bid_abs : exists p b, insert (sample_order 1 100 10 Buy) 1 (LimitOrderBook_init false) = Ret (p, b) /\
  abs b one_bid /\ lookup_ b !! 1 = Some p.
Proof. exact (insert_abs _ 1 _ _ (init_abs false) sample_insert_ok sample_room). Qed.

(** C13: [insert] joins the tail of the queue at the order's price, or opens the
    level in price order; the order is then found under its id. *)
Theorem insert_refines (o : Order) (seq : Z) (b : LimitOrderBook) (B : Book) :
  abs b B -> insert_ok o B -> insert_room o B ->
  exists p b', insert o seq b = Ret (p, b') /\ abs b' (spec_insert o seq B) /\ find_order (order_id o) b' = Some p.
Proof. apply insert_abs. Qed.
Lemma insert_refines_witness :
  exists p b, insert (sample_order 1 100 10 Buy) 1 (LimitOrderBook_init false) = Ret (p, b) /\
    abs b (spec_insert (sample_order 1 100 10 Buy) 1 empty_book) /\ find_order 1 b = Some p.
Proof. exact (insert_refines _ 1 _ _ (init_abs false) sample_insert_ok sample_room). Defined.

(** C14: [cancel] reports whether the id rests in the book, removes exactly that
    order, keeps the rest in order and drops a level left empty. *)
Theorem cancel_refines (b : LimitOrderBook) (B : Book) (id : Z) :
  abs b B ->
  exists b', cancel id b = Ret (bool_decide (id ∈ map r_id (book_orders B)), b') /\
    abs b' (spec_cancel id B) /\ find_order id b' = None.
Proof.
  intros R. destruct (cancel_abs b B id R) as (b' & E & R'). exists b'. split_and!; [done|done|].
  unfold find_order, lookup_find. destruct (lookup_ b' !! id) as [p|] eqn:F; [|done].
  exfalso. apply (lookup_Some_spec _ _ _ _ R') in F. rewrite book_orders_eq in F. simpl in F.
  rewrite !drop_id_orders, <-filter_app in F. apply list_elem_of_fmap in F as (r & -> & [N _]%list_elem_of_filter).
  done.
Qed.
Lemma cancel_refines_witness :
  exists p b b', insert (sample_order 1 100 10 Buy) 1 (LimitOrderBook_init false) = Ret (p, b) /\
    cancel 1 b = Ret (true, b') /\ abs b' empty_book /\ find_order 1 b' = None.
Proof.
  destruct one_bid_abs as (p & b & E & R & _). destruct (cancel_refines b one_bid 1 R) as (b' & E' & R' & F).
  exists p, b, b'. split_and!; [exact E| |exact R'|exact F]. rewrite E'. reflexivity.
Defined.

(** C15: [modify_qty] keeps the place of an order whose quantity shrinks, moves
    one that grows to the tail of its queue with the new priority, and leaves
    everything else as it was. *)
Theorem modify_refines (id v seq : Z) (b : LimitOrderBook) (B : Book) :
  abs b B -> 0 <= v < 2 ^ 64 ->
  exists b', modify_qty id v seq b = Ret (bool_decide (id ∈ map r_id (book_orders B)), b') /\
    abs b' (spec_modify id v seq B).
Proof. apply modify_abs. Qed.
Lemma modify_refines_witness :
  exists p b b', insert (sample_order 1 100 10 Buy) 1 (LimitOrderBook_init false) = Ret (p, b) /\
    modify_qty 1 12 9 b = Ret (true, b') /\
    abs b' (MkBook [MkLevel 100 [MkResting (MkOrderKey 7 1) 100 12 9]] []).
Proof.
  destruct one_bid_abs as (p & b & E & R & _).
  destruct (modify_refines 1 12 9 b one_bid R ltac:(lia)) as (b' & E' & R'). exists p, b, b'.
  split_and!; [done| |exact R']. rewrite E'. rewrite bool_decide_eq_true_2; [done|]. apply elem_of_cons. by left.
Defined.

(** [fill_order] on a resting order takes the quantity off the order in
    place, or removes the order when nothing remains. *)
Theorem fill_refines (b : LimitOrderBook) (B : Book) (id q : Z) (p : Z) :
  abs b B -> find_order id b = Some p ->
  exists r L1 L q1 q2 L2 s, spec_at s B = L1 ++ L :: L2 /\ lv_orders L = q1 ++ r :: q2 /\ r_id r = id /\
    (0 <= q <= r_qty r ->
     exists b', fill_order (Some p) q b = Ret b' /\
       abs b' (if q =? r_qty r then spec_cancel id B
               else set_spec s (L1 ++ with_orders (q1 ++ with_qty (r_qty r - q) r :: q2) L :: L2) B)).
Proof.
  intros R F. destruct (locate _ _ _ _ R F)
    as (s & A1 & a & o1 & o2 & A2 & Ao & o & L1 & L & q1 & q2 & L2 & RA & Ei & LC).
  exists (resting_view o), L1, L, q1, q2, L2, s.
  split_and!; [apply (lc_spec _ _ _ _ _ _ _ _ _ _ _ _ _ _ _ LC)|apply (lc_queue _ _ _ _ _ _ _ _ _ _ _ _ _ _ _ LC)|done|].
  intros Q. simpl in Q |- *. destruct (Z.eqb_spec q (lo_remaining_qty o)) as [C|C].
  - destruct (fill_complete s b A1 a o1 p o2 A2 Ao B o L1 L q1 q2 L2 q RA LC Q C) as (b' & E' & R').
    exists b'. split; [done|]. rewrite Ei in R'. apply (abs_at s). eauto.
  - destruct (fill_partial s b A1 a o1 p o2 A2 Ao B o L1 L q1 q2 L2 q RA LC Q) as (b' & E' & R'); [lia|].
    exists b'. split; [done|]. apply (abs_at s). eauto.
Qed.
Lemma fill_refines_witness :
  exists p b, insert (sample_order 1 100 10 Buy) 1 (LimitOrderBook_init false) = Ret (p, b) /\
    exists r L1 L q1 q2 L2 s, spec_at s one_bid = L1 ++ L :: L2 /\ lv_orders L = q1 ++ r :: q2 /\ r_id r = 1 /\
    (0 <= 4 <= r_qty r ->
     exists b', fill_order (Some p) 4 b = Ret b' /\
       abs b' (if 4 =? r_qty r then spec_cancel 1 one_bid
               else set_spec s (L1 ++ with_orders (q1 ++ with_qty (r_qty r - 4) r :: q2) L :: L2) one_bid)).
Proof.
  destruct one_bid_abs as (p & b & E & R & F). exists p, b. split; [exact E|].
  exact (fill_refines b one_bid 1 4 p R F).
Defined.

(** [clear] returns every order and level to its pool and leaves the empty book. *)
Lemma clear_refines (b : LimitOrderBook) (B : Book) :
  abs b B ->
  exists b', clear b = Ret b' /\ abs b' empty_book /\
    available (order_pool_ b') = ORDERS /\ available (level_pool_ b') = LEVELS.
Proof.
  intros R. destruct (clear_abs b B R) as (b' & E & R' & _). exists b'. split_and!; [done|done|..].
  all: destruct R' as (Ab & Aa & [RC W P C _]); pose proof RC as [S O PL CL _]; simpl in S, O.
  all: pose proof (sr_levels _ _ _ _ _ S) as F1; pose proof (sr_levels _ _ _ _ _ O) as F2.
  all: simpl in F1, F2; apply Forall2_nil_inv_r in F1 as ->; apply Forall2_nil_inv_r in F2 as ->.
  - pose proof (pool_occupancy ORDERS (order_pool_ b') _ ltac:(done) P (proj1 C) (proj2 C)) as H.
    unfold available. simpl in H. lia.
  - pose proof (pool_occupancy LEVELS (level_pool_ b') _ ltac:(done) PL (proj1 CL) (proj2 CL)) as H.
    unfold available. simpl in H. lia.
Qed.
Lemma clear_refines_witness :
  exists p b b', insert (sample_order 1 100 10 Buy) 1 (LimitOrderBook_init false) = Ret (p, b) /\
    clear b = Ret b' /\ abs b' empty_book /\
    available (order_pool_ b') = ORDERS /\ available (level_pool_ b') = LEVELS.
Proof.
  destruct one_bid_abs as (p & b & E & R & _). destruct (clear_refines b one_bid R) as (b' & H).
  exists p, b, b'. split; [exact E|exact H].
Defined.

(** In every state that stands for a book, the assertions of
    [verify_invariants] hold and the best prices are those of the first levels. *)
Lemma book_checks_pass (b : LimitOrderBook) (B : Book) :
  abs b B ->
  verify_invariants b = Ret tt /\ best_bid b = Ret (best_price (bk_bids B)) /\
  best_ask b = Ret (best_price (bk_asks B)).
Proof. intros R. split_and!; [by eapply verify_spec|by apply best_bid_spec|by apply best_ask_spec]. Qed.
Lemma book_checks_pass_witness :
  exists p b, insert (sample_order 1 100 10 Buy) 1 (LimitOrderBook_init false) = Ret (p, b) /\
    verify_invariants b = Ret tt /\ best_bid b = Ret 100 /\ best_ask b = Ret 0.
Proof.
  destruct one_bid_abs as (p & b & E & R & _). exists p, b. split; [done|]. exact (book_checks_pass b one_bid R).
Defined.

(** Order ids are not checked on insertion: a second order with the id of a
    resting one takes its place in the lookup, and the first, though it still
    rests and sets the best price, can no longer be found or cancelled. *)
Lemma duplicate_id_orphans :
  ('(_, b) ← insert (sample_order 1 100 10 Buy) 1 (LimitOrderBook_init false);
   '(_, b) ← insert (sample_order 1 101 10 Buy) 2 b;
   '(ok, b) ← cancel 1 b;
   bid ← best_bid b;
   Ret (ok, find_order 1 b, bid)) = Ret (true, None, 100).
Proof. vm_compute. reflexivity. Qed.
