(* ===== verification/MatchSpec.v ===== *)
(** * Abstract price-time priority matching

    What [MatchingEngine::submit_order] promises, on the pointer-free books of
    [BookSpec]: an incoming order is matched against the opposite side from the
    best level outwards and from the head of each queue, each fill at the price
    of the level. *)
From S2P Require Import Prelude Domain BookSpec.

Record MakerFill := MkFillOf { mf_price : Z; mf_maker : Resting; mf_qty : Z }.

(** Match [rem] units against one queue: the fills, what is left of the incoming
    order, and what is left of the queue. *)
Fixpoint match_queue (p rem : Z) (q : list Resting) : list MakerFill * Z * list Resting :=
  match q with
  | [] => ([], rem, [])
  | r :: q' =>
      if rem >? 0 then
        let m := Z.min rem (r_qty r) in
        if r_qty r - m =? 0 then
          let '(fs, rem', k) := match_queue p (rem - m) q' in (MkFillOf p r m :: fs, rem', k)
        else ([MkFillOf p r m], rem - m, with_qty (r_qty r - m) r :: q')
      else ([], rem, q)
  end.

Section side.
Variable crosses : Z -> bool.

Fixpoint match_side (rem : Z) (Ls : list Level) : list MakerFill * Z * list Level :=
  match Ls with
  | [] => ([], rem, [])
  | L :: Ls' =>
      if (rem >? 0) && crosses (lv_price L) then
        let '(fs, rem1, k) := match_queue (lv_price L) rem (lv_orders L) in
        match k with
        | [] => let '(fs', rem2, Ls2) := match_side rem1 Ls' in (fs ++ fs', rem2, Ls2)
        | _ => (fs, rem1, with_orders k L :: Ls')
        end
      else ([], rem, Ls)
  end.
End side.

Definition crosses (o : Order) (p : Z) : bool :=
  negb (bool_decide (type o = Limit) && (if order_side o then price o <? p else price o >? p)).

Definition opposite (o : Order) (B : Book) : list Level := spec_at (negb (order_side o)) B.

Definition spec_fills (o : Order) (B : Book) : list MakerFill :=
  (match_side (crosses o) (qty o) (opposite o B)).1.1.
Definition spec_remaining (o : Order) (B : Book) : Z :=
  (match_side (crosses o) (qty o) (opposite o B)).1.2.
Definition spec_matched (o : Order) (B : Book) : Book :=
  set_spec (negb (order_side o)) (match_side (crosses o) (qty o) (opposite o B)).2 B.
Definition spec_rests (o : Order) (B : Book) : bool :=
  (spec_remaining o B >? 0) && bool_decide (type o = Limit).
(** The whole quantity of the order rests, not what the matching left of it:
    [submit_order] inserts the order it was given. *)
Definition spec_submit (o : Order) (B : Book) : Book :=
  if spec_rests o B then spec_insert o (seq_num o) (spec_matched o B) else spec_matched o B.

Definition traded (fs : list MakerFill) : Z := sumZ (map mf_qty fs).

(** ** One queue *)
Section queue.
Variable p : Z.

Lemma match_queue_rem rem q fs rem' k :
  match_queue p rem q = (fs, rem', k) -> 0 <= rem -> Forall (fun r => 0 <= r_qty r) q ->
  0 <= rem' <= rem /\ (k <> [] -> rem' = 0) /\ traded fs + rem' = rem /\
  sumZ (map r_qty q) = traded fs + sumZ (map r_qty k).
Proof.
  revert rem fs rem' k. induction q as [|r q IH]; intros rem fs rem' k; simpl.
  - intros [= <- <- <-] P _. unfold traded. simpl. rewrite sumZ_nil. split_and!; [lia|lia|done|lia..].
  - intros E P [Q F]%Forall_cons. destruct (Z.gtb_spec rem 0) as [G|G].
    2: { injection E as <- <- <-. unfold traded. simpl. rewrite !sumZ_cons, sumZ_nil. split_and!; lia. }
    destruct (Z.eqb_spec (r_qty r - rem `min` r_qty r) 0) as [C|C].
    + destruct (match_queue p _ q) as [[fs1 rem1] k1] eqn:E1. injection E as <- <- <-.
      destruct (IH _ _ _ _ E1) as (B1 & B2 & B3 & B4); [lia|done|].
      unfold traded in *. simpl. rewrite !sumZ_cons. split_and!; [lia|lia|done|lia|lia].
    + injection E as <- <- <-. unfold traded. simpl. rewrite !sumZ_cons, sumZ_nil. split_and!; lia.
Qed.

(** The makers are a prefix of the queue; all of them but the last are filled
    completely, and what remains is the rest of the queue. *)
Lemma match_queue_fifo rem q fs rem' k :
  match_queue p rem q = (fs, rem', k) ->
  (q = map mf_maker fs ++ k /\ Forall (fun f => mf_qty f = r_qty (mf_maker f)) fs) \/
  exists fs0 r m q', fs = fs0 ++ [MkFillOf p r m] /\ q = map mf_maker fs0 ++ r :: q' /\
    k = with_qty (r_qty r - m) r :: q' /\ m < r_qty r /\
    Forall (fun f => mf_qty f = r_qty (mf_maker f)) fs0.
Proof.
  revert rem fs rem' k. induction q as [|r q IH]; intros rem fs rem' k; simpl.
  { intros [= <- <- <-]. by left. }
  destruct (rem >? 0). 2: { intros [= <- <- <-]. by left. }
  destruct (Z.eqb_spec (r_qty r - rem `min` r_qty r) 0) as [C|C].
  - destruct (match_queue p _ q) as [[fs1 rem1] k1] eqn:E1. intros [= <- <- <-].
    destruct (IH _ _ _ _ E1) as [[-> F]|(fs0 & r0 & m & q' & -> & -> & -> & Lt & F)].
    + left. split; [done|]. constructor; [simpl; lia|done].
    + right. exists (MkFillOf p r (rem `min` r_qty r) :: fs0), r0, m, q'. split_and!; try done.
      constructor; [simpl; lia|done].
  - intros [= <- <- <-]. right. exists [], r, (rem `min` r_qty r), q. split_and!; try done. lia.
Qed.

Lemma match_queue_price rem q fs rem' k :
  match_queue p rem q = (fs, rem', k) -> Forall (fun f => mf_price f = p) fs.
Proof.
  revert rem fs rem' k. induction q as [|r q IH]; intros rem fs rem' k; simpl; [by intros [= <- _ _]|].
  destruct (rem >? 0); [|by intros [= <- _ _]].
  destruct (_ =? 0).
  - destruct (match_queue p _ q) as [[fs1 rem1] k1] eqn:E1. intros [= <- _ _]. constructor; [done|eauto].
  - intros [= <- _ _]. by constructor.
Qed.

Lemma match_queue_sublist rem q fs rem' k :
  match_queue p rem q = (fs, rem', k) ->
  map r_id k `sublist_of` map r_id q /\
  (forall P, (forall r v, P r -> 0 <= v <= r_qty r -> P (with_qty v r)) ->
     0 <= rem -> Forall (fun r => 0 <= r_qty r) q -> Forall P q -> Forall P k).
Proof.
  revert rem fs rem' k. induction q as [|r q IH]; intros rem fs rem' k; simpl; [by intros [= _ _ <-]|].
  destruct (rem >? 0) eqn:G; [|by intros [= _ _ <-]].
  destruct (Z.eqb_spec (r_qty r - rem `min` r_qty r) 0) as [C|C].
  - destruct (match_queue p _ q) as [[fs1 rem1] k1] eqn:E1. intros [= _ _ <-].
    destruct (IH _ _ _ _ E1) as [S T]. split; [by apply sublist_cons|].
    intros P HP Hr [Q F]%Forall_cons [_ FP]%Forall_cons. apply T; try done.
    apply Z.gtb_lt in G. lia.
  - intros [= _ _ <-]. split; [done|]. intros P HP Hr [Q F]%Forall_cons [PR FP]%Forall_cons.
    constructor; [|done]. apply HP; [done|]. lia.
Qed.
End queue.

(** ** One side *)
Lemma level_ok_qty L : level_ok L -> Forall (fun r => 0 <= r_qty r) (lv_orders L).
Proof. intros [_ F]. eapply Forall_impl; [exact F|]. simpl. intros r [_ ?]. lia. Qed.

Lemma side_qty_cons L Ls : side_qty (L :: Ls) = level_qty L + side_qty Ls.
Proof. unfold side_qty, level_qty. by rewrite side_orders_cons, map_app, sumZ_app. Qed.
Lemma level_qty_with L os : level_qty (with_orders os L) = sumZ (map r_qty os).
Proof. reflexivity. Qed.
Lemma traded_app f g : traded (f ++ g) = traded f + traded g.
Proof. unfold traded. by rewrite map_app, sumZ_app. Qed.

Section match_side.
Context (crs : Z -> bool).

Lemma match_side_rem Ls : forall rem fs rem' Ls',
  match_side crs rem Ls = (fs, rem', Ls') -> 0 <= rem -> Forall level_ok Ls ->
  0 <= rem' <= rem /\ traded fs + rem' = rem /\ side_qty Ls = traded fs + side_qty Ls'.
Proof.
  induction Ls as [|L Ls IH]; intros rem fs rem' Ls'; simpl.
  { intros [= <- <- <-] P _. unfold traded. simpl. rewrite sumZ_nil. lia. }
  intros E P [OK F]%Forall_cons. destruct ((rem >? 0) && crs (lv_price L)).
  2: { injection E as <- <- <-. unfold traded. simpl. rewrite sumZ_nil. lia. }
  destruct (match_queue _ _ _) as [[fs1 rem1] k] eqn:E1.
  destruct (match_queue_rem _ _ _ _ _ _ E1) as (B1 & B2 & B3 & B4); [done|by apply level_ok_qty|].
  fold (level_qty L) in B4. rewrite side_qty_cons. destruct k as [|r k].
  - destruct (match_side crs rem1 Ls) as [[fs2 rem2] Ls2] eqn:E2. injection E as <- <- <-.
    destruct (IH _ _ _ _ E2) as (C1 & C2 & C3); [lia|done|]. rewrite traded_app.
    simpl in B4. rewrite sumZ_nil in B4. lia.
  - injection E as <- <- <-. rewrite side_qty_cons, level_qty_with. lia.
Qed.

Lemma match_side_level_ok Ls : forall rem fs rem' Ls',
  match_side crs rem Ls = (fs, rem', Ls') -> 0 <= rem -> Forall level_ok Ls -> Forall level_ok Ls'.
Proof.
  induction Ls as [|L Ls IH]; intros rem fs rem' Ls'; simpl; [by intros [= _ _ <-]|].
  intros E P [OK F]%Forall_cons. destruct ((rem >? 0) && crs (lv_price L)).
  2: { injection E as _ _ <-. by constructor. }
  destruct (match_queue _ _ _) as [[fs1 rem1] k] eqn:E1.
  pose proof (match_queue_rem _ _ _ _ _ _ E1 P (level_ok_qty L OK)) as (B1 & _).
  destruct k as [|r k].
  - destruct (match_side crs rem1 Ls) as [[fs2 rem2] Ls2] eqn:E2. injection E as _ _ <-.
    eapply IH; [exact E2|lia|done].
  - injection E as _ _ <-. constructor; [|done]. split; [done|].
    eapply (proj2 (match_queue_sublist _ _ _ _ _ _ E1)); [|done|by apply level_ok_qty|apply OK].
    intros r0 v [Pr Q] Hv. simpl. split; [done|lia].
Qed.

Lemma match_side_suffix Ls : forall rem fs rem' Ls',
  match_side crs rem Ls = (fs, rem', Ls') ->
  map lv_price Ls' `suffix_of` map lv_price Ls /\
  map r_id (side_orders Ls') `sublist_of` map r_id (side_orders Ls).
Proof.
  induction Ls as [|L Ls IH]; intros rem fs rem' Ls'; simpl; [by intros [= _ _ <-]|].
  intros E. destruct ((rem >? 0) && crs (lv_price L)). 2: { by injection E as _ _ <-. }
  destruct (match_queue _ _ _) as [[fs1 rem1] k] eqn:E1. rewrite side_orders_cons, map_app.
  destruct k as [|r k].
  - destruct (match_side crs rem1 Ls) as [[fs2 rem2] Ls2] eqn:E2. injection E as _ _ <-.
    destruct (IH _ _ _ _ E2) as [S T]. split; [by apply suffix_cons_r|]. by apply sublist_inserts_l.
  - injection E as _ _ <-. split; [done|]. rewrite side_orders_cons, map_app. simpl.
    apply (sublist_app (r_id r :: map r_id k)); [|done].
    apply (proj1 (match_queue_sublist _ _ _ _ _ _ E1)).
Qed.

Lemma match_side_fill_prices Ls : forall rem fs rem' Ls',
  match_side crs rem Ls = (fs, rem', Ls') ->
  Forall (fun f => crs (mf_price f) = true /\ mf_price f ∈ map lv_price Ls) fs.
Proof.
  induction Ls as [|L Ls IH]; intros rem fs rem' Ls'; simpl; [by intros [= <- _ _]|].
  intros E. destruct (rem >? 0); [|by injection E as <- _ _].
  destruct (crs (lv_price L)) eqn:CL; [|by injection E as <- _ _]. simpl in E.
  destruct (match_queue _ _ _) as [[fs1 rem1] k] eqn:E1. apply match_queue_price in E1.
  assert (Forall (fun f => crs (mf_price f) = true /\ mf_price f ∈ lv_price L :: map lv_price Ls) fs1) as F1.
  { eapply Forall_impl; [exact E1|]. simpl. intros f ->. set_solver. }
  destruct k as [|r k]; [|by injection E as <- _ _].
  destruct (match_side crs rem1 Ls) as [[fs2 rem2] Ls2] eqn:E2. injection E as <- _ _.
  apply Forall_app. split; [done|]. eapply Forall_impl; [exact (IH _ _ _ _ E2)|]. set_solver.
Qed.

(** The makers are a prefix of the side in priority order; all but the last are
    filled completely. *)
Lemma match_side_priority Ls : forall rem fs rem' Ls',
  match_side crs rem Ls = (fs, rem', Ls') -> 0 <= rem -> Forall level_ok Ls ->
  (side_orders Ls = map mf_maker fs ++ side_orders Ls' /\
     Forall (fun f => mf_qty f = r_qty (mf_maker f)) fs) \/
  exists fs0 p r m rest, fs = fs0 ++ [MkFillOf p r m] /\ side_orders Ls = map mf_maker fs0 ++ r :: rest /\
    side_orders Ls' = with_qty (r_qty r - m) r :: rest /\ m < r_qty r /\ rem' = 0 /\
    Forall (fun f => mf_qty f = r_qty (mf_maker f)) fs0.
Proof.
  induction Ls as [|L Ls IH]; intros rem fs rem' Ls'; simpl.
  { intros [= <- _ <-]. by left. }
  intros E P [OK F]%Forall_cons. destruct ((rem >? 0) && crs (lv_price L)).
  2: { injection E as <- _ <-. by left. }
  destruct (match_queue _ _ _) as [[fs1 rem1] k] eqn:E1. rewrite side_orders_cons.
  pose proof (match_queue_rem _ _ _ _ _ _ E1 P (level_ok_qty L OK)) as (B1 & B2 & _).
  apply match_queue_fifo in E1. destruct k as [|r k].
  - destruct (match_side crs rem1 Ls) as [[fs2 rem2] Ls2] eqn:E2. injection E as <- <- <-.
    destruct E1 as [[-> F1]|(? & ? & ? & ? & _ & _ & [=] & _)]. rewrite app_nil_r.
    destruct (IH _ _ _ _ E2) as [[-> F2]|(fs0 & p & r & m & rest & -> & -> & -> & Lt & R0 & F2)]; [lia|done|..].
    + left. rewrite map_app, <-app_assoc. split; [done|]. by apply Forall_app.
    + right. exists (fs1 ++ fs0), p, r, m, rest. rewrite map_app, <-!app_assoc. split_and!; try done.
      by apply Forall_app.
  - injection E as <- <- <-. rewrite side_orders_cons. cbn [lv_orders with_orders].
    destruct E1 as [[-> F1]|(fs0 & r0 & m & q' & -> & -> & -> & Lt & F1)].
    + left. by rewrite <-app_assoc.
    + right. exists fs0, (lv_price L), r0, m, (q' ++ side_orders Ls). rewrite <-!app_assoc.
      split_and!; try done. by apply B2.
Qed.
End match_side.

Section sorted_side.
Context (before : Z -> Z -> bool) `{!LevelOrder before} (crs : Z -> bool).
(** A level that does not cross is followed by levels that do not either. *)
Context (mono : forall p q, before p q = true -> crs p = false -> crs q = false).

Lemma match_side_sorted rem Ls fs rem' Ls' :
  match_side crs rem Ls = (fs, rem', Ls') -> sorted_by before Ls -> sorted_by before Ls'.
Proof.
  intros E S. destruct (match_side_suffix _ _ _ _ _ _ E) as [[ps Eps] _]. unfold sorted_by in *.
  rewrite Eps in S. clear Eps. induction ps as [|p ps IH]; [done|]. apply IH. by apply StronglySorted_inv in S as [S _].
Qed.

(** When the order is not exhausted, no remaining level crosses. *)
Lemma match_side_uncrossed Ls : forall rem fs rem' Ls',
  match_side crs rem Ls = (fs, rem', Ls') -> 0 <= rem -> Forall level_ok Ls -> sorted_by before Ls ->
  0 < rem' -> forall p, p ∈ map lv_price Ls' -> crs p = false.
Proof.
  induction Ls as [|L Ls IH]; intros rem fs rem' Ls'; simpl; [intros [= _ _ <-]; set_solver|].
  intros E P [OK F]%Forall_cons (_ & SO & C)%(sorted_by_app _ [L]) G p Hp.
  destruct (rem >? 0) eqn:R.
  2: { injection E as _ <- _. rewrite Z.gtb_ltb in R. apply Z.ltb_ge in R. lia. }
  destruct (crs (lv_price L)) eqn:CL; simpl in E.
  - destruct (match_queue _ _ _) as [[fs1 rem1] k] eqn:E1.
    pose proof (match_queue_rem _ _ _ _ _ _ E1 P (level_ok_qty L OK)) as (B1 & B2 & _). destruct k as [|r k].
    + destruct (match_side crs rem1 Ls) as [[fs2 rem2] Ls2] eqn:E2. injection E as <- <- <-.
      eapply IH; [exact E2|lia|done..].
    + injection E as _ <- _. rewrite B2 in G by done. lia.
  - injection E as _ _ <-. apply list_elem_of_fmap in Hp as (K & -> & [->|HK]%elem_of_cons); [done|].
    eapply mono; [|exact CL]. apply C; set_solver.
Qed.
End sorted_side.

(** ** Whole books *)
Lemma crosses_mono o p q :
  before_at (negb (order_side o)) p q = true -> crosses o p = false -> crosses o q = false.
Proof.
  unfold crosses, before_at, bid_before, ask_before. rewrite !negb_false_iff, !andb_true_iff.
  destruct (order_side o); simpl; rewrite ?Z.gtb_lt, ?Z.ltb_lt; intuition lia.
Qed.

Lemma set_spec_id s B : set_spec s (spec_at s B) B = B.
Proof. by destruct s, B. Qed.

Section submit.
Context (o : Order) (B : Book) (W : book_wf B) (Q : 0 <= qty o < 2 ^ 64).
Let s := negb (order_side o).
Let Ls := (match_side (crosses o) (qty o) (opposite o B)).2.

Lemma submit_match : match_side (crosses o) (qty o) (spec_at s B) = (spec_fills o B, spec_remaining o B, Ls).
Proof. unfold spec_fills, spec_remaining, Ls, opposite. by destruct (match_side _ _ _) as [[? ?] ?]. Qed.

Lemma spec_matched_eq : spec_matched o B = set_spec s Ls B.
Proof. reflexivity. Qed.

Lemma spec_remaining_bound :
  0 <= spec_remaining o B <= qty o /\ traded (spec_fills o B) + spec_remaining o B = qty o /\
  side_qty (spec_at s B) = traded (spec_fills o B) + side_qty Ls.
Proof. eapply match_side_rem; [apply submit_match|lia|by apply spec_at_levels]. Qed.

Lemma spec_matched_wf : book_wf (spec_matched o B).
Proof.
  rewrite spec_matched_eq. pose proof submit_match as E.
  pose proof (match_side_level_ok _ _ _ _ _ _ E ltac:(lia) (spec_at_levels s B W)) as FL.
  pose proof (match_side_sorted _ _ _ _ _ _ _ E (spec_at_sorted s B W)) as SO.
  destruct (match_side_suffix _ _ _ _ _ _ E) as [[ps Eps] SU].
  assert (forall p, p ∈ map lv_price Ls -> p ∈ map lv_price (spec_at s B)) as PI by (rewrite Eps; set_solver).
  destruct W as [Wb Wa Wl Ws Wi]. apply Forall_app in Wl as [Wlb Wla].
  rewrite book_orders_eq, map_app in Wi. destruct s; simpl in *; split; simpl; try done.
  - by apply Forall_app.
  - eauto.
  - rewrite book_orders_eq, map_app. simpl. eapply sublist_NoDup; [exact Wi|]. by apply sublist_app.
  - by apply Forall_app.
  - eauto.
  - rewrite book_orders_eq, map_app. simpl. eapply sublist_NoDup; [exact Wi|]. by apply sublist_app.
Qed.

Lemma spec_matched_ids id :
  id ∈ map r_id (book_orders (spec_matched o B)) -> id ∈ map r_id (book_orders B).
Proof.
  rewrite (spec_at_orders s), (spec_at_orders s B), !map_app, spec_matched_eq, spec_at_set, spec_at_set_other.
  pose proof (proj2 (match_side_suffix _ _ _ _ _ _ submit_match)) as SU.
  apply sublist_subseteq in SU. set_solver.
Qed.

Lemma spec_matched_uncrossed p :
  0 < spec_remaining o B -> p ∈ map lv_price (spec_at s (spec_matched o B)) -> crosses o p = false.
Proof.
  intros G. rewrite spec_matched_eq, spec_at_set.
  eapply match_side_uncrossed; [apply before_at_order|apply crosses_mono|apply submit_match|lia| | |done].
  - by apply spec_at_levels.
  - by apply spec_at_sorted.
Qed.

(** A limit order with a remainder can rest: its price is free on the other side. *)
Lemma spec_matched_insert_ok :
  order_id o ∉ map r_id (book_orders B) -> spec_rests o B = true -> insert_ok o (spec_matched o B).
Proof.
  intros N [G T]%andb_true_iff. apply Z.gtb_lt in G. apply bool_decide_eq_true in T. split; [done| |].
  - intros H%spec_matched_ids. done.
  - intros H. fold s in H. apply spec_matched_uncrossed in H; [|done]. unfold crosses in H.
    rewrite bool_decide_eq_true_2 in H by done. simpl in H. destruct (order_side o); lia.
Qed.

Lemma spec_submit_wf : order_id o ∉ map r_id (book_orders B) -> book_wf (spec_submit o B).
Proof.
  intros N. unfold spec_submit. destruct (spec_rests o B) eqn:R; [|apply spec_matched_wf].
  apply insert_ok_wf; [by apply spec_matched_insert_ok|apply spec_matched_wf].
Qed.

Lemma spec_submit_uncrossed : uncrossed B -> uncrossed (spec_submit o B).
Proof.
  intros U. assert (uncrossed (spec_matched o B)) as UM.
  { destruct (match_side_suffix _ _ _ _ _ _ submit_match) as [[ps Eps] _].
    assert (forall p, p ∈ map lv_price Ls -> p ∈ map lv_price (spec_at s B)) as PI by (rewrite Eps; set_solver).
    rewrite spec_matched_eq. intros p q Hp Hq. destruct s; simpl in *; eauto. }
  unfold spec_submit. destruct (spec_rests o B) eqn:R; [|done].
  apply andb_true_iff in R as [G T]. apply Z.gtb_lt in G. apply bool_decide_eq_true in T.
  pose proof (fun p => spec_matched_uncrossed p G) as NC. unfold s in NC.
  rewrite spec_insert_at. unfold crosses in NC. rewrite bool_decide_eq_true_2 in NC by done. simpl in NC.
  destruct (order_side o); simpl in *; intros p q Hp Hq; simpl in Hp, Hq.
  - apply place_prices in Hp as [->|Hp]; [|eauto]. simpl. apply NC in Hq. lia.
  - apply place_prices in Hq as [->|Hq]; [|eauto]. simpl. apply NC in Hp. lia.
Qed.
End submit.
