(* ===== verification/TradeBuilder.v ===== *)
(** * [ExecutionContext] and [TradeBuilder]
    ([src/matching/include/matching/execution_context.hpp], [trade_builder.hpp], [src/matching/src/trade_builder.cpp])

    The context owns two fixed arrays and their counts.  A slot handed out by
    [add_trade] or [add_report] is filled field by field; a full array hands out
    [nullptr] and the record is dropped. *)
From S2P Require Import Prelude Domain.

Record ExecutionReport := MkReport {
  rp_exec_id : Z; rp_order_id : Z; rp_price : Z; rp_last_qty : Z; rp_remaining_qty : Z;
  rp_timestamp : Z; rp_client_id : Z; rp_account_id : Z; rp_symbol_id : Z;
  rp_reject_reason : RejectReason; rp_exec_type : ExecutionType }.

Definition default_trade : Trade := MkTrade 0 0 0 0 0 0 0.
Definition default_report : ExecutionReport := MkReport 0 0 0 0 0 0 0 0 0 RR_None ExecNew.

Definition MAX_TRADES : nat := 128.
Definition MAX_REPORTS : nat := 256.

Record ExecutionContext := MkCtx {
  trades : list Trade; reports : list ExecutionReport; trade_count : nat; report_count : nat }.

Definition ExecutionContext_init : ExecutionContext :=
  MkCtx (replicate MAX_TRADES default_trade) (replicate MAX_REPORTS default_report) 0 0.
Definition ctx_reset (c : ExecutionContext) : ExecutionContext := MkCtx (trades c) (reports c) 0 0.

(** The index of the slot handed out, [None] for [nullptr]. *)
Definition add_trade (c : ExecutionContext) : option nat * ExecutionContext :=
  if decide (MAX_TRADES <= trade_count c)%nat then (None, c)
  else (Some (trade_count c), MkCtx (trades c) (reports c) (S (trade_count c)) (report_count c)).
Definition add_report (c : ExecutionContext) : option nat * ExecutionContext :=
  if decide (MAX_REPORTS <= report_count c)%nat then (None, c)
  else (Some (report_count c), MkCtx (trades c) (reports c) (trade_count c) (S (report_count c))).
Definition set_trade (i : nat) (t : Trade) (c : ExecutionContext) : ExecutionContext :=
  MkCtx (<[i := t]> (trades c)) (reports c) (trade_count c) (report_count c).
Definition set_report (i : nat) (r : ExecutionReport) (c : ExecutionContext) : ExecutionContext :=
  MkCtx (trades c) (<[i := r]> (reports c)) (trade_count c) (report_count c).

Definition push_trade (t : Trade) (c : ExecutionContext) : ExecutionContext :=
  match add_trade c with (Some i, c) => set_trade i t c | (None, c) => c end.
Definition push_report (r : ExecutionReport) (c : ExecutionContext) : ExecutionContext :=
  match add_report c with (Some i, c) => set_report i r c | (None, c) => c end.

(** ** The records built *)
Definition match_trade (trade_seq : Z) (aggressive : Order) (resting : LiveOrder)
    (match_qty match_price timestamp : Z) : Trade :=
  MkTrade trade_seq
    (if decide (side aggressive = Buy) then order_id aggressive else key_order_id (lo_key resting))
    (if decide (side aggressive = Buy) then key_order_id (lo_key resting) else order_id aggressive)
    match_price match_qty timestamp (symbol_id aggressive).
Definition taker_report (exec_seq : Z) (aggressive : Order) (match_qty match_price remaining timestamp : Z)
    : ExecutionReport :=
  MkReport exec_seq (order_id aggressive) match_price match_qty remaining timestamp
    (client_id aggressive) (account_id aggressive) (symbol_id aggressive) RR_None ExecTrade.
Definition maker_report (exec_seq : Z) (resting : LiveOrder) (match_qty match_price remaining timestamp : Z)
    : ExecutionReport :=
  MkReport exec_seq (key_order_id (lo_key resting)) match_price match_qty remaining timestamp
    0 0 (key_symbol_id (lo_key resting)) RR_None ExecTrade.

Definition build_match (c : ExecutionContext) (trade_seq exec_seq_taker exec_seq_maker : Z)
    (aggressive : Order) (resting : LiveOrder)
    (match_qty match_price remaining_taker remaining_maker timestamp : Z) : ExecutionContext :=
  let c := push_trade (match_trade trade_seq aggressive resting match_qty match_price timestamp) c in
  let c := push_report (taker_report exec_seq_taker aggressive match_qty match_price remaining_taker timestamp) c in
  push_report (maker_report exec_seq_maker resting match_qty match_price remaining_maker timestamp) c.

Definition ack_report (exec_seq : Z) (o : Order) (timestamp : Z) : ExecutionReport :=
  MkReport exec_seq (order_id o) (price o) 0 (qty o) timestamp
    (client_id o) (account_id o) (symbol_id o) RR_None ExecNew.
Definition build_ack (c : ExecutionContext) (exec_seq : Z) (o : Order) (timestamp : Z) : ExecutionContext :=
  push_report (ack_report exec_seq o timestamp) c.

Definition cancel_report (exec_seq : Z) (o : LiveOrder) (client account symbol timestamp : Z) : ExecutionReport :=
  MkReport exec_seq (key_order_id (lo_key o)) (lo_price o) 0 0 timestamp client account symbol RR_None ExecCancel.
Definition build_cancel (c : ExecutionContext) (exec_seq : Z) (o : LiveOrder)
    (client account symbol timestamp : Z) : ExecutionContext :=
  push_report (cancel_report exec_seq o client account symbol timestamp) c.

Definition reject_report (exec_seq : Z) (o : Order) (reason : RejectReason) (timestamp : Z) : ExecutionReport :=
  MkReport exec_seq (order_id o) (price o) 0 0 timestamp
    (client_id o) (account_id o) (symbol_id o) reason ExecReject.
Definition build_reject (c : ExecutionContext) (exec_seq : Z) (o : Order) (reason : RejectReason)
    (timestamp : Z) : ExecutionContext :=
  push_report (reject_report exec_seq o reason timestamp) c.

(** The quantity that expired is not written to the report. *)
Definition expiration_report (exec_seq : Z) (o : Order) (timestamp : Z) : ExecutionReport :=
  MkReport exec_seq (order_id o) (price o) 0 0 timestamp
    (client_id o) (account_id o) (symbol_id o) RR_None ExecCancel.
Definition build_expiration (c : ExecutionContext) (exec_seq : Z) (o : Order) (expired_qty timestamp : Z)
    : ExecutionContext :=
  push_report (expiration_report exec_seq o timestamp) c.

(** ** What a context holds: a bounded log that drops what does not fit *)
Definition ctx_trades (c : ExecutionContext) : list Trade := take (trade_count c) (trades c).
Definition ctx_reports (c : ExecutionContext) : list ExecutionReport := take (report_count c) (reports c).

Record ctx_wf (c : ExecutionContext) : Prop := {
  ctx_len_t : length (trades c) = MAX_TRADES; ctx_len_r : length (reports c) = MAX_REPORTS;
  ctx_cnt_t : (trade_count c <= MAX_TRADES)%nat; ctx_cnt_r : (report_count c <= MAX_REPORTS)%nat }.

Lemma ctx_init_wf : ctx_wf ExecutionContext_init.
Proof. split; [apply (length_replicate MAX_TRADES)|apply (length_replicate MAX_REPORTS)|simpl; lia..]. Qed.

Lemma take_push {A} (l : list A) n x m :
  length l = m -> (n < m)%nat -> take (S n) (<[n := x]> l) = take n l ++ [x].
Proof.
  intros E L. rewrite (take_S_r _ _ x) by (rewrite list_lookup_insert_eq; [done|lia]).
  by rewrite take_insert_ge by lia.
Qed.

Lemma push_trade_spec t c :
  ctx_wf c -> ctx_wf (push_trade t c) /\
  ctx_trades (push_trade t c) = take MAX_TRADES (ctx_trades c ++ [t]) /\
  ctx_reports (push_trade t c) = ctx_reports c.
Proof.
  intros [LT LR CT CR]. unfold push_trade, add_trade, ctx_trades, ctx_reports.
  destruct (decide _) as [H|H]; simpl.
  - split_and!; [done| |done]. rewrite (take_app_le _ [t]) by (rewrite length_take; lia).
    rewrite take_take. f_equal. lia.
  - split_and!; [split; simpl; rewrite ?length_insert; lia| |done].
    rewrite (take_push _ _ _ MAX_TRADES) by lia. symmetry. apply take_ge.
    rewrite length_app, length_take. simpl. lia.
Qed.

Lemma push_report_spec r c :
  ctx_wf c -> ctx_wf (push_report r c) /\
  ctx_reports (push_report r c) = take MAX_REPORTS (ctx_reports c ++ [r]) /\
  ctx_trades (push_report r c) = ctx_trades c.
Proof.
  intros [LT LR CT CR]. unfold push_report, add_report, ctx_trades, ctx_reports.
  destruct (decide _) as [H|H]; simpl.
  - split_and!; [done| |done]. rewrite (take_app_le _ [r]) by (rewrite length_take; lia).
    rewrite take_take. f_equal. lia.
  - split_and!; [split; simpl; rewrite ?length_insert; lia| |done].
    rewrite (take_push _ _ _ MAX_REPORTS) by lia. symmetry. apply take_ge.
    rewrite length_app, length_take. simpl. lia.
Qed.

(** [logged c ts rs c']: [c'] is [c] after the trades [ts] and the reports [rs]. *)
Record logged (c : ExecutionContext) (ts : list Trade) (rs : list ExecutionReport) (c' : ExecutionContext) : Prop := {
  lg_wf : ctx_wf c';
  lg_trades : ctx_trades c' = take MAX_TRADES (ctx_trades c ++ ts);
  lg_reports : ctx_reports c' = take MAX_REPORTS (ctx_reports c ++ rs) }.

Lemma take_app_take {A} n (l k : list A) : take n (take n l ++ k) = take n (l ++ k).
Proof.
  destruct (decide (length l <= n)%nat); [by rewrite (take_ge l) by lia|].
  rewrite !take_app_le by (rewrite ?length_take; lia). by rewrite take_take, Nat.min_id.
Qed.

Lemma logged_refl c : ctx_wf c -> logged c [] [] c.
Proof.
  intros W. pose proof W as [LT LR CT CR]. split; [done|..]; rewrite app_nil_r; symmetry; apply take_ge;
    unfold ctx_trades, ctx_reports; rewrite length_take; lia.
Qed.
Lemma logged_trans c1 c2 c3 ts rs ts' rs' :
  logged c1 ts rs c2 -> logged c2 ts' rs' c3 -> logged c1 (ts ++ ts') (rs ++ rs') c3.
Proof.
  intros [_ T1 R1] [W T2 R2]. split; [done|rewrite T2, T1|rewrite R2, R1];
    by rewrite take_app_take, app_assoc.
Qed.
Lemma push_trade_logged t c : ctx_wf c -> logged c [t] [] (push_trade t c).
Proof.
  intros W. destruct (push_trade_spec t c W) as (W' & T & R). split; [done|done|].
  rewrite R, (lg_reports _ _ _ _ (logged_refl c W)) at 1. done.
Qed.
Lemma push_report_logged r c : ctx_wf c -> logged c [] [r] (push_report r c).
Proof.
  intros W. destruct (push_report_spec r c W) as (W' & R & T). split; [done| |done].
  rewrite T, (lg_trades _ _ _ _ (logged_refl c W)) at 1. done.
Qed.

Lemma build_match_logged c ts_ et em a r mq mp rt rm t :
  ctx_wf c ->
  logged c [match_trade ts_ a r mq mp t] [taker_report et a mq mp rt t; maker_report em r mq mp rm t]
    (build_match c ts_ et em a r mq mp rt rm t).
Proof.
  intros W. unfold build_match. pose proof (push_trade_logged (match_trade ts_ a r mq mp t) c W) as L1.
  pose proof (push_report_logged (taker_report et a mq mp rt t) _ (lg_wf _ _ _ _ L1)) as L2.
  pose proof (push_report_logged (maker_report em r mq mp rm t) _ (lg_wf _ _ _ _ L2)) as L3.
  exact (logged_trans _ _ _ _ _ _ _ L1 (logged_trans _ _ _ _ _ _ _ L2 L3)).
Qed.
