(* ===== verification/MatchingEngine.v ===== *)
(** * [MatchingEngine] ([src/matching/src/matching_engine.cpp], [matching_engine.hpp],
      [matching_statistics.hpp], [matching_result.hpp], [exchange_simulator.hpp])

    The engine owns a book, statistics and two sequence counters.  The readings of
    the steady clock are arguments.  Each loop of [submit_order] takes a fuel
    argument, one more than the objects it can visit. *)
From S2P Require Import Prelude Domain ObjectPool OrderList SideBook OrderBook TradeBuilder.

Inductive MatchingStatus := Success | PartiallyFilled | Filled | Rejected | Cancelled | Modified | Expired.
#[export] Instance MatchingStatus_eq_dec : EqDecision MatchingStatus.
Proof. solve_decision. Defined.
Record MatchingResult := MkResult { status : MatchingStatus; trades_generated : Z }.

(** ** Statistics *)
Record LatencyBuckets := MkBuckets {
  under_100ns : Z; b100_250ns : Z; b250_500ns : Z; b500ns_1us : Z; b1us_5us : Z; over_5us : Z }.
Record MatchingStatistics := MkStats {
  orders_received : Z; orders_matched : Z; orders_cancelled : Z; orders_rejected : Z;
  trades_executed : Z; shares_executed : Z; total_traded_volume : Z;
  total_latency_ns : Z; max_latency_ns : Z; buckets : LatencyBuckets }.
Definition MatchingStatistics_init : MatchingStatistics :=
  MkStats 0 0 0 0 0 0 0 0 0 (MkBuckets 0 0 0 0 0 0).

Definition count_latency (ns : Z) (b : LatencyBuckets) : LatencyBuckets :=
  let '(MkBuckets u a c d e o) := b in
  if ns <? 100 then MkBuckets (u64 (u + 1)) a c d e o
  else if ns <? 250 then MkBuckets u (u64 (a + 1)) c d e o
  else if ns <? 500 then MkBuckets u a (u64 (c + 1)) d e o
  else if ns <? 1000 then MkBuckets u a c (u64 (d + 1)) e o
  else if ns <? 5000 then MkBuckets u a c d (u64 (e + 1)) o
  else MkBuckets u a c d e (u64 (o + 1)).
Definition record_latency (ns : Z) (s : MatchingStatistics) : MatchingStatistics :=
  let '(MkStats rc ma ca rj te se tv tl ml bk) := s in
  MkStats rc ma ca rj te se tv (u64 (tl + ns)) (if ns >? ml then ns else ml) (count_latency ns bk).
Definition count_received (s : MatchingStatistics) : MatchingStatistics :=
  let '(MkStats rc ma ca rj te se tv tl ml bk) := s in MkStats (u64 (rc + 1)) ma ca rj te se tv tl ml bk.
Definition count_matched (s : MatchingStatistics) : MatchingStatistics :=
  let '(MkStats rc ma ca rj te se tv tl ml bk) := s in MkStats rc (u64 (ma + 1)) ca rj te se tv tl ml bk.
Definition count_cancelled (s : MatchingStatistics) : MatchingStatistics :=
  let '(MkStats rc ma ca rj te se tv tl ml bk) := s in MkStats rc ma (u64 (ca + 1)) rj te se tv tl ml bk.
Definition count_rejected (s : MatchingStatistics) : MatchingStatistics :=
  let '(MkStats rc ma ca rj te se tv tl ml bk) := s in MkStats rc ma ca (u64 (rj + 1)) te se tv tl ml bk.
(** The volume adds the product of an unsigned and a signed integer, taken as unsigned. *)
Definition count_trade (q p : Z) (s : MatchingStatistics) : MatchingStatistics :=
  let '(MkStats rc ma ca rj te se tv tl ml bk) := s in
  MkStats rc ma ca rj (u64 (te + 1)) (u64 (se + q)) (u64 (tv + u64 (q * u64 p))) tl ml bk.

Record MatchingEngine := MkEngine {
  book_ : LimitOrderBook; stats_ : MatchingStatistics; trade_seq_ : Z; exec_seq_ : Z }.
Definition MatchingEngine_init (listener : bool) : MatchingEngine :=
  MkEngine (LimitOrderBook_init listener) MatchingStatistics_init 1 1.

(** Self-trade prevention is a placeholder that always allows the trade. *)
Definition can_self_trade (aggressive : Order) (resting : LiveOrder) : bool := true.

(** ** The matching loops

    The variables of [submit_order] that the loops update. *)
Record MatchState := MkMatch {
  ms_engine : MatchingEngine; ms_ctx : ExecutionContext; ms_remaining : Z; ms_trades : Z }.
Definition ms_book (st : MatchState) : LimitOrderBook := book_ (ms_engine st).

(** One match: build the reports, count, and apply the fill to the book. *)
Definition match_one (o : Order) (timestamp : Z) (p : Z) (resting : ptr) (r : LiveOrder) (st : MatchState)
    : outcome MatchState :=
  let e := ms_engine st in
  let match_qty := Z.min (ms_remaining st) (lo_remaining_qty r) in
  let remaining_maker := u64 (lo_remaining_qty r - match_qty) in
  let remaining_taker := u64 (ms_remaining st - match_qty) in
  let taker_seq := exec_seq_ e in
  let maker_seq := u64 (exec_seq_ e + 1) in
  let ctx := build_match (ms_ctx st) (trade_seq_ e) taker_seq maker_seq o r match_qty p
               remaining_taker remaining_maker timestamp in
  b ← fill_order resting match_qty (book_ e);
  Ret (MkMatch
         (MkEngine b (count_trade match_qty p (stats_ e)) (u64 (trade_seq_ e + 1)) (u64 (u64 (exec_seq_ e + 1) + 1)))
         ctx remaining_taker (u32 (ms_trades st + 1))).

(** The inner loop: the resting orders of one level. *)
Fixpoint match_level (fuel : nat) (o : Order) (timestamp : Z) (level resting : ptr) (st : MatchState)
    : outcome MatchState :=
  if bool_decide (resting <> None) && (ms_remaining st >? 0) then
    match fuel with
    | O => Diverge
    | S fuel =>
        r ← rd (orders (ms_book st)) resting;
        if negb (can_self_trade o r) then match_level fuel o timestamp level (lo_next r) st
        else
          n ← rd (levels (ms_book st)) level;
          st ← match_one o timestamp (nd_price n) resting r st;
          match_level fuel o timestamp level (lo_next r) st
    end
  else Ret st.

Definition match_fuel (st : MatchState) : nat := S (size (orders (ms_book st))).

(** The outer loops: the levels of the opposite side, best first. *)
Fixpoint match_asks (fuel : nat) (o : Order) (timestamp : Z) (st : MatchState) : outcome MatchState :=
  if (ms_remaining st >? 0) && bool_decide (best_ask_level (ms_book st) <> None) then
    match fuel with
    | O => Diverge
    | S fuel =>
        let level := best_ask_level (ms_book st) in
        n ← rd (levels (ms_book st)) level;
        if bool_decide (type o = Limit) && (price o <? nd_price n) then Ret st
        else
          st ← match_level (match_fuel st) o timestamp level (head_ (nd_orders n)) st;
          match_asks fuel o timestamp st
    end
  else Ret st.
Fixpoint match_bids (fuel : nat) (o : Order) (timestamp : Z) (st : MatchState) : outcome MatchState :=
  if (ms_remaining st >? 0) && bool_decide (best_bid_level (ms_book st) <> None) then
    match fuel with
    | O => Diverge
    | S fuel =>
        let level := best_bid_level (ms_book st) in
        n ← rd (levels (ms_book st)) level;
        if bool_decide (type o = Limit) && (price o >? nd_price n) then Ret st
        else
          st ← match_level (match_fuel st) o timestamp level (head_ (nd_orders n)) st;
          match_bids fuel o timestamp st
    end
  else Ret st.

(** Post-match actions for the remaining quantity. *)
Definition finish_order (o : Order) (timestamp : Z) (st : MatchState)
    : outcome (MatchingStatus * MatchingEngine * ExecutionContext) :=
  let e := ms_engine st in
  if ms_remaining st >? 0 then
    if decide (type o = Limit) then
      '(_, b) ← insert o (seq_num o) (book_ e);
      Ret (if ms_remaining st =? qty o then Success else PartiallyFilled,
           MkEngine b (stats_ e) (trade_seq_ e) (exec_seq_ e), ms_ctx st)
    else if decide (type o = Market) then
      Ret (Expired, MkEngine (book_ e) (stats_ e) (trade_seq_ e) (u64 (exec_seq_ e + 1)),
           build_expiration (ms_ctx st) (exec_seq_ e) o (ms_remaining st) timestamp)
    else Ret (Success, e, ms_ctx st)
  else
    Ret (Filled, MkEngine (book_ e) (count_matched (stats_ e)) (trade_seq_ e) (exec_seq_ e), ms_ctx st).

Definition with_stats (f : MatchingStatistics -> MatchingStatistics) (e : MatchingEngine) : MatchingEngine :=
  MkEngine (book_ e) (f (stats_ e)) (trade_seq_ e) (exec_seq_ e).

Definition submit_order (start_time timestamp end_time : Z) (o : Order) (ctx : ExecutionContext) (e : MatchingEngine)
    : outcome (MatchingResult * ExecutionContext * MatchingEngine) :=
  let e := with_stats count_received e in
  let ctx := build_ack ctx (exec_seq_ e) o timestamp in
  let e := MkEngine (book_ e) (stats_ e) (trade_seq_ e) (u64 (exec_seq_ e + 1)) in
  let st := MkMatch e ctx (qty o) 0 in
  let fuel := S (size (levels (book_ e))) in
  st ← (if decide (side o = Buy) then match_asks fuel o timestamp st else match_bids fuel o timestamp st);
  '(status, e, ctx) ← finish_order o timestamp st;
  Ret (MkResult status (ms_trades st), ctx, with_stats (record_latency (u64 (end_time - start_time))) e).

Definition cancel_order (start_time timestamp end_time : Z) (id client account symbol : Z)
    (ctx : ExecutionContext) (e : MatchingEngine) : outcome (bool * ExecutionContext * MatchingEngine) :=
  match find_order id (book_ e) with
  | None => Ret (false, ctx, with_stats count_rejected e)
  | Some order =>
      o ← rd (orders (book_ e)) (Some order);
      let ctx := build_cancel ctx (exec_seq_ e) o client account symbol timestamp in
      '(_, b) ← cancel id (book_ e);
      Ret (true, ctx,
           with_stats (record_latency (u64 (end_time - start_time)))
             (MkEngine b (count_cancelled (stats_ e)) (trade_seq_ e) (u64 (exec_seq_ e + 1))))
  end.

Definition modify_order (start_time now end_time : Z) (id new_qty : Z) (e : MatchingEngine)
    : outcome (bool * MatchingEngine) :=
  '(res, b) ← modify_qty id new_qty now (book_ e);
  Ret (res, with_stats (record_latency (u64 (end_time - start_time)))
              (MkEngine b (stats_ e) (trade_seq_ e) (exec_seq_ e))).

Definition engine_reset (e : MatchingEngine) : outcome MatchingEngine :=
  b ← clear (book_ e);
  Ret (MkEngine b MatchingStatistics_init 1 1).

(** ** [ExchangeSimulator]: one engine per symbol *)
Definition ExchangeSimulator := gmap Z MatchingEngine.
Inductive register_result := Registered (s : ExchangeSimulator) | AlreadyRegistered (symbol : Z).
Definition register_symbol (symbol : Z) (s : ExchangeSimulator) : register_result :=
  match s !! symbol with
  | Some _ => AlreadyRegistered symbol
  | None => Registered (<[symbol := MatchingEngine_init false]> s)
  end.
Definition get_engine (symbol : Z) (s : ExchangeSimulator) : option MatchingEngine := s !! symbol.
(** [reset] of every engine, in the order the map is traversed. *)
Definition sim_reset (s : ExchangeSimulator) : outcome ExchangeSimulator :=
  foldr (fun '(k, e) acc => s' ← acc; e' ← engine_reset e; Ret (<[k := e']> s')) (Ret s) (map_to_list s).
