(* ===== verification/MatchRefine.v ===== *)
(** * The matching engine refines price-time priority matching

    [MatchSpec] says which fills an incoming order causes and which book it
    leaves; the loops of [MatchingEngine] compute exactly these, and write one
    trade and two reports per fill to the context. *)
From S2P Require Import Prelude Domain ObjectPool DList BookSpec OrderList SideBook OrderBook BookRefine BookOps BookClear MatchSpec TradeBuilder MatchingEngine.

(** ** What a list of fills leaves in the logs *)
Definition next64 (z : Z) : Z := u64 (z + 1).

Definition fill_trade (o : Order) (timestamp tseq : Z) (f : MakerFill) : Trade :=
  MkTrade tseq
    (if decide (side o = Buy) then order_id o else r_id (mf_maker f))
    (if decide (side o = Buy) then r_id (mf_maker f) else order_id o)
    (mf_price f) (mf_qty f) timestamp (symbol_id o).
Definition fill_taker (o : Order) (timestamp eseq remaining : Z) (f : MakerFill) : ExecutionReport :=
  taker_report eseq o (mf_qty f) (mf_price f) remaining timestamp.
Definition fill_maker (timestamp eseq : Z) (f : MakerFill) : ExecutionReport :=
  MkReport eseq (r_id (mf_maker f)) (mf_price f) (mf_qty f) (r_qty (mf_maker f) - mf_qty f) timestamp
    0 0 (key_symbol_id (r_key (mf_maker f))) RR_None ExecTrade.

Fixpoint fill_trades (o : Order) (timestamp tseq : Z) (fs : list MakerFill) : list Trade :=
  match fs with
  | [] => []
  | f :: fs => fill_trade o timestamp tseq f :: fill_trades o timestamp (next64 tseq) fs
  end.
Fixpoint fill_reports (o : Order) (timestamp eseq rem : Z) (fs : list MakerFill) : list ExecutionReport :=
  match fs with
  | [] => []
  | f :: fs =>
      fill_taker o timestamp eseq (rem - mf_qty f) f :: fill_maker timestamp (next64 eseq) f ::
      fill_reports o timestamp (next64 (next64 eseq)) (rem - mf_qty f) fs
  end.

(** [matched o t st fs rem b st']: [st'] is [st] after the fills [fs]. *)
Record matched (o : Order) (t : Z) (st : MatchState) (fs : list MakerFill) (st' : MatchState) : Prop := {
  mt_rem : ms_remaining st' = ms_remaining st - traded fs;
  mt_count : ms_trades st' = Nat.iter (length fs) (fun z => u32 (z + 1)) (ms_trades st);
  mt_tseq : trade_seq_ (ms_engine st') = Nat.iter (length fs) next64 (trade_seq_ (ms_engine st));
  mt_eseq : exec_seq_ (ms_engine st') = Nat.iter (2 * length fs) next64 (exec_seq_ (ms_engine st));
  mt_stats : stats_ (ms_engine st') =
    foldl (fun s f => count_trade (mf_qty f) (mf_price f) s) (stats_ (ms_engine st)) fs;
  mt_log : logged (ms_ctx st) (fill_trades o t (trade_seq_ (ms_engine st)) fs)
             (fill_reports o t (exec_seq_ (ms_engine st)) (ms_remaining st) fs) (ms_ctx st') }.

Lemma iter_add {A} (f : A -> A) n m x : Nat.iter n f (Nat.iter m f x) = Nat.iter (m + n) f x.
Proof. rewrite Nat.add_comm. induction n; simpl; by f_equal. Qed.

Lemma fill_trades_app o t f1 : forall ts f2,
  fill_trades o t ts (f1 ++ f2) = fill_trades o t ts f1 ++ fill_trades o t (Nat.iter (length f1) next64 ts) f2.
Proof.
  induction f1 as [|f f1 IH]; intros ts f2; [done|]. simpl. rewrite IH. f_equal. f_equal.
  f_equal. change (next64 ts) with (Nat.iter 1 next64 ts). rewrite iter_add. done.
Qed.
Lemma fill_reports_app o t f1 : forall es rem f2,
  fill_reports o t es rem (f1 ++ f2) =
  fill_reports o t es rem f1 ++ fill_reports o t (Nat.iter (2 * length f1) next64 es) (rem - traded f1) f2.
Proof.
  induction f1 as [|f f1 IH]; intros es rem f2.
  - simpl. f_equal. unfold traded. simpl. rewrite sumZ_nil. lia.
  - cbn [app fill_reports]. rewrite IH.
    change (next64 (next64 es)) with (Nat.iter 2 next64 es). rewrite (iter_add next64 _ 2 es).
    replace (rem - mf_qty f - traded f1) with (rem - traded (f :: f1))
      by (unfold traded; simpl; rewrite sumZ_cons; lia).
    replace (2 * length (f :: f1))%nat with (2 + 2 * length f1)%nat by (simpl; lia). done.
Qed.

Lemma matched_refl o t st : ctx_wf (ms_ctx st) -> matched o t st [] st.
Proof. intros W. split; try done. { unfold traded. simpl. rewrite sumZ_nil. lia. } by apply logged_refl. Qed.

Lemma matched_trans o t st1 fs1 st2 fs2 st3 :
  matched o t st1 fs1 st2 -> matched o t st2 fs2 st3 -> matched o t st1 (fs1 ++ fs2) st3.
Proof.
  intros [R1 C1 T1 E1 S1 L1] [R2 C2 T2 E2 S2 L2]. split.
  - rewrite R2, R1, traded_app. lia.
  - rewrite C2, C1, iter_add, length_app. done.
  - rewrite T2, T1, iter_add, length_app. done.
  - rewrite E2, E1, iter_add, length_app. f_equal. lia.
  - by rewrite S2, S1, foldl_app.
  - rewrite fill_trades_app, fill_reports_app, <-T1, <-E1, <-R1. by eapply logged_trans.
Qed.

(** One match is the fill it applies to the book, plus its records. *)
Lemma match_one_matched o t p resting r st b :
  ctx_wf (ms_ctx st) -> 0 <= ms_remaining st < 2 ^ 64 -> 0 <= lo_remaining_qty r < 2 ^ 64 ->
  fill_order resting (Z.min (ms_remaining st) (lo_remaining_qty r)) (ms_book st) = Ret b ->
  exists st', match_one o t p resting r st = Ret st' /\ ms_book st' = b /\
    matched o t st [MkFillOf p (resting_view r) (Z.min (ms_remaining st) (lo_remaining_qty r))] st'.
Proof.
  intros W Q1 Q2 E. unfold match_one. unfold ms_book in E. rewrite E, bind_Ret. eexists. split; [done|].
  split; [done|]. set (m := Z.min _ _).
  assert (0 <= m <= ms_remaining st /\ m <= lo_remaining_qty r) as Bm by (unfold m; lia).
  clearbody m. split; simpl; try done.
  - unfold traded. simpl. rewrite sumZ_cons, sumZ_nil. rewrite u64_small by lia. lia.
  - pose proof (build_match_logged (ms_ctx st) (trade_seq_ (ms_engine st)) (exec_seq_ (ms_engine st))
      (u64 (exec_seq_ (ms_engine st) + 1)) o r m p (u64 (ms_remaining st - m)) (u64 (lo_remaining_qty r - m)) t W) as L.
    rewrite (u64_small (ms_remaining st - m)), (u64_small (lo_remaining_qty r - m)) in * by lia. exact L.
Qed.

(** ** The inner loop *)
Lemma spec_cancel_head s B L L2 r q :
  book_wf B -> spec_at s B = L :: L2 -> lv_orders L = r :: q ->
  spec_cancel (r_id r) B = set_spec s (keep_level q L ++ L2) B.
Proof.
  intros W Es Eq. pose proof (wf_ids B W) as NB. rewrite (spec_at_orders s), map_app in NB.
  apply NoDup_app in NB as (NI & FD & _).
  assert (drop_id (r_id r) (spec_at (negb s) B) = spec_at (negb s) B) as E2.
  { apply drop_id_notin; [by apply spec_at_levels|]. apply FD. rewrite Es, side_orders_cons, Eq. set_solver. }
  pose proof (drop_id_split (r_id r) [] L L2 [] r q) as E1. simpl app in E1. rewrite <-Es in E1.
  specialize (E1 (spec_at_levels s B W) NI Eq eq_refl).
  unfold spec_cancel. destruct s; simpl in *; by rewrite E1, E2.
Qed.

Lemma keep_set s q L L2 B : q <> [] -> set_spec s (keep_level q L ++ L2) B = set_spec s (with_orders q L :: L2) B.
Proof. by destruct q. Qed.

Lemma head_located s b a p ops A2 Ao B L L2 r q :
  rep_at s b ((a, p :: ops) :: A2) Ao B -> spec_at s B = L :: L2 -> lv_orders L = r :: q ->
  exists o n, orders b !! p = Some o /\ resting_view o = r /\ lo_next o = head ops /\
    levels b !! a = Some n /\ nd_price n = lv_price L /\
    located s b (spec_at s B) p o [] a [] ops A2 [] L [] q L2.
Proof.
  intros R Es Eq. pose proof (ra_core _ _ _ _ _ R) as RC. rewrite Es in RC.
  destruct (level_node s b [] a (p :: ops) A2 Ao [] L L2 _ RC eq_refl) as (n & En & (_ & _ & _ & D) & Ro & V).
  rewrite Eq in Ro. apply Forall2_cons_1 in Ro as [Er _]. destruct D as [(o & Eo & _ & N) _].
  rewrite Eo in Er. injection Er as Er. exists o, n. rewrite hd_or_None in N.
  split_and!; try done. { by injection V. }
  split; try done. by rewrite Eq, Er.
Qed.

(** The first order of a level is the first of its list. *)
Lemma head_ops s b a ops A2 Ao B L L2 r q :
  rep_at s b ((a, ops) :: A2) Ao B -> spec_at s B = L :: L2 -> lv_orders L = r :: q ->
  exists p o2, ops = p :: o2 /\ length o2 = length q.
Proof.
  intros R Es Eq. pose proof (sr_levels _ _ _ _ _ (rc_side _ _ _ _ _ _ (ra_core _ _ _ _ _ R))) as F.
  rewrite Es in F. apply Forall2_cons_1 in F as [(l & _ & _ & Ro) _]. simpl in Ro. rewrite Eq in Ro.
  apply Forall2_cons_inv_r in Ro as (p & o2 & _ & Ro & ->). exists p, o2. split; [done|]. by eapply Forall2_length.
Qed.
Lemma single_rem o t st p r m st' : matched o t st [MkFillOf p r m] st' -> ms_remaining st' = ms_remaining st - m.
Proof. intros M. rewrite (mt_rem _ _ _ _ _ M). unfold traded. simpl. rewrite sumZ_cons, sumZ_nil. lia. Qed.

Lemma match_level_spec o t s a A2 Ao q : forall fuel ops st B L L2 fs rem' k,
  rep_at s (ms_book st) ((a, ops) :: A2) Ao B -> spec_at s B = L :: L2 -> lv_orders L = q ->
  ctx_wf (ms_ctx st) -> 0 <= ms_remaining st < 2 ^ 64 -> (length q <= fuel)%nat ->
  match_queue (lv_price L) (ms_remaining st) q = (fs, rem', k) ->
  exists st', match_level fuel o t (Some a) (head ops) st = Ret st' /\ matched o t st fs st' /\
    ms_remaining st' = rem' /\
    exists ops', rep_at s (ms_book st') (keep_shape (a, ops') ++ A2) Ao (set_spec s (keep_level k L ++ L2) B).
Proof.
  induction q as [|r q IH]; intros fuel ops st B L L2 fs rem' k R Es Eq W Q Fu E.
  { exfalso. pose proof (spec_at_levels s B (ra_wf _ _ _ _ _ R)) as F. rewrite Es in F.
    by apply Forall_cons in F as [[? _] _]. }
  destruct (head_ops _ _ _ _ _ _ _ _ _ _ _ R Es Eq) as (p & o2 & -> & Elen).
  destruct fuel as [|fuel]; simpl in Fu; [lia|]. simpl in E. simpl head. simpl match_level.
  destruct (Z.gtb_spec (ms_remaining st) 0) as [G|G].
  2: { injection E as <- <- <-. exists st. split_and!; [done|by apply matched_refl|done|].
       exists (p :: o2). simpl. rewrite <-Eq, with_orders_id, <-Es, set_spec_id. done. }
  destruct (head_located _ _ _ _ _ _ _ _ _ _ _ _ R Es Eq) as (ro & n & Eo & <- & En & El & Ep & LC).
  pose proof (located_qty _ _ _ _ _ _ _ _ _ _ _ _ _ _ _ LC (ra_wf _ _ _ _ _ R)) as Qr.
  rewrite (rd_Some _ _ _ Eo), bind_Ret. simpl negb. cbv iota.
  rewrite (rd_Some _ _ _ El), bind_Ret, Ep, En. simpl r_qty in E.
  set (m := Z.min _ _) in *.
  assert (0 <= m <= ms_remaining st /\ m <= lo_remaining_qty ro /\
          (m < lo_remaining_qty ro -> m = ms_remaining st)) as Bm by (unfold m; lia).
  destruct (Z.eqb_spec (lo_remaining_qty ro - m) 0) as [C|C].
  - destruct (match_queue _ _ q) as [[fs1 rem1] k1] eqn:E1. injection E as <- <- <-.
    destruct (fill_complete s (ms_book st) [] a [] p o2 A2 Ao B ro [] L [] q L2 m R LC) as (b & Fb & Rb); [lia..|].
    destruct (match_one_matched o t (lv_price L) (Some p) ro st b W Q Qr Fb) as (st1 & -> & Bk & M1).
    fold m in M1. rewrite bind_Ret. simpl app in Rb.
    rewrite (spec_cancel_head s B L L2 _ q (ra_wf _ _ _ _ _ R) Es Eq) in Rb.
    pose proof (single_rem _ _ _ _ _ _ _ M1) as Rem1.
    destruct q as [|r2 q].
    + simpl in E1. injection E1 as <- <- <-.
      destruct o2; [|done].
      exists st1. split_and!; [by destruct fuel|done|done|]. exists []. by rewrite Bk.
    + rewrite keep_set in Rb by done.
      destruct o2 as [|p2 o3]; [done|].
      rewrite <-Rem1 in E1. rewrite <-Bk in Rb.
      destruct (IH fuel (p2 :: o3) st1 _ (with_orders (r2 :: q) L) L2 fs1 rem1 k1 Rb) as (st' & E' & M' & R' & ops' & Rp);
        try done.
      * by rewrite spec_at_set.
      * apply M1.
      * rewrite Rem1. lia.
      * simpl in *. lia.
      * exists st'. split_and!; [exact E'|by eapply (matched_trans o t st [_])|done|].
        exists ops'. destruct s; exact Rp.
  - injection E as <- <- <-.
    destruct (fill_partial s (ms_book st) [] a [] p o2 A2 Ao B ro [] L [] q L2 m R LC) as (b & Fb & Rb); [lia..|].
    destruct (match_one_matched o t (lv_price L) (Some p) ro st b W Q Qr Fb) as (st1 & -> & Bk & M1).
    fold m in M1. rewrite bind_Ret. exists st1.
    pose proof (single_rem _ _ _ _ _ _ _ M1) as Rem1.
    split_and!; [|done|done|].
    + assert (ms_remaining st1 = 0) as E0 by lia. destruct fuel; simpl; by rewrite E0, andb_false_r.
    + exists (p :: o2). rewrite Bk. exact Rb.
Qed.

(** ** The outer loops

    [match_asks] and [match_bids] are one loop over the side [s]. *)
Fixpoint match_loop (s : bool) (fuel : nat) (o : Order) (timestamp : Z) (st : MatchState) : outcome MatchState :=
  if (ms_remaining st >? 0) && bool_decide (best_level_ (side_at s (ms_book st)) <> None) then
    match fuel with
    | O => Diverge
    | S fuel =>
        let level := best_level_ (side_at s (ms_book st)) in
        n ← rd (levels (ms_book st)) level;
        if bool_decide (type o = Limit) && (if s then price o >? nd_price n else price o <? nd_price n) then Ret st
        else
          st ← match_level (match_fuel st) o timestamp level (head_ (nd_orders n)) st;
          match_loop s fuel o timestamp st
    end
  else Ret st.

Lemma match_asks_loop o t fuel : forall st, match_asks fuel o t st = match_loop false fuel o t st.
Proof.
  induction fuel as [|fuel IH]; intros st; simpl; [done|]. unfold best_ask_level.
  destruct (_ && _); [|done]. destruct (rd _ _) as [n| | | |]; try done. simpl.
  destruct (_ && _); [done|]. match goal with |- (?m ≫= _) = _ => destruct m end; try done. apply IH.
Qed.
Lemma match_bids_loop o t fuel : forall st, match_bids fuel o t st = match_loop true fuel o t st.
Proof.
  induction fuel as [|fuel IH]; intros st; simpl; [done|]. unfold best_bid_level.
  destruct (_ && _); [|done]. destruct (rd _ _) as [n| | | |]; try done. simpl.
  destruct (_ && _); [done|]. match goal with |- (?m ≫= _) = _ => destruct m end; try done. apply IH.
Qed.

Lemma match_loop_exhausted s fuel o t st : ms_remaining st = 0 -> match_loop s fuel o t st = Ret st.
Proof. intros E. destruct fuel; simpl; by rewrite E. Qed.

Lemma queue_fits s b As Ao B L Ls :
  rep_at s b As Ao B -> spec_at s B = L :: Ls -> (length (lv_orders L) <= S (size (orders b)))%nat.
Proof.
  intros R Es. pose proof (rep_orders_length _ _ _ _ _ R) as E.
  rewrite (covers_size _ _ (ra_cover _ _ _ _ _ R)) in E.
  rewrite (spec_at_orders s), Es, side_orders_cons, !length_app in E. lia.
Qed.

#[local] Arguments match_level : simpl never.
Lemma match_loop_spec o t Ls : let s := negb (order_side o) in forall fuel st B As Ao fs rem' Ls',
  rep_at s (ms_book st) As Ao B -> spec_at s B = Ls ->
  ctx_wf (ms_ctx st) -> 0 <= ms_remaining st < 2 ^ 64 -> (length Ls <= fuel)%nat ->
  match_side (crosses o) (ms_remaining st) Ls = (fs, rem', Ls') ->
  exists st', match_loop s fuel o t st = Ret st' /\ matched o t st fs st' /\ ms_remaining st' = rem' /\
    exists As', rep_at s (ms_book st') As' Ao (set_spec s Ls' B).
Proof.
  intros s. induction Ls as [|L Ls IH]; intros fuel st B As Ao fs rem' Ls' R Es W Q Fu E.
  - simpl in E. injection E as <- <- <-. exists st. split_and!; [|by apply matched_refl|done|].
    + destruct (side_best _ _ _ _ _ _ (ra_core _ _ _ _ _ R)) as [Em _]. rewrite Es in Em.
      unfold side_empty in Em. apply bool_decide_eq_true in Em.
      destruct fuel; simpl; rewrite Em, bool_decide_eq_false_2, andb_false_r by naive_solver; done.
    + exists As. by rewrite <-Es, set_spec_id.
  - pose proof (rc_side _ _ _ _ _ _ (ra_core _ _ _ _ _ R)) as S. rewrite Es in S.
    destruct As as [|[a ops] A2]; [by pose proof (side_rep_length _ _ _ _ _ S)|].
    pose proof (ra_core _ _ _ _ _ R) as RC. rewrite Es in RC.
    destruct (level_node s _ [] a ops A2 Ao [] L Ls _ RC eq_refl) as (n & En & Rl & _ & V).
    assert (nd_price n = lv_price L) as Ep by (by injection V).
    destruct fuel as [|fuel]; simpl in Fu; [lia|]. simpl.
    rewrite (sr_best _ _ _ _ _ S). change (head (level_ptrs ((a, ops) :: A2))) with (Some a).
    rewrite (bool_decide_eq_true_2 (Some a <> None)) by done. rewrite andb_true_r.
    simpl in E. destruct (Z.gtb_spec (ms_remaining st) 0) as [G|G].
    2: { injection E as <- <- <-. exists st. split_and!; [done|by apply matched_refl|done|].
         exists ((a, ops) :: A2). by rewrite <-Es, set_spec_id. }
    rewrite (rd_Some _ _ _ En), bind_Ret, Ep. simpl in E.
    assert (bool_decide (type o = Limit) && (if s then price o >? lv_price L else price o <? lv_price L) =
            negb (crosses o (lv_price L))) as ->.
    { unfold crosses, s. rewrite negb_involutive. by destruct (order_side o). }
    destruct (crosses o (lv_price L)) eqn:Cr; simpl.
    2: { injection E as <- <- <-. exists st. split_and!; [done|by apply matched_refl|done|].
         exists ((a, ops) :: A2). by rewrite <-Es, set_spec_id. }
    destruct (match_queue _ _ _) as [[fs1 rem1] k] eqn:E1.
    destruct Rl as (Hh & _). rewrite Hh.
    destruct (match_level_spec o t s a A2 Ao _ (match_fuel st) ops st B L Ls fs1 rem1 k R Es eq_refl W Q
      (queue_fits _ _ _ _ _ _ _ R Es) E1) as (st1 & -> & M1 & R1 & ops' & Rp). rewrite bind_Ret.
    pose proof (spec_at_levels s B (ra_wf _ _ _ _ _ R)) as FL. rewrite Es in FL.
    apply Forall_cons in FL as [OK FL].
    destruct (match_queue_rem _ _ _ _ _ _ E1 ltac:(lia) (level_ok_qty L OK)) as (B1 & B2 & _).
    destruct k as [|r k].
    + destruct (match_side (crosses o) rem1 Ls) as [[fs2 rem2] Ls2] eqn:E2. injection E as <- <- <-.
      rewrite <-R1 in E2. simpl in Rp.
      destruct (IH fuel st1 _ _ _ fs2 rem2 Ls2 Rp) as (st' & E' & M' & R' & As' & Rp');
        [by rewrite spec_at_set|apply M1|lia|lia|done|].
      exists st'. split_and!; [done|by eapply matched_trans|done|].
      exists As'. by destruct s.
    + injection E as <- <- <-. rewrite match_loop_exhausted by (rewrite R1; by apply B2).
      exists st1. split_and!; [done..|]. eexists. exact Rp.
Qed.

(** ** [submit_order] *)
Definition spec_status (o : Order) (B : Book) : MatchingStatus :=
  let rem := spec_remaining o B in
  if rem >? 0 then
    if decide (type o = Limit) then if rem =? qty o then Success else PartiallyFilled
    else if decide (type o = Market) then Expired else Success
  else Filled.

Definition spec_reports (o : Order) (timestamp eseq : Z) (B : Book) : list ExecutionReport :=
  let fs := spec_fills o B in
  ack_report eseq o timestamp :: fill_reports o timestamp (next64 eseq) (qty o) fs ++
  (if (spec_remaining o B >? 0) && bool_decide (type o = Market)
   then [expiration_report (Nat.iter (2 * length fs) next64 (next64 eseq)) o timestamp] else []).

(** What [submit_order] needs when a remainder is to rest. *)
Definition rest_ok (o : Order) (B : Book) : Prop :=
  spec_rests o B = true -> order_id o ∉ map r_id (book_orders B) /\ insert_room o (spec_matched o B).

(** The state in which the matching loop of [submit_order] starts. *)
Definition submit_start (timestamp : Z) (o : Order) (ctx : ExecutionContext) (e : MatchingEngine) : MatchState :=
  MkMatch (MkEngine (book_ e) (count_received (stats_ e)) (trade_seq_ e) (u64 (exec_seq_ e + 1)))
    (build_ack ctx (exec_seq_ e) o timestamp) (qty o) 0.

Lemma submit_match_loop t0 t1 t2 o ctx e :
  submit_order t0 t1 t2 o ctx e =
    (st ← match_loop (negb (order_side o)) (S (size (levels (book_ e)))) o t1 (submit_start t1 o ctx e);
     '(status, e, ctx) ← finish_order o t1 st;
     Ret (MkResult status (ms_trades st), ctx, with_stats (record_latency (u64 (t2 - t0))) e)).
Proof.
  unfold submit_order, order_side, submit_start.
  destruct (decide (side o = Buy)); [rewrite bool_decide_eq_true_2 by done|rewrite bool_decide_eq_false_2 by done];
    by rewrite ?match_asks_loop, ?match_bids_loop.
Qed.

Lemma levels_fit s b As Ao B : rep_at s b As Ao B -> (length (spec_at s B) <= S (size (levels b)))%nat.
Proof.
  intros R. pose proof (covers_size _ _ (rc_cover _ _ _ _ _ _ (ra_core _ _ _ _ _ R))) as E.
  pose proof (side_rep_length _ _ _ _ _ (rc_side _ _ _ _ _ _ (ra_core _ _ _ _ _ R))) as L.
  unfold level_ptrs in E. rewrite length_app, !length_map in E. lia.
Qed.

(** The loop runs to its end and leaves the matched book. *)
Lemma submit_matching o ctx e B t :
  abs (book_ e) B -> ctx_wf ctx -> 0 <= qty o < 2 ^ 64 ->
  exists st, match_loop (negb (order_side o)) (S (size (levels (book_ e)))) o t (submit_start t o ctx e) = Ret st /\
    matched o t (submit_start t o ctx e) (spec_fills o B) st /\ ms_remaining st = spec_remaining o B /\
    abs (ms_book st) (spec_matched o B).
Proof.
  intros R W Q. apply (abs_at (negb (order_side o))) in R as (As & Ao & R).
  pose proof (submit_match o B) as E.
  destruct (match_loop_spec o t (spec_at (negb (order_side o)) B) (S (size (levels (book_ e))))
    (submit_start t o ctx e) B As Ao (spec_fills o B) (spec_remaining o B)
    (match_side (crosses o) (qty o) (opposite o B)).2 R eq_refl) as (st & E' & M & Rm & As' & R').
  - by apply push_report_logged.
  - done.
  - by eapply levels_fit.
  - exact E.
  - exists st. split_and!; try done. apply (abs_at (negb (order_side o))). eexists _, _. exact R'.
Qed.

Lemma finish_order_spec o t st B :
  abs (ms_book st) (spec_matched o B) -> ms_remaining st = spec_remaining o B -> ctx_wf (ms_ctx st) ->
  book_wf B -> 0 <= qty o < 2 ^ 64 -> rest_ok o B ->
  exists e ctx, finish_order o t st = Ret (spec_status o B, e, ctx) /\ abs (book_ e) (spec_submit o B) /\
    logged (ms_ctx st) []
      (if (spec_remaining o B >? 0) && bool_decide (type o = Market)
       then [expiration_report (exec_seq_ (ms_engine st)) o t] else []) ctx /\
    trade_seq_ e = trade_seq_ (ms_engine st).
Proof.
  intros R Er W WB Q OK. unfold finish_order, spec_status, spec_submit. rewrite Er.
  unfold rest_ok, spec_rests in *. destruct (Z.gtb_spec (spec_remaining o B) 0) as [G|G]; simpl in *.
  2: { eexists _, _. split_and!; [done|done|by apply logged_refl|done]. }
  destruct (decide (type o = Limit)) as [T|T].
  - rewrite (bool_decide_eq_true_2 (type o = Limit)) in * by done. destruct OK as [N Rm]; [done|].
    rewrite (bool_decide_eq_false_2 (type o = Market)) by congruence.
    assert (insert_ok o (spec_matched o B)) as IO.
    { apply spec_matched_insert_ok; try done. unfold spec_rests. rewrite bool_decide_eq_true_2 by done.
      apply andb_true_iff. split; [by apply Z.gtb_lt|done]. }
    destruct (insert_abs o (seq_num o) _ _ R IO Rm) as (p & b & Eb & Rb & _).
    unfold ms_book in Eb. rewrite Eb, bind_Ret. eexists _, _. split_and!; [done|done|by apply logged_refl|done].
  - rewrite (bool_decide_eq_false_2 (type o = Limit)) by done.
    destruct (decide (type o = Market)) as [M|M].
    + rewrite bool_decide_eq_true_2 by done. eexists _, _. split_and!; [done|done| |done].
      by apply push_report_logged.
    + rewrite bool_decide_eq_false_2 by done. eexists _, _. split_and!; [done|done|by apply logged_refl|done].
Qed.

Lemma submit_refine t0 t1 t2 o ctx e B :
  abs (book_ e) B -> ctx_wf ctx -> 0 <= qty o < 2 ^ 64 -> rest_ok o B ->
  exists res ctx' e', submit_order t0 t1 t2 o ctx e = Ret (res, ctx', e') /\
    abs (book_ e') (spec_submit o B) /\ status res = spec_status o B /\
    trades_generated res = Nat.iter (length (spec_fills o B)) (fun z => u32 (z + 1)) 0 /\
    trade_seq_ e' = Nat.iter (length (spec_fills o B)) next64 (trade_seq_ e) /\
    logged ctx (fill_trades o t1 (trade_seq_ e) (spec_fills o B)) (spec_reports o t1 (exec_seq_ e) B) ctx'.
Proof.
  intros R W Q OK. rewrite submit_match_loop. pose proof R as (? & ? & [_ WB _ _ _]).
  destruct (submit_matching o ctx e B t1 R W Q) as (st & -> & M & Rm & Rb). rewrite bind_Ret.
  destruct (finish_order_spec o t1 st B Rb Rm (lg_wf _ _ _ _ (mt_log _ _ _ _ _ M)) WB Q OK)
    as (e' & ctx' & -> & Re & Lg & Ts). rewrite bind_Ret.
  eexists _, _, _. split_and!; [done|done|done|apply M| |].
  - simpl. rewrite Ts. apply M.
  - pose proof (push_report_logged (ack_report (exec_seq_ e) o t1) ctx W) as LA.
    rewrite (mt_eseq _ _ _ _ _ M) in Lg.
    pose proof (logged_trans _ _ _ _ _ _ _ LA (logged_trans _ _ _ _ _ _ _ (mt_log _ _ _ _ _ M) Lg)) as L.
    simpl in L. rewrite app_nil_r in L. exact L.
Qed.

(** ** [cancel_order], [modify_order] and [reset] *)
Lemma find_spec_in b B id p :
  abs b B -> lookup_ b !! id = Some p ->
  exists o, orders b !! p = Some o /\ key_order_id (lo_key o) = id /\ resting_view o ∈ book_orders B.
Proof.
  intros R E. destruct (locate _ _ _ _ R E)
    as (s & A1 & a & o1 & o2 & A2 & Ao & o & L1 & L & q1 & q2 & L2 & RA & Ei & LC).
  exists o. destruct LC as [Es _ Eq _ Eo]. split_and!; [done|done|].
  rewrite (spec_at_orders s), Es. autorewrite with book. rewrite Eq. set_solver.
Qed.

Lemma cancel_refine t0 t1 t2 id client account symbol ctx e B :
  abs (book_ e) B -> ctx_wf ctx ->
  exists ctx' e', cancel_order t0 t1 t2 id client account symbol ctx e =
      Ret (bool_decide (id ∈ map r_id (book_orders B)), ctx', e') /\
    abs (book_ e') (spec_cancel id B) /\
    ((id ∉ map r_id (book_orders B) /\ ctx' = ctx /\ exec_seq_ e' = exec_seq_ e) \/
     exists r, r ∈ book_orders B /\ r_id r = id /\ exec_seq_ e' = next64 (exec_seq_ e) /\
       logged ctx [] [MkReport (exec_seq_ e) id (r_price r) 0 0 t1 client account symbol RR_None ExecCancel] ctx').
Proof.
  intros R W. unfold cancel_order, find_order, lookup_find.
  destruct (lookup_ (book_ e) !! id) as [p|] eqn:E.
  - destruct (find_spec_in _ _ _ _ R E) as (o & Eo & Ei & Hin).
    destruct (cancel_abs _ _ id R) as (b & Eb & Rb).
    rewrite (rd_Some _ _ _ Eo), bind_Ret, Eb, bind_Ret.
    assert (id ∈ map r_id (book_orders B)) as Hid by (by eapply lookup_Some_spec).
    rewrite bool_decide_eq_true_2 by done. eexists _, _. split_and!; [done|done|]. right.
    exists (resting_view o). split_and!; [done|done|done|]. subst id. by apply push_report_logged.
  - pose proof (lookup_None_spec _ _ _ R E) as N. rewrite bool_decide_eq_false_2 by done.
    eexists _, _. split_and!; [done| |by left]. by rewrite (spec_cancel_absent _ _ _ R N).
Qed.

Lemma modify_refine t0 t1 t2 id q e B :
  abs (book_ e) B -> 0 <= q < 2 ^ 64 ->
  exists e', modify_order t0 t1 t2 id q e = Ret (bool_decide (id ∈ map r_id (book_orders B)), e') /\
    abs (book_ e') (spec_modify id q t1 B) /\ exec_seq_ e' = exec_seq_ e /\ trade_seq_ e' = trade_seq_ e.
Proof.
  intros R Q. unfold modify_order. destruct (modify_abs id q t1 _ _ R Q) as (b & -> & Rb). rewrite bind_Ret.
  eexists. by split_and!.
Qed.

Lemma reset_refine e B :
  abs (book_ e) B -> exists e', engine_reset e = Ret e' /\ abs (book_ e') empty_book /\
    trade_seq_ e' = 1 /\ exec_seq_ e' = 1 /\ stats_ e' = MatchingStatistics_init.
Proof.
  intros R. unfold engine_reset. destruct (clear_abs _ _ R) as (b & -> & Rb & _). rewrite bind_Ret.
  eexists. by split_and!.
Qed.

(** Removing or resizing resting orders cannot make the book crossed. *)
Lemma spec_cancel_uncrossed id B : uncrossed B -> uncrossed (spec_cancel id B).
Proof. intros U p q Hp%drop_id_prices Hq%drop_id_prices. eauto. Qed.
Lemma spec_modify_uncrossed id q s B : uncrossed B -> uncrossed (spec_modify id q s B).
Proof. intros U p p' Hp Hq. simpl in Hp, Hq. rewrite resize_prices in Hp, Hq. eauto. Qed.

Lemma uncrossed_best b B :
  abs b B -> uncrossed B ->
  exists bid ask, best_bid b = Ret bid /\ best_ask b = Ret ask /\
    (side_empty (bids_ b) = false -> side_empty (asks_ b) = false -> bid < ask).
Proof.
  intros R U.
  exists (best_price (bk_bids B)), (best_price (bk_asks B)).
  split_and!; [by apply best_bid_spec|by apply best_ask_spec|].
  pose proof R as (Ab & Aa & [RC _ _ _ _]).
  destruct (side_best _ _ _ _ _ _ RC) as [E1 _]. destruct (side_best _ _ _ _ _ _ (rep_core_flip _ _ _ _ _ _ RC)) as [E2 _].
  simpl in E1, E2. rewrite E1, E2. destruct (bk_bids B) as [|L Ls] eqn:Bb, (bk_asks B) as [|K Ks] eqn:Ba; try done.
  intros _ _. simpl. apply U; rewrite ?Bb, ?Ba; set_solver.
Qed.

(** ** Reachable engines *)
Inductive EngineStep : MatchingEngine -> MatchingEngine -> Prop :=
| step_submit t0 t1 t2 o ctx e res ctx' e' :
    ctx_wf ctx -> 0 <= qty o < 2 ^ 64 -> order_id o ∉ dom (lookup_ (book_ e)) ->
    submit_order t0 t1 t2 o ctx e = Ret (res, ctx', e') -> EngineStep e e'
| step_cancel t0 t1 t2 id client account symbol ctx e res ctx' e' :
    ctx_wf ctx -> cancel_order t0 t1 t2 id client account symbol ctx e = Ret (res, ctx', e') -> EngineStep e e'
| step_modify t0 t1 t2 id q e res e' :
    0 <= q < 2 ^ 64 -> modify_order t0 t1 t2 id q e = Ret (res, e') -> EngineStep e e'
| step_reset e e' : engine_reset e = Ret e' -> EngineStep e e'.

Inductive EngineReachable (listener : bool) : MatchingEngine -> Prop :=
| reach_init : EngineReachable listener (MatchingEngine_init listener)
| reach_step e e' : EngineReachable listener e -> EngineStep e e' -> EngineReachable listener e'.

Definition engine_inv (e : MatchingEngine) : Prop := exists B, abs (book_ e) B /\ uncrossed B.

Lemma submit_room_dec o B : Decision (insert_room o B).
Proof.
  destruct (decide (Z.of_nat (length (book_orders B)) < ORDERS)) as [RO|RO].
  2: { right. by intros [? _]. }
  destruct (decide (price o ∈ map lv_price (spec_at (order_side o) B) \/
    Z.of_nat (length (bk_bids B) + length (bk_asks B)) < LEVELS)) as [RL|RL]; [by left|].
  right. by intros [_ ?].
Qed.

Lemma submit_no_room t0 t1 t2 o ctx e B :
  abs (book_ e) B -> ctx_wf ctx -> 0 <= qty o < 2 ^ 64 -> spec_rests o B = true ->
  ~ insert_room o (spec_matched o B) -> submit_order t0 t1 t2 o ctx e = Terminate.
Proof.
  intros R W Q Rs NR. rewrite submit_match_loop.
  destruct (submit_matching o ctx e B t1 R W Q) as (st & -> & M & Rm & Rb). rewrite bind_Ret.
  apply andb_true_iff in Rs as [G T]. apply bool_decide_eq_true in T.
  unfold finish_order. rewrite Rm, G, decide_True by done. unfold ms_book in Rb.
  destruct (decide (Z.of_nat (length (book_orders (spec_matched o B))) < ORDERS)) as [RO|RO].
  2: { by rewrite (insert_exhausted _ _ _ _ Rb) by lia. }
  rewrite (insert_level_exhausted _ _ _ _ Rb RO); [done| |].
  - intros H. apply NR. split; [done|by left].
  - apply Z.le_ge, Z.nlt_ge. intros H. apply NR. split; [done|by right].
Qed.

(** A submission that returned found room for its remainder. *)
Lemma submit_returned t0 t1 t2 o ctx e B res ctx' e' :
  abs (book_ e) B -> ctx_wf ctx -> 0 <= qty o < 2 ^ 64 -> order_id o ∉ map r_id (book_orders B) ->
  submit_order t0 t1 t2 o ctx e = Ret (res, ctx', e') -> abs (book_ e') (spec_submit o B) /\ ctx_wf ctx'.
Proof.
  intros R W Q N E. assert (rest_ok o B) as OK.
  { intros Rs. split; [done|]. destruct (submit_room_dec o (spec_matched o B)) as [Rm|Rm]; [done|].
    by rewrite (submit_no_room t0 t1 t2 o ctx e B) in E by done. }
  destruct (submit_refine t0 t1 t2 o ctx e B R W Q OK) as (r & c & e2 & E' & Re & _ & _ & _ & Lg).
  rewrite E in E'. injection E' as _ -> ->. split; [done|apply Lg].
Qed.

(** A fresh id is one the lookup does not hold. *)
Lemma lookup_fresh b B id : abs b B -> id ∉ dom (lookup_ b) -> id ∉ map r_id (book_orders B).
Proof.
  intros R ND Hc. apply ND, elem_of_dom. destruct (lookup_ b !! id) eqn:E; [eauto|]. by eapply lookup_None_spec in E.
Qed.

Lemma step_inv e e' : engine_inv e -> EngineStep e e' -> engine_inv e'.
Proof.
  intros (B & R & U) S. pose proof R as (Ab & Aa & RA). inversion S; subst.
  - assert (order_id o ∉ map r_id (book_orders B)) as N by (by eapply lookup_fresh).
    exists (spec_submit o B). split; [by eapply submit_returned|].
    apply spec_submit_uncrossed; [apply RA|done|done].
  - destruct (cancel_refine t0 t1 t2 id client account symbol ctx e B R) as (c & e2 & E & Re & _); [done|].
    assert (e2 = e') as -> by congruence. exists (spec_cancel id B). split; [done|]. by apply spec_cancel_uncrossed.
  - destruct (modify_refine t0 t1 t2 id q e B R) as (e2 & E & Re & _); [done|].
    assert (e2 = e') as -> by congruence. exists (spec_modify id q t1 B). split; [done|]. by apply spec_modify_uncrossed.
  - destruct (reset_refine e B R) as (e2 & E & Re & _). assert (e2 = e') as -> by congruence.
    exists empty_book. split; [done|]. intros p q. set_solver.
Qed.

Lemma reachable_inv listener e : EngineReachable listener e -> engine_inv e.
Proof.
  induction 1 as [|e e' _ IH S]; [|by eapply step_inv].
  exists empty_book. split; [apply init_abs|]. intros p q. set_solver.
Qed.
