(* ===== verification/MatchProperties.v ===== *)
(** * Properties of the matching engine

    The theorems of the engine, from a state whose book stands for an abstract
    book; each is followed by a concrete instance. *)
From S2P Require Import Prelude Domain ObjectPool DList BookSpec OrderList SideBook OrderBook BookRefine BookOps BookClear MatchSpec TradeBuilder MatchingEngine MatchRefine.

(** ** Helper lemmas *)
Lemma level_qty_nonneg L : level_ok L -> 0 <= level_qty L.
Proof.
  intros OK. apply sumZ_nonneg. apply Forall_fmap. eapply Forall_impl; [by apply level_ok_qty|]. done.
Qed.

Lemma no_cross_beyond (before : Z -> Z -> bool) (crs : Z -> bool) L Ls :
  (forall p q, before p q = true -> crs p = false -> crs q = false) ->
  sorted_by before (L :: Ls) -> crs (lv_price L) = false ->
  filter (fun L => crs (lv_price L) = true) (L :: Ls) = [].
Proof.
  intros M (_ & _ & C)%(sorted_by_app _ [L]) H.
  rewrite filter_cons_False by congruence.
  induction Ls as [|K Ls IH]; [done|]. rewrite filter_cons_False.
  - apply IH. intros. apply C; set_solver.
  - rewrite (M (lv_price L)); [done| |done]. apply C; set_solver.
Qed.

Lemma match_side_traded (before : Z -> Z -> bool) (crs : Z -> bool) Ls : 
  (forall p q, before p q = true -> crs p = false -> crs q = false) ->
  forall rem fs rem' Ls',
  match_side crs rem Ls = (fs, rem', Ls') -> 0 <= rem -> Forall level_ok Ls -> sorted_by before Ls ->
  traded fs = Z.min rem (sumZ (map level_qty (filter (fun L => crs (lv_price L) = true) Ls))).
Proof.
  intros M. induction Ls as [|L Ls IH]; intros rem fs rem' Ls'.
  { intros [= <- <- <-] P _ _. unfold traded. simpl. rewrite sumZ_nil. lia. }
  intros E P [OK F]%Forall_cons SO. simpl in E.
  assert (0 <= sumZ (map level_qty (filter (fun L => crs (lv_price L) = true) (L :: Ls)))) as NN.
  { apply sumZ_nonneg, Forall_fmap. apply Forall_forall. intros K [_ HK]%list_elem_of_filter.
    simpl. apply level_qty_nonneg. assert (Forall level_ok (L :: Ls)) as F' by (by constructor).
    rewrite Forall_forall in F'. by apply F'. }
  destruct (Z.gtb_spec rem 0) as [G|G].
  2: { injection E as <- <- <-. unfold traded. simpl map at 1. rewrite sumZ_nil. lia. }
  destruct (crs (lv_price L)) eqn:Cr; simpl in E.
  2: { injection E as <- <- <-. rewrite (no_cross_beyond before) by done. unfold traded. simpl. rewrite sumZ_nil. lia. }
  rewrite filter_cons_True by done. simpl map. rewrite sumZ_cons.
  destruct (match_queue _ _ _) as [[fs1 rem1] k] eqn:E1.
  destruct (match_queue_rem _ _ _ _ _ _ E1 P (level_ok_qty L OK)) as (B1 & B2 & B3 & B4).
  fold (level_qty L) in B4. apply (sorted_by_app _ [L]) in SO as (_ & SO & _). destruct k as [|r k].
  - destruct (match_side crs rem1 Ls) as [[fs2 rem2] Ls2] eqn:E2. injection E as <- <- <-.
    rewrite traded_app, (IH _ _ _ _ E2) by first [done|lia]. simpl in B4. rewrite sumZ_nil in B4. lia.
  - injection E as <- <- <-. specialize (B2 ltac:(done)).
    assert (0 <= sumZ (map r_qty (r :: k))).
    { apply sumZ_nonneg, Forall_fmap. eapply (proj2 (match_queue_sublist _ _ _ _ _ _ E1));
        [|done|by apply level_ok_qty|by apply level_ok_qty]. simpl. lia. }
    assert (0 <= sumZ (map level_qty (filter (fun L => crs (lv_price L) = true) Ls))).
    { apply sumZ_nonneg, Forall_fmap. apply Forall_forall. intros K [_ HK]%list_elem_of_filter.
      simpl. apply level_qty_nonneg. rewrite Forall_forall in F. by apply F. }
    lia.
Qed.

Lemma next64_small z : 0 <= z -> z + 1 < 2 ^ 64 -> next64 z = z + 1.
Proof. intros. apply u64_small. lia. Qed.

Lemma iter_next64 n : forall z, 0 <= z -> z + Z.of_nat n < 2 ^ 64 -> Nat.iter n next64 z = z + Z.of_nat n.
Proof.
  induction n as [|n IH]; intros z P B; [simpl; lia|].
  change (Nat.iter (S n) next64 z) with (next64 (Nat.iter n next64 z)).
  rewrite IH by lia. rewrite next64_small; lia.
Qed.

Lemma fill_reports_ids o t fs : forall es rem,
  0 <= es -> es + 2 * Z.of_nat (length fs) < 2 ^ 64 ->
  map rp_exec_id (fill_reports o t es rem fs) = seqZ es (2 * Z.of_nat (length fs)).
Proof.
  induction fs as [|f fs IH]; intros es rem P B; [done|]. cbn [length] in *. simpl map.
  rewrite !(next64_small es), (next64_small (es + 1)) by lia. rewrite IH by lia.
  rewrite (seqZ_cons es) by lia. rewrite (seqZ_cons (Z.succ es)) by lia.
  replace (Z.succ es) with (es + 1) by lia. replace (Z.succ (es + 1)) with (es + 1 + 1) by lia.
  replace (Z.pred (Z.pred _)) with (2 * Z.of_nat (length fs)) by lia. done.
Qed.

Lemma spec_reports_ids o t es B :
  0 <= es -> es + 2 * Z.of_nat (length (spec_fills o B)) + 1 < 2 ^ 64 ->
  map rp_exec_id (spec_reports o t es B) = seqZ es (Z.of_nat (length (spec_reports o t es B))).
Proof.
  intros P H. unfold spec_reports. set (fs := spec_fills o B) in *.
  rewrite next64_small, iter_next64 by lia. simpl map. rewrite map_app, fill_reports_ids by lia.
  assert (length (fill_reports o t (es + 1) (qty o) fs) = 2 * length fs)%nat as L.
  { rewrite <-(length_map rp_exec_id), fill_reports_ids, length_seqZ by lia. lia. }
  simpl length. rewrite length_app, L. rewrite (seqZ_cons es) by lia. f_equal.
  destruct (_ && _); simpl; rewrite ?app_nil_r.
  - replace (Z.pred _) with (2 * Z.of_nat (length fs) + 1) by lia. rewrite seqZ_app by lia.
    replace (Z.succ es) with (es + 1) by lia. rewrite (seqZ_cons _ 1) by lia. simpl.
    replace (es + 1 + 2 * Z.of_nat (length fs)) with (es + 1 + Z.of_nat (2 * length fs)) by lia. done.
  - replace (Z.succ es) with (es + 1) by lia. f_equal. lia.
Qed.

(** The order that rests after a submission. *)
Lemma submitted_rests o B b :
  abs b (spec_submit o B) -> book_wf B -> 0 <= qty o < 2 ^ 64 -> spec_rests o B = true ->
  order_id o ∉ map r_id (book_orders B) ->
  exists p lo, find_order (order_id o) b = Some p /\ orders b !! p = Some lo /\
    lo_remaining_qty lo = qty o /\ lo_price lo = price o.
Proof.
  intros R W Q Rs N. pose proof (spec_submit_wf o B W Q N) as W'.
  assert (resting_of o (seq_num o) ∈ book_orders (spec_submit o B)) as Hin.
  { unfold spec_submit. rewrite Rs, spec_insert_orders. set_solver. }
  destruct (lookup_ b !! order_id o) as [p|] eqn:F.
  2: { apply (lookup_None_spec _ _ _ R) in F. exfalso. apply F. apply list_elem_of_fmap. by exists (resting_of o (seq_num o)). }
  destruct (find_spec_in _ _ _ _ R F) as (lo & Eo & Ei & Hlo). exists p, lo.
  assert (resting_view lo = resting_of o (seq_num o)) as V.
  { apply list_elem_of_lookup in Hin as [i Hi], Hlo as [j Hj].
    pose proof (wf_ids _ W') as ND. assert (i = j) as ->; [|congruence].
    eapply (NoDup_lookup _ _ _ (order_id o) ND); rewrite list_lookup_fmap.
    - by rewrite Hi. 
    - rewrite Hj. simpl. by rewrite <-Ei. }
  split_and!; [done|done|..].
  - exact (f_equal r_qty V).
  - exact (f_equal r_price V).
Qed.

Lemma seqZ_take m n k : take n (seqZ m (Z.of_nat k)) = seqZ m (Z.of_nat (n `min` k)).
Proof.
  destruct (decide (n <= k)%nat).
  - replace (Z.of_nat k) with (Z.of_nat n + Z.of_nat (k - n)) by lia. rewrite seqZ_app by lia.
    rewrite take_app_length' by (rewrite length_seqZ; lia). f_equal. lia.
  - rewrite take_ge by (rewrite length_seqZ; lia). f_equal. lia.
Qed.

(** The opposite side after a submission. *)
Lemma spec_submit_opposite o B :
  spec_at (negb (order_side o)) (spec_submit o B) = (match_side (crosses o) (qty o) (opposite o B)).2.
Proof.
  unfold spec_submit, spec_matched, spec_rests.
  destruct (_ && _); [rewrite spec_insert_at, spec_at_set_other|]; by rewrite spec_at_set.
Qed.

Lemma fill_trades_Forall (P : Trade -> Prop) o t ts fs :
  (forall n f, f ∈ fs -> P (fill_trade o t n f)) -> Forall P (fill_trades o t ts fs).
Proof.
  revert ts. induction fs as [|f fs IH]; intros ts H; simpl; constructor; [apply H; set_solver|].
  apply IH. intros. apply H. set_solver.
Qed.

Lemma crosses_limit o p : crosses o p = true -> type o = Limit -> if order_side o then p <= price o else price o <= p.
Proof.
  unfold crosses. intros C T. rewrite bool_decide_eq_true_2 in C by done. simpl in C.
  destruct (order_side o); lia.
Qed.

(** ** Concrete states for the instances *)
Definition sample (id p q : Z) (s : Side) (ty : OrderType) : Order := MkOrder id p q id 0 0 4 5 7 s ty GTC 0.
Definition ask_10 : Order := sample 1 100 10 Sell Limit.
Definition one_ask : Book := MkBook [] [MkLevel 100 [MkResting (MkOrderKey 7 1) 100 10 1]].
Definition buy_15 : Order := sample 2 101 15 Buy Limit.

Lemma ask_10_rest_ok : rest_ok ask_10 empty_book.
Proof. intros _. split; [set_solver|]. split; [done|by right]. Qed.

Lemma one_ask_engine : exists res c e,
  submit_order 0 0 0 ask_10 ExecutionContext_init (MatchingEngine_init false) = Ret (res, c, e) /\
  abs (book_ e) one_ask /\ ctx_wf c /\ trade_seq_ e = 1.
Proof.
  destruct (submit_refine 0 0 0 ask_10 ExecutionContext_init (MatchingEngine_init false) empty_book
    (init_abs false) ctx_init_wf ltac:(done) ask_10_rest_ok) as (res & c & e & E & R & _ & _ & T & L).
  exists res, c, e. split; [exact E|]. split; [exact R|]. split; [apply L|exact T].
Qed.

Lemma buy_15_rest_ok : rest_ok buy_15 one_ask.
Proof.
  intros _. split; [|split; [done|by right]].
  simpl. intros H. apply list_elem_of_singleton in H. done.
Qed.

(** C1: [submit_order] refines the matching specification: it returns, its book
    stands for the specified book, its status, trade count and trade sequence
    are the specified ones, and the context received the specified trades and
    reports (as many as fit). *)
Theorem submit_refines (t0 t1 t2 : Z) (o : Order) (ctx : ExecutionContext) (e : MatchingEngine) (B : Book) :
  abs (book_ e) B -> ctx_wf ctx -> 0 <= qty o < 2 ^ 64 -> rest_ok o B ->
  exists res ctx' e', submit_order t0 t1 t2 o ctx e = Ret (res, ctx', e') /\
    abs (book_ e') (spec_submit o B) /\ status res = spec_status o B /\
    trades_generated res = Nat.iter (length (spec_fills o B)) (fun z => u32 (z + 1)) 0 /\
    trade_seq_ e' = Nat.iter (length (spec_fills o B)) next64 (trade_seq_ e) /\
    ctx_trades ctx' = take MAX_TRADES (ctx_trades ctx ++ fill_trades o t1 (trade_seq_ e) (spec_fills o B)) /\
    ctx_reports ctx' = take MAX_REPORTS (ctx_reports ctx ++ spec_reports o t1 (exec_seq_ e) B).
Proof.
  intros R W Q OK. destruct (submit_refine t0 t1 t2 o ctx e B R W Q OK) as (res & c & e' & ? & ? & ? & ? & ? & [? ? ?]).
  by exists res, c, e'.
Qed.
Lemma submit_refines_witness : exists res c e, 
  submit_order 0 0 0 ask_10 ExecutionContext_init (MatchingEngine_init false) = Ret (res, c, e) /\
  abs (book_ e) one_ask /\ status res = Success /\ trades_generated res = 0 /\ trade_seq_ e = 1 /\
  ctx_trades c = [] /\ ctx_reports c = [ack_report 1 ask_10 0].
Proof.
  exact (submit_refines 0 0 0 ask_10 ExecutionContext_init (MatchingEngine_init false) empty_book
    (init_abs false) ctx_init_wf ltac:(done) ask_10_rest_ok).
Defined.

(** C5: a submission with a fresh id always ends: it returns, or, when the
    remainder must rest and no order or level slot is free, the exception that
    leaves the pool terminates the program.  No assertion fails and no dangling
    pointer is followed. *)
Theorem submit_total (t0 t1 t2 : Z) (o : Order) (ctx : ExecutionContext) (e : MatchingEngine) (B : Book) :
  abs (book_ e) B -> ctx_wf ctx -> 0 <= qty o < 2 ^ 64 -> order_id o ∉ map r_id (book_orders B) ->
  (exists r, submit_order t0 t1 t2 o ctx e = Ret r) \/
  submit_order t0 t1 t2 o ctx e = Terminate /\ spec_rests o B = true /\ ~ insert_room o (spec_matched o B).
Proof.
  intros R W Q N. destruct (spec_rests o B) eqn:Rs.
  2: { left. destruct (submit_refine t0 t1 t2 o ctx e B R W Q) as (r & c & e2 & E' & _); [|eauto].
       unfold rest_ok. by rewrite Rs. }
  destruct (submit_room_dec o (spec_matched o B)) as [Rm|Rm].
  - left. destruct (submit_refine t0 t1 t2 o ctx e B R W Q) as (r & c & e2 & E' & _); [by intros _|eauto].
  - right. split_and!; [|done|done]. by eapply submit_no_room.
Qed.
Lemma submit_total_witness :
  (exists r, submit_order 0 0 0 ask_10 ExecutionContext_init (MatchingEngine_init false) = Ret r) \/
  submit_order 0 0 0 ask_10 ExecutionContext_init (MatchingEngine_init false) = Terminate /\
    spec_rests ask_10 empty_book = true /\ ~ insert_room ask_10 (spec_matched ask_10 empty_book).
Proof.
  refine (submit_total 0 0 0 ask_10 ExecutionContext_init (MatchingEngine_init false) empty_book
    (init_abs false) ctx_init_wf _ _); [done|]. intros H. by apply elem_of_nil in H.
Defined.

(** C2: in every state an engine reaches from its construction by submissions
    of new ids, cancels, modifications and resets, the book's self-checks pass
    and the best bid is below the best ask. *)
Theorem reachable_uncrossed (listener : bool) (e : MatchingEngine) :
  EngineReachable listener e ->
  verify_invariants (book_ e) = Ret tt /\
  exists bid ask, best_bid (book_ e) = Ret bid /\ best_ask (book_ e) = Ret ask /\
    (side_empty (bids_ (book_ e)) = false -> side_empty (asks_ (book_ e)) = false -> bid < ask).
Proof.
  intros H. destruct (reachable_inv _ _ H) as (B & R & U). split; [by eapply verify_spec|].
  by eapply uncrossed_best.
Qed.
Lemma reachable_uncrossed_witness : exists e,
  EngineReachable false e /\ orders (book_ e) <> ∅ /\ verify_invariants (book_ e) = Ret tt.
Proof.
  destruct one_ask_engine as (res & c & e & E & R & _). exists e.
  assert (EngineReachable false e) as H.
  { refine (reach_step false _ e (reach_init false) _).
    refine (step_submit 0 0 0 ask_10 ExecutionContext_init _ res c e ctx_init_wf _ _ E); [simpl; lia|].
    change (order_id ask_10 ∉ dom (∅ : gmap Z Z)). rewrite dom_empty_L. apply not_elem_of_empty. }
  split; [exact H|]. split; [|exact (proj1 (reachable_uncrossed false e H))].
  intros EO. destruct R as (Ab & Aa & RA). pose proof (rep_orders_length _ _ _ _ _ RA) as L.
  rewrite (covers_size _ _ (ra_cover _ _ _ _ _ RA)), EO in L. done.
Defined.

(** C3: price-time priority.  The makers of the trades are the first orders of
    the opposite side, best level first and queue order within a level; all but
    the last are filled completely, and a last one filled in part keeps its
    place with the rest of its quantity. *)
Theorem submit_priority (t0 t1 t2 : Z) (o : Order) (ctx : ExecutionContext) (e : MatchingEngine) (B : Book) :
  abs (book_ e) B -> ctx_wf ctx -> 0 <= qty o < 2 ^ 64 -> rest_ok o B ->
  exists res ctx' e' B' fs, submit_order t0 t1 t2 o ctx e = Ret (res, ctx', e') /\ abs (book_ e') B' /\
    ctx_trades ctx' = take MAX_TRADES (ctx_trades ctx ++ fill_trades o t1 (trade_seq_ e) fs) /\
    let opp b := side_orders (spec_at (negb (order_side o)) b) in
    (opp B = map mf_maker fs ++ opp B' /\ Forall (fun f => mf_qty f = r_qty (mf_maker f)) fs) \/
    exists fs0 p r m rest, fs = fs0 ++ [MkFillOf p r m] /\ m < r_qty r /\
      opp B = map mf_maker fs0 ++ r :: rest /\ opp B' = with_qty (r_qty r - m) r :: rest /\
      Forall (fun f => mf_qty f = r_qty (mf_maker f)) fs0.
Proof.
  intros R W Q OK. destruct (submit_refine t0 t1 t2 o ctx e B R W Q OK) as (res & c & e' & E & R' & _ & _ & _ & Lg).
  exists res, c, e', (spec_submit o B), (spec_fills o B). split_and!; [done|done|apply Lg|].
  pose proof R as (? & ? & [_ WB _ _ _]). cbv beta zeta. rewrite spec_submit_opposite.
  destruct (match_side_priority (crosses o) _ _ _ _ _ (submit_match o B) ltac:(lia) (spec_at_levels _ B WB))
    as [?|(fs0 & p & r & m & rest & ? & ? & ? & ? & _ & ?)]; [by left|right].
  by exists fs0, p, r, m, rest.
Qed.
Lemma submit_priority_witness : exists e, exists res ctx' e' B' fs,
  submit_order 0 0 0 buy_15 ExecutionContext_init e = Ret (res, ctx', e') /\ abs (book_ e') B' /\
  ctx_trades ctx' = take MAX_TRADES (ctx_trades ExecutionContext_init ++ fill_trades buy_15 0 (trade_seq_ e) fs) /\
  let opp b := side_orders (spec_at (negb (order_side buy_15)) b) in
  (opp one_ask = map mf_maker fs ++ opp B' /\ Forall (fun f => mf_qty f = r_qty (mf_maker f)) fs) \/
  exists fs0 p r m rest, fs = fs0 ++ [MkFillOf p r m] /\ m < r_qty r /\
    opp one_ask = map mf_maker fs0 ++ r :: rest /\ opp B' = with_qty (r_qty r - m) r :: rest /\
    Forall (fun f => mf_qty f = r_qty (mf_maker f)) fs0.
Proof.
  destruct one_ask_engine as (res & c & e & _ & R & _). exists e.
  exact (submit_priority 0 0 0 buy_15 ExecutionContext_init e one_ask R ctx_init_wf ltac:(done) buy_15_rest_ok).
Defined.

(** C4: conservation.  The quantity traded is the smaller of the order's
    quantity and of what rests at the crossing levels, and it leaves the opposite
    side.  What the order asked for less what was traded decides the status: with
    nothing left the order is [Filled]; otherwise a limit order is [Success] if
    nothing was traded and [PartiallyFilled] if something was, a market order is
    [Expired], and any other [Success]. *)
Theorem submit_conserves (t0 t1 t2 : Z) (o : Order) (ctx : ExecutionContext) (e : MatchingEngine) (B : Book) :
  abs (book_ e) B -> ctx_wf ctx -> 0 <= qty o < 2 ^ 64 -> rest_ok o B ->
  exists res ctx' e' B' fs, submit_order t0 t1 t2 o ctx e = Ret (res, ctx', e') /\ abs (book_ e') B' /\
    ctx_trades ctx' = take MAX_TRADES (ctx_trades ctx ++ fill_trades o t1 (trade_seq_ e) fs) /\
    traded fs = Z.min (qty o)
      (sumZ (map level_qty (filter (fun L => crosses o (lv_price L) = true) (opposite o B)))) /\
    side_qty (opposite o B) = traded fs + side_qty (opposite o B') /\
    status res =
      (let left := qty o - traded fs in
       if left =? 0 then Filled
       else if decide (type o = Limit) then if left =? qty o then Success else PartiallyFilled
       else if decide (type o = Market) then Expired else Success).
Proof.
  intros R W Q OK. destruct (submit_refine t0 t1 t2 o ctx e B R W Q OK) as (res & c & e' & E & R' & S & _ & _ & Lg).
  exists res, c, e', (spec_submit o B), (spec_fills o B). split_and!; [done|done|apply Lg|..].
  all: pose proof R as (? & ? & [_ WB _ _ _]).
  - eapply match_side_traded; [apply (crosses_mono o)|apply submit_match|lia|by apply spec_at_levels|by apply spec_at_sorted].
  - unfold opposite at 2. rewrite spec_submit_opposite. apply (spec_remaining_bound o B WB Q).
  - destruct (spec_remaining_bound o B WB Q) as (B1 & B2 & _). rewrite S. unfold spec_status. cbv zeta.
    replace (qty o - traded (spec_fills o B)) with (spec_remaining o B) by lia.
    by destruct (Z.gtb_spec (spec_remaining o B) 0), (Z.eqb_spec (spec_remaining o B) 0); try lia.
Qed.
Lemma submit_conserves_witness : exists e, exists res ctx' e' B' fs,
  submit_order 0 0 0 buy_15 ExecutionContext_init e = Ret (res, ctx', e') /\ abs (book_ e') B' /\
  ctx_trades ctx' = take MAX_TRADES (ctx_trades ExecutionContext_init ++ fill_trades buy_15 0 (trade_seq_ e) fs) /\
  traded fs = 10 /\ side_qty (opposite buy_15 one_ask) = traded fs + side_qty (opposite buy_15 B') /\
  status res = PartiallyFilled.
Proof.
  destruct one_ask_engine as (res & c & e & _ & R & _). exists e.
  destruct (submit_conserves 0 0 0 buy_15 ExecutionContext_init e one_ask R ctx_init_wf ltac:(done) buy_15_rest_ok)
    as (res' & ctx' & e' & B' & fs & E & R' & Tr & Tq & Sq & St). exists res', ctx', e', B', fs.
  assert (traded fs = 10) as T by exact Tq. rewrite T in St. split_and!; [exact E|exact R'|exact Tr|exact T|exact Sq|exact St].
Defined.

(** Price protection.  Every trade written by a submission is at the price
    of a resting level, never worse than the limit of a limit order, and names
    the incoming order as its taker. *)
Theorem submit_price_protected (t0 t1 t2 : Z) (o : Order) (ctx : ExecutionContext) (e : MatchingEngine) (B : Book) :
  abs (book_ e) B -> ctx_wf ctx -> 0 <= qty o < 2 ^ 64 -> rest_ok o B -> ctx_trades ctx = [] ->
  exists res ctx' e', submit_order t0 t1 t2 o ctx e = Ret (res, ctx', e') /\
    Forall (fun t =>
      tr_price t ∈ map lv_price (opposite o B) /\
      (type o = Limit -> if decide (side o = Buy) then tr_price t <= price o else price o <= tr_price t) /\
      (if decide (side o = Buy) then tr_buy_order_id t else tr_sell_order_id t) = order_id o) (ctx_trades ctx').
Proof.
  intros R W Q OK E0. destruct (submit_refine t0 t1 t2 o ctx e B R W Q OK) as (res & c & e' & E & _ & _ & _ & _ & Lg).
  exists res, c, e'. split; [done|]. rewrite (lg_trades _ _ _ _ Lg), E0. apply Forall_take, fill_trades_Forall.
  intros n f Hf. pose proof (match_side_fill_prices _ _ _ _ _ _ (submit_match o B)) as F.
  rewrite Forall_forall in F. destruct (F f Hf) as [C P]. split; [done|]. simpl. unfold order_side in *.
  split; [|by destruct (decide _)]. intros T. pose proof (crosses_limit o _ C T) as L. unfold order_side in L.
  destruct (decide (side o = Buy)); [by rewrite bool_decide_eq_true_2 in L|by rewrite bool_decide_eq_false_2 in L].
Qed.
Lemma submit_price_protected_witness : exists e, exists res ctx' e',
  submit_order 0 0 0 buy_15 ExecutionContext_init e = Ret (res, ctx', e') /\
  Forall (fun t =>
      tr_price t ∈ map lv_price (opposite buy_15 one_ask) /\
      (type buy_15 = Limit -> if decide (side buy_15 = Buy) then tr_price t <= price buy_15 else price buy_15 <= tr_price t) /\
      (if decide (side buy_15 = Buy) then tr_buy_order_id t else tr_sell_order_id t) = order_id buy_15) (ctx_trades ctx').
Proof.
  destruct one_ask_engine as (res & c & e & _ & R & _). exists e.
  exact (submit_price_protected 0 0 0 buy_15 ExecutionContext_init e one_ask R ctx_init_wf ltac:(done) buy_15_rest_ok eq_refl).
Defined.

(** C6: the remainder that rests is not what was left.  After a limit order
    traded [traded fs > 0] units and was not exhausted, its status is
    [PartiallyFilled] but the book holds it with its whole original quantity, so
    the quantity traded and the quantity resting add up to more than was ordered. *)
Theorem partial_fill_rests_in_full (t0 t1 t2 : Z) (o : Order) (ctx : ExecutionContext) (e : MatchingEngine) (B : Book) :
  abs (book_ e) B -> ctx_wf ctx -> 0 <= qty o < 2 ^ 64 -> rest_ok o B ->
  type o = Limit -> 0 < traded (spec_fills o B) < qty o ->
  exists res ctx' e' p lo, submit_order t0 t1 t2 o ctx e = Ret (res, ctx', e') /\ status res = PartiallyFilled /\
    find_order (order_id o) (book_ e') = Some p /\ orders (book_ e') !! p = Some lo /\
    lo_remaining_qty lo = qty o /\ traded (spec_fills o B) + lo_remaining_qty lo > qty o.
Proof.
  intros R W Q OK T Tr. destruct (submit_refine t0 t1 t2 o ctx e B R W Q OK) as (res & c & e' & E & R' & S & _).
  pose proof R as (? & ? & [_ WB _ _ _]). destruct (spec_remaining_bound o B WB Q) as (B1 & B2 & _).
  assert (spec_rests o B = true) as Rs.
  { unfold spec_rests. rewrite bool_decide_eq_true_2, andb_true_r by done. apply Z.gtb_lt. lia. }
  destruct (submitted_rests o B _ R' WB Q Rs) as (p & lo & F & Eo & Eq & _); [by apply OK|].
  exists res, c, e', p, lo. split_and!; [done| |done|done|done|lia].
  rewrite S. unfold spec_status. destruct (Z.gtb_spec (spec_remaining o B) 0); [|lia].
  rewrite decide_True by done. destruct (Z.eqb_spec (spec_remaining o B) (qty o)); [lia|done].
Qed.
Lemma partial_fill_rests_in_full_witness : exists e res ctx' e' p lo,
  submit_order 0 0 0 buy_15 ExecutionContext_init e = Ret (res, ctx', e') /\ status res = PartiallyFilled /\
  find_order 2 (book_ e') = Some p /\ orders (book_ e') !! p = Some lo /\
  lo_remaining_qty lo = 15 /\ 10 + lo_remaining_qty lo > 15.
Proof.
  destruct one_ask_engine as (res & c & e & _ & R & _). exists e.
  exact (partial_fill_rests_in_full 0 0 0 buy_15 ExecutionContext_init e one_ask R ctx_init_wf ltac:(done)
           buy_15_rest_ok eq_refl ltac:(done)).
Defined.

(** [cancel_order] answers whether the order rests; if so it leaves the
    book without it, logs one cancel report that carries the caller's
    identifiers and takes one execution id; if not, nothing changes but the
    statistics. *)
Lemma cancel_order_refines (t0 t1 t2 id client account symbol : Z) (ctx : ExecutionContext)
    (e : MatchingEngine) (B : Book) :
  abs (book_ e) B -> ctx_wf ctx ->
  exists ctx' e', cancel_order t0 t1 t2 id client account symbol ctx e =
      Ret (bool_decide (id ∈ map r_id (book_orders B)), ctx', e') /\
    abs (book_ e') (spec_cancel id B) /\
    ((id ∉ map r_id (book_orders B) /\ ctx' = ctx /\ exec_seq_ e' = exec_seq_ e) \/
     exists r, r ∈ book_orders B /\ r_id r = id /\ exec_seq_ e' = next64 (exec_seq_ e) /\
       ctx_reports ctx' = take MAX_REPORTS (ctx_reports ctx ++
         [MkReport (exec_seq_ e) id (r_price r) 0 0 t1 client account symbol RR_None ExecCancel])).
Proof.
  intros R W. destruct (cancel_refine t0 t1 t2 id client account symbol ctx e B R W)
    as (c & e' & E & R' & [H|(r & H1 & H2 & H3 & Lg)]); exists c, e'; split_and!; [done|done|by left|done|done|right].
  exists r. split_and!; [done..|apply Lg].
Qed.
Lemma cancel_order_refines_witness : exists e, exists ctx' e',
  cancel_order 0 0 0 1 4 5 7 ExecutionContext_init e =
    Ret (bool_decide (1 ∈ map r_id (book_orders one_ask)), ctx', e') /\
  abs (book_ e') (spec_cancel 1 one_ask) /\
  ((1 ∉ map r_id (book_orders one_ask) /\ ctx' = ExecutionContext_init /\ exec_seq_ e' = exec_seq_ e) \/
     exists r, r ∈ book_orders one_ask /\ r_id r = 1 /\ exec_seq_ e' = next64 (exec_seq_ e) /\
       ctx_reports ctx' = take MAX_REPORTS (ctx_reports ExecutionContext_init ++
         [MkReport (exec_seq_ e) 1 (r_price r) 0 0 0 4 5 7 RR_None ExecCancel])).
Proof.
  destruct one_ask_engine as (res & c & e & _ & R & _). exists e.
  exact (cancel_order_refines 0 0 0 1 4 5 7 ExecutionContext_init e one_ask R ctx_init_wf).
Defined.

(** The reports of a submission carry consecutive execution ids, from the
    engine's counter on, as long as the counter does not wrap. *)
Lemma submit_exec_ids (t0 t1 t2 : Z) (o : Order) (ctx : ExecutionContext) (e : MatchingEngine) (B : Book) :
  abs (book_ e) B -> ctx_wf ctx -> 0 <= qty o < 2 ^ 64 -> rest_ok o B -> ctx_reports ctx = [] ->
  0 <= exec_seq_ e -> exec_seq_ e + 2 * Z.of_nat (length (spec_fills o B)) + 1 < 2 ^ 64 ->
  exists res ctx' e', submit_order t0 t1 t2 o ctx e = Ret (res, ctx', e') /\
    map rp_exec_id (ctx_reports ctx') = seqZ (exec_seq_ e) (Z.of_nat (length (ctx_reports ctx'))).
Proof.
  intros R W Q OK E0 P H. destruct (submit_refine t0 t1 t2 o ctx e B R W Q OK) as (res & c & e' & E & _ & _ & _ & _ & Lg).
  exists res, c, e'. split; [done|]. rewrite (lg_reports _ _ _ _ Lg), E0. simpl app.
  pose proof (spec_reports_ids o t1 (exec_seq_ e) B P H) as I. set (rs := spec_reports _ _ _ _) in *.
  rewrite <-firstn_map. fold (@take Z). rewrite I, length_take. apply seqZ_take.
Qed.
Lemma submit_exec_ids_witness : exists res ctx' e',
  submit_order 0 0 0 ask_10 ExecutionContext_init (MatchingEngine_init false) = Ret (res, ctx', e') /\
  map rp_exec_id (ctx_reports ctx') = seqZ 1 (Z.of_nat (length (ctx_reports ctx'))).
Proof.
  exact (submit_exec_ids 0 0 0 ask_10 ExecutionContext_init (MatchingEngine_init false) empty_book
    (init_abs false) ctx_init_wf ltac:(done) ask_10_rest_ok eq_refl ltac:(done) ltac:(done)).
Defined.
