(* ===== verification/RiskState.v ===== *)
(** * State of the pre-trade risk engine ([src/risk/include/risk])

    Limits, contexts, results, traces and statistics, and the per-account and
    per-position records with their managers.  The managers' arrays are indexed by
    the identifier modulo the array size. *)
From S2P Require Import Prelude Domain.
From stdpp Require Export strings.
From Stdlib Require Import SpecFloat.
Global Open Scope Z_scope.


(** ** Limits, contexts and results *)
Inductive SelfTradePreventionMode := CancelNew | CancelResting | CancelBoth | AllowSelfTrade.
Record RiskLimits := MkLimits {
  max_credit_limit : Z; max_daily_exposure : Z; max_order_qty : Z; max_order_price : Z;
  price_band_tolerance : spec_float; stp_mode : SelfTradePreventionMode;
  max_orders_per_sec : Z; kill_switch_active : bool }.

Record RiskContext := MkRiskContext {
  rc_order_id : Z; rc_price : Z; rc_qty : Z; rc_timestamp : Z; rc_reference_price : Z;
  rc_client_order_id : Z; rc_symbol_id : Z; rc_client_id : Z; rc_account_id : Z;
  rc_side : Side; rc_type : OrderType }.

Inductive RiskDecision := RD_Accept | RD_Reject | RD_Hold | RD_Auction | RD_Halt.
#[export] Instance RiskDecision_eq_dec : EqDecision RiskDecision.
Proof. solve_decision. Defined.
Record RiskResult := MkRiskResult {
  rr_reason : RejectReason; rr_decision : RiskDecision; rr_timestamp : Z;
  rr_reserve_capital : Z; rr_pipeline_latency_ns : Z }.

(** ** The audit trace: at most [MAX_STAGES] stages, names cut to 23 characters *)
Definition MAX_STAGES : nat := 16.
Record RiskTraceStage := MkStage { stage_name : string; latency_ns : Z; decision : RiskDecision }.
Definition RiskTrace := list RiskTraceStage.
Definition add_stage (name : string) (latency : Z) (dec : RiskDecision) (t : RiskTrace) : RiskTrace :=
  if decide (MAX_STAGES <= length t)%nat then t else t ++ [MkStage (String.substring 0 23 name) latency dec].

(** ** Statistics *)
Record RiskStatistics := MkRiskStats {
  accepted_count : Z; rejected_count : Z; credit_rejects : Z; position_rejects : Z; price_band_rejects : Z;
  fat_finger_rejects : Z; stp_rejects : Z; kill_switch_rejects : Z; duplicate_rejects : Z;
  rate_limit_rejects : Z; circuit_breaker_rejects : Z; risk_total_latency_ns : Z; risk_max_latency_ns : Z }.
Definition RiskStatistics_init : RiskStatistics := MkRiskStats 0 0 0 0 0 0 0 0 0 0 0 0 0.
Definition risk_record_latency (ns : Z) (s : RiskStatistics) : RiskStatistics :=
  let '(MkRiskStats a r c p b f t k d l m tl ml) := s in
  MkRiskStats a r c p b f t k d l m (u64 (tl + ns)) (if ns >? ml then ns else ml).

(** ** Accounts ([CreditManager]) *)
Record AccountState := MkAccount {
  available_buying_power : Z; used_buying_power : Z; reserved_capital : Z; daily_exposure : Z;
  worst_case_loss : Z; open_margin_requirement : Z; collateral_value : Z; acc_account_id : Z }.
Definition AccountState_init : AccountState := MkAccount 0 0 0 0 0 0 0 0.
Definition MAX_CREDIT_ACCOUNTS : Z := 1024.
Abbreviation CreditManager := (list AccountState).

Definition account_reset (i : Z) : AccountState := MkAccount 1000000000000000 0 0 0 0 0 0 i.
Definition credit_reset : CreditManager := map account_reset (seqZ 0 MAX_CREDIT_ACCOUNTS).

(** Slot zero adopts the first identifier that maps to it. *)
Definition adopt_account (id : Z) (a : AccountState) : AccountState :=
  if acc_account_id a =? 0
  then MkAccount (available_buying_power a) (used_buying_power a) (reserved_capital a) (daily_exposure a)
         (worst_case_loss a) (open_margin_requirement a) (collateral_value a) id
  else a.
Definition account_slot (id : Z) : Z := id mod MAX_CREDIT_ACCOUNTS.
Definition get_account_state (id : Z) (m : CreditManager) : outcome (AccountState * CreditManager) :=
  a ← arr_get m (account_slot id);
  let a := adopt_account id a in
  m ← arr_set m (account_slot id) a;
  Ret (a, m).

Definition set_balances (avail used reserved exposure : Z) (a : AccountState) : AccountState :=
  MkAccount avail used reserved exposure (worst_case_loss a) (open_margin_requirement a)
    (collateral_value a) (acc_account_id a).
Definition account_accept (cost : Z) (a : AccountState) : AccountState :=
  if available_buying_power a >=? cost
  then set_balances (u64 (available_buying_power a - cost)) (used_buying_power a)
         (u64 (reserved_capital a + cost)) (daily_exposure a) a
  else a.
Definition account_fill (cost : Z) (a : AccountState) : AccountState :=
  let '(avail, reserved) :=
    if reserved_capital a >=? cost then (available_buying_power a, u64 (reserved_capital a - cost))
    else
      let remainder := u64 (cost - reserved_capital a) in
      (if available_buying_power a >=? remainder then u64 (available_buying_power a - remainder)
       else available_buying_power a, 0) in
  set_balances avail (u64 (used_buying_power a + cost)) reserved (u64 (daily_exposure a + cost)) a.
Definition account_cancel (cost : Z) (a : AccountState) : AccountState :=
  if reserved_capital a >=? cost
  then set_balances (u64 (available_buying_power a + cost)) (used_buying_power a)
         (u64 (reserved_capital a - cost)) (daily_exposure a) a
  else a.

Definition credit_update (f : AccountState -> AccountState) (id : Z) (m : CreditManager) : outcome CreditManager :=
  '(a, m) ← get_account_state id m; arr_set m (account_slot id) (f a).
Definition update_on_accept (id cost : Z) (m : CreditManager) : outcome CreditManager :=
  credit_update (account_accept cost) id m.
Definition credit_update_on_fill (id cost : Z) (m : CreditManager) : outcome CreditManager :=
  credit_update (account_fill cost) id m.
Definition credit_update_on_cancel (id cost : Z) (m : CreditManager) : outcome CreditManager :=
  credit_update (account_cancel cost) id m.

(** The price is signed, the quantity unsigned: the product is unsigned and wraps. *)
Definition order_cost (ticks units : Z) : Z := u64 (u64 ticks * units) / 1000000.

Definition credit_validate (ctx : RiskContext) (limits : RiskLimits) (account : AccountState) : bool :=
  let cost := order_cost (rc_price ctx) (rc_qty ctx) in
  if cost >? available_buying_power account then false
  else if (max_daily_exposure limits >? 0) && (u64 (daily_exposure account + cost) >? max_daily_exposure limits)
  then false else true.

(** ** Positions ([MarginManager]) *)
Record PositionState := MkPosition {
  net_qty : Z; long_qty : Z; short_qty : Z; gross_qty : Z; max_long_limit : Z; max_short_limit : Z;
  pos_symbol_id : Z; pos_account_id : Z; last_update_ts : Z }.
Definition MAX_MARGIN_ACCOUNTS : Z := 128.
Definition MAX_MARGIN_SYMBOLS : Z := 32.
Abbreviation MarginManager := (list (list PositionState)).

Definition position_reset (a s : Z) : PositionState := MkPosition 0 0 0 0 1000000000 1000000000 s a 0.
Definition margin_reset : MarginManager :=
  map (fun a => map (position_reset a) (seqZ 0 MAX_MARGIN_SYMBOLS)) (seqZ 0 MAX_MARGIN_ACCOUNTS).

Definition adopt_position (account symbol : Z) (p : PositionState) : PositionState :=
  if (pos_account_id p =? 0) && (pos_symbol_id p =? 0)
  then MkPosition (net_qty p) (long_qty p) (short_qty p) (gross_qty p) (max_long_limit p) (max_short_limit p)
         symbol account (last_update_ts p)
  else p.
Definition position_update (f : PositionState -> outcome PositionState) (account symbol : Z) (m : MarginManager)
    : outcome (PositionState * MarginManager) :=
  row ← arr_get m (account mod MAX_MARGIN_ACCOUNTS);
  p ← arr_get row (symbol mod MAX_MARGIN_SYMBOLS);
  p ← f (adopt_position account symbol p);
  row ← arr_set row (symbol mod MAX_MARGIN_SYMBOLS) p;
  m ← arr_set m (account mod MAX_MARGIN_ACCOUNTS) row;
  Ret (p, m).
Definition get_position_state (account symbol : Z) (m : MarginManager) : outcome (PositionState * MarginManager) :=
  position_update Ret account symbol m.

Definition position_fill (side : Side) (qty : Z) (p : PositionState) : outcome PositionState :=
  let long := if decide (side = Buy) then u64 (long_qty p + qty) else long_qty p in
  let short := if decide (side = Buy) then short_qty p else u64 (short_qty p + qty) in
  net ← signed64 (i64 long - i64 short);
  Ret (MkPosition net long short (u64 (long + short)) (max_long_limit p) (max_short_limit p)
         (pos_symbol_id p) (pos_account_id p) (last_update_ts p)).
Definition margin_update_on_fill (account symbol : Z) (side : Side) (qty : Z) (m : MarginManager)
    : outcome MarginManager :=
  '(_, m) ← position_update (position_fill side qty) account symbol m; Ret m.

(** Signed arithmetic on the net position: overflow is undefined. *)
Definition margin_validate (ctx : RiskContext) (position : PositionState) : outcome bool :=
  let trade_qty := i64 (rc_qty ctx) in
  next_net ← signed64 (if decide (rc_side ctx = Buy) then net_qty position + trade_qty else net_qty position - trade_qty);
  if (next_net >? 0) && (max_long_limit position >? 0) && (next_net >? max_long_limit position) then Ret false
  else if next_net <? 0 then
    if max_short_limit position >? 0 then
      neg ← signed64 (- next_net);
      Ret (negb (neg >? max_short_limit position))
    else Ret true
  else Ret true.
