(* ===== verification/RiskEngine.v ===== *)
(** * [RiskEngine] and its pipeline of policies
    ([src/risk/include/risk/risk_engine.hpp], [src/risk/src/risk_engine.cpp] and the validators)

    A policy is a name, a reject reason and a check that may update the engine's
    state.  The pipeline runs the policies in order and stops at the first that
    fails.  The kill switch and the circuit breaker are process-wide flags; an
    engine's state has a copy of them here, and [Halt] keeps the copies of a
    process equal. *)
From S2P Require Import Prelude Domain RiskState.
From Stdlib Require Import SpecFloat.

(** ** Process-wide flags *)
Record KillSwitch := MkKill { global_halt_ : bool; blocked_accounts_ : list bool; blocked_symbols_ : list bool }.
Definition KILL_SLOTS : Z := 1024.
Definition kill_reset : KillSwitch := MkKill false (replicate 1024 false) (replicate 1024 false).
Definition set_global_halt (v : bool) (k : KillSwitch) : KillSwitch :=
  MkKill v (blocked_accounts_ k) (blocked_symbols_ k).
Definition set_account_halt (id : Z) (v : bool) (k : KillSwitch) : outcome KillSwitch :=
  l ← arr_set (blocked_accounts_ k) (id mod KILL_SLOTS) v; Ret (MkKill (global_halt_ k) l (blocked_symbols_ k)).
Definition set_symbol_halt (id : Z) (v : bool) (k : KillSwitch) : outcome KillSwitch :=
  l ← arr_set (blocked_symbols_ k) (id mod KILL_SLOTS) v; Ret (MkKill (global_halt_ k) (blocked_accounts_ k) l).
Definition kill_validate (ctx : RiskContext) (limits : RiskLimits) (k : KillSwitch) : outcome bool :=
  if kill_switch_active limits || global_halt_ k then Ret false
  else
    acc ← arr_get (blocked_accounts_ k) (rc_account_id ctx mod KILL_SLOTS);
    if (acc : bool) then Ret false
    else
      sym ← arr_get (blocked_symbols_ k) (rc_symbol_id ctx mod KILL_SLOTS);
      Ret (negb sym).

Inductive MarketStatus := MS_Trading | MS_VolatilityHalt | MS_Halt | MS_Auction | MS_Resume.
#[export] Instance MarketStatus_eq_dec : EqDecision MarketStatus.
Proof. solve_decision. Defined.
Definition breaker_validate (status : MarketStatus) : bool :=
  negb (bool_decide (status = MS_Halt) || bool_decide (status = MS_VolatilityHalt)).

(** ** Duplicate detection: one remembered id per slot *)
Definition MAP_SIZE : Z := 4096.
Abbreviation DuplicateValidator := (list Z).
Definition duplicates_reset : DuplicateValidator := replicate 4096 0.
Definition check_duplicate (id : Z) (seen : DuplicateValidator) : outcome (bool * DuplicateValidator) :=
  if id =? 0 then Ret (true, seen)
  else
    s ← arr_get seen (id mod MAP_SIZE);
    if s =? id then Ret (false, seen)
    else
      seen ← arr_set seen (id mod MAP_SIZE) id;
      Ret (true, seen).

(** ** Rate limiting: a ring of the last timestamps per account *)
Definition WINDOW_SIZE : Z := 100.
Definition RATE_ACCOUNTS : Z := 1024.
Record Tracker := MkTracker { timestamps : list Z; index : Z; count : Z }.
Definition tracker_reset : Tracker := MkTracker (replicate 100 0) 0 0.
Abbreviation RateLimitValidator := (list Tracker).
Definition rate_reset : RateLimitValidator := replicate 1024 tracker_reset.

Definition tracker_check (now limit : Z) (tr : Tracker) : outcome (bool * Tracker) :=
  if count tr <? limit then
    ts ← arr_set (timestamps tr) (index tr) now;
    Ret (true, MkTracker ts ((index tr + 1) mod WINDOW_SIZE) (u64 (count tr + 1)))
  else
    let oldest_index := u64 (index tr + WINDOW_SIZE - limit) mod WINDOW_SIZE in
    oldest ← arr_get (timestamps tr) oldest_index;
    if u64 (now - oldest) <? 1000000000 then Ret (false, tr)
    else
      ts ← arr_set (timestamps tr) (index tr) now;
      Ret (true, MkTracker ts ((index tr + 1) mod WINDOW_SIZE) (count tr)).
Definition check_rate (account now limit : Z) (v : RateLimitValidator) : outcome (bool * RateLimitValidator) :=
  if limit =? 0 then Ret (true, v)
  else
    tr ← arr_get v (account mod RATE_ACCOUNTS);
    '(ok, tr) ← tracker_check now limit tr;
    v ← arr_set v (account mod RATE_ACCOUNTS) tr;
    Ret (ok, v).

(** ** Stateless validators *)
Definition fat_finger_validate (ctx : RiskContext) (limits : RiskLimits) : bool :=
  if (max_order_qty limits >? 0) && (rc_qty ctx >? max_order_qty limits) then false
  else if (max_order_price limits >? 0) && (rc_price ctx >? max_order_price limits) then false
  else true.

Definition one : spec_float := Double.of_int 1.
Definition price_band_validate (ctx : RiskContext) (limits : RiskLimits) : bool :=
  if rc_reference_price ctx =? 0 then true
  else
    let ref := Price.to_double (rc_reference_price ctx) in
    let tolerance := price_band_tolerance limits in
    let upper_limit := Double.mul ref (Double.add one tolerance) in
    let lower_limit := Double.mul ref (Double.sub one tolerance) in
    let order_price := Price.to_double (rc_price ctx) in
    negb (Double.gtb order_price upper_limit || Double.ltb order_price lower_limit).

Definition stp_validate (ctx : RiskContext) : bool := true.

(** ** The engine *)
Record RiskEngine := MkRiskEngine {
  re_limits : RiskLimits; re_stats : RiskStatistics; re_kill : KillSwitch; re_status : MarketStatus;
  re_credit : CreditManager; re_margin : MarginManager;
  re_duplicates : DuplicateValidator; re_rates : RateLimitValidator }.

Definition set_credit (c : CreditManager) (e : RiskEngine) : RiskEngine :=
  MkRiskEngine (re_limits e) (re_stats e) (re_kill e) (re_status e) c (re_margin e) (re_duplicates e) (re_rates e).
Definition set_margin (m : MarginManager) (e : RiskEngine) : RiskEngine :=
  MkRiskEngine (re_limits e) (re_stats e) (re_kill e) (re_status e) (re_credit e) m (re_duplicates e) (re_rates e).
Definition set_duplicates (d : DuplicateValidator) (e : RiskEngine) : RiskEngine :=
  MkRiskEngine (re_limits e) (re_stats e) (re_kill e) (re_status e) (re_credit e) (re_margin e) d (re_rates e).
Definition set_rates (r : RateLimitValidator) (e : RiskEngine) : RiskEngine :=
  MkRiskEngine (re_limits e) (re_stats e) (re_kill e) (re_status e) (re_credit e) (re_margin e) (re_duplicates e) r.
Definition set_stats (s : RiskStatistics) (e : RiskEngine) : RiskEngine :=
  MkRiskEngine (re_limits e) s (re_kill e) (re_status e) (re_credit e) (re_margin e) (re_duplicates e) (re_rates e).

Record Policy := MkPolicy {
  policy_name : string; policy_reason : RejectReason;
  policy_validate : RiskContext -> RiskEngine -> outcome (bool * RiskEngine) }.

Definition KillSwitchPolicy : Policy := MkPolicy "KillSwitch" RiskLimitExceeded
  (fun ctx e => ok ← kill_validate ctx (re_limits e) (re_kill e); Ret (ok, e)).
Definition CircuitBreakerPolicy : Policy := MkPolicy "CircuitBreaker" RiskLimitExceeded
  (fun ctx e => Ret (breaker_validate (re_status e), e)).
Definition DuplicatePolicy : Policy := MkPolicy "DuplicateCheck" DuplicateOrder
  (fun ctx e => '(ok, d) ← check_duplicate (rc_client_order_id ctx) (re_duplicates e); Ret (ok, set_duplicates d e)).
Definition RateLimitPolicy : Policy := MkPolicy "RateLimit" RiskLimitExceeded
  (fun ctx e => '(ok, r) ← check_rate (rc_account_id ctx) (rc_timestamp ctx) (max_orders_per_sec (re_limits e)) (re_rates e);
                Ret (ok, set_rates r e)).
Definition FatFingerPolicy : Policy := MkPolicy "FatFinger" InvalidQuantity
  (fun ctx e => Ret (fat_finger_validate ctx (re_limits e), e)).
Definition PriceBandPolicy : Policy := MkPolicy "PriceBand" InvalidPrice
  (fun ctx e => Ret (price_band_validate ctx (re_limits e), e)).
Definition STPPolicy : Policy := MkPolicy "SelfTrade" RiskLimitExceeded
  (fun ctx e => Ret (stp_validate ctx, e)).
Definition PositionPolicy : Policy := MkPolicy "PositionLimit" RiskLimitExceeded
  (fun ctx e => '(pos, m) ← get_position_state (rc_account_id ctx) (rc_symbol_id ctx) (re_margin e);
                ok ← margin_validate ctx pos; Ret (ok, set_margin m e)).
Definition CreditPolicy : Policy := MkPolicy "CreditLimit" RiskLimitExceeded
  (fun ctx e => '(acc, c) ← get_account_state (rc_account_id ctx) (re_credit e);
                Ret (credit_validate ctx (re_limits e) acc, set_credit c e)).

Definition PreTradeRiskPipeline : list Policy :=
  [KillSwitchPolicy; CircuitBreakerPolicy; DuplicatePolicy; RateLimitPolicy; FatFingerPolicy;
   PriceBandPolicy; STPPolicy; PositionPolicy; CreditPolicy].

(** The fold over the policies: the reason of the first that fails, if any. *)
Fixpoint run_policies (ps : list Policy) (ctx : RiskContext) (e : RiskEngine) (trace : RiskTrace)
    : outcome (option RejectReason * RiskEngine * RiskTrace) :=
  match ps with
  | [] => Ret (None, e, trace)
  | p :: ps =>
      '(ok, e) ← policy_validate p ctx e;
      let trace := add_stage (policy_name p) 0 (if (ok : bool) then RD_Accept else RD_Reject) trace in
      if ok then run_policies ps ctx e trace else Ret (Some (policy_reason p), e, trace)
  end.

Definition pipeline_validate (start finish : Z) (ctx : RiskContext) (e : RiskEngine) (trace : RiskTrace)
    : outcome (RiskResult * RiskEngine * RiskTrace) :=
  '(failed, e, trace) ← run_policies PreTradeRiskPipeline ctx e trace;
  Ret (MkRiskResult (default RR_None failed) (match failed with None => RD_Accept | Some _ => RD_Reject end)
         finish 0 (u64 (finish - start)), e, trace).

(** ** Statistics of a rejection: the counter is found from the trace *)
Definition bump (i : nat) (s : RiskStatistics) : RiskStatistics :=
  let '(MkRiskStats a r c p b f t k d l m tl ml) := s in
  match i with
  | 0%nat => MkRiskStats (u64 (a + 1)) r c p b f t k d l m tl ml
  | 1%nat => MkRiskStats a (u64 (r + 1)) c p b f t k d l m tl ml
  | 2%nat => MkRiskStats a r (u64 (c + 1)) p b f t k d l m tl ml
  | 3%nat => MkRiskStats a r c (u64 (p + 1)) b f t k d l m tl ml
  | 4%nat => MkRiskStats a r c p (u64 (b + 1)) f t k d l m tl ml
  | 5%nat => MkRiskStats a r c p b (u64 (f + 1)) t k d l m tl ml
  | 6%nat => MkRiskStats a r c p b f (u64 (t + 1)) k d l m tl ml
  | 7%nat => MkRiskStats a r c p b f t (u64 (k + 1)) d l m tl ml
  | 8%nat => MkRiskStats a r c p b f t k (u64 (d + 1)) l m tl ml
  | 9%nat => MkRiskStats a r c p b f t k d (u64 (l + 1)) m tl ml
  | _ => MkRiskStats a r c p b f t k d l (u64 (m + 1)) tl ml
  end.
Definition stage_counter (name : string) : option nat :=
  if decide (name = "KillSwitch"%string) then Some 7%nat
  else if decide (name = "CircuitBreaker"%string) then Some 10%nat
  else if decide (name = "RateLimit"%string) then Some 9%nat
  else if decide (name = "SelfTrade"%string) then Some 6%nat
  else if decide (name = "PositionLimit"%string) then Some 3%nat
  else if decide (name = "CreditLimit"%string) then Some 2%nat
  else None.
Definition reject_counter (reason : RejectReason) (trace : RiskTrace) : option nat :=
  match reason with
  | DuplicateOrder => Some 8%nat
  | InvalidPrice => Some 4%nat
  | InvalidQuantity => Some 5%nat
  | RiskLimitExceeded =>
      match list_find (fun s => decision s = RD_Reject) trace with
      | Some (_, s) => stage_counter (stage_name s)
      | None => None
      end
  | _ => None
  end.
Definition count_reject (reason : RejectReason) (trace : RiskTrace) (s : RiskStatistics) : RiskStatistics :=
  match reject_counter reason trace with Some i => bump i (bump 1 s) | None => bump 1 s end.

(** [t0]: the first reading of the clock; [t1], [t2]: those of the pipeline; [t3]: the last one. *)
Definition validate (t0 t1 t2 t3 : Z) (ctx : RiskContext) (e : RiskEngine) (trace : RiskTrace)
    : outcome ((RiskResult + RejectReason) * RiskEngine * RiskTrace) :=
  '(res, e, trace) ← pipeline_validate t1 t2 ctx e trace;
  if decide (rr_decision res = RD_Accept) then
    let cost := order_cost (rc_price ctx) (rc_qty ctx) in
    credit ← update_on_accept (rc_account_id ctx) cost (re_credit e);
    let e := set_credit credit e in
    Ret (inl res, set_stats (risk_record_latency (u64 (t3 - t0)) (bump 0 (re_stats e))) e, trace)
  else
    Ret (inr (rr_reason res),
         set_stats (risk_record_latency (u64 (t3 - t0)) (count_reject (rr_reason res) trace (re_stats e))) e, trace).

Definition update_on_fill (account symbol : Z) (side : Side) (qty price_ticks : Z) (e : RiskEngine) : outcome RiskEngine :=
  m ← margin_update_on_fill account symbol side qty (re_margin e);
  c ← credit_update_on_fill account (u64 (qty * price_ticks)) (re_credit e);
  Ret (set_credit c (set_margin m e)).
Definition update_on_cancel (account cost : Z) (e : RiskEngine) : outcome RiskEngine :=
  c ← credit_update_on_cancel account cost (re_credit e); Ret (set_credit c e).

Definition default_limits : RiskLimits :=
  MkLimits 1000000000000000 2000000000000000 10000000000 500000000000 Double.tenth CancelNew 100 false.
(** [reset] sets every field of the engine and of the process-wide flags. *)
Definition risk_reset : RiskEngine :=
  MkRiskEngine default_limits RiskStatistics_init kill_reset MS_Trading credit_reset margin_reset duplicates_reset rate_reset.
