(* ===== verification/RiskRefine.v ===== *)
(** * Invariants of the risk engine *)
From S2P Require Import Prelude Domain RiskState RiskEngine.

(** ** Policies and the fold over them *)
Inductive accepts (ctx : RiskContext) : list Policy -> RiskEngine -> RiskEngine -> Prop :=
| accepts_nil e : accepts ctx [] e e
| accepts_cons p ps e e1 e2 :
    policy_validate p ctx e = Ret (true, e1) -> accepts ctx ps e1 e2 -> accepts ctx (p :: ps) e e2.

Lemma run_policies_accept ps ctx : forall e t e' t',
  run_policies ps ctx e t = Ret (None, e', t') -> accepts ctx ps e e'.
Proof.
  induction ps as [|p ps IH]; intros e t e' t'; simpl; [intros [= <- <-]; constructor|].
  destruct (policy_validate p ctx e) as [[ok e1]| | | |] eqn:E; try done. simpl. destruct ok; [|done].
  intros H. econstructor; eauto.
Qed.
Lemma run_policies_reject ps ctx : forall e t r e' t',
  run_policies ps ctx e t = Ret (Some r, e', t') ->
  exists ps1 p ps2 e1, ps = ps1 ++ p :: ps2 /\ accepts ctx ps1 e e1 /\
    policy_validate p ctx e1 = Ret (false, e') /\ r = policy_reason p.
Proof.
  induction ps as [|p ps IH]; intros e t r e' t'; simpl; [done|].
  destruct (policy_validate p ctx e) as [[ok e1]| | | |] eqn:E; try done. simpl. destruct ok.
  - intros H. destruct (IH _ _ _ _ _ H) as (ps1 & q & ps2 & e2 & -> & A & V & R).
    exists (p :: ps1), q, ps2, e2. split_and!; try done. by econstructor.
  - intros [= <- <- <-]. exists [], p, ps, e. split_and!; try done. constructor.
Qed.

(** ** Well-formed engines *)
Definition account_ok (a : AccountState) : Prop :=
  0 <= available_buying_power a < 2 ^ 64 /\ 0 <= reserved_capital a < 2 ^ 64 /\
  0 <= used_buying_power a < 2 ^ 64 /\ 0 <= daily_exposure a < 2 ^ 64.
Definition position_ok (p : PositionState) : Prop :=
  - 2 ^ 62 <= net_qty p <= 2 ^ 62 /\ 0 <= max_long_limit p < 2 ^ 64 /\ 0 <= max_short_limit p < 2 ^ 64.
Definition tracker_ok (t : Tracker) : Prop :=
  length (timestamps t) = 100%nat /\ 0 <= index t < 100 /\ 0 <= count t < 2 ^ 64.
Definition credit_ok (m : CreditManager) : Prop := length m = 1024%nat /\ Forall account_ok m.
Definition margin_ok (m : MarginManager) : Prop :=
  length m = 128%nat /\ Forall (fun row => length row = 32%nat /\ Forall position_ok row) m.
Definition rates_ok (r : RateLimitValidator) : Prop := length r = 1024%nat /\ Forall tracker_ok r.
Definition kill_ok (k : KillSwitch) : Prop :=
  length (blocked_accounts_ k) = 1024%nat /\ length (blocked_symbols_ k) = 1024%nat.

Record risk_ok (e : RiskEngine) : Prop := {
  ok_kill : kill_ok (re_kill e); ok_credit : credit_ok (re_credit e); ok_margin : margin_ok (re_margin e);
  ok_dups : length (re_duplicates e) = 4096%nat; ok_rates : rates_ok (re_rates e) }.

Lemma risk_reset_ok : risk_ok risk_reset.
Proof.
  split; simpl.
  - done.
  - split; [done|]. unfold credit_reset. apply Forall_fmap, Forall_forall. intros i _. done.
  - split; [done|]. unfold margin_reset. apply Forall_fmap, Forall_forall. intros a _. split; [done|].
    apply Forall_fmap, Forall_forall. intros s _. done.
  - done.
  - split; [done|]. unfold rate_reset. apply Forall_replicate. done.
Qed.

Lemma mod_index z n : 0 < n -> 0 <= z mod n < n.
Proof. apply Z.mod_pos_bound. Qed.

(** ** Accounts *)
Lemma adopt_account_ok id a : account_ok a -> account_ok (adopt_account id a).
Proof. unfold adopt_account. by destruct (_ =? 0). Qed.
Lemma adopt_account_idem id a : adopt_account id (adopt_account id a) = adopt_account id a.
Proof. unfold adopt_account. destruct (acc_account_id a =? 0) eqn:E; [|by rewrite E]. simpl. by destruct (id =? 0). Qed.

Lemma get_account_Ret id m :
  credit_ok m -> exists a, m !! Z.to_nat (account_slot id) = Some a /\ account_ok a /\
    get_account_state id m = Ret (adopt_account id a, <[Z.to_nat (account_slot id) := adopt_account id a]> m).
Proof.
  intros [L F]. pose proof (mod_index id MAX_CREDIT_ACCOUNTS ltac:(done)) as B.
  destruct (arr_get_live m (account_slot id)) as (a & E & G).
  { rewrite L. exact B. }
  exists a. split; [done|]. split; [by eapply Forall_lookup_1|].
  unfold get_account_state. rewrite G, bind_Ret, arr_set_Ret by (rewrite L; exact B). done.
Qed.

Lemma credit_insert_ok m i a : credit_ok m -> account_ok a -> credit_ok (<[i := a]> m).
Proof. intros [L F] A. split; [by rewrite length_insert|]. by apply Forall_insert. Qed.

Lemma credit_update_Ret f id m :
  credit_ok m -> exists a, m !! Z.to_nat (account_slot id) = Some a /\ account_ok a /\
    credit_update f id m = Ret (<[Z.to_nat (account_slot id) := f (adopt_account id a)]> m).
Proof.
  intros W. destruct (get_account_Ret id m W) as (a & E & A & G). exists a. split; [done|]. split; [done|].
  unfold credit_update. rewrite G, bind_Ret.
  rewrite (arr_set_Ret (<[_ := _]> m)) by (rewrite length_insert; destruct W as [-> _]; by apply mod_index).
  by rewrite list_insert_insert_eq.
Qed.

Lemma account_accept_ok cost a : account_ok a -> 0 <= cost -> account_ok (account_accept cost a).
Proof.
  intros (A & B & C & D) P. unfold account_accept.
  destruct (Z.geb_spec (available_buying_power a) cost); [|done].
  split; simpl; rewrite ?(u64_small (available_buying_power a - cost)) by lia; [lia|].
  split; [apply u64_bound|done].
Qed.
Lemma account_fill_ok cost a : account_ok a -> 0 <= cost -> account_ok (account_fill cost a).
Proof.
  intros (A & B & C & D) P. unfold account_fill, account_ok.
  destruct (reserved_capital a >=? cost); simpl; [|destruct (_ >=? _)]; simpl; split_and!; try lia; apply u64_bound.
Qed.
Lemma account_cancel_ok cost a : account_ok a -> 0 <= cost -> account_ok (account_cancel cost a).
Proof.
  intros (A & B & C & D) P. unfold account_cancel.
  destruct (_ >=? _); [|done]. unfold account_ok. simpl. split_and!; try lia; apply u64_bound.
Qed.
Lemma order_cost_nonneg p q : 0 <= order_cost p q.
Proof. unfold order_cost. apply Z.div_pos; [apply u64_bound|lia]. Qed.

(** ** Positions *)
Lemma adopt_position_ok a s p : position_ok p -> position_ok (adopt_position a s p).
Proof. unfold adopt_position. by destruct (_ && _). Qed.
Lemma get_position_Ret account symbol m :
  margin_ok m -> exists p m', get_position_state account symbol m = Ret (p, m') /\ position_ok p /\ margin_ok m'.
Proof.
  intros [L F]. pose proof (mod_index account MAX_MARGIN_ACCOUNTS ltac:(done)) as Ba.
  pose proof (mod_index symbol MAX_MARGIN_SYMBOLS ltac:(done)) as Bs.
  unfold MAX_MARGIN_ACCOUNTS, MAX_MARGIN_SYMBOLS in *.
  destruct (arr_get_live m (account mod 128)) as (row & E & G); [rewrite L; lia|].
  pose proof (Forall_lookup_1 _ _ _ _ F E) as [Lr Fr].
  destruct (arr_get_live row (symbol mod 32)) as (p & E2 & G2); [rewrite Lr; lia|].
  pose proof (Forall_lookup_1 _ _ _ _ Fr E2) as Hp.
  unfold get_position_state, position_update, MAX_MARGIN_ACCOUNTS, MAX_MARGIN_SYMBOLS.
  rewrite G, bind_Ret, G2, !bind_Ret, arr_set_Ret, bind_Ret, arr_set_Ret, bind_Ret by lia.
  eexists _, _. split; [done|]. split; [by apply adopt_position_ok|]. split; [by rewrite length_insert|].
  apply Forall_insert; [done|]. split; [by rewrite length_insert|].
  apply Forall_insert; [done|]. by apply adopt_position_ok.
Qed.

Lemma margin_validate_spec ctx p :
  position_ok p -> 0 <= rc_qty ctx < 2 ^ 62 ->
  let next := if decide (rc_side ctx = Buy) then net_qty p + rc_qty ctx else net_qty p - rc_qty ctx in
  exists b, margin_validate ctx p = Ret b /\
    (b = true <-> (max_long_limit p > 0 -> next <= max_long_limit p) /\
                  (max_short_limit p > 0 -> - max_short_limit p <= next)).
Proof.
  intros (N & ML & MS) Q next. unfold margin_validate.
  rewrite (i64_small (rc_qty ctx)) by lia. fold next.
  assert (- 2 ^ 63 < next < 2 ^ 63) as NB by (unfold next; destruct (decide _); lia).
  clearbody next. rewrite signed64_Ret, bind_Ret by lia.
  destruct (Z.gtb_spec next 0), (Z.gtb_spec (max_long_limit p) 0), (Z.gtb_spec next (max_long_limit p)); simpl;
    try (eexists; split; [done|]; split; [done|intros [? ?]; lia]).
  all: destruct (Z.ltb_spec next 0); [|eexists; split; [done|]; split; [intros _; split; intros ?; lia|done]].
  all: destruct (Z.gtb_spec (max_short_limit p) 0); [|eexists; split; [done|]; split; [intros _; split; intros ?; lia|done]].
  all: rewrite signed64_Ret, bind_Ret by lia; eexists; (split; [done|]).
  all: rewrite negb_true_iff, Z.gtb_ltb, Z.ltb_ge; split; [intros ?; split; intros ?; lia|intros [? ?]; lia].
Qed.

(** ** Rate limiting

    [acc] lists the accepted times, newest first. *)
Record tracker_rep (limit : Z) (acc : list Z) (tr : Tracker) : Prop := {
  tk_ok : length (timestamps tr) = 100%nat; tk_index : 0 <= index tr < 100;
  tk_count : count tr = Z.min (Z.of_nat (length acc)) limit;
  tk_ring : forall k t, (k < 100)%nat -> acc !! k = Some t ->
    timestamps tr !! Z.to_nat ((index tr - 1 - Z.of_nat k) mod 100) = Some t }.

Definition rate_accepts (limit now : Z) (acc : list Z) : bool :=
  match acc !! Z.to_nat (limit - 1) with
  | None => true
  | Some t => u64 (now - t) >=? 1000000000
  end.

Lemma tracker_reset_rep limit : 1 <= limit -> tracker_rep limit [] tracker_reset.
Proof. intros L. split; simpl; [done|lia|lia|]. intros k t _. by rewrite lookup_nil. Qed.

Lemma tracker_push limit acc tr now c :
  tracker_rep limit acc tr -> c = Z.min (Z.of_nat (length (now :: acc))) limit ->
  tracker_rep limit (now :: acc) (MkTracker (<[Z.to_nat (index tr) := now]> (timestamps tr)) ((index tr + 1) mod WINDOW_SIZE) c).
Proof.
  intros [L I C R] Ec. unfold WINDOW_SIZE. split; simpl.
  - by rewrite length_insert.
  - apply Z.mod_pos_bound. lia.
  - done.
  - intros k t K E. assert ((index tr + 1) mod 100 - 1 - Z.of_nat k = index tr - Z.of_nat k + 100 * - ((index tr + 1) / 100)) as ->
      by (rewrite (Z.mod_eq (index tr + 1) 100) by lia; lia).
    rewrite Z.mul_comm, Z.mod_add by lia. destruct k as [|k]; simpl in E.
    + injection E as ->. rewrite Z.sub_0_r, Z.mod_small by lia. apply list_lookup_insert_eq. rewrite L. lia.
    + rewrite list_lookup_insert_ne.
      * replace (index tr - Z.of_nat (S k)) with (index tr - 1 - Z.of_nat k) by lia. apply R; [lia|done].
      * pose proof (Z.mod_pos_bound (index tr - Z.of_nat (S k)) 100 ltac:(lia)).
        intros Eq. assert ((index tr - Z.of_nat (S k)) mod 100 = index tr) as M by lia.
        rewrite Z.mod_eq in M by lia. lia.
Qed.

Lemma tracker_check_spec limit acc tr now :
  tracker_rep limit acc tr -> 1 <= limit <= 100 ->
  exists tr', tracker_check now limit tr = Ret (rate_accepts limit now acc, tr') /\
    tracker_rep limit (if rate_accepts limit now acc then now :: acc else acc) tr'.
Proof.
  intros R Lm. pose proof R as [L I C Rg]. unfold tracker_check, rate_accepts.
  assert (arr_set (timestamps tr) (index tr) now = Ret (<[Z.to_nat (index tr) := now]> (timestamps tr))) as AS
    by (apply arr_set_Ret; rewrite L; lia).
  destruct (Z.ltb_spec (count tr) limit) as [Lt|Ge].
  - rewrite lookup_ge_None_2 by lia. rewrite AS, bind_Ret. eexists. split; [done|].
    apply tracker_push; [done|]. rewrite C. rewrite u64_small by lia. simpl. lia.
  - destruct (lookup_lt_is_Some_2 acc (Z.to_nat (limit - 1))) as [t Et]; [lia|]. rewrite Et.
    assert (arr_get (timestamps tr) (u64 (index tr + WINDOW_SIZE - limit) mod WINDOW_SIZE) = Ret t) as ->.
    { unfold WINDOW_SIZE. rewrite u64_small by lia. apply arr_get_Ret; [apply Z.mod_pos_bound; lia|].
      rewrite <-(Rg (Z.to_nat (limit - 1)) t) by (done || lia). f_equal. f_equal.
      replace (index tr + 100 - limit) with (index tr - 1 - Z.of_nat (Z.to_nat (limit - 1)) + 1 * 100) by lia.
      by rewrite Z.mod_add by lia. }
    rewrite bind_Ret. rewrite Z.geb_leb. destruct (Z.leb_spec 1000000000 (u64 (now - t))) as [H|H].
    + destruct (Z.ltb_spec (u64 (now - t)) 1000000000); [lia|]. rewrite AS, bind_Ret. eexists. split; [done|].
      apply tracker_push; [done|]. rewrite C. simpl. lia.
    + destruct (Z.ltb_spec (u64 (now - t)) 1000000000); [|lia]. eexists. by split.
Qed.

(** A sequence of checks of one account; the accepted times, newest first. *)
Fixpoint check_all (limit : Z) (times : list Z) (acc : list Z) (tr : Tracker) : outcome (list Z * Tracker) :=
  match times with
  | [] => Ret (acc, tr)
  | now :: times =>
      '(ok, tr) ← tracker_check now limit tr;
      check_all limit times (if (ok : bool) then now :: acc else acc) tr
  end.

Definition spaced (limit : Z) (acc : list Z) : Prop :=
  forall i a b, acc !! i = Some a -> acc !! (i + Z.to_nat limit)%nat = Some b -> a - b >= 1000000000.

Lemma check_all_spaced limit times : forall acc tr,
  1 <= limit <= 100 -> tracker_rep limit acc tr -> spaced limit acc ->
  Forall (fun t => 0 <= t < 2 ^ 64) times -> StronglySorted Z.le times ->
  (forall t now, t ∈ acc -> now ∈ times -> 0 <= t <= now) ->
  exists acc' tr', check_all limit times acc tr = Ret (acc', tr') /\ spaced limit acc'.
Proof.
  induction times as [|now times IH]; intros acc tr Lm R Sp F So Old; [by eexists _, _|].
  apply Forall_cons in F as [Bn F]. apply StronglySorted_inv in So as [So Fn]. rewrite Forall_forall in Fn.
  destruct (tracker_check_spec limit acc tr now R Lm) as (tr' & E & R'). simpl. rewrite E, bind_Ret.
  apply IH; [done|done| |done|done|].
  - destruct (rate_accepts limit now acc) eqn:A; [|done].
    intros [|i] a b Ha Hb; simpl in Ha, Hb; [|by eapply Sp].
    injection Ha as <-. unfold rate_accepts in A.
    replace (Z.to_nat limit) with (S (Z.to_nat (limit - 1))) in Hb by lia. simpl in Hb. rewrite Hb in A.
    assert (0 <= b <= now) as Bb by (apply Old; [by eapply list_elem_of_lookup_2|set_solver]).
    rewrite u64_small in A by lia. lia.
  - intros t x Ht Hx. assert (now <= x) by by apply Fn.
    destruct (rate_accepts limit now acc); [apply elem_of_cons in Ht as [->|Ht]|]; [lia| |].
    all: assert (0 <= t <= x) by (apply Old; [done|set_solver]); lia.
Qed.

(** ** Duplicate detection *)
Lemma check_duplicate_Ret id d :
  length d = 4096%nat ->
  check_duplicate id d =
    Ret (if id =? 0 then true else negb (d !!! Z.to_nat (id mod 4096) =? id),
         if id =? 0 then d else <[Z.to_nat (id mod 4096) := id]> d).
Proof.
  intros L. unfold check_duplicate, MAP_SIZE. destruct (id =? 0); [done|].
  pose proof (mod_index id 4096 ltac:(lia)) as B.
  destruct (arr_get_live d (id mod 4096)) as (s & E & G); [lia|]. rewrite G, bind_Ret.
  rewrite (list_lookup_total_correct _ _ _ E).
  destruct (Z.eqb_spec s id) as [->|N]; simpl.
  - by rewrite list_insert_id.
  - by rewrite arr_set_Ret, bind_Ret by lia.
Qed.

(** The state of the detector after a sequence of identifiers. *)
Fixpoint seen_after (ids : list Z) (d : DuplicateValidator) : outcome DuplicateValidator :=
  match ids with
  | [] => Ret d
  | id :: ids => '(_, d) ← check_duplicate id d; seen_after ids d
  end.
Definition in_slot (slot : Z) (ids : list Z) : list Z := filter (fun j => j <> 0 /\ j mod 4096 = slot) ids.
Definition remembers (d : DuplicateValidator) (ids : list Z) : Prop :=
  length d = 4096%nat /\
  forall slot, 0 <= slot < 4096 -> d !!! Z.to_nat slot = default 0 (last (in_slot slot ids)).

Lemma remembers_step d ids id :
  remembers d ids -> 0 <= id ->
  exists b d', check_duplicate id d = Ret (b, d') /\ remembers d' (ids ++ [id]) /\
    (0 < id -> b = negb (bool_decide (last (in_slot (id mod 4096) ids) = Some id))).
Proof.
  intros [L R] P. rewrite check_duplicate_Ret by done. eexists _, _. split; [done|].
  pose proof (mod_index id 4096 ltac:(lia)) as B. split.
  - split; [destruct (id =? 0); [done|by rewrite length_insert]|]. intros slot Bs. unfold in_slot.
    rewrite filter_app. destruct (Z.eqb_spec id 0) as [->|N].
    + rewrite (filter_cons_False _ 0) by naive_solver. rewrite filter_nil, app_nil_r. by apply R.
    + destruct (decide (id mod 4096 = slot)) as [<-|Ns].
      * rewrite filter_cons_True, filter_nil, last_snoc by done. apply list_lookup_total_insert_eq. lia.
      * rewrite filter_cons_False, filter_nil, app_nil_r by naive_solver.
        rewrite list_lookup_total_insert_ne by lia. by apply R.
  - intros Pos. destruct (Z.eqb_spec id 0) as [->|N]; [lia|]. rewrite R by done. f_equal.
    destruct (last (in_slot (id mod 4096) ids)) as [j|].
    + change (default 0 (Some j)) with j. destruct (Z.eqb_spec j id) as [->|Nj].
      * by rewrite bool_decide_eq_true_2.
      * rewrite bool_decide_eq_false_2; [done|congruence].
    + change (default 0 None) with 0. rewrite bool_decide_eq_false_2 by done.
      destruct (Z.eqb_spec 0 id); [lia|done].
Qed.

Lemma seen_after_remembers ids : forall d old,
  remembers d old -> Forall (fun j => 0 <= j) ids ->
  exists d', seen_after ids d = Ret d' /\ remembers d' (old ++ ids).
Proof.
  induction ids as [|id ids IH]; intros d old R F; simpl.
  - exists d. by rewrite app_nil_r.
  - apply Forall_cons in F as [P F]. destruct (remembers_step d old id R P) as (b & d' & -> & R' & _).
    rewrite bind_Ret. destruct (IH d' _ R' F) as (d2 & E & R2). exists d2.
    by rewrite <-app_assoc in R2.
Qed.

Lemma remembers_reset : remembers duplicates_reset [].
Proof.
  split; [done|]. intros slot B. simpl.
  rewrite (list_lookup_total_correct _ _ 0); [done|]. apply lookup_replicate_2. lia.
Qed.

(** ** Every policy returns and leaves balances, limits and flags alone *)
Definition balances (a : AccountState) : Z * Z * Z * Z :=
  (available_buying_power a, reserved_capital a, used_buying_power a, daily_exposure a).
Record same_money (e e' : RiskEngine) : Prop := {
  sm_limits : re_limits e' = re_limits e; sm_stats : re_stats e' = re_stats e; sm_kill : re_kill e' = re_kill e;
  sm_status : re_status e' = re_status e; sm_credit : map balances (re_credit e') = map balances (re_credit e) }.

Lemma same_money_refl e : same_money e e.
Proof. done. Qed.
Lemma same_money_trans e1 e2 e3 : same_money e1 e2 -> same_money e2 e3 -> same_money e1 e3.
Proof. intros [? ? ? ? ?] [? ? ? ? ?]. split; congruence. Qed.

Lemma tracker_check_total now limit tr :
  tracker_ok tr -> exists ok tr', tracker_check now limit tr = Ret (ok, tr') /\ tracker_ok tr'.
Proof.
  intros (L & I & C). unfold tracker_check, WINDOW_SIZE.
  assert (arr_set (timestamps tr) (index tr) now = Ret (<[Z.to_nat (index tr) := now]> (timestamps tr))) as AS
    by (apply arr_set_Ret; rewrite L; lia).
  pose proof (Z.mod_pos_bound (index tr + 1) 100 ltac:(lia)) as B1.
  destruct (count tr <? limit).
  - rewrite AS, bind_Ret. eexists _, _. split; [done|]. split; simpl; [by rewrite length_insert|].
    split; [done|apply u64_bound].
  - pose proof (Z.mod_pos_bound (u64 (index tr + 100 - limit)) 100 ltac:(lia)) as B2.
    destruct (arr_get_live (timestamps tr) (u64 (index tr + 100 - limit) mod 100)) as (t & _ & ->); [lia|].
    rewrite bind_Ret. destruct (_ <? _); [by eexists _, _|]. rewrite AS, bind_Ret.
    eexists _, _. split; [done|]. split; simpl; [by rewrite length_insert|done].
Qed.

Lemma check_rate_total account now limit r :
  rates_ok r -> exists ok r', check_rate account now limit r = Ret (ok, r') /\ rates_ok r'.
Proof.
  intros [L F]. unfold check_rate, RATE_ACCOUNTS. destruct (limit =? 0); [by eexists _, _|].
  pose proof (mod_index account 1024 ltac:(lia)) as B.
  destruct (arr_get_live r (account mod 1024)) as (tr & E & ->); [lia|]. rewrite bind_Ret.
  destruct (tracker_check_total now limit tr) as (ok & tr' & -> & T); [by eapply Forall_lookup_1|].
  rewrite bind_Ret, arr_set_Ret, bind_Ret by lia. eexists _, _. split; [done|].
  split; [by rewrite length_insert|by apply Forall_insert].
Qed.

Lemma balances_insert (m : CreditManager) i a a' :
  m !! i = Some a -> balances a' = balances a -> map balances (<[i := a']> m) = map balances m.
Proof. intros E B. rewrite (list_fmap_insert balances), B. apply list_insert_id. by rewrite list_lookup_fmap, E. Qed.
Lemma balances_adopt id a : balances (adopt_account id a) = balances a.
Proof. unfold adopt_account. by destruct (_ =? 0). Qed.

Lemma policy_total p ctx e :
  p ∈ PreTradeRiskPipeline -> risk_ok e -> 0 <= rc_qty ctx < 2 ^ 62 ->
  exists ok e', policy_validate p ctx e = Ret (ok, e') /\ risk_ok e' /\ same_money e e'.
Proof.
  intros Hp W Q. pose proof W as [[K1 K2] CO MO DO RO]. unfold PreTradeRiskPipeline in Hp.
  repeat (apply elem_of_cons in Hp as [->|Hp]); [| | | | | | | | |by apply elem_of_nil in Hp]; simpl.
  - unfold kill_validate, KILL_SLOTS. pose proof (mod_index (rc_account_id ctx) 1024 ltac:(lia)).
    pose proof (mod_index (rc_symbol_id ctx) 1024 ltac:(lia)).
    destruct (_ || _); [by eexists _, _|].
    destruct (arr_get_live (blocked_accounts_ (re_kill e)) (rc_account_id ctx mod 1024)) as (x & _ & ->); [lia|].
    rewrite bind_Ret. destruct x; [by eexists _, _|].
    destruct (arr_get_live (blocked_symbols_ (re_kill e)) (rc_symbol_id ctx mod 1024)) as (y & _ & ->); [lia|].
    by eexists _, _.
  - by eexists _, _.
  - rewrite check_duplicate_Ret by done. eexists _, _. split; [done|]. split; [|done]. split; try done.
    simpl. destruct (_ =? 0); [done|]. by rewrite length_insert.
  - destruct (check_rate_total (rc_account_id ctx) (rc_timestamp ctx) (max_orders_per_sec (re_limits e)) _ RO)
      as (ok & r' & -> & R'). eexists _, _. split; [done|]. by split.
  - by eexists _, _.
  - by eexists _, _.
  - by eexists _, _.
  - destruct (get_position_Ret (rc_account_id ctx) (rc_symbol_id ctx) _ MO) as (pos & m' & -> & Hpos & M').
    rewrite bind_Ret. destruct (margin_validate_spec ctx pos Hpos Q) as (b & -> & _).
    eexists _, _. split; [done|]. by split.
  - destruct (get_account_Ret (rc_account_id ctx) _ CO) as (a & E & A & ->). rewrite bind_Ret.
    eexists _, _. split; [done|]. split.
    + split; try done. simpl. apply credit_insert_ok; [done|by apply adopt_account_ok].
    + split; try done. simpl. eapply balances_insert; [done|apply balances_adopt].
Qed.

Lemma run_policies_total ps ctx : forall e t,
  ps ⊆ PreTradeRiskPipeline -> risk_ok e -> 0 <= rc_qty ctx < 2 ^ 62 ->
  exists r e' t', run_policies ps ctx e t = Ret (r, e', t') /\ risk_ok e' /\ same_money e e'.
Proof.
  induction ps as [|p ps IH]; intros e t S W Q; simpl; [by eexists _, _, _|].
  destruct (policy_total p ctx e) as (ok & e1 & -> & W1 & M1); [apply S; left|done|done|]. rewrite bind_Ret.
  destruct ok; [|by eexists _, _, _].
  destruct (IH e1 (add_stage (policy_name p) 0 RD_Accept t)) as (r & e2 & t2 & -> & W2 & M2);
    [intros x Hx; apply S; by right|done|done|].
  eexists _, _, _. split; [done|]. split; [done|by eapply same_money_trans].
Qed.
