(* ===== verification/RiskProperties.v ===== *)
(** * Properties of the risk engine *)
From S2P Require Import Prelude Domain RiskState RiskEngine RiskRefine.

(** ** Helper lemmas *)
Lemma validate_unfold t0 t1 t2 t3 ctx e trace :
  risk_ok e -> 0 <= rc_qty ctx < 2 ^ 62 ->
  exists r e1 tr, run_policies PreTradeRiskPipeline ctx e trace = Ret (r, e1, tr) /\ risk_ok e1 /\ same_money e e1 /\
    validate t0 t1 t2 t3 ctx e trace =
      match r with
      | Some reason =>
          Ret (inr reason, set_stats (risk_record_latency (u64 (t3 - t0)) (count_reject reason tr (re_stats e1))) e1, tr)
      | None =>
          credit ← update_on_accept (rc_account_id ctx) (order_cost (rc_price ctx) (rc_qty ctx)) (re_credit e1);
          Ret (inl (MkRiskResult RR_None RD_Accept t2 0 (u64 (t2 - t1))),
               set_stats (risk_record_latency (u64 (t3 - t0)) (bump 0 (re_stats e1))) (set_credit credit e1), tr)
      end.
Proof.
  intros W Q. destruct (run_policies_total PreTradeRiskPipeline ctx e trace) as (r & e1 & tr & E & W1 & M); [done|done|done|].
  exists r, e1, tr. split_and!; [done..|]. unfold validate, pipeline_validate. rewrite E, !bind_Ret.
  by destruct r.
Qed.

Lemma accepts_snoc ctx ps p e e' :
  accepts ctx (ps ++ [p]) e e' -> exists e1, accepts ctx ps e e1 /\ policy_validate p ctx e1 = Ret (true, e').
Proof.
  revert e. induction ps as [|q ps IH]; intros e H; inversion H; subst.
  - rename select (accepts _ [] _ _) into N. inversion N; subst. exists e. split; [constructor|done].
  - destruct (IH _ ltac:(eassumption)) as (e1' & A & V). exists e1'. split; [by econstructor|done].
Qed.

Lemma accepts_total ctx ps e e' :
  accepts ctx ps e e' -> ps ⊆ PreTradeRiskPipeline -> risk_ok e -> 0 <= rc_qty ctx < 2 ^ 62 ->
  risk_ok e' /\ same_money e e'.
Proof.
  induction 1 as [e|p ps e e1 e2 V A IH]; intros S W Q; [done|].
  destruct (policy_total p ctx e) as (ok & e1' & V' & W1 & M1); [apply S; left|done|done|].
  assert (e1' = e1) as -> by congruence.
  destruct IH as [W2 M2]; [intros x Hx; apply S; by right|done|done|]. split; [done|by eapply same_money_trans].
Qed.

(** The slot of an account after acceptance. *)
Definition slot_of (id : Z) : nat := Z.to_nat (account_slot id).

Lemma accept_money ctx e e1 :
  accepts ctx PreTradeRiskPipeline e e1 -> risk_ok e -> 0 <= rc_qty ctx < 2 ^ 62 ->
  exists a, re_credit e1 !! slot_of (rc_account_id ctx) = Some a /\ account_ok a /\
    order_cost (rc_price ctx) (rc_qty ctx) <= available_buying_power a /\
    (max_daily_exposure (re_limits e) > 0 ->
     u64 (daily_exposure a + order_cost (rc_price ctx) (rc_qty ctx)) <= max_daily_exposure (re_limits e)).
Proof.
  intros A W Q. change PreTradeRiskPipeline with
    ([KillSwitchPolicy; CircuitBreakerPolicy; DuplicatePolicy; RateLimitPolicy; FatFingerPolicy;
      PriceBandPolicy; STPPolicy; PositionPolicy] ++ [CreditPolicy]) in A.
  apply accepts_snoc in A as (e0 & A & V).
  destruct (accepts_total _ _ _ _ A) as [W0 M0]; [|done|done|].
  { intros x Hx. unfold PreTradeRiskPipeline. set_solver. }
  simpl in V. destruct (get_account_Ret (rc_account_id ctx) _ (ok_credit _ W0)) as (a & E & Oa & G).
  rewrite G, bind_Ret in V. injection V as V <-. simpl.
  exists (adopt_account (rc_account_id ctx) a). split_and!.
  - apply list_lookup_insert_eq. apply lookup_lt_Some in E. done.
  - by apply adopt_account_ok.
  - unfold credit_validate in V. destruct (Z.gtb_spec (order_cost (rc_price ctx) (rc_qty ctx))
      (available_buying_power (adopt_account (rc_account_id ctx) a))); [done|lia].
  - intros P. unfold credit_validate in V. rewrite (sm_limits _ _ M0) in V.
    destruct (_ >? available_buying_power _); [done|].
    destruct (Z.gtb_spec (max_daily_exposure (re_limits e)) 0); [|lia]. simpl in V.
    match type of V with (if ?x >? ?y then _ else _) = _ => destruct (Z.gtb_spec x y) end; [done|lia].
Qed.

Definition sample_ctx (p q : Z) : RiskContext := MkRiskContext 1 p q 0 10000000000 77 1 1 5 Buy Limit.

(** C17: the pipeline reports the first policy that fails: the policies before it
    accepted, the reason is its own, and a rejected order moves no money. *)
Theorem reject_names_first_failure (t0 t1 t2 t3 : Z) (ctx : RiskContext) (e e' : RiskEngine) (trace tr : RiskTrace)
    (reason : RejectReason) :
  risk_ok e -> 0 <= rc_qty ctx < 2 ^ 62 ->
  validate t0 t1 t2 t3 ctx e trace = Ret (inr reason, e', tr) ->
  map balances (re_credit e') = map balances (re_credit e) /\
  exists ps p ps' e1 e2, PreTradeRiskPipeline = ps ++ p :: ps' /\ accepts ctx ps e e1 /\
    policy_validate p ctx e1 = Ret (false, e2) /\ reason = policy_reason p /\ re_duplicates e' = re_duplicates e2.
Proof.
  intros W Q. destruct (validate_unfold t0 t1 t2 t3 ctx e trace W Q) as (r & e1 & tr1 & E & W1 & M & ->).
  destruct r as [r|].
  - intros [= -> <- <-]. split; [apply M|].
    destruct (run_policies_reject _ _ _ _ _ _ _ E) as (ps & p & ps' & e0 & ? & ? & ? & ?).
    by exists ps, p, ps', e0, e1.
  - destruct (update_on_accept _ _ _); done.
Qed.
Lemma reject_names_first_failure_witness : exists e' tr,
  validate 0 0 0 0 (sample_ctx 0 10) risk_reset [] = Ret (inr InvalidPrice, e', tr) /\
  map balances (re_credit e') = map balances (re_credit risk_reset) /\
  exists ps p ps' e1 e2, PreTradeRiskPipeline = ps ++ p :: ps' /\ accepts (sample_ctx 0 10) ps risk_reset e1 /\
    policy_validate p (sample_ctx 0 10) e1 = Ret (false, e2) /\ InvalidPrice = policy_reason p /\
    re_duplicates e' = re_duplicates e2.
Proof.
  eexists _, _. split; [vm_compute; reflexivity|].
  refine (reject_names_first_failure 0 0 0 0 (sample_ctx 0 10) risk_reset _ [] _ InvalidPrice risk_reset_ok _ _);
    [simpl; lia|vm_compute; reflexivity].
Defined.

(** C18: validation is total and keeps the engine well-formed: it always
    returns, for any order below 2^62 units, with no index out of range and no
    signed overflow. *)
Theorem validate_total (t0 t1 t2 t3 : Z) (ctx : RiskContext) (e : RiskEngine) (trace : RiskTrace) :
  risk_ok e -> 0 <= rc_qty ctx < 2 ^ 62 ->
  exists res e' tr, validate t0 t1 t2 t3 ctx e trace = Ret (res, e', tr) /\ risk_ok e'.
Proof.
  intros W Q. destruct (validate_unfold t0 t1 t2 t3 ctx e trace W Q) as (r & e1 & tr & E & W1 & M & ->).
  destruct r as [r|]; [eexists _, _, _; split; [done|]; by destruct W1|].
  destruct (credit_update_Ret (account_accept (order_cost (rc_price ctx) (rc_qty ctx))) (rc_account_id ctx) _ (ok_credit _ W1))
    as (a & Ea & Oa & Eu). unfold update_on_accept. rewrite Eu, bind_Ret.
  eexists _, _, _. split; [done|]. destruct W1. split; try done. simpl. apply credit_insert_ok; [done|].
  apply account_accept_ok; [by apply adopt_account_ok|apply order_cost_nonneg].
Qed.
Lemma validate_total_witness : exists res e' tr,
  validate 0 0 0 0 (sample_ctx 10000000000 10) risk_reset [] = Ret (res, e', tr) /\ risk_ok e'.
Proof. exact (validate_total 0 0 0 0 (sample_ctx 10000000000 10) risk_reset [] risk_reset_ok ltac:(simpl; lia)). Defined.

(** An accepted order was affordable and reserves exactly its cost: the
    account's buying power falls and its reserved capital grows by the cost, and
    no other account changes. *)
Theorem accept_reserves_cost (t0 t1 t2 t3 : Z) (ctx : RiskContext) (e e' : RiskEngine) (trace tr : RiskTrace)
    (res : RiskResult) :
  risk_ok e -> 0 <= rc_qty ctx < 2 ^ 62 ->
  validate t0 t1 t2 t3 ctx e trace = Ret (inl res, e', tr) ->
  let cost := order_cost (rc_price ctx) (rc_qty ctx) in
  exists a a', re_credit e !! slot_of (rc_account_id ctx) = Some a /\ re_credit e' !! slot_of (rc_account_id ctx) = Some a' /\
    cost <= available_buying_power a /\ available_buying_power a' = available_buying_power a - cost /\
    reserved_capital a' = u64 (reserved_capital a + cost) /\ used_buying_power a' = used_buying_power a /\
    daily_exposure a' = daily_exposure a /\
    forall i, i <> slot_of (rc_account_id ctx) -> balances <$> re_credit e' !! i = balances <$> re_credit e !! i.
Proof.
  intros W Q. destruct (validate_unfold t0 t1 t2 t3 ctx e trace W Q) as (r & e1 & tr1 & E & W1 & M & ->).
  destruct r as [r|]; [done|]. intros H cost. apply run_policies_accept in E as A.
  destruct (accept_money ctx e e1 A W Q) as (a1 & E1 & O1 & Le & _).
  destruct (credit_update_Ret (account_accept cost) (rc_account_id ctx) _ (ok_credit _ W1)) as (a1' & Ea & _ & Eu).
  fold (slot_of (rc_account_id ctx)) in Ea, Eu. assert (a1' = a1) as -> by congruence.
  unfold update_on_accept in H. fold cost in H, Le. rewrite Eu, bind_Ret in H. injection H as <- <- <-. simpl.
  pose proof (sm_credit _ _ M) as SC.
  destruct (re_credit e !! slot_of (rc_account_id ctx)) as [a|] eqn:E0.
  2: { apply (f_equal (lookup (slot_of (rc_account_id ctx)))) in SC. by rewrite !list_lookup_fmap, E1, E0 in SC. }
  assert (balances (adopt_account (rc_account_id ctx) a1) = balances a) as B.
  { rewrite balances_adopt. apply (f_equal (lookup (slot_of (rc_account_id ctx)))) in SC.
    rewrite !list_lookup_fmap, E1, E0 in SC. simpl in SC. congruence. }
  exists a, (account_accept cost (adopt_account (rc_account_id ctx) a1)).
  split; [done|]. split. { apply list_lookup_insert_eq. by apply lookup_lt_Some in E1. }
  pose proof (balances_adopt (rc_account_id ctx) a1) as B1. unfold balances in B, B1.
  injection B as B2 B3 B4 B5. injection B1 as B6 B7 B8 B9.
  unfold account_accept. destruct (Z.geb_spec (available_buying_power (adopt_account (rc_account_id ctx) a1)) cost); [|lia].
  pose proof (order_cost_nonneg (rc_price ctx) (rc_qty ctx)) as P. fold cost in P. destruct O1 as (O1 & _).
  simpl. rewrite u64_small by lia. split_and!; [lia|lia|by rewrite B3|done|done|].
  intros i Ni. rewrite list_lookup_insert_ne by done.
  apply (f_equal (lookup i)) in SC. by rewrite !list_lookup_fmap in SC.
Qed.
Lemma accept_reserves_cost_witness : exists res e' tr,
  validate 0 0 0 0 (sample_ctx 10000000000 10) risk_reset [] = Ret (inl res, e', tr) /\
  let cost := order_cost 10000000000 10 in
  exists a a', re_credit risk_reset !! slot_of 5 = Some a /\ re_credit e' !! slot_of 5 = Some a' /\
    cost <= available_buying_power a /\ available_buying_power a' = available_buying_power a - cost /\
    reserved_capital a' = u64 (reserved_capital a + cost) /\ used_buying_power a' = used_buying_power a /\
    daily_exposure a' = daily_exposure a /\
    forall i, i <> slot_of 5 -> balances <$> re_credit e' !! i = balances <$> re_credit risk_reset !! i.
Proof.
  eexists _, _, _. split; [vm_compute; reflexivity|].
  refine (accept_reserves_cost 0 0 0 0 (sample_ctx 10000000000 10) risk_reset _ [] _ _ risk_reset_ok _ _);
    [simpl; lia|vm_compute; reflexivity].
Defined.

(** The rate limiter is a sliding window.  With a limit of at most the
    window size, for any non-decreasing sequence of times, an order accepted
    [limit] acceptances after another came at least one second later. *)
Theorem rate_limit_window (limit : Z) (times : list Z) :
  1 <= limit <= 100 -> Forall (fun t => 0 <= t < 2 ^ 64) times -> StronglySorted Z.le times ->
  exists acc tr, check_all limit times [] tracker_reset = Ret (acc, tr) /\
    forall i a b, acc !! i = Some a -> acc !! (i + Z.to_nat limit)%nat = Some b -> a - b >= 1000000000.
Proof.
  intros L F S. apply (check_all_spaced limit times [] tracker_reset); [done|by apply tracker_reset_rep; lia| |done|done|].
  - intros i a b H. by rewrite lookup_nil in H.
  - intros t now H. by apply elem_of_nil in H.
Qed.
Lemma rate_limit_window_witness : exists acc tr,
  check_all 2 [5; 6; 7; 1000000005; 1000000006] [] tracker_reset = Ret (acc, tr) /\
  forall i a b, acc !! i = Some a -> acc !! (i + Z.to_nat 2)%nat = Some b -> a - b >= 1000000000.
Proof.
  apply (rate_limit_window 2 [5; 6; 7; 1000000005; 1000000006]); [lia| |].
  - repeat constructor; lia.
  - repeat constructor; lia.
Defined.

(** What the duplicate check really tests.  After any history, a non-zero id
    is refused exactly when it is the last non-zero id of the history that falls
    into its slot; so no unseen id is refused, and a repeated one is accepted
    once another id of the same slot came in between. *)
Theorem duplicate_check_exact (ids : list Z) (id : Z) :
  Forall (fun j => 0 <= j) ids -> 0 < id ->
  exists d d', seen_after ids duplicates_reset = Ret d /\
    check_duplicate id d = Ret (negb (bool_decide (last (in_slot (id mod 4096) ids) = Some id)), d').
Proof.
  intros F P. destruct (seen_after_remembers ids duplicates_reset [] remembers_reset F) as (d & E & R).
  destruct (remembers_step d ids id R ltac:(lia)) as (b & d' & C & _ & Hb). exists d, d'. split; [done|].
  by rewrite C, Hb.
Qed.
Lemma duplicate_check_exact_witness : exists d d',
  seen_after [7; 4103] duplicates_reset = Ret d /\ check_duplicate 7 d = Ret (true, d').
Proof.
  exact (duplicate_check_exact [7; 4103] 7 ltac:(repeat constructor; lia) ltac:(lia)).
Defined.

(** Position limits.  The check passes exactly when the net position after
    the order stays within the long and the short limit that are set. *)
Lemma position_limit_exact (ctx : RiskContext) (p : PositionState) :
  position_ok p -> 0 <= rc_qty ctx < 2 ^ 62 ->
  let next := if decide (rc_side ctx = Buy) then net_qty p + rc_qty ctx else net_qty p - rc_qty ctx in
  exists ok, margin_validate ctx p = Ret ok /\
    (ok = true <-> (max_long_limit p > 0 -> next <= max_long_limit p) /\
                   (max_short_limit p > 0 -> - max_short_limit p <= next)).
Proof. apply margin_validate_spec. Qed.
Lemma position_limit_exact_witness :
  let next := if decide (Buy = Buy) then 0 + 10 else 0 - 10 in
  exists ok, margin_validate (sample_ctx 1 10) (position_reset 1 1) = Ret ok /\
    (ok = true <-> (1000000000 > 0 -> next <= 1000000000) /\ (1000000000 > 0 -> - 1000000000 <= next)).
Proof. exact (position_limit_exact (sample_ctx 1 10) (position_reset 1 1) ltac:(done) ltac:(simpl; lia)). Defined.

(** Fills and acceptances are not in the same unit.  A fill charges the
    product of quantity and price, while acceptance reserved that product divided
    by a million: the charge is at least a million times the reservation. *)
Lemma fill_charge_unscaled (account symbol q p : Z) (s : Side) (e e' : RiskEngine) (a : AccountState) :
  risk_ok e -> 0 <= p < 2 ^ 63 -> 0 <= q < 2 ^ 64 -> q * p < 2 ^ 64 ->
  re_credit e !! slot_of account = Some a -> used_buying_power a + q * p < 2 ^ 64 ->
  update_on_fill account symbol s q p e = Ret e' ->
  exists a', re_credit e' !! slot_of account = Some a' /\
    used_buying_power a' = used_buying_power a + q * p /\ 1000000 * order_cost p q <= q * p.
Proof.
  intros W P Q B Ea U. unfold update_on_fill. destruct (margin_update_on_fill _ _ _ _ _) as [m| | | |]; try done.
  rewrite bind_Ret, (u64_small (q * p)) by nia.
  destruct (credit_update_Ret (account_fill (q * p)) account _ (ok_credit _ W)) as (a1 & E1 & O1 & Eu).
  fold (slot_of account) in E1, Eu. assert (a1 = a) as -> by congruence.
  unfold credit_update_on_fill. rewrite Eu, bind_Ret. intros [= <-].
  exists (account_fill (q * p) (adopt_account account a)). simpl.
  split; [apply list_lookup_insert_eq; by apply lookup_lt_Some in E1|].
  destruct O1 as (_ & _ & O3 & _). split.
  - assert (used_buying_power (adopt_account account a) = used_buying_power a) as EU
      by (unfold adopt_account; by destruct (_ =? 0)).
    unfold account_fill. destruct (_ >=? q * p); simpl; rewrite EU, u64_small by nia; done.
  - unfold order_cost. rewrite (u64_small p) by lia. rewrite u64_small by nia.
    rewrite (Z.mul_comm q p). apply Z.mul_div_le. lia.
Qed.
Lemma fill_charge_unscaled_witness : exists e' a',
  update_on_fill 5 1 Buy 10 10000000000 risk_reset = Ret e' /\ re_credit e' !! slot_of 5 = Some a' /\
  used_buying_power a' = used_buying_power (account_reset 5) + 10 * 10000000000 /\
  1000000 * order_cost 10000000000 10 <= 10 * 10000000000.
Proof.
  destruct (update_on_fill 5 1 Buy 10 10000000000 risk_reset) as [e'| | | |] eqn:E; try (vm_compute in E; discriminate E).
  exists e'. destruct (fill_charge_unscaled 5 1 10 10000000000 Buy risk_reset e' (account_reset 5)
    risk_reset_ok ltac:(lia) ltac:(lia) ltac:(lia) ltac:(reflexivity) ltac:(simpl; lia) E) as (a' & H).
  exists a'. split; [reflexivity|exact H].
Defined.
