(* ===== verification/RingBuffer.v ===== *)
(** * FluxTrade: the lock-free queues

    [SPSCQueue<T, Capacity>] of src/common/include/common/ring_buffer.hpp, on
    which the gateway hands commands to the engine thread and the engine hands
    reports back.  [emplace]/[pop]/[size]/[empty] are the calls as one thread
    sees them when nobody interferes; [QueueConcurrency] cuts the same code at
    its atomic accesses.  The indices are 64-bit and wrap.  [queue_rep] relates a queue to the list of its elements. *)
From S2P Require Import Prelude.
Local Open Scope Z_scope.

(** ** Powers of two *)
Lemma pow2_of_land c : 0 < c -> Z.land c (c - 1) = 0 -> c = 2 ^ Z.log2 c.
Proof.
  intros Hc HL. pose proof (Z.log2_spec c Hc) as [H1 H2]. pose proof (Z.log2_nonneg c) as Hn.
  destruct (decide (c = 2 ^ Z.log2 c)) as [|N]; [done|exfalso].
  assert (Z.log2 (c - 1) = Z.log2 c) as E.
  { apply Z.log2_unique; [done|]. rewrite <- Z.add_1_r in *. lia. }
  assert (Z.testbit (Z.land c (c - 1)) (Z.log2 c) = true) as T.
  { rewrite Z.land_spec, Z.bit_log2 by done. rewrite <- E at 1. rewrite Z.bit_log2; [done|].
    assert (0 < 2 ^ Z.log2 c) by (apply Z.pow_pos_nonneg; lia).
    assert (c <> 1) by (intros ->; by apply N). lia. }
  by rewrite HL, Z.bits_0 in T.
Qed.

Section Mask.
Context (Capacity : Z) (Hpos : 0 < Capacity < 2 ^ 64).
(** [static_assert((Capacity & (Capacity - 1)) == 0)] *)
Context (Hpow : Z.land Capacity (Capacity - 1) = 0).

Lemma capacity_divides : exists m, 2 ^ 64 = m * Capacity.
Proof using Hpos Hpow.
  pose proof (pow2_of_land Capacity ltac:(lia) Hpow) as E. set (k := Z.log2 Capacity) in *.
  pose proof (Z.log2_nonneg Capacity) as ?. fold k in H.
  assert (k < 64). { apply (Z.pow_lt_mono_r_iff 2); lia. }
  exists (2 ^ (64 - k)). rewrite E, <- Z.pow_add_r by lia. f_equal. lia.
Qed.

(** [x & (Capacity - 1)] on a wrapped index is the index modulo the capacity. *)
Lemma slot_mod x : Z.land (u64 x) (Capacity - 1) = x mod Capacity.
Proof using Hpos Hpow.
  destruct capacity_divides as [m Em].
  pose proof (pow2_of_land Capacity ltac:(lia) Hpow) as E. pose proof (Z.log2_nonneg Capacity) as ?.
  rewrite E at 1. rewrite Z.sub_1_r, <- Z.ones_equiv, Z.land_ones, <- E by lia.
  unfold u64. rewrite Em, Z.mul_comm.
  assert (m <> 0) by lia. rewrite Z.rem_mul_r by lia.
  rewrite (Z.mul_comm Capacity (_ mod _)), Z.mod_add by lia. apply Z.mod_mod. lia.
Qed.

Lemma slot_inj a b : a mod Capacity = b mod Capacity -> a <= b < a + Capacity -> a = b.
Proof using Hpos.
  intros E H. pose proof (Z.div_mod a Capacity ltac:(lia)). pose proof (Z.div_mod b Capacity ltac:(lia)).
  rewrite E in *. assert (a / Capacity = b / Capacity); [|nia].
  set (x := a / Capacity) in *. set (y := b / Capacity) in *. set (m := b mod Capacity) in *.
  assert (0 <= Capacity * (y - x) < Capacity) by lia. nia.
Qed.
End Mask.

Section SPSC.
Context {T : Type} (Capacity : Z).

(** ** The queue and its operations *)
Record SPSCQueue : Type := mkQueue {
  buffer : list T;
  write_idx : Z;
  read_idx : Z;
}.

(** The constructor; [d] is the value-initialised element. *)
Definition queue_init (d : T) : SPSCQueue :=
  {| buffer := replicate (Z.to_nat Capacity) d; write_idx := 0; read_idx := 0 |}.

Definition emplace (q : SPSCQueue) (value : T) : outcome (bool * SPSCQueue) :=
  let curr_write := write_idx q in
  let curr_read := read_idx q in
  if Capacity <=? u64 (curr_write - curr_read) then Ret (false, q)
  else
    b ← arr_set (buffer q) (Z.land curr_write (Capacity - 1)) value;
    Ret (true, {| buffer := b; write_idx := u64 (curr_write + 1); read_idx := read_idx q |}).

(** [push(const T&)] calls [emplace]; [push(T&&)] repeats its body. *)
Definition push (q : SPSCQueue) (value : T) : outcome (bool * SPSCQueue) := emplace q value.

(** [pop(T& value)]: [None] when it returns [false] and leaves [value] alone. *)
Definition pop (q : SPSCQueue) : outcome (option T * SPSCQueue) :=
  let curr_read := read_idx q in
  let curr_write := write_idx q in
  if curr_read =? curr_write then Ret (None, q)
  else
    x ← arr_get (buffer q) (Z.land curr_read (Capacity - 1));
    Ret (Some x, {| buffer := buffer q; write_idx := write_idx q; read_idx := u64 (curr_read + 1) |}).

Definition queue_size (q : SPSCQueue) : Z :=
  if read_idx q <=? write_idx q then write_idx q - read_idx q else 0.
Definition queue_empty (q : SPSCQueue) : bool := queue_size q =? 0.

(** ** The list a queue stands for *)
Definition slots_hold (b : list T) (R : Z) (l : list T) : Prop :=
  forall i x, l !! i = Some x -> b !! Z.to_nat ((R + Z.of_nat i) mod Capacity) = Some x.

Definition queue_rep (q : SPSCQueue) (l : list T) : Prop :=
  Z.of_nat (length (buffer q)) = Capacity /\
  Z.of_nat (length l) <= Capacity /\
  exists R, read_idx q = u64 R /\ write_idx q = u64 (R + Z.of_nat (length l)) /\
    slots_hold (buffer q) R l.

Context (Hpos : 0 < Capacity < 2 ^ 64) (Hpow : Z.land Capacity (Capacity - 1) = 0).

Lemma slots_push b R l v :
  Z.of_nat (length b) = Capacity -> Z.of_nat (length l) < Capacity ->
  slots_hold b R l ->
  slots_hold (<[Z.to_nat ((R + Z.of_nat (length l)) mod Capacity) := v]> b) R (l ++ [v]).
Proof using Hpos.
  intros Hb Hl HS i x Hi.
  pose proof (Z.mod_pos_bound (R + Z.of_nat i) Capacity ltac:(lia)) as B1.
  pose proof (Z.mod_pos_bound (R + Z.of_nat (length l)) Capacity ltac:(lia)) as B2.
  apply lookup_app_Some in Hi as [Hi|[Hi1 Hi2]].
  - pose proof (lookup_lt_Some _ _ _ Hi) as L.
    rewrite list_lookup_insert_ne; [by apply HS|].
    intros E. apply Z2Nat.inj in E; [|lia..]. symmetry in E.
    apply (slot_inj Capacity Hpos) in E; lia.
  - apply list_lookup_singleton_Some in Hi2 as [E <-].
    replace (Z.of_nat i) with (Z.of_nat (length l)) by lia.
    apply list_lookup_insert_eq. lia.
Qed.

Lemma slots_pop b R x l : slots_hold b R (x :: l) -> slots_hold b (R + 1) l.
Proof using Type.
  intros HS i y Hi. specialize (HS (S i) y Hi).
  by replace (R + 1 + Z.of_nat i) with (R + Z.of_nat (S i)) by lia.
Qed.

Lemma queue_init_rep d : queue_rep (queue_init d) [].
Proof using Hpos.
  split; [simpl; rewrite length_replicate; lia|]. split; [simpl; lia|].
  exists 0. split_and!; [done..|]. intros i x Hi. by rewrite lookup_nil in Hi.
Qed.

Lemma emplace_room q l v :
  queue_rep q l -> Z.of_nat (length l) < Capacity ->
  exists q', emplace q v = Ret (true, q') /\ queue_rep q' (l ++ [v]).
Proof using Hpos Hpow.
  intros (Hb & Hl & R & HR & HW & HS) Hroom. unfold emplace. rewrite HR, HW.
  autorewrite with machine. replace (R + Z.of_nat (length l) - R) with (Z.of_nat (length l)) by lia.
  rewrite (u64_small (Z.of_nat _)) by lia.
  destruct (Z.leb_spec Capacity (Z.of_nat (length l))); [lia|].
  rewrite (slot_mod Capacity Hpos Hpow).
  pose proof (Z.mod_pos_bound (R + Z.of_nat (length l)) Capacity ltac:(lia)).
  rewrite arr_set_Ret, bind_Ret by lia. eexists. split; [reflexivity|].
  split; [cbn; by rewrite length_insert|].
  split; [rewrite length_app; simpl; lia|]. exists R. cbn. rewrite length_app. simpl.
  split_and!; [done|f_equal; lia|by apply slots_push].
Qed.

Lemma emplace_full q l v :
  queue_rep q l -> Z.of_nat (length l) = Capacity -> emplace q v = Ret (false, q).
Proof using Hpos.
  intros (Hb & Hl & R & HR & HW & HS) Hfull. unfold emplace. rewrite HR, HW.
  autorewrite with machine. replace (R + Z.of_nat (length l) - R) with (Z.of_nat (length l)) by lia.
  rewrite (u64_small (Z.of_nat _)) by lia.
  by destruct (Z.leb_spec Capacity (Z.of_nat (length l))); [|lia].
Qed.

Lemma pop_nil q : queue_rep q [] -> pop q = Ret (None, q).
Proof using Type.
  intros (Hb & Hl & R & HR & HW & HS). unfold pop. rewrite HR, HW. simpl.
  by rewrite Z.add_0_r, Z.eqb_refl.
Qed.

Lemma u64_neq a b : a <> b -> - 2 ^ 64 < a - b < 2 ^ 64 -> u64 a <> u64 b.
Proof using Type.
  intros N H E. assert (u64 (a - b) = 0) as D.
  { rewrite <- u64_sub_l, E, u64_sub_l, Z.sub_diag. reflexivity. }
  unfold u64 in D. pose proof (Z.div_mod (a - b) (2 ^ 64) ltac:(lia)). nia.
Qed.

Lemma pop_cons q x l :
  queue_rep q (x :: l) -> exists q', pop q = Ret (Some x, q') /\ queue_rep q' l.
Proof using Hpos Hpow.
  intros (Hb & Hl & R & HR & HW & HS). unfold pop. rewrite HR, HW. cbn [length] in *.
  destruct (Z.eqb_spec (u64 R) (u64 (R + Z.of_nat (S (length l))))) as [E|_];
    [exfalso; eapply u64_neq; [..|apply E]; lia|].
  rewrite (slot_mod Capacity Hpos Hpow).
  pose proof (Z.mod_pos_bound R Capacity ltac:(lia)).
  pose proof (HS O x eq_refl) as H0. rewrite Z.add_0_r in H0.
  rewrite (arr_get_Ret _ _ x), bind_Ret by (done || lia). eexists. split; [reflexivity|].
  split; [done|]. split; [lia|]. exists (R + 1). cbn. autorewrite with machine.
  split_and!; [done|f_equal; lia|by eapply slots_pop].
Qed.

(** [size] compares wrapped indices, so it reads 0 while the write index has
    wrapped and the read index has not. *)
Lemma size_rep q l :
  queue_rep q l ->
  queue_size q = Z.of_nat (length l) \/ (read_idx q + Z.of_nat (length l) >= 2 ^ 64 /\ queue_size q = 0).
Proof using Hpos.
  intros (Hb & Hl & R & HR & HW & HS). unfold queue_size. rewrite HW, HR.
  pose proof (u64_bound R). rewrite <- u64_add_l. set (r := u64 R) in *.
  destruct (Z_lt_ge_dec (r + Z.of_nat (length l)) (2 ^ 64)) as [L|G].
  - rewrite u64_small by lia. left. destruct (Z.leb_spec r (r + Z.of_nat (length l))); lia.
  - assert (u64 (r + Z.of_nat (length l)) = r + Z.of_nat (length l) - 2 ^ 64) as ->.
    { symmetry. apply (Z.mod_unique_pos _ _ 1); lia. }
    right. destruct (Z.leb_spec r (r + Z.of_nat (length l) - 2 ^ 64)); lia.
Qed.
End SPSC.
Arguments SPSCQueue : clear implicits.
