(* ===== verification/QueueConcurrency.v ===== *)
(** * FluxTrade: producer and consumer on the single-producer queue

    The code of [SPSCQueue::emplace] and [SPSCQueue::pop], cut at its atomic
    accesses (src/common/include/common/ring_buffer.hpp 36-77).  Each thread
    loads its own index exactly and the other thread's index with acquire
    order: the load returns any value that index has had since the value the
    thread last saw.  A slot is written and read by plain accesses between
    the load and the release store of the thread's own index.  The last section
    lets several threads push, which the queue is not made for. *)
From S2P Require Import Prelude RingBuffer.
Local Open Scope Z_scope.

Section Steps.
Context {T : Type} (Capacity : Z).

(** Where a producer is inside [emplace]. *)
Inductive producer : Type :=
| PIdle
| PTry (value : T) (curr_write : Z)
| PWrite (value : T) (curr_write : Z)
| PPublish (value : T) (curr_write : Z).
(** Where a consumer is inside [pop]. *)
Inductive consumer : Type :=
| CIdle
| CTry (curr_read : Z)
| CRead (curr_read : Z)
| CPublish (value : T) (curr_read : Z).

(** [prod_seen]/[cons_seen]: the value the thread last loaded of the other
    thread's index. *)
Record shared : Type := mkShared {
  sh_queue : SPSCQueue T;
  sh_prod : producer;
  sh_cons : consumer;
  prod_seen : Z;
  cons_seen : Z;
}.

Inductive event : Type := EPushed (value : T) | EFull (value : T) | EPopped (value : T) | EEmpty.

Definition with_buffer (q : SPSCQueue T) (b : list T) : SPSCQueue T :=
  {| buffer := b; write_idx := write_idx q; read_idx := read_idx q |}.
Definition with_write (q : SPSCQueue T) (w : Z) : SPSCQueue T :=
  {| buffer := buffer q; write_idx := w; read_idx := read_idx q |}.
Definition with_read (q : SPSCQueue T) (r : Z) : SPSCQueue T :=
  {| buffer := buffer q; write_idx := write_idx q; read_idx := r |}.

(** What an acquire load of an index now holding [now] may return to a thread
    that last saw [seen]. *)
Definition may_load (seen now r : Z) : Prop :=
  exists k, 0 <= k <= u64 (now - seen) /\ r = u64 (seen + k).

Inductive spsc_step : shared -> option event -> shared -> Prop :=
| step_push q c ps cs v :
    spsc_step (mkShared q PIdle c ps cs) None (mkShared q (PTry v (write_idx q)) c ps cs)
| step_push_full q c ps cs v w r :
    may_load ps (read_idx q) r -> Capacity <= u64 (w - r) ->
    spsc_step (mkShared q (PTry v w) c ps cs) (Some (EFull v)) (mkShared q PIdle c r cs)
| step_push_room q c ps cs v w r :
    may_load ps (read_idx q) r -> u64 (w - r) < Capacity ->
    spsc_step (mkShared q (PTry v w) c ps cs) None (mkShared q (PWrite v w) c r cs)
| step_push_write q c ps cs v w b :
    arr_set (buffer q) (Z.land w (Capacity - 1)) v = Ret b ->
    spsc_step (mkShared q (PWrite v w) c ps cs) None (mkShared (with_buffer q b) (PPublish v w) c ps cs)
| step_push_publish q c ps cs v w :
    spsc_step (mkShared q (PPublish v w) c ps cs) (Some (EPushed v))
      (mkShared (with_write q (u64 (w + 1))) PIdle c ps cs)
| step_pop q p ps cs :
    spsc_step (mkShared q p CIdle ps cs) None (mkShared q p (CTry (read_idx q)) ps cs)
| step_pop_empty q p ps cs r :
    may_load cs (write_idx q) r ->
    spsc_step (mkShared q p (CTry r) ps cs) (Some EEmpty) (mkShared q p CIdle ps r)
| step_pop_some q p ps cs r w :
    may_load cs (write_idx q) w -> r <> w ->
    spsc_step (mkShared q p (CTry r) ps cs) None (mkShared q p (CRead r) ps w)
| step_pop_read q p ps cs r x :
    arr_get (buffer q) (Z.land r (Capacity - 1)) = Ret x ->
    spsc_step (mkShared q p (CRead r) ps cs) None (mkShared q p (CPublish x r) ps cs)
| step_pop_publish q p ps cs r x :
    spsc_step (mkShared q p (CPublish x r) ps cs) (Some (EPopped x))
      (mkShared (with_read q (u64 (r + 1))) p CIdle ps cs).

Inductive spsc_reachable (d : T) : shared -> list event -> Prop :=
| spsc_start : spsc_reachable d (mkShared (queue_init Capacity d) PIdle CIdle 0 0) []
| spsc_more s tr o s' :
    spsc_reachable d s tr -> spsc_step s o s' -> spsc_reachable d s' (tr ++ option_list o).

Definition pushed (tr : list event) : list T :=
  omap (fun e => match e with EPushed v => Some v | _ => None end) tr.
Definition popped (tr : list event) : list T :=
  omap (fun e => match e with EPopped v => Some v | _ => None end) tr.

(** ** The invariant: ghost indices that do not wrap

    [R]/[W] are the indices without wrap-around, [Rs]/[Ws] what the producer
    and the consumer last saw of them, [l] the elements between them. *)
Definition prod_ok (b : list T) (W Rs : Z) (p : producer) : Prop :=
  match p with
  | PIdle => True
  | PTry _ w => w = u64 W
  | PWrite _ w => w = u64 W /\ W < Rs + Capacity
  | PPublish v w => w = u64 W /\ W < Rs + Capacity /\ b !! Z.to_nat (W mod Capacity) = Some v
  end.
Definition cons_ok (l : list T) (R Ws : Z) (c : consumer) : Prop :=
  match c with
  | CIdle => True
  | CTry r => r = u64 R
  | CRead r => r = u64 R /\ R < Ws
  | CPublish x r => r = u64 R /\ R < Ws /\ head l = Some x
  end.
Definition spsc_inv (s : shared) (R : Z) (l : list T) : Prop :=
  let q := sh_queue s in let W := R + Z.of_nat (length l) in
  Z.of_nat (length (buffer q)) = Capacity /\
  read_idx q = u64 R /\ write_idx q = u64 W /\ slots_hold Capacity (buffer q) R l /\
  exists Rs Ws,
    prod_seen s = u64 Rs /\ cons_seen s = u64 Ws /\
    Rs <= R <= Ws /\ Ws <= W <= Rs + Capacity /\
    prod_ok (buffer q) W Rs (sh_prod s) /\ cons_ok l R Ws (sh_cons s).

(** ** Several producers

    The same code called by any number of producers, which the queue is not made
    for: the engines all push to the exchange's one outbound queue.  Each thread
    takes its own steps of [spsc_step]. *)
Record contended : Type := mkContended {
  ct_queue : SPSCQueue T;
  ct_prods : list (producer * Z);
  ct_cons : consumer;
  ct_cons_seen : Z;
}.
Inductive contended_step : contended -> option event -> contended -> Prop :=
| contended_produce t q ps c cs p seen o q' p' seen' :
    ps !! t = Some (p, seen) ->
    spsc_step (mkShared q p c seen cs) o (mkShared q' p' c seen' cs) ->
    contended_step (mkContended q ps c cs) o (mkContended q' (<[t := (p', seen')]> ps) c cs)
| contended_consume q ps c cs o q' c' cs' :
    spsc_step (mkShared q PIdle c 0 cs) o (mkShared q' PIdle c' 0 cs') ->
    contended_step (mkContended q ps c cs) o (mkContended q' ps c' cs').
Inductive contended_reachable (n : nat) (d : T) : contended -> list event -> Prop :=
| contended_start :
    contended_reachable n d (mkContended (queue_init Capacity d) (replicate n (PIdle, 0)) CIdle 0) []
| contended_more s tr o s' :
    contended_reachable n d s tr -> contended_step s o s' -> contended_reachable n d s' (tr ++ option_list o).

Context (Hpos : 0 < Capacity < 2 ^ 64) (Hpow : Z.land Capacity (Capacity - 1) = 0).

Lemma may_load_between S N r :
  S <= N <= S + Capacity -> may_load (u64 S) (u64 N) r -> exists M, S <= M <= N /\ r = u64 M.
Proof using Hpos.
  intros H (k & Hk & ->). revert Hk. autorewrite with machine. rewrite u64_small by lia.
  intros Hk. exists (S + k). split; [lia|done].
Qed.

Lemma gap_lt W M : 0 <= W - M <= Capacity -> u64 (u64 W - u64 M) = W - M.
Proof using Hpos. intros H. autorewrite with machine. apply u64_small. lia. Qed.
Lemma init_inv d : spsc_inv (mkShared (queue_init Capacity d) PIdle CIdle 0 0) 0 [].
Proof using Hpos.
  unfold spsc_inv. cbn. rewrite length_replicate. split_and!; [lia|done|done| |].
  - intros i x Hi. by rewrite lookup_nil in Hi.
  - exists 0, 0. split_and!; (done || lia).
Qed.

(** A producer between its check and its release store writes a slot outside
    the elements the queue holds. *)
Lemma write_keeps (b : list T) R l Rs v :
  Z.of_nat (length b) = Capacity -> Rs <= R ->
  R + Z.of_nat (length l) < Rs + Capacity -> slots_hold Capacity b R l ->
  slots_hold Capacity (<[Z.to_nat ((R + Z.of_nat (length l)) mod Capacity) := v]> b) R l.
Proof using Hpos.
  intros Hb HR HW HS i x Hi. pose proof (lookup_lt_Some _ _ _ Hi) as L.
  eapply slots_push; [done|done|lia|done|]. by rewrite lookup_app_l.
Qed.

Lemma slots_snoc (b : list T) R l v :
  slots_hold Capacity b R l ->
  b !! Z.to_nat ((R + Z.of_nat (length l)) mod Capacity) = Some v ->
  slots_hold Capacity b R (l ++ [v]).
Proof using Type.
  intros HS Hv i x [Hi|[Hi1 Hi2]]%lookup_app_Some; [by apply HS|].
  apply list_lookup_singleton_Some in Hi2 as [E <-].
  by replace i with (length l) by lia.
Qed.

Definition effect (o : option event) (l l' : list T) : Prop :=
  match o with
  | Some (EPushed v) => l' = l ++ [v]
  | Some (EPopped x) => l = x :: l'
  | _ => l' = l
  end.

Lemma spsc_step_inv s o s' R l :
  spsc_inv s R l -> spsc_step s o s' ->
  exists R' l', spsc_inv s' R' l' /\ effect o l l'.
Proof using Hpos Hpow.
  intros (Hb & HR & HW & HS & Rs & Ws & Hps & Hcs & B1 & B2 & Hp & Hc) Hst.
  destruct Hst; cbn in *.
  - exists R, l. split; [|done]. unfold spsc_inv; cbn. split_and!; [done..|]. exists Rs, Ws. split_and!; (done || lia).
  - exists R, l. split; [|done]. unfold spsc_inv; cbn. split_and!; [done..|].
    rewrite Hps, HR in H. apply may_load_between in H as (M & HM & ->); [|lia].
    exists M, Ws. split_and!; (done || lia).
  - exists R, l. split; [|done]. unfold spsc_inv; cbn. split_and!; [done..|].
    rewrite Hps, HR in H. apply may_load_between in H as (M & HM & ->); [|lia].
    exists M, Ws. rewrite Hp, gap_lt in H0 by lia. split_and!; (done || lia).
  - destruct Hp as [-> HWR]. rewrite (slot_mod Capacity Hpos Hpow) in H.
    pose proof (Z.mod_pos_bound (R + Z.of_nat (length l)) Capacity ltac:(lia)) as Bm.
    rewrite arr_set_Ret in H by lia. injection H as <-.
    exists R, l. split; [|done]. unfold spsc_inv; cbn. rewrite length_insert. split_and!; [done..| |].
    + by eapply (write_keeps _ _ _ Rs); [|lia|..].
    + exists Rs, Ws. split_and!; try done; try lia. apply list_lookup_insert_eq. lia.
  - destruct Hp as (-> & HWR & Hv). exists R, (l ++ [v]). split; [|done].
    unfold spsc_inv; cbn. rewrite length_app. cbn [length]. autorewrite with machine.
    split_and!; [done|done|f_equal; lia|by apply slots_snoc|].
    exists Rs, Ws. split_and!; try done; try lia.
    destruct c; cbn in *; try done. destruct Hc as (-> & Hlt & Hh). split_and!; [done..|].
    by destruct l.
  - exists R, l. split; [|done]. unfold spsc_inv; cbn. split_and!; [done..|]. exists Rs, Ws. split_and!; (done || lia).
  - exists R, l. split; [|done]. unfold spsc_inv; cbn. split_and!; [done..|].
    rewrite Hcs, HW in H. apply may_load_between in H as (M & HM & ->); [|lia].
    exists Rs, M. split_and!; (done || lia).
  - exists R, l. split; [|done]. unfold spsc_inv; cbn. split_and!; [done..|].
    rewrite Hcs, HW in H. apply may_load_between in H as (M & HM & ->); [|lia].
    exists Rs, M. subst r. assert (R <> M) by congruence. split_and!; (done || lia).
  - destruct Hc as [-> HRW]. exists R, l. split; [|done]. unfold spsc_inv; cbn. split_and!; [done..|].
    exists Rs, Ws. split_and!; try (done || lia).
    destruct l as [|y l]; [simpl in *; lia|]. f_equal.
    pose proof (HS O y eq_refl) as E. rewrite Z.add_0_r in E.
    rewrite (slot_mod Capacity Hpos Hpow) in H.
    pose proof (Z.mod_pos_bound R Capacity ltac:(lia)).
    rewrite (arr_get_Ret _ _ y) in H by (done || lia). injection H as ->. done.
  - destruct Hc as (-> & HRW & Hh). destruct l as [|y l]; [done|]. injection Hh as ->.
    exists (R + 1), l. split; [|done]. unfold spsc_inv; cbn in *. autorewrite with machine.
    split_and!; [done|done|rewrite HW; f_equal; lia|by eapply slots_pop|].
    replace (R + 1 + Z.of_nat (length l)) with (R + Z.of_nat (S (length l))) by lia.
    exists Rs, Ws. split_and!; (done || lia).
Qed.

Lemma pushed_app a b : pushed (a ++ b) = pushed a ++ pushed b.
Proof using Type. apply omap_app. Qed.
Lemma popped_app a b : popped (a ++ b) = popped a ++ popped b.
Proof using Type. apply omap_app. Qed.

Lemma spsc_reachable_inv d s tr :
  spsc_reachable d s tr -> exists R l, spsc_inv s R l /\ pushed tr = popped tr ++ l.
Proof using Hpos Hpow.
  induction 1 as [|s tr o s' _ (R & l & I & E) Hst].
  - exists 0, []. split; [apply init_inv|done].
  - destruct (spsc_step_inv _ _ _ _ _ I Hst) as (R' & l' & I' & Ef). exists R', l'. split; [done|].
    rewrite pushed_app, popped_app, E. destruct o as [[v|v|v|]|]; cbn in *; subst;
      by rewrite ?app_nil_r, <- ?app_assoc.
Qed.
End Steps.
