(* ===== verification/MPSCQueue.v ===== *)
(** * FluxTrade: the multi-producer queue

    [MPSCQueue<T, Capacity>] (src/common/include/common/ring_buffer.hpp,
    105-222), Vyukov's bounded queue: each cell carries a sequence number that
    says whose turn it is.  A call that nobody interrupts is modelled
    here; what the environment decides of it, whether [compare_exchange_weak]
    fails spuriously, is the argument [spurious].  [MPSCConcurrency] has the
    interleavings. *)
From S2P Require Import Prelude RingBuffer.
Local Open Scope Z_scope.

Section MPSC.
Context {T : Type} (Capacity : Z).

Record Cell : Type := mkCell { sequence : Z; data : T }.
Record MPSCQueue : Type := mkMPSC {
  cells : list Cell;
  mp_write_idx : Z;
  mp_read_idx : Z;
}.

Definition mpsc_init (d : T) : MPSCQueue :=
  {| cells := (fun i => {| sequence := Z.of_nat i; data := d |}) <$> seq 0 (Z.to_nat Capacity);
     mp_write_idx := 0; mp_read_idx := 0 |}.

(** The claiming loop of [emplace], [push] and [pop]: [index] is the shared
    index, [expect] the sequence number a cell at [pos] has when it is this
    side's turn.  [Some pos]: the position was claimed. *)
Fixpoint claim (cs : list Cell) (index pos expect_off : Z) (spurious : list bool) : outcome (option Z) :=
  cell ← arr_get cs (Z.land pos (Capacity - 1));
  diff ← signed64 (i64 (sequence cell) - i64 (u64 (pos + expect_off)));
  if diff =? 0 then
    match spurious with
    | true :: rest => claim cs index index expect_off rest
    | _ => Ret (Some pos)
    end
  else if diff <? 0 then Ret None
  else
    match spurious with
    | _ :: rest => claim cs index index expect_off rest
    | [] => Diverge
    end.

Definition mpsc_emplace (q : MPSCQueue) (value : T) (spurious : list bool) : outcome (bool * MPSCQueue) :=
  r ← claim (cells q) (mp_write_idx q) (mp_write_idx q) 0 spurious;
  match r with
  | None => Ret (false, q)
  | Some pos =>
      cs ← arr_set (cells q) (Z.land pos (Capacity - 1)) {| sequence := u64 (pos + 1); data := value |};
      Ret (true, {| cells := cs; mp_write_idx := u64 (pos + 1); mp_read_idx := mp_read_idx q |})
  end.

Definition mpsc_push (q : MPSCQueue) (value : T) (spurious : list bool) : outcome (bool * MPSCQueue) :=
  mpsc_emplace q value spurious.

Definition mpsc_pop (q : MPSCQueue) (spurious : list bool) : outcome (option T * MPSCQueue) :=
  r ← claim (cells q) (mp_read_idx q) (mp_read_idx q) 1 spurious;
  match r with
  | None => Ret (None, q)
  | Some pos =>
      cell ← arr_get (cells q) (Z.land pos (Capacity - 1));
      cs ← arr_set (cells q) (Z.land pos (Capacity - 1)) {| sequence := u64 (pos + Capacity); data := data cell |};
      Ret (Some (data cell), {| cells := cs; mp_write_idx := mp_write_idx q; mp_read_idx := u64 (pos + 1) |})
  end.

Definition mpsc_size (q : MPSCQueue) : Z :=
  if mp_read_idx q <=? mp_write_idx q then mp_write_idx q - mp_read_idx q else 0.
Definition mpsc_empty (q : MPSCQueue) : bool := mpsc_size q =? 0.

(** ** The list a queue stands for

    The indices are taken below [2^63], where the signed difference of the
    claiming loop is defined; the queue gets there after [2^63] insertions. *)
Definition mpsc_rep (q : MPSCQueue) (R : Z) (l : list T) : Prop :=
  let W := R + Z.of_nat (length l) in
  Z.of_nat (length (cells q)) = Capacity /\
  0 <= R /\ W <= R + Capacity /\ mp_read_idx q = R /\ mp_write_idx q = W /\
  (forall i x, l !! i = Some x ->
     cells q !! Z.to_nat ((R + Z.of_nat i) mod Capacity) = Some (mkCell (R + Z.of_nat i + 1) x)) /\
  (forall p, W <= p < R + Capacity -> exists x, cells q !! Z.to_nat (p mod Capacity) = Some (mkCell p x)).

Context (Hpos : 1 < Capacity < 2 ^ 62) (Hpow : Z.land Capacity (Capacity - 1) = 0).

Lemma slot_index p : 0 <= p < 2 ^ 64 -> Z.land p (Capacity - 1) = p mod Capacity.
Proof using Hpos Hpow.
  intros H. rewrite <- (u64_small p) at 1 by lia. apply slot_mod; [lia|done].
Qed.
Lemma slot_range p : 0 <= p mod Capacity < Capacity.
Proof using Hpos. apply Z.mod_pos_bound. lia. Qed.

Lemma claim_own cs p off spurious cell :
  0 <= p < 2 ^ 62 -> 0 <= off <= 1 -> cs !! Z.to_nat (p mod Capacity) = Some cell -> sequence cell = p + off ->
  claim cs p p off spurious = Ret (Some p).
Proof using Hpos Hpow.
  intros Hp Ho Hc Hs. pose proof (slot_range p).
  induction spurious as [|b rest IH]; unfold claim; fold claim;
    rewrite slot_index, (arr_get_Ret _ _ cell), bind_Ret by (done || lia);
    rewrite Hs, u64_small, Z.sub_diag, signed64_Ret, bind_Ret by lia; [done|].
  by destruct b.
Qed.

Lemma claim_none cs p off spurious cell :
  0 <= p < 2 ^ 62 -> 0 <= off <= 1 -> cs !! Z.to_nat (p mod Capacity) = Some cell ->
  0 <= sequence cell < p + off ->
  claim cs p p off spurious = Ret None.
Proof using Hpos Hpow.
  intros Hp Ho Hc Hs. pose proof (slot_range p).
  destruct spurious as [|b rest]; unfold claim; fold claim;
    rewrite slot_index, (arr_get_Ret _ _ cell), bind_Ret by (done || lia);
    rewrite u64_small, !i64_small, signed64_Ret, bind_Ret by lia;
    destruct (Z.eqb_spec (sequence cell - (p + off)) 0); try lia;
    by destruct (Z.ltb_spec (sequence cell - (p + off)) 0); [|lia].
Qed.

Lemma mpsc_init_rep d : mpsc_rep (mpsc_init d) 0 [].
Proof using Hpos.
  unfold mpsc_rep. cbn. rewrite length_fmap, length_seq. split_and!; try lia.
  - intros i x Hi. by rewrite lookup_nil in Hi.
  - intros p Hp. exists d. rewrite list_lookup_fmap, lookup_seq_lt.
    + cbn. rewrite Z.mod_small by lia. do 2 f_equal. lia.
    + rewrite Z.mod_small by lia. lia.
Qed.

(** Writing the cell of position [p] leaves the cells of the other positions
    of a window of [Capacity] positions alone. *)
Lemma cell_other cs p p' c :
  0 <= p -> 0 <= p' -> p <> p' -> - Capacity < p - p' < Capacity ->
  <[Z.to_nat (p mod Capacity) := c]> cs !! Z.to_nat (p' mod Capacity) = (cs : list Cell) !! Z.to_nat (p' mod Capacity).
Proof using Hpos.
  intros H1 H2 N H3. apply list_lookup_insert_ne. intros E.
  pose proof (slot_range p). pose proof (slot_range p'). apply Z2Nat.inj in E; [|lia..].
  destruct (Z.le_ge_cases p p') as [L|L].
  - apply (slot_inj Capacity ltac:(lia)) in E; lia.
  - symmetry in E. apply (slot_inj Capacity ltac:(lia)) in E; lia.
Qed.

Lemma mpsc_emplace_room q R l v spurious :
  mpsc_rep q R l -> Z.of_nat (length l) < Capacity -> R + Capacity < 2 ^ 62 ->
  exists q', mpsc_emplace q v spurious = Ret (true, q') /\ mpsc_rep q' R (l ++ [v]).
Proof using Hpos Hpow.
  intros (Hb & H0 & Hl & HR & HW & HS & HF) Hroom Hbig. unfold mpsc_emplace. rewrite HW.
  remember (R + Z.of_nat (length l)) as W eqn:EW.
  destruct (HF W ltac:(lia)) as [x Hx]. pose proof (slot_range W).
  rewrite (claim_own _ W 0 _ _ ltac:(lia) ltac:(lia) Hx), bind_Ret by (cbn; lia).
  rewrite slot_index, arr_set_Ret, bind_Ret by lia.
  eexists. split; [reflexivity|]. unfold mpsc_rep. cbn. rewrite length_insert, length_app. cbn.
  rewrite u64_small by lia. split_and!; try lia.
  - intros i y [Hi|[Hi1 Hi2]]%lookup_app_Some.
    + pose proof (lookup_lt_Some _ _ _ Hi). rewrite cell_other by lia. by apply HS.
    + apply list_lookup_singleton_Some in Hi2 as [E <-].
      replace (R + Z.of_nat i) with W by lia. apply list_lookup_insert_eq. lia.
  - intros p Hp. rewrite cell_other by lia. apply HF. lia.
Qed.

Lemma mpsc_emplace_full q R l v spurious :
  mpsc_rep q R l -> Z.of_nat (length l) = Capacity -> R + Capacity < 2 ^ 62 ->
  mpsc_emplace q v spurious = Ret (false, q).
Proof using Hpos Hpow.
  intros (Hb & H0 & Hl & HR & HW & HS & HF) Hfull Hbig. unfold mpsc_emplace. rewrite HW.
  destruct l as [|x l]; [simpl in *; lia|]. pose proof (HS O x eq_refl) as Hx. rewrite Z.add_0_r in Hx.
  rewrite (claim_none _ _ _ _ (mkCell (R + 1) x)); cbn [sequence]; try (done || lia).
  rewrite Hfull, <- Z.add_mod_idemp_r, Z.mod_same, Z.add_0_r by lia. done.
Qed.

Lemma mpsc_pop_nil q R spurious :
  mpsc_rep q R [] -> R + Capacity < 2 ^ 62 -> mpsc_pop q spurious = Ret (None, q).
Proof using Hpos Hpow.
  intros (Hb & H0 & Hl & HR & HW & HS & HF) Hbig. unfold mpsc_pop. rewrite HR. cbn in *.
  destruct (HF R ltac:(lia)) as [x Hx].
  by rewrite (claim_none _ R 1 _ _ ltac:(lia) ltac:(lia) Hx) by (cbn; lia).
Qed.

Lemma mpsc_pop_cons q R x l spurious :
  mpsc_rep q R (x :: l) -> R + Capacity < 2 ^ 62 ->
  exists q', mpsc_pop q spurious = Ret (Some x, q') /\ mpsc_rep q' (R + 1) l.
Proof using Hpos Hpow.
  intros (Hb & H0 & Hl & HR & HW & HS & HF) Hbig. unfold mpsc_pop. rewrite HR. cbn [length] in *.
  pose proof (HS O x eq_refl) as Hx. rewrite Z.add_0_r in Hx. pose proof (slot_range R) as Hr.
  rewrite (claim_own _ R 1 _ _ ltac:(lia) ltac:(lia) Hx), bind_Ret by (cbn; lia).
  rewrite slot_index, (arr_get_Ret _ _ _ (proj1 Hr) Hx), bind_Ret, arr_set_Ret, bind_Ret by lia.
  eexists. split; [reflexivity|]. unfold mpsc_rep. cbn. rewrite length_insert.
  rewrite !u64_small by lia. split_and!; try lia.
  - intros i y Hi. pose proof (lookup_lt_Some _ _ _ Hi). rewrite cell_other by lia.
    specialize (HS (S i) y Hi). by replace (R + 1 + Z.of_nat i) with (R + Z.of_nat (S i)) by lia.
  - intros p Hp. destruct (decide (p = R + Capacity)) as [->|N].
    + exists x. rewrite <- (Z.add_mod_idemp_r R Capacity), Z.mod_same, Z.add_0_r by lia.
      apply list_lookup_insert_eq. lia.
    + rewrite cell_other by lia. apply HF. lia.
Qed.
End MPSC.
Arguments MPSCQueue : clear implicits.
