(* ===== verification/MPSCConcurrency.v ===== *)
(** * FluxTrade: many producers and a consumer on the multi-producer queue

    The code of [MPSCQueue::emplace], [push] and [pop]
    (src/common/include/common/ring_buffer.hpp, 127-201) cut at its atomic
    accesses, for any number of producer threads and one consumer.  A relaxed
    load of an index and an acquire load of a cell's sequence number may return
    any value not above the present one: the indices and the sequence numbers
    only grow, so every earlier value is among those.  A compare-and-swap acts on
    the present value, may fail spuriously, and on failure loads the index like
    a relaxed load.  The data of a cell is written and read by plain accesses. *)
From S2P Require Import Prelude RingBuffer MPSCQueue.
Local Open Scope Z_scope.

Section Steps.
Context {T : Type} (Capacity : Z).

(** Where a producer is inside [emplace] ([push] runs the same body): about to
    load the sequence number of the cell at [pos], to compare-and-swap the write
    index, to load it again, to write the cell, to publish it. *)
Inductive mp_producer : Type :=
| MIdle
| MLook (value : T) (pos : Z)
| MSwap (value : T) (pos : Z)
| MReload (value : T)
| MWrite (value : T) (pos : Z)
| MPublish (value : T) (pos : Z).
(** Where the consumer is inside [pop]. *)
Inductive mp_consumer : Type :=
| NIdle
| NLook (pos : Z)
| NSwap (pos : Z)
| NReload
| NRead (pos : Z)
| NPublish (value : T) (pos : Z).

(** [MClaimed t v]: thread [t]'s compare-and-swap gave it a position for [v];
    [MPushed], [MFull]: its call returned [true], [false]; [MPopped], [MEmpty]:
    the consumer's call returned. *)
Inductive mp_event : Type :=
| MClaimed (t : nat) (value : T)
| MPushed (t : nat) (value : T)
| MFull (t : nat) (value : T)
| MPopped (value : T)
| MEmpty.

Definition older (now r : Z) : Prop := 0 <= r <= now.
Definition cell_index (pos : Z) : Z := Z.land pos (Capacity - 1).

Definition mp_with_cells (cs : list (Cell (T := T))) (q : MPSCQueue T) : MPSCQueue T :=
  mkMPSC cs (mp_write_idx q) (mp_read_idx q).
Definition mp_with_write (w : Z) (q : MPSCQueue T) : MPSCQueue T := mkMPSC (cells q) w (mp_read_idx q).
Definition mp_with_read (r : Z) (q : MPSCQueue T) : MPSCQueue T := mkMPSC (cells q) (mp_write_idx q) r.

(** [cell->data = ...] and [cell->sequence.store(...)] *)
Definition write_data (q : MPSCQueue T) (pos : Z) (v : T) : outcome (MPSCQueue T) :=
  cell ← arr_get (cells q) (cell_index pos);
  cs ← arr_set (cells q) (cell_index pos) (mkCell (sequence cell) v);
  Ret (mp_with_cells cs q).
Definition store_sequence (q : MPSCQueue T) (pos s : Z) : outcome (MPSCQueue T) :=
  cell ← arr_get (cells q) (cell_index pos);
  cs ← arr_set (cells q) (cell_index pos) (mkCell s (data cell));
  Ret (mp_with_cells cs q).
(** The signed difference a look at the cell of [pos] computes. *)
Definition looks (q : MPSCQueue T) (pos off diff : Z) : Prop :=
  exists cell s, arr_get (cells q) (cell_index pos) = Ret cell /\ older (sequence cell) s /\
    signed64 (i64 s - i64 (u64 (pos + off))) = Ret diff.

Inductive emplace_step (t : nat) : MPSCQueue T -> mp_producer -> option mp_event -> MPSCQueue T -> mp_producer -> Prop :=
| emplace_call q v pos :
    older (mp_write_idx q) pos -> emplace_step t q MIdle None q (MLook v pos)
| emplace_turn q v pos :
    looks q pos 0 0 -> emplace_step t q (MLook v pos) None q (MSwap v pos)
| emplace_no_room q v pos diff :
    looks q pos 0 diff -> diff < 0 -> emplace_step t q (MLook v pos) (Some (MFull t v)) q MIdle
| emplace_late q v pos diff :
    looks q pos 0 diff -> 0 < diff -> emplace_step t q (MLook v pos) None q (MReload v)
| emplace_reload q v pos :
    older (mp_write_idx q) pos -> emplace_step t q (MReload v) None q (MLook v pos)
| emplace_swap q v pos :
    mp_write_idx q = pos ->
    emplace_step t q (MSwap v pos) (Some (MClaimed t v)) (mp_with_write (u64 (pos + 1)) q) (MWrite v pos)
| emplace_swap_fails q v pos pos' :
    older (mp_write_idx q) pos' -> emplace_step t q (MSwap v pos) None q (MLook v pos')
| emplace_write q v pos q' :
    write_data q pos v = Ret q' -> emplace_step t q (MWrite v pos) None q' (MPublish v pos)
| emplace_publish q v pos q' :
    store_sequence q pos (u64 (pos + 1)) = Ret q' ->
    emplace_step t q (MPublish v pos) (Some (MPushed t v)) q' MIdle.

Inductive dequeue_step : MPSCQueue T -> mp_consumer -> option mp_event -> MPSCQueue T -> mp_consumer -> Prop :=
| dequeue_call q pos :
    older (mp_read_idx q) pos -> dequeue_step q NIdle None q (NLook pos)
| dequeue_turn q pos :
    looks q pos 1 0 -> dequeue_step q (NLook pos) None q (NSwap pos)
| dequeue_nothing q pos diff :
    looks q pos 1 diff -> diff < 0 -> dequeue_step q (NLook pos) (Some MEmpty) q NIdle
| dequeue_late q pos diff :
    looks q pos 1 diff -> 0 < diff -> dequeue_step q (NLook pos) None q NReload
| dequeue_reload q pos :
    older (mp_read_idx q) pos -> dequeue_step q NReload None q (NLook pos)
| dequeue_swap q pos :
    mp_read_idx q = pos -> dequeue_step q (NSwap pos) None (mp_with_read (u64 (pos + 1)) q) (NRead pos)
| dequeue_swap_fails q pos pos' :
    older (mp_read_idx q) pos' -> dequeue_step q (NSwap pos) None q (NLook pos')
| dequeue_read q pos cell :
    arr_get (cells q) (cell_index pos) = Ret cell ->
    dequeue_step q (NRead pos) None q (NPublish (data cell) pos)
| dequeue_publish q x pos q' :
    store_sequence q pos (u64 (pos + Capacity)) = Ret q' ->
    dequeue_step q (NPublish x pos) (Some (MPopped x)) q' NIdle.

(** The producer threads are numbered; one of them or the consumer moves. *)
Record mp_shared : Type := mkMShared {
  mp_queue : MPSCQueue T;
  mp_prods : list mp_producer;
  mp_cons : mp_consumer;
}.
Inductive mpsc_step : mp_shared -> option mp_event -> mp_shared -> Prop :=
| producer_moves t q ps c p o q' p' :
    ps !! t = Some p -> emplace_step t q p o q' p' ->
    mpsc_step (mkMShared q ps c) o (mkMShared q' (<[t := p']> ps) c)
| consumer_moves q ps c o q' c' :
    dequeue_step q c o q' c' ->
    mpsc_step (mkMShared q ps c) o (mkMShared q' ps c').

Inductive mpsc_reachable (n : nat) (d : T) : mp_shared -> list mp_event -> Prop :=
| mpsc_start : mpsc_reachable n d (mkMShared (mpsc_init Capacity d) (replicate n MIdle) NIdle) []
| mpsc_more s tr o s' :
    mpsc_reachable n d s tr -> mpsc_step s o s' -> mpsc_reachable n d s' (tr ++ option_list o).

(** What the events record. *)
Definition mp_claimed (tr : list mp_event) : list T :=
  omap (fun e => match e with MClaimed _ v => Some v | _ => None end) tr.
Definition mp_popped (tr : list mp_event) : list T :=
  omap (fun e => match e with MPopped v => Some v | _ => None end) tr.
Definition claims_of (t : nat) (tr : list mp_event) : list T :=
  omap (fun e => match e with MClaimed u v => if decide (u = t) then Some v else None | _ => None end) tr.
Definition pushes_of (t : nat) (tr : list mp_event) : list T :=
  omap (fun e => match e with MPushed u v => if decide (u = t) then Some v else None | _ => None end) tr.
(** The element a producer has a position for and has not published. *)
Definition owned (p : mp_producer) : option (Z * T) :=
  match p with MWrite v pos | MPublish v pos => Some (pos, v) | _ => None end.

(** ** The invariant

    [R] counts the elements returned by [pop] and [l] holds the elements that
    were claimed and not returned, so [R + length l] is the write index. *)
Definition slot (cs : list (Cell (T := T))) (p : Z) : option (Cell (T := T)) := cs !! Z.to_nat (p mod Capacity).

Definition mp_prod_ok (cs : list (Cell (T := T))) (R : Z) (l : list T) (p : mp_producer) : Prop :=
  let W := R + Z.of_nat (length l) in
  match p with
  | MIdle | MReload _ => True
  | MLook _ pos => 0 <= pos <= W
  | MSwap _ pos => 0 <= pos <= W /\ exists cell, slot cs pos = Some cell /\ pos <= sequence cell
  | MWrite v pos => R <= pos < W /\ l !! Z.to_nat (pos - R) = Some v /\ exists x, slot cs pos = Some (mkCell pos x)
  | MPublish v pos => R <= pos < W /\ l !! Z.to_nat (pos - R) = Some v /\ slot cs pos = Some (mkCell pos v)
  end.
(** The read index is one ahead of [R] between the consumer's swap and its
    release store. *)
Definition mp_cons_ok (cs : list (Cell (T := T))) (R rd : Z) (l : list T) (c : mp_consumer) : Prop :=
  match c with
  | NIdle | NReload => rd = R
  | NLook pos => rd = R /\ 0 <= pos <= R
  | NSwap pos => rd = R /\ 0 <= pos <= R /\ exists cell, slot cs pos = Some cell /\ pos + 1 <= sequence cell
  | NRead pos => pos = R /\ rd = R + 1 /\ exists x, head l = Some x /\ slot cs R = Some (mkCell (R + 1) x)
  | NPublish x pos => pos = R /\ rd = R + 1 /\ head l = Some x /\ slot cs R = Some (mkCell (R + 1) x)
  end.

Record cells_ok (cs : list (Cell (T := T))) (R : Z) (l : list T) : Prop := mkCellsOk {
  ok_length : Z.of_nat (length cs) = Capacity;
  ok_count : 0 <= R;
  ok_room : Z.of_nat (length l) <= Capacity;
  ok_taken : forall i x, l !! i = Some x -> exists cell, slot cs (R + Z.of_nat i) = Some cell /\
    (sequence cell = R + Z.of_nat i \/ cell = mkCell (R + Z.of_nat i + 1) x);
  ok_free : forall p, R + Z.of_nat (length l) <= p < R + Capacity -> exists x, slot cs p = Some (mkCell p x);
}.
Record mpsc_inv (s : mp_shared) (R : Z) (l : list T) : Prop := mkMpscInv {
  inv_cells : cells_ok (cells (mp_queue s)) R l;
  inv_write : mp_write_idx (mp_queue s) = R + Z.of_nat (length l);
  inv_prods : forall t p, mp_prods s !! t = Some p -> mp_prod_ok (cells (mp_queue s)) R l p;
  inv_apart : forall t u p p' pos v v', mp_prods s !! t = Some p -> mp_prods s !! u = Some p' ->
    owned p = Some (pos, v) -> owned p' = Some (pos, v') -> t = u;
  inv_cons : mp_cons_ok (cells (mp_queue s)) R (mp_read_idx (mp_queue s)) l (mp_cons s);
}.

Context (Hpos : 1 < Capacity < 2 ^ 62) (Hpow : Z.land Capacity (Capacity - 1) = 0).

(** ** Cells *)
(** No sequence number goes back. *)
Definition grows (cs cs' : list (Cell (T := T))) : Prop :=
  forall p cell, slot cs p = Some cell -> exists cell', slot cs' p = Some cell' /\ sequence cell <= sequence cell'.
Definition put (cs : list (Cell (T := T))) (p : Z) (c : Cell) : list Cell := <[Z.to_nat (p mod Capacity) := c]> cs.

Lemma grows_refl cs : grows cs cs.
Proof using Type. intros p cell H. exists cell. by split. Qed.

Lemma slot_put_same cs p c : Z.of_nat (length cs) = Capacity -> slot (put cs p c) p = Some c.
Proof using Hpos. intros H. apply list_lookup_insert_eq. pose proof (slot_range Capacity Hpos p). lia. Qed.
Lemma slot_put_other cs p p' c :
  0 <= p -> 0 <= p' -> p <> p' -> - Capacity < p - p' < Capacity -> slot (put cs p c) p' = slot cs p'.
Proof using Hpos. apply (cell_other Capacity Hpos). Qed.

Lemma grows_put cs p c c0 :
  Z.of_nat (length cs) = Capacity -> slot cs p = Some c0 -> sequence c0 <= sequence c -> grows cs (put cs p c).
Proof using Hpos.
  intros HL H0 Hs p' cell H. unfold slot, put in *. pose proof (slot_range Capacity Hpos p).
  destruct (decide (Z.to_nat (p mod Capacity) = Z.to_nat (p' mod Capacity))) as [E|N].
  - rewrite E in *. rewrite H in H0. injection H0 as <-. exists c. split; [|done].
    apply list_lookup_insert_eq. lia.
  - exists cell. by rewrite list_lookup_insert_ne.
Qed.

Lemma index_mod p : 0 <= p < 2 ^ 62 -> cell_index p = p mod Capacity.
Proof using Hpos Hpow. intros H. apply (slot_index Capacity Hpos Hpow). lia. Qed.

(** Every position shares its cell with one of the [Capacity] positions from [R]. *)
Lemma slot_window cs R p : exists p', R <= p' < R + Capacity /\ slot cs p' = slot cs p.
Proof using Hpos.
  exists (R + (p - R) mod Capacity). pose proof (Z.mod_pos_bound (p - R) Capacity ltac:(lia)).
  split; [lia|]. unfold slot. rewrite Z.add_mod_idemp_r by lia. by replace (R + (p - R)) with p by lia.
Qed.
Lemma slot_sequence cs R l p :
  cells_ok cs R l -> R <= p < R + Capacity ->
  exists cell, slot cs p = Some cell /\ p <= sequence cell <= p + 1.
Proof using Hpos.
  intros I Hp. destruct (Z.lt_ge_cases p (R + Z.of_nat (length l))) as [L|L].
  - destruct (lookup_lt_is_Some_2 l (Z.to_nat (p - R))) as [x Hx]; [lia|].
    destruct (ok_taken _ _ _ I _ _ Hx) as (cell & Hc & Hs).
    replace (R + Z.of_nat (Z.to_nat (p - R))) with p in * by lia. exists cell. split; [done|].
    destruct Hs as [->| ->]; cbn; lia.
  - destruct (ok_free _ _ _ I p ltac:(lia)) as [x Hx]. exists (mkCell p x). cbn. split; [done|lia].
Qed.
Lemma slot_bound cs R l p cell : cells_ok cs R l -> slot cs p = Some cell -> 0 <= sequence cell <= R + Capacity.
Proof using Hpos.
  intros I H. destruct (slot_window cs R p) as (p' & Hp & E).
  destruct (slot_sequence _ _ _ _ I Hp) as (cell' & E' & Hs). rewrite E, H in E'. injection E' as <-.
  pose proof (ok_count _ _ _ I). lia.
Qed.

(** What a look at a cell tells: the sequence number is at least the one seen. *)
Lemma looks_inv q R l pos off diff :
  cells_ok (cells q) R l -> 0 <= pos <= R + Z.of_nat (length l) -> 0 <= off <= 1 -> R + 2 * Capacity < 2 ^ 62 ->
  looks q pos off diff ->
  exists cell, slot (cells q) pos = Some cell /\ pos + off + diff <= sequence cell.
Proof using Hpos Hpow.
  intros I Hp Ho Hb (cell & s & Hg & Hs & Hd). pose proof (ok_room _ _ _ I).
  rewrite index_mod in Hg by lia. apply arr_get_inv in Hg as [_ E].
  pose proof (slot_bound _ _ _ _ _ I E) as Bs. unfold older in Hs.
  rewrite u64_small, !i64_small, signed64_Ret in Hd by lia. injection Hd as <-.
  exists cell. split; [done|lia].
Qed.

Lemma write_data_put q R l pos v q' cell :
  cells_ok (cells q) R l -> 0 <= pos < 2 ^ 62 -> slot (cells q) pos = Some cell ->
  write_data q pos v = Ret q' -> q' = mp_with_cells (put (cells q) pos (mkCell (sequence cell) v)) q.
Proof using Hpos Hpow.
  intros I Hp Hc. unfold write_data. pose proof (slot_range Capacity Hpos pos). pose proof (ok_length _ _ _ I).
  rewrite index_mod, (arr_get_Ret _ _ cell), bind_Ret, arr_set_Ret, bind_Ret by (done || lia). by injection 1.
Qed.
Lemma store_sequence_put q R l pos s q' cell :
  cells_ok (cells q) R l -> 0 <= pos < 2 ^ 62 -> slot (cells q) pos = Some cell ->
  store_sequence q pos s = Ret q' -> q' = mp_with_cells (put (cells q) pos (mkCell s (data cell))) q.
Proof using Hpos Hpow.
  intros I Hp Hc. unfold store_sequence. pose proof (slot_range Capacity Hpos pos). pose proof (ok_length _ _ _ I).
  rewrite index_mod, (arr_get_Ret _ _ cell), bind_Ret, arr_set_Ret, bind_Ret by (done || lia). by injection 1.
Qed.

(** The three changes to the cells: a position is claimed, the cell of a claimed
    position is filled and published, the first element is taken out. *)
Lemma cells_claim cs R l v :
  cells_ok cs R l -> Z.of_nat (length l) < Capacity -> cells_ok cs R (l ++ [v]).
Proof using Hpos.
  intros I HL. split; [apply I|apply I|rewrite length_app; cbn; lia| |].
  - intros i x [Hi|[Hi1 Hi2]]%lookup_app_Some; [by apply (ok_taken _ _ _ I)|].
    apply list_lookup_singleton_Some in Hi2 as [E <-]. replace i with (length l) by lia.
    destruct (ok_free _ _ _ I (R + Z.of_nat (length l)) ltac:(lia)) as [y Hy].
    exists (mkCell (R + Z.of_nat (length l)) y). split; [done|by left].
  - intros p Hp. apply (ok_free _ _ _ I). rewrite length_app in Hp. cbn in Hp. lia.
Qed.
Lemma cells_fill cs R l pos v c :
  cells_ok cs R l -> R <= pos < R + Z.of_nat (length l) -> l !! Z.to_nat (pos - R) = Some v ->
  (sequence c = pos \/ c = mkCell (pos + 1) v) -> cells_ok (put cs pos c) R l.
Proof using Hpos.
  intros I Hp Hv Hc. pose proof (ok_count _ _ _ I). pose proof (ok_room _ _ _ I).
  split; [unfold put; rewrite length_insert; apply I|apply I|apply I| |].
  - intros i x Hi. pose proof (lookup_lt_Some _ _ _ Hi). destruct (decide (R + Z.of_nat i = pos)) as [<-|N].
    + rewrite slot_put_same by apply I. exists c. split; [done|].
      replace (Z.to_nat (R + Z.of_nat i - R)) with i in Hv by lia. rewrite Hi in Hv. by injection Hv as <-.
    + rewrite slot_put_other by lia. by apply (ok_taken _ _ _ I).
  - intros p Hp'. rewrite slot_put_other by lia. by apply (ok_free _ _ _ I).
Qed.
Lemma cells_take cs R x l :
  cells_ok cs R (x :: l) -> cells_ok (put cs R (mkCell (R + Capacity) x)) (R + 1) l.
Proof using Hpos.
  intros I. pose proof (ok_count _ _ _ I). pose proof (ok_room _ _ _ I) as HL. cbn [length] in HL.
  split; [unfold put; rewrite length_insert; apply I|lia|lia| |].
  - intros i y Hi. pose proof (lookup_lt_Some _ _ _ Hi). rewrite slot_put_other by lia.
    pose proof (ok_taken _ _ _ I (S i) y Hi). by replace (R + 1 + Z.of_nat i) with (R + Z.of_nat (S i)) by lia.
  - intros p Hp. destruct (decide (p = R + Capacity)) as [->|N].
    + exists x. unfold slot. rewrite <- (Z.add_mod_idemp_r R Capacity), Z.mod_same, Z.add_0_r by lia.
      apply slot_put_same, I.
    + rewrite slot_put_other by lia. apply (ok_free _ _ _ I). cbn [length]. lia.
Qed.

(** ** Threads that do not move keep their part of the invariant *)
Lemma prod_frame cs cs' R R' l l' p :
  mp_prod_ok cs R l p -> grows cs cs' -> R + Z.of_nat (length l) <= R' + Z.of_nat (length l') ->
  (forall pos v, owned p = Some (pos, v) ->
     slot cs' pos = slot cs pos /\ R' <= pos /\ l' !! Z.to_nat (pos - R') = l !! Z.to_nat (pos - R)) ->
  mp_prod_ok cs' R' l' p.
Proof using Type.
  intros I G HW HO. destruct p; cbn in *; try done; [lia| | |].
  - destruct I as (Hp & cell & Hc & Hs). destruct (G _ _ Hc) as (cell' & Hc' & Hs').
    split; [lia|]. exists cell'. split; [done|lia].
  - destruct (HO pos value eq_refl) as (Ec & HR & El), I as (Hp & Hl & x & Hx).
    rewrite El, Ec. split_and!; [lia..|done|by exists x].
  - destruct (HO pos value eq_refl) as (Ec & HR & El), I as (Hp & Hl & Hx).
    rewrite El, Ec. split_and!; [lia..|done|done].
Qed.
Lemma cons_frame cs cs' R rd l l' c :
  mp_cons_ok cs R rd l c -> grows cs cs' ->
  (forall x, slot cs R = Some (mkCell (R + 1) x) -> slot cs' R = slot cs R) ->
  (forall x, head l = Some x -> head l' = Some x) ->
  mp_cons_ok cs' R rd l' c.
Proof using Type.
  intros I G HS HH. destruct c; cbn in *; try done.
  - destruct I as (? & ? & cell & Hc & Hs). destruct (G _ _ Hc) as (cell' & Hc' & Hs').
    split_and!; [lia..|]. exists cell'. split; [done|lia].
  - destruct I as (? & ? & x & Hh & Hx). split_and!; [done..|]. exists x. rewrite (HS x Hx). auto.
  - destruct I as (? & ? & Hh & Hx). rewrite (HS _ Hx). auto.
Qed.

(** The position a producer owns holds the position itself as sequence number. *)
Lemma owned_slot cs R l p pos v :
  mp_prod_ok cs R l p -> owned p = Some (pos, v) ->
  R <= pos < R + Z.of_nat (length l) /\ l !! Z.to_nat (pos - R) = Some v /\
  exists x, slot cs pos = Some (mkCell pos x).
Proof using Type.
  destruct p; try done; cbn; intros (Hp & Hl & Hx) [= <- <-]; (split; [done|]); (split; [done|]); [done|by eexists].
Qed.

(** A producer moves to [p']: the cells may change at the position it owns, an
    element may join the list, and a position it comes to own is new. *)
Lemma producer_inv q ps c R l t p q' p' k :
  mpsc_inv (mkMShared q ps c) R l -> ps !! t = Some p ->
  cells_ok (cells q') R (l ++ k) -> grows (cells q) (cells q') ->
  mp_write_idx q' = R + Z.of_nat (length (l ++ k)) -> mp_read_idx q' = mp_read_idx q ->
  (forall i, R <= i < R + Capacity -> (forall v, owned p <> Some (i, v)) -> slot (cells q') i = slot (cells q) i) ->
  mp_prod_ok (cells q') R (l ++ k) p' ->
  (forall pos v, owned p' = Some (pos, v) -> (exists v', owned p = Some (pos, v')) \/ R + Z.of_nat (length l) <= pos) ->
  mpsc_inv (mkMShared q' (<[t := p']> ps) c) R (l ++ k).
Proof using Hpos.
  intros [IC IW IP IA IN] Ht IC' G HW HR HS HP HO. cbn in *. pose proof (ok_room _ _ _ IC) as Hroom.
  pose proof (lookup_lt_Some _ _ _ Ht) as Lt. split; cbn; [done|done| | |].
  - intros u pu. destruct (decide (u = t)) as [->|N].
    + rewrite list_lookup_insert_eq by done. by intros [= <-].
    + rewrite list_lookup_insert_ne by done. intros Hu.
      apply (prod_frame (cells q) _ R R l); [by eapply IP|done|rewrite length_app; lia|].
      intros pos v Ho. destruct (owned_slot _ _ _ _ _ _ (IP _ _ Hu) Ho) as (Hp & Hl & _).
      split_and!; [|lia|by rewrite lookup_app_l by lia].
      apply HS; [lia|]. intros v' Ho'. apply N. by eapply (IA u t).
  - assert (forall u pu pos v v', u <> t -> ps !! u = Some pu -> owned pu = Some (pos, v) ->
      owned p' <> Some (pos, v')) as D.
    { intros u pu pos v v' N Hu Ho Ho'. destruct (HO _ _ Ho') as [[w Hw]|L].
      - apply N. by eapply (IA u t).
      - destruct (owned_slot _ _ _ _ _ _ (IP _ _ Hu) Ho) as (Hp & _). lia. }
    intros u w pu pw pos v v' [(<- & <- & _)|[Nu Hu]]%list_lookup_insert_Some
      [(Ew & <- & _)|[Nw Hw]]%list_lookup_insert_Some Ho Ho'; try done.
    + by destruct (D w pw pos v' v).
    + subst. by destruct (D u pu pos v v').
    + by eapply IA.
  - rewrite HR. eapply cons_frame; [done|done| |].
    + intros x Hx. apply HS; [lia|]. intros v Ho.
      destruct (owned_slot _ _ _ _ _ _ (IP _ _ Ht) Ho) as (_ & _ & y & Hy).
      rewrite Hx in Hy. injection Hy. lia.
    + intros x. by destruct l.
Qed.

(** A step that changes no cell and claims nothing. *)
Lemma producer_silent q ps c R l t p p' :
  mpsc_inv (mkMShared q ps c) R l -> ps !! t = Some p -> owned p' = None ->
  mp_prod_ok (cells q) R l p' -> mpsc_inv (mkMShared q (<[t := p']> ps) c) R l.
Proof using Hpos.
  intros I Ht Ho HP. pose proof I as [IC IW _ _ _]. cbn in *. rewrite <- (app_nil_r l).
  eapply producer_inv; rewrite ?app_nil_r; try done; [apply grows_refl|]. intros pos v. by rewrite Ho.
Qed.

Lemma emplace_claim q ps c R l t v :
  mpsc_inv (mkMShared q ps c) R l -> R + 2 * Capacity < 2 ^ 62 -> ps !! t = Some (MSwap v (mp_write_idx q)) ->
  mpsc_inv (mkMShared (mp_with_write (u64 (mp_write_idx q + 1)) q)
    (<[t := MWrite v (mp_write_idx q)]> ps) c) R (l ++ [v]).
Proof using Hpos.
  intros I Hb Ht. pose proof I as [IC IW IP _ _]. cbn in *. rewrite IW in *.
  pose proof (ok_room _ _ _ IC). pose proof (ok_count _ _ _ IC).
  set (W := R + Z.of_nat (length l)) in *.
  destruct (IP _ _ Ht) as (Hp & cell & Hc & Hs). fold W in Hp.
  assert (Z.of_nat (length l) < Capacity) as HL.
  { destruct (decide (Z.of_nat (length l) = Capacity)) as [E|]; [exfalso|lia].
    destruct (slot_sequence _ _ _ R IC ltac:(lia)) as (c0 & Hc0 & Hs0).
    assert (slot (cells q) W = slot (cells q) R) as EW.
    { unfold slot, W. by rewrite E, <- (Z.add_mod_idemp_r R Capacity), Z.mod_same, Z.add_0_r by lia. }
    rewrite EW, Hc0 in Hc. injection Hc as ->. lia. }
  destruct (ok_free _ _ _ IC W ltac:(lia)) as [x Hx].
  eapply producer_inv; cbn; try done.
  - by apply cells_claim.
  - apply grows_refl.
  - rewrite length_app, u64_small by lia. cbn. lia.
  - rewrite length_app. cbn. split_and!; [lia..| |by exists x].
    apply list_lookup_middle. lia.
  - intros pos w [= <- <-]. right. lia.
Qed.

Lemma emplace_fills q q' ps c R l t v pos p p' cell :
  mpsc_inv (mkMShared q ps c) R l -> ps !! t = Some p -> owned p = Some (pos, v) ->
  sequence cell = pos \/ cell = mkCell (pos + 1) v ->
  q' = mp_with_cells (put (cells q) pos cell) q ->
  p' = MIdle \/ p' = MPublish v pos /\ cell = mkCell pos v ->
  mpsc_inv (mkMShared q' (<[t := p']> ps) c) R l.
Proof using Hpos.
  intros I Ht Ho Hc -> Hp'. pose proof I as [IC IW IP _ _]. cbn in *.
  destruct (owned_slot _ _ _ _ _ _ (IP _ _ Ht) Ho) as (Hp & Hl & x & Hx).
  pose proof (ok_room _ _ _ IC). pose proof (ok_count _ _ _ IC).
  rewrite <- (app_nil_r l). eapply producer_inv; rewrite ?app_nil_r; try done; cbn.
  - by eapply cells_fill.
  - eapply grows_put; [apply IC|done|]. destruct Hc as [->| ->]; cbn; lia.
  - intros i Hi Ne. apply slot_put_other; try lia. intros ->. by eapply Ne.
  - destruct Hp' as [->|[-> ->]]; cbn; [done|]. split_and!; [lia..|done|by apply slot_put_same, IC].
  - intros pos' w Ho'. left. exists v. destruct Hp' as [->|[-> _]]; [done|].
    cbn in Ho'. by injection Ho' as <- <-.
Qed.

Lemma emplace_step_inv q ps c R l t p o q' p' :
  mpsc_inv (mkMShared q ps c) R l -> R + 2 * Capacity < 2 ^ 62 -> ps !! t = Some p ->
  emplace_step t q p o q' p' ->
  mpsc_inv (mkMShared q' (<[t := p']> ps) c) R (l ++ mp_claimed (option_list o)) /\ mp_popped (option_list o) = [].
Proof using Hpos Hpow.
  intros I Hb Ht Hst. pose proof I as [IC IW IP _ _]. cbn in *. pose proof (ok_room _ _ _ IC) as Hr.
  pose proof (ok_count _ _ _ IC). pose proof (IP _ _ Ht) as Hp. unfold older in *.
  destruct Hst; cbn in Hp; unfold older in *;
    cbn; rewrite ?app_nil_r; (split; [|done]); try (eapply producer_silent; cbn; try done; lia).
  - eapply producer_silent; cbn; try done. split; [done|].
    destruct (looks_inv q R l pos 0 0 IC Hp ltac:(lia) Hb H0) as (cell & Hc & Hs). exists cell. split; [done|lia].
  - subst pos. by apply emplace_claim.
  - destruct Hp as (Hp & Hl & x & Hx).
    eapply emplace_fills; [done|done|done| | |by right]; [by left|].
    exact (write_data_put q R l pos v _ _ IC ltac:(lia) Hx H0).
  - destruct Hp as (Hp & Hl & Hx).
    eapply emplace_fills; [done|done|done| | |by left]; [by right|].
    rewrite u64_small in H0 by lia. exact (store_sequence_put q R l pos _ _ _ IC ltac:(lia) Hx H0).
Qed.

(** ** The consumer *)
Lemma consumer_silent q ps c R l rd c' :
  mpsc_inv (mkMShared q ps c) R l -> mp_cons_ok (cells q) R rd l c' ->
  mpsc_inv (mkMShared (mp_with_read rd q) ps c') R l.
Proof using Type. intros [IC IW IP IA IN] H. by split. Qed.

(** The release store of a [pop] hands the cell over to the position a lap
    later; no producer owns it. *)
Lemma dequeue_take q ps R x l :
  mpsc_inv (mkMShared q ps (NPublish x R)) R (x :: l) -> mp_read_idx q = R + 1 ->
  mpsc_inv (mkMShared (mp_with_cells (put (cells q) R (mkCell (R + Capacity) x)) q) ps NIdle) (R + 1) l.
Proof using Hpos.
  intros [IC IW IP IA IN] Hrd. cbn in *. destruct IN as (_ & _ & _ & Hx).
  pose proof (ok_count _ _ _ IC). pose proof (ok_room _ _ _ IC) as Hr. cbn [length] in *.
  split; cbn; [by apply cells_take|lia| |done|done].
  intros t p Ht. apply (prod_frame (cells q) _ R _ (x :: l)); [by eapply IP| |cbn [length]; lia|].
  - eapply grows_put; [apply IC|done|cbn; lia].
  - intros pos v Ho. destruct (owned_slot _ _ _ _ _ _ (IP _ _ Ht) Ho) as (Hp & Hl & y & Hy).
    cbn [length] in Hp. assert (pos <> R). { intros ->. rewrite Hx in Hy. injection Hy. lia. }
    split_and!; [apply slot_put_other; lia|lia|].
    by replace (Z.to_nat (pos - R)) with (S (Z.to_nat (pos - (R + 1)))) by lia.
Qed.

Lemma with_read_same (q : MPSCQueue T) : mp_with_read (mp_read_idx q) q = q.
Proof using Type. by destruct q. Qed.

Lemma dequeue_step_inv q ps c R l o q' c' :
  mpsc_inv (mkMShared q ps c) R l -> R + 2 * Capacity < 2 ^ 62 -> dequeue_step q c o q' c' ->
  exists R' l', mpsc_inv (mkMShared q' ps c') R' l' /\ l = mp_popped (option_list o) ++ l' /\
    mp_claimed (option_list o) = [] /\ R' + Z.of_nat (length l') = R + Z.of_nat (length l).
Proof using Hpos Hpow.
  intros I Hb Hst. pose proof I as [IC IW _ _ IN]. cbn in *. pose proof (ok_room _ _ _ IC) as Hr.
  pose proof (ok_count _ _ _ IC).
  destruct Hst; cbn in IN; unfold older in *;
    try (exists R, l; split; [|done]; rewrite <- (with_read_same q); eapply consumer_silent; cbn; try done; lia).
  - exists R, l. split; [|done]. rewrite <- (with_read_same q). eapply consumer_silent; [done|]. cbn.
    destruct IN as (Hrd & Hp). destruct (looks_inv q R l pos 1 0 IC ltac:(lia) ltac:(lia) Hb H0) as (cell & Hc & Hs).
    split_and!; [lia..|]. exists cell. split; [done|lia].
  - exists R, l. split; [|done]. destruct IN as (Hrd & Hp & cell & Hc & Hs).
    eapply consumer_silent; [done|]. cbn. assert (pos = R) as -> by lia.
    rewrite u64_small by lia. split_and!; [done..|].
    destruct l as [|x l].
    + destruct (ok_free _ _ _ IC R) as [y Hy]; [cbn; lia|]. rewrite Hc in Hy. injection Hy as ->. cbn in Hs. lia.
    + destruct (ok_taken _ _ _ IC 0 x eq_refl) as (c0 & Hc0 & Hs0). rewrite Z.add_0_r in *.
      rewrite Hc in Hc0. injection Hc0 as <-. exists x. split; [done|]. destruct Hs0 as [E| ->]; [lia|done].
  - exists R, l. split; [|done]. rewrite <- (with_read_same q). eapply consumer_silent; [done|]. cbn.
    destruct IN as (-> & Hrd & x & Hh & Hx). pose proof (slot_range Capacity Hpos R).
    rewrite index_mod, (arr_get_Ret _ _ _ (proj1 H1) Hx) in H0 by lia. by injection H0 as <-.
  - destruct IN as (-> & Hrd & Hh & Hx). destruct l as [|y l]; [done|]. injection Hh as ->.
    exists (R + 1), l. cbn [length]. split_and!; [|done|done|lia].
    apply (store_sequence_put q R (x :: l) R _ _ _ IC ltac:(lia) Hx) in H0 as ->.
    rewrite u64_small by lia. by apply dequeue_take.
Qed.

Lemma mpsc_step_inv s o s' R l :
  mpsc_inv s R l -> R + 2 * Capacity < 2 ^ 62 -> mpsc_step s o s' ->
  exists R' l', mpsc_inv s' R' l' /\
    l ++ mp_claimed (option_list o) = mp_popped (option_list o) ++ l' /\
    R' + Z.of_nat (length l') = R + Z.of_nat (length l) + Z.of_nat (length (mp_claimed (option_list o))).
Proof using Hpos Hpow.
  intros I Hb Hst. destruct Hst as [t q ps c p o q' p' Ht He|q ps c o q' c' Hd].
  - destruct (emplace_step_inv _ _ _ _ _ _ _ _ _ _ I Hb Ht He) as (I' & ->).
    eexists R, _. split_and!; [done..|]. rewrite length_app. lia.
  - destruct (dequeue_step_inv _ _ _ _ _ _ _ _ I Hb Hd) as (R' & l' & I' & -> & -> & HL).
    exists R', l'. rewrite app_nil_r. split_and!; [done..|cbn; lia].
Qed.

(** ** Traces *)
Lemma start_inv n d : mpsc_inv (mkMShared (mpsc_init Capacity d) (replicate n MIdle) NIdle) 0 [].
Proof using Hpos.
  destruct (mpsc_init_rep Capacity Hpos d) as (HL & _ & _ & HR & HW & _ & HF). split; cbn in *.
  - split; cbn; [done|lia|lia| |exact HF]. intros i x Hi. by rewrite lookup_nil in Hi.
  - done.
  - intros t p Hp. by apply lookup_replicate_1 in Hp as [-> _].
  - intros t u p p' pos v v' Hp _ Ho _. apply lookup_replicate_1 in Hp as [-> _]. done.
  - done.
Qed.

Lemma claimed_length tr : (length (mp_claimed tr) <= length tr)%nat.
Proof using Type. induction tr as [|[] tr IH]; [done|..]; unfold mp_claimed in *; cbn [omap list_omap length] in *; lia. Qed.

Lemma mpsc_reachable_inv n d s tr :
  mpsc_reachable n d s tr -> Z.of_nat (length tr) + 2 * Capacity < 2 ^ 62 ->
  exists R l, mpsc_inv s R l /\ mp_claimed tr = mp_popped tr ++ l /\
    R + Z.of_nat (length l) = Z.of_nat (length (mp_claimed tr)).
Proof using Hpos Hpow.
  intros Hr Hb.
  induction Hr as [|s tr o s' Hr IH Hst]; [exists 0, []; split; [apply start_inv|done]|].
  rewrite length_app in Hb. destruct IH as (R & l & I & E & EW); [lia|].
  pose proof (claimed_length tr).
  destruct (mpsc_step_inv _ _ _ _ _ I ltac:(lia) Hst) as (R' & l' & I' & El & EW').
  exists R', l'. split; [done|]. unfold mp_claimed, mp_popped in *. rewrite !omap_app, length_app.
  split; [|lia]. by rewrite E, <- !app_assoc, El.
Qed.

(** Every element a thread claimed a position for was pushed by it, in the
    order of its calls, except the one it is working on. *)
Definition pending (p : mp_producer) : list T := match owned p with Some (_, v) => [v] | None => [] end.

Lemma emplace_step_thread t q p o q' p' :
  emplace_step t q p o q' p' ->
  pending p ++ claims_of t (option_list o) = pushes_of t (option_list o) ++ pending p' /\
  forall u, u <> t -> claims_of u (option_list o) = [] /\ pushes_of u (option_list o) = [].
Proof using Type.
  destruct 1; cbn; rewrite ?decide_True by done; split; try done; intros u N; rewrite ?decide_False by done; done.
Qed.
Lemma dequeue_step_thread q c o q' c' t :
  dequeue_step q c o q' c' -> claims_of t (option_list o) = [] /\ pushes_of t (option_list o) = [].
Proof using Type. by destruct 1. Qed.

Lemma mpsc_reachable_thread n d s tr t p :
  mpsc_reachable n d s tr -> mp_prods s !! t = Some p ->
  claims_of t tr = pushes_of t tr ++ pending p.
Proof using Type.
  intros Hr. revert t p. induction Hr as [|s tr o s' Hr IH Hst]; cbn; intros t p Hp.
  - by apply lookup_replicate_1 in Hp as [-> _].
  - unfold claims_of, pushes_of in *. rewrite !omap_app.
    destruct Hst as [u q ps c pu o q' p' Hu He|q ps c o q' c' Hd]; cbn in *.
    + destruct (emplace_step_thread _ _ _ _ _ _ He) as [E F].
      apply list_lookup_insert_Some in Hp as [(-> & -> & _)|[N Hp]].
      * rewrite (IH _ _ Hu), <- !app_assoc. by f_equal.
      * destruct (F t (not_eq_sym N)) as [E1 E2]. unfold claims_of, pushes_of in E1, E2.
        by rewrite E1, E2, !app_nil_r, (IH _ _ Hp).
    + destruct (dequeue_step_thread _ _ _ _ _ t Hd) as [E1 E2]. unfold claims_of, pushes_of in E1, E2.
      by rewrite E1, E2, !app_nil_r, (IH _ _ Hp).
Qed.
End Steps.
Arguments mp_producer : clear implicits.
Arguments mp_consumer : clear implicits.
Arguments mp_event : clear implicits.
Arguments mp_shared : clear implicits.
