(* ===== verification/QueueProperties.v ===== *)
(** * FluxTrade: what the lock-free queues guarantee

    First in, first out, with the capacity as the only reason to refuse an
    element: for a lone caller (both queues), and under any interleaving, of a
    producer and a consumer on the single-producer queue, of any number of
    producers and a consumer on the multi-producer one. *)
From S2P Require Import Prelude RingBuffer QueueConcurrency MPSCQueue MPSCConcurrency.
Local Open Scope Z_scope.

Section Calls.
Context {T : Type}.

(** One call on a queue, and what it returns. *)
Inductive call : Type := CallPush (value : T) | CallPop.
Inductive answer : Type := Pushed (ok : bool) | Popped (value : option T).

Definition spsc_call (Capacity : Z) (q : SPSCQueue T) (c : call) : outcome (answer * SPSCQueue T) :=
  match c with
  | CallPush v => r ← push Capacity q v; Ret (Pushed r.1, r.2)
  | CallPop => r ← pop Capacity q; Ret (Popped r.1, r.2)
  end.
Fixpoint spsc_calls (Capacity : Z) (q : SPSCQueue T) (cs : list call) : outcome (list answer) :=
  match cs with
  | [] => Ret []
  | c :: cs => r ← spsc_call Capacity q c; rest ← spsc_calls Capacity r.2 cs; Ret (r.1 :: rest)
  end.

(** The multi-producer queue; each call comes with the spurious failures of
    its compare-and-swap. *)
Definition mpsc_call (Capacity : Z) (q : MPSCQueue T) (c : call * list bool) : outcome (answer * MPSCQueue T) :=
  match c.1 with
  | CallPush v => r ← mpsc_push Capacity q v c.2; Ret (Pushed r.1, r.2)
  | CallPop => r ← mpsc_pop Capacity q c.2; Ret (Popped r.1, r.2)
  end.
Fixpoint mpsc_calls (Capacity : Z) (q : MPSCQueue T) (cs : list (call * list bool)) : outcome (list answer) :=
  match cs with
  | [] => Ret []
  | c :: cs => r ← mpsc_call Capacity q c; rest ← mpsc_calls Capacity r.2 cs; Ret (r.1 :: rest)
  end.

(** The specification: a bounded list. *)
Definition fifo_call (Capacity : Z) (l : list T) (c : call) : answer * list T :=
  match c with
  | CallPush v => if Z.of_nat (length l) <? Capacity then (Pushed true, l ++ [v]) else (Pushed false, l)
  | CallPop => match l with [] => (Popped None, []) | x :: l => (Popped (Some x), l) end
  end.
Fixpoint fifo_calls (Capacity : Z) (l : list T) (cs : list call) : list answer :=
  match cs with
  | [] => []
  | c :: cs => let r := fifo_call Capacity l c in r.1 :: fifo_calls Capacity r.2 cs
  end.

Lemma spsc_call_spec Capacity q l c :
  0 < Capacity < 2 ^ 64 -> Z.land Capacity (Capacity - 1) = 0 -> queue_rep Capacity q l ->
  exists q', spsc_call Capacity q c = Ret ((fifo_call Capacity l c).1, q') /\
    queue_rep Capacity q' (fifo_call Capacity l c).2.
Proof.
  intros Hpos Hpow I. destruct c as [v|]; unfold spsc_call, fifo_call, push.
  - destruct (Z.ltb_spec (Z.of_nat (length l)) Capacity) as [L|L].
    + destruct (emplace_room Capacity Hpos Hpow q l v I L) as (q' & -> & I'). eauto.
    + rewrite (emplace_full Capacity Hpos q l v I) by (destruct I as (_ & ? & _); lia). eauto.
  - destruct l as [|x l].
    + rewrite (pop_nil Capacity q I). eauto.
    + destruct (pop_cons Capacity Hpos Hpow q x l I) as (q' & -> & I'). eauto.
Qed.

Lemma mpsc_call_spec Capacity q R l c :
  1 < Capacity < 2 ^ 62 -> Z.land Capacity (Capacity - 1) = 0 ->
  mpsc_rep Capacity q R l -> R + Capacity < 2 ^ 62 ->
  exists q' R', mpsc_call Capacity q c = Ret ((fifo_call Capacity l c.1).1, q') /\
    mpsc_rep Capacity q' R' (fifo_call Capacity l c.1).2 /\ R' <= R + 1.
Proof.
  intros Hpos Hpow I Hb. destruct c as [[v|] sp]; unfold mpsc_call, fifo_call, mpsc_push; cbn [fst snd].
  - destruct (Z.ltb_spec (Z.of_nat (length l)) Capacity) as [L|L].
    + destruct (mpsc_emplace_room Capacity Hpos Hpow q R l v sp I L Hb) as (q' & -> & I').
      exists q', R. split_and!; [done..|lia].
    + rewrite (mpsc_emplace_full Capacity Hpos Hpow q R l v sp I) by (done || destruct I as (_ & _ & ? & _); lia).
      exists q, R. split_and!; [done..|lia].
  - destruct l as [|x l].
    + rewrite (mpsc_pop_nil Capacity Hpos Hpow q R sp I Hb). exists q, R. split_and!; [done..|lia].
    + destruct (mpsc_pop_cons Capacity Hpos Hpow q R x l sp I Hb) as (q' & -> & I').
      exists q', (R + 1). split_and!; [done..|lia].
Qed.
End Calls.
Arguments call : clear implicits.

(** The single-producer queue is a bounded FIFO: any sequence of pushes
    and pops returns what a list of at most [Capacity] elements would return,
    however often the 64-bit indices wrap. *)
Theorem spsc_refines_fifo {T} (Capacity : Z) (d : T) (cs : list (call T)) :
  0 < Capacity < 2 ^ 64 -> Z.land Capacity (Capacity - 1) = 0 ->
  spsc_calls Capacity (queue_init Capacity d) cs = Ret (fifo_calls Capacity [] cs).
Proof.
  intros Hpos Hpow. pose proof (queue_init_rep Capacity Hpos d) as I. revert I.
  generalize (queue_init Capacity d) as q. generalize (@nil T) as l.
  induction cs as [|c cs IH]; intros l q I; [done|]. cbn [spsc_calls fifo_calls].
  destruct (spsc_call_spec Capacity q l c Hpos Hpow I) as (q' & -> & I').
  rewrite bind_Ret. cbn [fst snd]. by rewrite (IH _ _ I'), bind_Ret.
Qed.

Lemma spsc_refines_fifo_witness :
  spsc_calls 4096 (queue_init 4096 0) [CallPush 5; CallPush 6; CallPop; CallPop; CallPop] =
  Ret [Pushed true; Pushed true; Popped (Some 5); Popped (Some 6); Popped None].
Proof.
  change [Pushed true; Pushed true; Popped (Some 5); Popped (Some 6); Popped None]
    with (fifo_calls 4096 [] [CallPush 5; CallPush 6; CallPop; CallPop; CallPop]).
  apply spsc_refines_fifo; [lia|reflexivity].
Defined.

(** C30: however a producer inside [emplace] and a consumer inside [pop]
    interleave, and however stale the other thread's index they load, the
    elements popped are, in order, the first elements pushed: nothing is lost,
    duplicated or reordered, and at most [Capacity] elements are in flight. *)
Theorem spsc_fifo {T} (Capacity : Z) (d : T) s tr :
  0 < Capacity < 2 ^ 64 -> Z.land Capacity (Capacity - 1) = 0 ->
  spsc_reachable Capacity d s tr ->
  exists l, pushed tr = popped tr ++ l /\ Z.of_nat (length l) <= Capacity.
Proof.
  intros Hpos Hpow Hr.
  destruct (spsc_reachable_inv Capacity Hpos Hpow d s tr Hr) as (R & l & I & E).
  exists l. split; [done|]. destruct I as (_ & _ & _ & _ & Rs & Ws & _ & _ & ? & ? & _). lia.
Qed.

(** A run: 7 is pushed; the consumer is about to read it while the producer is
    about to write 8. *)
Lemma load_same : may_load 0 0 0.
Proof. by exists 0. Qed.
Lemma load_next : may_load 0 1 1.
Proof. by exists 1. Qed.

Definition mid_run : shared :=
  mkShared {| buffer := [7; 0]; write_idx := 1; read_idx := 0 |} (PWrite 8 1) (CRead 0) 0 1.
Lemma mid_run_reachable : spsc_reachable 2 0 mid_run [EPushed 7].
Proof.
  pose (q0 := queue_init 2 0). pose (q1 := mkQueue [7; 0] 0 0). pose (q2 := mkQueue [7; 0] 1 0).
  pose proof (spsc_start (T := Z) 2 0) as H.
  pose proof (spsc_more 2 0 _ _ _ _ H (step_push 2 q0 CIdle 0 0 7)) as H1.
  pose proof (spsc_more 2 0 _ _ _ _ H1 (step_push_room 2 q0 CIdle 0 0 7 0 0 load_same eq_refl)) as H2.
  pose proof (spsc_more 2 0 _ _ _ _ H2 (step_push_write 2 q0 CIdle 0 0 7 0 [7; 0] eq_refl)) as H3.
  pose proof (spsc_more 2 0 _ _ _ _ H3 (step_push_publish 2 q1 CIdle 0 0 7 0)) as H4.
  pose proof (spsc_more 2 0 _ _ _ _ H4 (step_push 2 q2 CIdle 0 0 8)) as H5.
  pose proof (spsc_more 2 0 _ _ _ _ H5 (step_push_room 2 q2 CIdle 0 0 8 1 0 load_same eq_refl)) as H6.
  pose proof (spsc_more 2 0 _ _ _ _ H6 (step_pop 2 q2 _ 0 0)) as H7.
  assert (0 <> 1) as N by lia.
  exact (spsc_more 2 0 _ _ _ _ H7 (step_pop_some 2 q2 _ 0 0 0 1 load_next N)).
Qed.

Lemma spsc_fifo_witness :
  exists l, pushed (T := Z) [EPushed 7] = popped [EPushed 7] ++ l /\ Z.of_nat (length l) <= 2.
Proof. apply (spsc_fifo 2 0 mid_run); [lia|reflexivity|apply mid_run_reachable]. Defined.

(** The slot accesses, which are not atomic, never race: while the
    producer is about to write a slot, the consumer is not about to read it. *)
Theorem spsc_no_race {T} (Capacity : Z) (d : T) s tr v w r :
  0 < Capacity < 2 ^ 64 -> Z.land Capacity (Capacity - 1) = 0 ->
  spsc_reachable Capacity d s tr ->
  sh_prod s = PWrite v w -> sh_cons s = CRead r ->
  Z.land w (Capacity - 1) <> Z.land r (Capacity - 1).
Proof.
  intros Hpos Hpow Hr Hp Hc.
  destruct (spsc_reachable_inv Capacity Hpos Hpow d s tr Hr) as (R & l & I & _).
  destruct I as (_ & _ & _ & _ & Rs & Ws & _ & _ & B1 & B2 & Pp & Pc).
  rewrite Hp in Pp. rewrite Hc in Pc. destruct Pp as [-> Pw], Pc as [-> Pr].
  rewrite !(slot_mod Capacity Hpos Hpow). intros E. symmetry in E.
  apply (slot_inj Capacity Hpos) in E; lia.
Qed.

Lemma spsc_no_race_witness : Z.land 1 (2 - 1) <> Z.land 0 (2 - 1).
Proof. apply (spsc_no_race 2 0 mid_run [EPushed 7] 8 1 0); [lia|reflexivity|apply mid_run_reachable|reflexivity..]. Defined.

Tactic Notation "produces" hyp(H) constr(t) uconstr(c) :=
  eapply contended_more in H; [|eapply (contended_produce _ t); [done|exact c]].
Tactic Notation "consumes" hyp(H) uconstr(c) :=
  eapply contended_more in H; [|eapply contended_consume; exact c].

(** The single-producer queue does lose an element when two threads push,
    as two engines do on the exchange's outbound queue: both load the same write
    index, both calls return [true], and the queue then holds one of the two
    elements; the consumer takes it out and finds the queue empty. *)
Theorem two_producers_lose {T} (Capacity : Z) (d a b : T) :
  0 < Capacity < 2 ^ 64 ->
  exists q tr seen1 seen2 cs,
    contended_reachable Capacity 2 d (mkContended q [(PIdle, seen1); (PIdle, seen2)] CIdle cs) tr /\
    pushed tr = [a; b] /\ popped tr = [b] /\ queue_empty q = true.
Proof.
  intros Hpos. set (q0 := queue_init Capacity d).
  set (qa := with_buffer q0 (<[0%nat := a]> (buffer q0))). set (qb := with_buffer q0 (<[0%nat := b]> (buffer qa))).
  set (q1 := with_write qb 1).
  assert (Z.of_nat (length (buffer q0)) = Capacity) as L by (cbn; rewrite length_replicate; lia).
  assert (forall v (q : SPSCQueue T), Z.of_nat (length (buffer q)) = Capacity ->
    arr_set (buffer q) (Z.land 0 (Capacity - 1)) v = Ret (<[0%nat := v]> (buffer q))) as W.
  { intros v q Lq. rewrite Z.land_0_l, arr_set_Ret by lia. done. }
  exists (with_read q1 1), [EPushed a; EPushed b; EPopped b], 0, 0, 1. split_and!; [|done..].
  assert (u64 (0 - 0) < Capacity) as Hroom by (change (u64 (0 - 0)) with 0; lia).
  assert (arr_get (buffer q1) (Z.land 0 (Capacity - 1)) = Ret b) as Rb.
  { rewrite Z.land_0_l. apply arr_get_Ret; [lia|]. apply list_lookup_insert_eq. cbn. rewrite length_insert. cbn in L. lia. }
  assert (Z.of_nat (length (buffer qa)) = Capacity) as La by (cbn; rewrite length_insert; exact L).
  pose proof (contended_start Capacity 2 d) as H. cbn [replicate] in H. fold q0 in H.
  produces H 0%nat (step_push Capacity q0 CIdle 0 0 a).
  produces H 1%nat (step_push Capacity q0 CIdle 0 0 b).
  produces H 0%nat (step_push_room Capacity q0 CIdle 0 0 a 0 0 load_same Hroom).
  produces H 1%nat (step_push_room Capacity q0 CIdle 0 0 b 0 0 load_same Hroom).
  produces H 0%nat (step_push_write Capacity q0 CIdle 0 0 a 0 _ (W a q0 L)). fold qa in H.
  produces H 1%nat (step_push_write Capacity qa CIdle 0 0 b 0 _ (W b qa La)).
  produces H 0%nat (step_push_publish Capacity qb CIdle 0 0 a 0).
  produces H 1%nat (step_push_publish Capacity q1 CIdle 0 0 b 0).
  consumes H (step_pop Capacity q1 PIdle 0 0).
  consumes H (step_pop_some Capacity q1 PIdle 0 0 0 1 load_next ltac:(lia)).
  consumes H (step_pop_read Capacity q1 PIdle 0 1 0 b Rb).
  consumes H (step_pop_publish Capacity q1 PIdle 0 1 0 b).
  exact H.
Qed.

Lemma two_producers_lose_witness : exists q tr seen1 seen2 cs,
  contended_reachable 4096 2 0 (mkContended q [(PIdle, seen1); (PIdle, seen2)] CIdle cs) tr /\
  pushed tr = [5; 6] /\ popped tr = [6] /\ queue_empty q = true.
Proof. apply (two_producers_lose 4096 0 5 6). lia. Defined.

(** The multi-producer queue called by one thread at a time is a bounded
    FIFO too, whatever compare-and-swaps fail spuriously; a capacity of one is
    excluded (see [mpsc_capacity_one]). *)
Lemma mpsc_refines_fifo {T} (Capacity : Z) (d : T) (cs : list (call T * list bool)) :
  1 < Capacity -> Z.land Capacity (Capacity - 1) = 0 ->
  Z.of_nat (length cs) + Capacity < 2 ^ 62 ->
  mpsc_calls Capacity (mpsc_init Capacity d) cs = Ret (fifo_calls Capacity [] cs.*1).
Proof.
  intros Hpos Hpow. assert (exists R, R = 0) as [R HR] by eauto. rewrite <- (Z.add_0_l (_ + _)).
  rewrite <- HR at 1. intros Hb. assert (1 < Capacity < 2 ^ 62) as Hc by lia.
  pose proof (mpsc_init_rep Capacity Hc d) as I. rewrite <- HR in I. clear HR. revert R Hb I.
  generalize (mpsc_init Capacity d) as q. generalize (@nil T) as l.
  induction cs as [|c cs IH]; intros l q R Hb I; [done|].
  cbn [mpsc_calls fifo_calls fmap list_fmap length] in *.
  destruct (mpsc_call_spec Capacity q R l c Hc Hpow I ltac:(lia)) as (q' & R' & -> & I' & HR').
  rewrite bind_Ret. cbn [fst snd]. by rewrite (IH _ _ R' ltac:(lia) I'), bind_Ret.
Qed.

(** With a capacity of one, which the static assertion admits, the
    multi-producer queue accepts a second element, overwriting the first, and
    the next [pop] spins for ever (no number of iterations is enough). *)
Lemma mpsc_capacity_one (a b : Z) (spurious : list bool) :
  mpsc_calls 1 (mpsc_init 1 0) [(CallPush a, []); (CallPush b, [])] = Ret [Pushed true; Pushed true] /\
  mpsc_calls 1 (mpsc_init 1 0) [(CallPush a, []); (CallPush b, []); (CallPop, spurious)] = Diverge.
Proof.
  assert (claim 1 [mkCell 2 b] 0 0 1 spurious = Diverge) as E
    by (induction spurious as [|x sp IH]; [reflexivity|]; exact IH).
  assert (mpsc_push 1 (mpsc_init 1 0) a [] = Ret (true, mkMPSC [mkCell 1 a] 1 0)) as E1 by reflexivity.
  assert (mpsc_push 1 (mkMPSC [mkCell 1 a] 1 0) b [] = Ret (true, mkMPSC [mkCell 2 b] 2 0)) as E2 by reflexivity.
  split; [reflexivity|]. unfold mpsc_calls, mpsc_call. cbn [fst snd].
  rewrite E1, !bind_Ret. cbn [fst snd]. rewrite E2, !bind_Ret. cbn [fst snd].
  unfold mpsc_pop. cbn [cells mp_read_idx]. by rewrite E.
Qed.

(** C31: however any number of producers inside [emplace] and a consumer inside
    [pop] interleave, and however stale the indices and sequence numbers they
    load, the elements popped are, in order, the first elements a position was
    claimed for, and every producer's elements are claimed in the order it pushes
    them: nothing is lost, duplicated or reordered, and at most [Capacity]
    elements are in flight.  The capacity is a power of two above 1, and the run,
    with twice the capacity, stays below 2^62 events. *)
Theorem mpsc_fifo {T} (Capacity : Z) (n : nat) (d : T) s tr :
  1 < Capacity -> Z.land Capacity (Capacity - 1) = 0 ->
  Z.of_nat (length tr) + 2 * Capacity < 2 ^ 62 ->
  mpsc_reachable Capacity n d s tr ->
  (exists l, mp_claimed tr = mp_popped tr ++ l /\ Z.of_nat (length l) <= Capacity) /\
  (forall t p, mp_prods s !! t = Some p -> claims_of t tr = pushes_of t tr ++ pending p).
Proof.
  intros Hpos Hpow Hb Hr. split.
  - destruct (mpsc_reachable_inv Capacity ltac:(lia) Hpow n d s tr Hr Hb) as (R & l & I & E & _).
    exists l. split; [done|]. apply (ok_room _ _ _ _ (inv_cells _ _ _ _ I)).
  - intros t p. by eapply mpsc_reachable_thread.
Qed.

(** A run on a queue of four cells: producer 0 has pushed 7 and claimed a
    position for 9, producer 1 has claimed one for 8 before that; the consumer is
    about to read 7. *)
Definition busy_cells : list (Cell (T := Z)) := [mkCell 1 7; mkCell 1 0; mkCell 2 0; mkCell 3 0].
Definition busy_run : mp_shared Z :=
  mkMShared (mkMPSC busy_cells 3 1) [MWrite 9 2; MWrite 8 1] (NRead 0).
Definition busy_trace : list (mp_event Z) := [MClaimed 0 7; MPushed 0 7; MClaimed 1 8; MClaimed 0 9].

Lemma older_same i : 0 <= i -> older i i.
Proof. by split. Qed.
Lemma looks_now (q : MPSCQueue Z) pos off diff cell :
  arr_get (cells q) (cell_index 4 pos) = Ret cell -> 0 <= sequence cell ->
  signed64 (i64 (sequence cell) - i64 (u64 (pos + off))) = Ret diff -> looks 4 q pos off diff.
Proof. intros. exists cell, (sequence cell). split_and!; [done|by apply older_same|done]. Qed.
Ltac now_step := first [by apply older_same | by eapply looks_now | done].
Tactic Notation "prod_step" hyp(H) constr(t) uconstr(c) :=
  eapply mpsc_more in H; [|eapply (producer_moves 4 t); [reflexivity|eapply c; now_step]]; vm_compute in H.
Tactic Notation "cons_step" hyp(H) uconstr(c) :=
  eapply mpsc_more in H; [|eapply consumer_moves; eapply c; now_step]; vm_compute in H.

Lemma busy_run_reachable : mpsc_reachable 4 2 0 busy_run busy_trace.
Proof.
  pose proof (mpsc_start (T := Z) 4 2 0) as H.
  prod_step H 0%nat (fun q => emplace_call 4 0 q 7). prod_step H 0%nat emplace_turn. prod_step H 0%nat emplace_swap.
  prod_step H 0%nat emplace_write. prod_step H 0%nat emplace_publish.
  prod_step H 1%nat (fun q => emplace_call 4 1 q 8). prod_step H 1%nat emplace_turn. prod_step H 1%nat emplace_swap.
  prod_step H 0%nat (fun q => emplace_call 4 0 q 9). prod_step H 0%nat emplace_turn. prod_step H 0%nat emplace_swap.
  cons_step H dequeue_call. cons_step H dequeue_turn. cons_step H dequeue_swap.
  exact H.
Qed.

Lemma mpsc_fifo_witness :
  (exists l, [7; 8; 9] = [] ++ l /\ Z.of_nat (length l) <= 4) /\ claims_of 0 busy_trace = pushes_of 0 busy_trace ++ [9].
Proof.
  destruct (mpsc_fifo 4 2 0 busy_run busy_trace) as [H1 H2]; [lia|done|cbn; lia|apply busy_run_reachable|].
  split; [exact H1|]. exact (H2 0%nat _ eq_refl).
Defined.

(** C32: the data of the cells, written and read by plain accesses, is never
    raced for: while a producer is about to write a cell, no other producer is
    about to write it and the consumer is not about to read it.  The capacity is a
    power of two above 1, and the run, with twice the capacity, stays below 2^62
    events. *)
Theorem mpsc_no_race {T} (Capacity : Z) (n : nat) (d : T) s tr t v w :
  1 < Capacity -> Z.land Capacity (Capacity - 1) = 0 ->
  Z.of_nat (length tr) + 2 * Capacity < 2 ^ 62 ->
  mpsc_reachable Capacity n d s tr -> mp_prods s !! t = Some (MWrite v w) ->
  (forall u v' w', u <> t -> mp_prods s !! u = Some (MWrite v' w') ->
     cell_index Capacity w <> cell_index Capacity w') /\
  (forall r, mp_cons s = NRead r -> cell_index Capacity w <> cell_index Capacity r).
Proof.
  intros Hpos Hpow Hb Hr Ht. assert (1 < Capacity < 2 ^ 62) as Hc by lia.
  destruct (mpsc_reachable_inv Capacity Hc Hpow n d s tr Hr Hb) as (R & l & [IC IW IP IA IN] & _ & E).
  pose proof (ok_room _ _ _ _ IC). pose proof (ok_count _ _ _ _ IC).
  pose proof (claimed_length tr).
  destruct (IP _ _ Ht) as (Hw & _ & x & Hx). split.
  - intros u v' w' N Hu. destruct (IP _ _ Hu) as (Hw' & _). rewrite !(index_mod Capacity Hc Hpow) by lia.
    intros Em. assert (w = w') as -> by (destruct (Z.le_ge_cases w w'); [|symmetry in Em; symmetry]; eapply (slot_inj Capacity); eauto; lia).
    apply N. by eapply (IA u t).
  - intros r Hn. rewrite Hn in IN. destruct IN as (-> & _ & y & _ & Hy).
    rewrite !(index_mod Capacity Hc Hpow) by lia. intros Em. unfold slot in *. rewrite Em, Hy in Hx.
    injection Hx as E1 _. assert (w = R + 1) as -> by lia.
    symmetry in Em. apply (slot_inj Capacity) in Em; lia.
Qed.

Lemma mpsc_no_race_witness : cell_index 4 2 <> cell_index 4 1 /\ cell_index 4 2 <> cell_index 4 0.
Proof.
  destruct (mpsc_no_race 4 2 0 busy_run busy_trace 0%nat 9 2) as [H1 H2]; [lia|done|cbn; lia|apply busy_run_reachable|reflexivity|].
  split; [by apply (H1 1%nat 8 1)|by apply (H2 0)].
Defined.
