(* ===== verification/Wire.v ===== *)
(** * FluxTrade: the binary protocol

    The packet structs of src/gateway/include/gateway/protocol.hpp as records,
    their memory layout (little-endian, no implicit padding but the one noted),
    [PacketDecoder::decode] and [PacketEncoder::encode].  A struct is read and
    written through the list of its fields: [packet_bytes] is the memory the
    struct occupies and [packet_at] reinterprets memory as the struct, which is
    undefined when the memory is too short. *)
From S2P Require Import Prelude.
Local Open Scope Z_scope.

(** ** Bytes and fields *)
Fixpoint le_bytes (n : nat) (z : Z) : list Z :=
  match n with O => [] | S n => z mod 256 :: le_bytes n (z / 256) end.
Fixpoint le_value (l : list Z) : Z :=
  match l with [] => 0 | b :: l => b + 256 * le_value l end.

Inductive field : Type := FInt (width : nat) (value : Z) | FRaw (bytes : list Z).
Inductive layout : Type := TInt (width : nat) | TRaw (count : nat).

Definition field_bytes (f : field) : list Z :=
  match f with FInt n v => le_bytes n v | FRaw l => l end.
Definition layout_size (t : layout) : nat := match t with TInt n => n | TRaw n => n end.
Definition field_of (t : layout) (l : list Z) : field :=
  match t with TInt n => FInt n (le_value l) | TRaw _ => FRaw l end.
(** A field holds a value of its type. *)
Definition field_ok (t : layout) (f : field) : Prop :=
  match t, f with
  | TInt n, FInt m v => n = m /\ 0 <= v < 256 ^ Z.of_nat n
  | TRaw n, FRaw l => length l = n
  | _, _ => False
  end.

Definition layout_bytes (ts : list layout) : nat := sum_list_with layout_size ts.
Definition fields_bytes (fs : list field) : list Z := concat (field_bytes <$> fs).
Fixpoint fields_at (ts : list layout) (mem : list Z) : outcome (list field) :=
  match ts with
  | [] => Ret []
  | t :: ts =>
      if (length mem <? layout_size t)%nat then Undefined
      else fs ← fields_at ts (drop (layout_size t) mem); Ret (field_of t (take (layout_size t) mem) :: fs)
  end.

Lemma le_bytes_length n z : length (le_bytes n z) = n.
Proof. revert z. induction n; intros z; simpl; [done|]. by rewrite IHn. Qed.

Lemma le_value_bytes n z : 0 <= z < 256 ^ Z.of_nat n -> le_value (le_bytes n z) = z.
Proof.
  revert z. induction n as [|n IH]; intros z H; cbn [le_bytes le_value].
  - change (256 ^ Z.of_nat 0) with 1 in H. lia.
  - rewrite Nat2Z.inj_succ, Z.pow_succ_r in H by lia.
    rewrite IH; [pose proof (Z.div_mod z 256); lia|].
    split; [apply Z.div_pos; lia|]. apply Z.div_lt_upper_bound; lia.
Qed.

Lemma field_bytes_length t f : field_ok t f -> length (field_bytes f) = layout_size t.
Proof. destruct t, f; simpl; try done. intros [-> _]. apply le_bytes_length. Qed.
Lemma field_of_bytes t f : field_ok t f -> field_of t (field_bytes f) = f.
Proof. destruct t, f; simpl; try done. intros [-> H]. by rewrite le_value_bytes. Qed.

Lemma fields_bytes_length ts fs : Forall2 field_ok ts fs -> length (fields_bytes fs) = layout_bytes ts.
Proof.
  unfold fields_bytes, layout_bytes. induction 1 as [|t f ts fs H _ IH]; [done|].
  cbn. by rewrite length_app, IH, (field_bytes_length _ _ H).
Qed.

Lemma fields_at_bytes ts fs rest :
  Forall2 field_ok ts fs -> fields_at ts (fields_bytes fs ++ rest) = Ret fs.
Proof.
  intros F. revert rest. unfold fields_bytes. induction F as [|t f ts fs H _ IH]; intros rest; [done|].
  cbn [fmap list_fmap concat fields_at]. rewrite <- app_assoc.
  pose proof (field_bytes_length _ _ H) as L.
  destruct (Nat.ltb_spec (length (field_bytes f ++ concat (field_bytes <$> fs) ++ rest)) (layout_size t)) as [E|_];
    [rewrite length_app in E; lia|].
  rewrite <- L, take_app_length, drop_app_length, (field_of_bytes _ _ H).
  by rewrite (IH rest), bind_Ret.
Qed.

(** Reading stops where the struct ends. *)
Lemma fields_at_app ts mem rest :
  (layout_bytes ts <= length mem)%nat -> fields_at ts (mem ++ rest) = fields_at ts mem.
Proof.
  unfold layout_bytes. revert mem. induction ts as [|t ts IH]; intros mem H; [done|].
  cbn [sum_list_with fields_at] in *. rewrite length_app.
  destruct (Nat.ltb_spec (length mem + length rest) (layout_size t)); [lia|].
  destruct (Nat.ltb_spec (length mem) (layout_size t)); [lia|].
  rewrite take_app_le, drop_app_le by lia. rewrite IH; [done|]. rewrite length_drop. lia.
Qed.
(** A field read for a layout has its constructor and, for an array, its length. *)
Definition field_fits (t : layout) (f : field) : Prop :=
  match t, f with TInt _, FInt _ _ => True | TRaw n, FRaw l => length l = n | _, _ => False end.
Lemma fields_at_total ts mem :
  (layout_bytes ts <= length mem)%nat -> exists fs, fields_at ts mem = Ret fs /\ Forall2 field_fits ts fs.
Proof.
  unfold layout_bytes. revert mem. induction ts as [|t ts IH]; intros mem H; [by exists []|].
  cbn [sum_list_with fields_at] in *.
  destruct (Nat.ltb_spec (length mem) (layout_size t)); [lia|].
  destruct (IH (drop (layout_size t) mem)) as (fs & -> & F); [rewrite length_drop; lia|].
  rewrite bind_Ret. eexists. split; [done|]. constructor; [|done].
  destruct t; cbn; [done|]. rewrite length_take. cbn in *. lia.
Qed.

(** Memory that is too short cannot be read as the struct. *)
Lemma fields_at_short ts mem : (length mem < layout_bytes ts)%nat -> fields_at ts mem = Undefined.
Proof.
  unfold layout_bytes. revert mem. induction ts as [|t ts IH]; intros mem H; cbn [sum_list_with fields_at] in *; [lia|].
  destruct (Nat.ltb_spec (length mem) (layout_size t)); [done|]. rewrite IH; [done|]. rewrite length_drop. lia.
Qed.

(** ** The packets *)
Inductive MessageType : Type :=
| Heartbeat | LoginRequest | LoginResponse | Logout | NewOrder | CancelOrder | ReplaceOrder
| ExecutionReport | Reject | TradeMessage | BookUpdate | MessageUnnamed (code : Z).
Definition MessageType_code (t : MessageType) : Z :=
  match t with
  | Heartbeat => 1 | LoginRequest => 2 | LoginResponse => 3 | Logout => 4 | NewOrder => 5
  | CancelOrder => 6 | ReplaceOrder => 7 | ExecutionReport => 8 | Reject => 9
  | TradeMessage => 10 | BookUpdate => 11 | MessageUnnamed c => c
  end.
(** [static_cast<MessageType>] *)
Definition MessageType_of_code (c : Z) : MessageType :=
  if c =? 1 then Heartbeat else if c =? 2 then LoginRequest else if c =? 3 then LoginResponse
  else if c =? 4 then Logout else if c =? 5 then NewOrder else if c =? 6 then CancelOrder
  else if c =? 7 then ReplaceOrder else if c =? 8 then ExecutionReport else if c =? 9 then Reject
  else if c =? 10 then TradeMessage else if c =? 11 then BookUpdate else MessageUnnamed c.

Lemma MessageType_code_of_code c : MessageType_code (MessageType_of_code c) = c.
Proof. unfold MessageType_of_code. by repeat (case Z.eqb_spec; [intros ->|intros _]). Qed.

Record MessageHeader : Type := mkHeader {
  mh_length : Z; mh_type : Z; mh_padding : Z; mh_sequence : Z; mh_timestamp : Z }.
Definition header_layout : list layout := [TInt 2; TInt 2; TInt 4; TInt 8; TInt 8].
Definition header_fields (h : MessageHeader) : list field :=
  [FInt 2 (mh_length h); FInt 2 (mh_type h); FInt 4 (mh_padding h);
   FInt 8 (mh_sequence h); FInt 8 (mh_timestamp h)].

(** What [reinterpret_cast] needs of a packet type: the layout of the struct,
    its fields in memory order and how they make a struct up. *)
Class Packet (P : Type) : Type := {
  pk_layout : list layout;
  pk_fields : P -> list field;
  pk_make : list field -> option P;
  pk_header : P -> MessageHeader;
  pk_set_header : MessageHeader -> P -> P;
}.
Class PacketLaws (P : Type) `{Packet P} : Prop := {
  pk_make_fields (p : P) : pk_make (pk_fields p) = Some p;
  pk_make_total (fs : list field) : Forall2 field_fits pk_layout fs -> is_Some (pk_make fs);
  pk_fields_make (fs : list field) (p : P) : Forall2 field_ok pk_layout fs -> pk_make fs = Some p -> pk_fields p = fs;
  pk_layout_header : pk_layout = header_layout ++ drop 5 pk_layout;
  pk_layout_size : Z.of_nat (layout_bytes pk_layout) < 65536;
  pk_fields_set (h : MessageHeader) (p : P) : pk_fields (pk_set_header h p) = header_fields h ++ drop 5 (pk_fields p);
}.

Definition packet_size (P : Type) `{Packet P} : Z := Z.of_nat (layout_bytes pk_layout).
Definition packet_ok {P} `{Packet P} (p : P) : Prop := Forall2 field_ok pk_layout (pk_fields p).
Definition packet_bytes {P} `{Packet P} (p : P) : list Z := fields_bytes (pk_fields p).
Definition packet_at (P : Type) `{Packet P} (mem : list Z) : outcome P :=
  fs ← fields_at pk_layout mem;
  match pk_make fs with Some p => Ret p | None => Undefined end.

#[export] Instance header_packet : Packet MessageHeader := {
  pk_layout := header_layout;
  pk_fields := header_fields;
  pk_make := fun fs => match fs with
    | [FInt _ a; FInt _ b; FInt _ c; FInt _ d; FInt _ e] => Some (mkHeader a b c d e)
    | _ => None
    end;
  pk_header := id;
  pk_set_header := fun h _ => h;
}.

Record HeartbeatPacket : Type := mkHeartbeat { hb_header : MessageHeader }.
#[export] Instance heartbeat_packet : Packet HeartbeatPacket := {
  pk_layout := header_layout;
  pk_fields := fun p => header_fields (hb_header p);
  pk_make := fun fs => match fs with
    | [FInt _ a; FInt _ b; FInt _ c; FInt _ d; FInt _ e] => Some (mkHeartbeat (mkHeader a b c d e))
    | _ => None
    end;
  pk_header := hb_header;
  pk_set_header := fun h _ => mkHeartbeat h;
}.

Record LoginRequestPacket : Type := mkLoginRequest {
  lr_header : MessageHeader; lr_client_id : Z; lr_account_id : Z;
  lr_username : list Z; lr_password : list Z }.
#[export] Instance login_request_packet : Packet LoginRequestPacket := {
  pk_layout := header_layout ++ [TInt 4; TInt 4; TRaw 16; TRaw 16];
  pk_fields := fun p => header_fields (lr_header p) ++
    [FInt 4 (lr_client_id p); FInt 4 (lr_account_id p); FRaw (lr_username p); FRaw (lr_password p)];
  pk_make := fun fs => match fs with
    | [FInt _ a; FInt _ b; FInt _ c; FInt _ d; FInt _ e; FInt _ f; FInt _ g; FRaw u; FRaw w] =>
        Some (mkLoginRequest (mkHeader a b c d e) f g u w)
    | _ => None
    end;
  pk_header := lr_header;
  pk_set_header := fun h p => mkLoginRequest h (lr_client_id p) (lr_account_id p) (lr_username p) (lr_password p);
}.

Record LoginResponsePacket : Type := mkLoginResponse {
  ls_header : MessageHeader; ls_client_id : Z; ls_account_id : Z;
  ls_success : Z; ls_reject_reason : list Z }.
#[export] Instance login_response_packet : Packet LoginResponsePacket := {
  pk_layout := header_layout ++ [TInt 4; TInt 4; TInt 1; TRaw 23];
  pk_fields := fun p => header_fields (ls_header p) ++
    [FInt 4 (ls_client_id p); FInt 4 (ls_account_id p); FInt 1 (ls_success p); FRaw (ls_reject_reason p)];
  pk_make := fun fs => match fs with
    | [FInt _ a; FInt _ b; FInt _ c; FInt _ d; FInt _ e; FInt _ f; FInt _ g; FInt _ s; FRaw r] =>
        Some (mkLoginResponse (mkHeader a b c d e) f g s r)
    | _ => None
    end;
  pk_header := ls_header;
  pk_set_header := fun h p =>
    mkLoginResponse h (ls_client_id p) (ls_account_id p) (ls_success p) (ls_reject_reason p);
}.

Record LogoutPacket : Type := mkLogout { lg_header : MessageHeader; lg_client_id : Z; lg_padding : Z }.
#[export] Instance logout_packet : Packet LogoutPacket := {
  pk_layout := header_layout ++ [TInt 4; TInt 4];
  pk_fields := fun p => header_fields (lg_header p) ++ [FInt 4 (lg_client_id p); FInt 4 (lg_padding p)];
  pk_make := fun fs => match fs with
    | [FInt _ a; FInt _ b; FInt _ c; FInt _ d; FInt _ e; FInt _ f; FInt _ g] =>
        Some (mkLogout (mkHeader a b c d e) f g)
    | _ => None
    end;
  pk_header := lg_header;
  pk_set_header := fun h p => mkLogout h (lg_client_id p) (lg_padding p);
}.

Record NewOrderPacket : Type := mkNewOrder {
  no_header : MessageHeader; no_client_order_id : Z; no_symbol_id : Z; no_account_id : Z;
  no_price_ticks : Z; no_qty_units : Z; no_side : Z; no_type : Z; no_tif : Z; no_padding : list Z }.
#[export] Instance new_order_packet : Packet NewOrderPacket := {
  pk_layout := header_layout ++ [TInt 8; TInt 4; TInt 4; TInt 8; TInt 8; TInt 1; TInt 1; TInt 1; TRaw 5];
  pk_fields := fun p => header_fields (no_header p) ++
    [FInt 8 (no_client_order_id p); FInt 4 (no_symbol_id p); FInt 4 (no_account_id p);
     FInt 8 (no_price_ticks p); FInt 8 (no_qty_units p); FInt 1 (no_side p); FInt 1 (no_type p);
     FInt 1 (no_tif p); FRaw (no_padding p)];
  pk_make := fun fs => match fs with
    | [FInt _ a; FInt _ b; FInt _ c; FInt _ d; FInt _ e; FInt _ co; FInt _ sy; FInt _ ac;
       FInt _ pr; FInt _ qt; FInt _ sd; FInt _ ty; FInt _ tf; FRaw pd] =>
        Some (mkNewOrder (mkHeader a b c d e) co sy ac pr qt sd ty tf pd)
    | _ => None
    end;
  pk_header := no_header;
  pk_set_header := fun h p =>
    mkNewOrder h (no_client_order_id p) (no_symbol_id p) (no_account_id p) (no_price_ticks p)
      (no_qty_units p) (no_side p) (no_type p) (no_tif p) (no_padding p);
}.

Record CancelOrderPacket : Type := mkCancelOrder {
  co_header : MessageHeader; co_client_order_id : Z; co_orig_client_order_id : Z;
  co_symbol_id : Z; co_account_id : Z }.
#[export] Instance cancel_order_packet : Packet CancelOrderPacket := {
  pk_layout := header_layout ++ [TInt 8; TInt 8; TInt 4; TInt 4];
  pk_fields := fun p => header_fields (co_header p) ++
    [FInt 8 (co_client_order_id p); FInt 8 (co_orig_client_order_id p);
     FInt 4 (co_symbol_id p); FInt 4 (co_account_id p)];
  pk_make := fun fs => match fs with
    | [FInt _ a; FInt _ b; FInt _ c; FInt _ d; FInt _ e; FInt _ co; FInt _ oc; FInt _ sy; FInt _ ac] =>
        Some (mkCancelOrder (mkHeader a b c d e) co oc sy ac)
    | _ => None
    end;
  pk_header := co_header;
  pk_set_header := fun h p =>
    mkCancelOrder h (co_client_order_id p) (co_orig_client_order_id p) (co_symbol_id p) (co_account_id p);
}.

Record ReplaceOrderPacket : Type := mkReplaceOrder {
  rp_header : MessageHeader; rp_client_order_id : Z; rp_orig_client_order_id : Z;
  rp_symbol_id : Z; rp_account_id : Z; rp_price_ticks : Z; rp_qty_units : Z }.
#[export] Instance replace_order_packet : Packet ReplaceOrderPacket := {
  pk_layout := header_layout ++ [TInt 8; TInt 8; TInt 4; TInt 4; TInt 8; TInt 8];
  pk_fields := fun p => header_fields (rp_header p) ++
    [FInt 8 (rp_client_order_id p); FInt 8 (rp_orig_client_order_id p); FInt 4 (rp_symbol_id p);
     FInt 4 (rp_account_id p); FInt 8 (rp_price_ticks p); FInt 8 (rp_qty_units p)];
  pk_make := fun fs => match fs with
    | [FInt _ a; FInt _ b; FInt _ c; FInt _ d; FInt _ e; FInt _ co; FInt _ oc; FInt _ sy; FInt _ ac;
       FInt _ pr; FInt _ qt] =>
        Some (mkReplaceOrder (mkHeader a b c d e) co oc sy ac pr qt)
    | _ => None
    end;
  pk_header := rp_header;
  pk_set_header := fun h p =>
    mkReplaceOrder h (rp_client_order_id p) (rp_orig_client_order_id p) (rp_symbol_id p)
      (rp_account_id p) (rp_price_ticks p) (rp_qty_units p);
}.

Record ExecutionReportPacket : Type := mkExecutionReport {
  er_header : MessageHeader; er_order_id : Z; er_client_order_id : Z; er_symbol_id : Z;
  er_account_id : Z; er_price_ticks : Z; er_qty_units : Z; er_filled_qty : Z;
  er_remaining_qty : Z; er_side : Z; er_status : Z; er_padding : list Z }.
#[export] Instance execution_report_packet : Packet ExecutionReportPacket := {
  pk_layout := header_layout ++
    [TInt 8; TInt 8; TInt 4; TInt 4; TInt 8; TInt 8; TInt 8; TInt 8; TInt 1; TInt 1; TRaw 6];
  pk_fields := fun p => header_fields (er_header p) ++
    [FInt 8 (er_order_id p); FInt 8 (er_client_order_id p); FInt 4 (er_symbol_id p);
     FInt 4 (er_account_id p); FInt 8 (er_price_ticks p); FInt 8 (er_qty_units p);
     FInt 8 (er_filled_qty p); FInt 8 (er_remaining_qty p); FInt 1 (er_side p);
     FInt 1 (er_status p); FRaw (er_padding p)];
  pk_make := fun fs => match fs with
    | [FInt _ a; FInt _ b; FInt _ c; FInt _ d; FInt _ e; FInt _ oi; FInt _ co; FInt _ sy; FInt _ ac;
       FInt _ pr; FInt _ qt; FInt _ fq; FInt _ rq; FInt _ sd; FInt _ st; FRaw pd] =>
        Some (mkExecutionReport (mkHeader a b c d e) oi co sy ac pr qt fq rq sd st pd)
    | _ => None
    end;
  pk_header := er_header;
  pk_set_header := fun h p =>
    mkExecutionReport h (er_order_id p) (er_client_order_id p) (er_symbol_id p) (er_account_id p)
      (er_price_ticks p) (er_qty_units p) (er_filled_qty p) (er_remaining_qty p) (er_side p)
      (er_status p) (er_padding p);
}.

(** The struct ends at byte 44; [alignas(8)] rounds its size up to 48, and the
    last four bytes, [rj_tail], belong to no member. *)
Record RejectPacket : Type := mkReject {
  rj_header : MessageHeader; rj_client_order_id : Z; rj_account_id : Z; rj_reason : Z;
  rj_padding : list Z; rj_tail : list Z }.
#[export] Instance reject_packet : Packet RejectPacket := {
  pk_layout := header_layout ++ [TInt 8; TInt 4; TInt 2; TRaw 6; TRaw 4];
  pk_fields := fun p => header_fields (rj_header p) ++
    [FInt 8 (rj_client_order_id p); FInt 4 (rj_account_id p); FInt 2 (rj_reason p);
     FRaw (rj_padding p); FRaw (rj_tail p)];
  pk_make := fun fs => match fs with
    | [FInt _ a; FInt _ b; FInt _ c; FInt _ d; FInt _ e; FInt _ co; FInt _ ac; FInt _ rs; FRaw pd; FRaw tl] =>
        Some (mkReject (mkHeader a b c d e) co ac rs pd tl)
    | _ => None
    end;
  pk_header := rj_header;
  pk_set_header := fun h p =>
    mkReject h (rj_client_order_id p) (rj_account_id p) (rj_reason p) (rj_padding p) (rj_tail p);
}.

Ltac fields_of_layout :=
  repeat match goal with
  | H : Forall2 field_fits (_ :: _) _ |- _ => apply Forall2_cons_inv_l in H as (? & ? & ? & H & ->)
  | H : Forall2 field_fits [] _ |- _ => apply Forall2_nil_inv_l in H as ->
  | H : field_fits (TInt _) ?f |- _ => destruct f; [clear H|destruct H]
  | H : field_fits (TRaw _) ?f |- _ => destruct f; [destruct H|cbn in H]
  | H : Forall2 field_ok (_ :: _) _ |- _ => apply Forall2_cons_inv_l in H as (? & ? & ? & H & ->)
  | H : Forall2 field_ok [] _ |- _ => apply Forall2_nil_inv_l in H as ->
  | H : field_ok (TInt _) ?f |- _ => destruct f; [destruct H as [<- H]|destruct H]
  | H : field_ok (TRaw _) ?f |- _ => destruct f; [destruct H|cbn in H]
  end.
Ltac packet_laws :=
  split; [by intros []; repeat match goal with h : MessageHeader |- _ => destruct h end
         |intros fs F; cbn in F; unfold header_layout in F; cbn in F; fields_of_layout; eexists; reflexivity
         |intros fs p F E; cbn in F; unfold header_layout in F; cbn in F; fields_of_layout; by injection E as <-
         |reflexivity
         |reflexivity
         |reflexivity].
#[export] Instance header_laws : PacketLaws MessageHeader. Proof. packet_laws. Qed.
#[export] Instance heartbeat_laws : PacketLaws HeartbeatPacket. Proof. packet_laws. Qed.
#[export] Instance login_request_laws : PacketLaws LoginRequestPacket. Proof. packet_laws. Qed.
#[export] Instance login_response_laws : PacketLaws LoginResponsePacket. Proof. packet_laws. Qed.
#[export] Instance logout_laws : PacketLaws LogoutPacket. Proof. packet_laws. Qed.
#[export] Instance new_order_laws : PacketLaws NewOrderPacket. Proof. packet_laws. Qed.
#[export] Instance cancel_order_laws : PacketLaws CancelOrderPacket. Proof. packet_laws. Qed.
#[export] Instance replace_order_laws : PacketLaws ReplaceOrderPacket. Proof. packet_laws. Qed.
#[export] Instance execution_report_laws : PacketLaws ExecutionReportPacket. Proof. packet_laws. Qed.
#[export] Instance reject_laws : PacketLaws RejectPacket. Proof. packet_laws. Qed.

(** ** The decoder and the encoder *)
Definition HEADER_SIZE : Z := packet_size MessageHeader.

(** [PacketDecoder::decode]: the header and the number of bytes of the frame;
    the payload starts [HEADER_SIZE] bytes into [data]. *)
Definition decode (data : list Z) : outcome (option (MessageHeader * Z)) :=
  if Z.of_nat (length data) <? HEADER_SIZE then Ret None
  else
    header ← packet_at MessageHeader data;
    if Z.of_nat (length data) <? mh_length header then Ret None
    else Ret (Some (header, mh_length header)).

(** [PacketEncoder::encode]: the number of bytes written and [dest] after. *)
Definition encode {P} `{Packet P} (dest : list Z) (dest_len : Z) (type : MessageType) (seq ts : Z)
    (packet : P) : Z * list Z :=
  if dest_len <? packet_size P then (0, dest)
  else
    let h := {| mh_length := u16 (packet_size P); mh_type := u16 (MessageType_code type);
                mh_padding := mh_padding (pk_header packet); mh_sequence := seq; mh_timestamp := ts |} in
    (packet_size P,
     packet_bytes (pk_set_header h packet) ++ drop (Z.to_nat (packet_size P)) dest).

(** ** Lemmas *)
Lemma packet_bytes_length {P} `{Packet P} (p : P) :
  packet_ok p -> Z.of_nat (length (packet_bytes p)) = packet_size P.
Proof. intros H1. unfold packet_bytes, packet_size. by rewrite (fields_bytes_length _ _ H1). Qed.

Lemma packet_at_bytes {P} `{PacketLaws P} (p : P) rest :
  packet_ok p -> packet_at P (packet_bytes p ++ rest) = Ret p.
Proof.
  intros Hok. unfold packet_at, packet_bytes. by rewrite (fields_at_bytes _ _ _ Hok), bind_Ret, pk_make_fields.
Qed.
Lemma packet_at_app {P} `{Packet P} mem rest :
  packet_size P <= Z.of_nat (length mem) -> packet_at P (mem ++ rest) = packet_at P mem.
Proof. intros Hl. unfold packet_at, packet_size in *. by rewrite fields_at_app by lia. Qed.
Lemma packet_at_short {P} `{Packet P} mem :
  Z.of_nat (length mem) < packet_size P -> packet_at P mem = Undefined.
Proof. intros Hl. unfold packet_at, packet_size in *. by rewrite fields_at_short by lia. Qed.
Lemma packet_at_total {P} `{PacketLaws P} mem :
  packet_size P <= Z.of_nat (length mem) ->
  exists fs p, packet_at P mem = Ret p /\ pk_make fs = Some p /\ Forall2 field_fits pk_layout fs.
Proof.
  intros Hl. unfold packet_at, packet_size in *.
  destruct (fields_at_total pk_layout mem ltac:(lia)) as (fs & -> & F).
  destruct (pk_make_total fs F) as [p E]. exists fs, p. by rewrite bind_Ret, E.
Qed.

Lemma fields_bytes_app a b : fields_bytes (a ++ b) = fields_bytes a ++ fields_bytes b.
Proof. unfold fields_bytes. by rewrite fmap_app, concat_app. Qed.

(** Values that fit a header. *)
Definition header_ok (h : MessageHeader) : Prop := packet_ok h.
Lemma packet_ok_set {P} `{PacketLaws P} (p : P) h :
  packet_ok p -> header_ok h -> packet_ok (pk_set_header h p).
Proof.
  unfold packet_ok, header_ok. intros Hp Hh. rewrite pk_fields_set, pk_layout_header.
  apply Forall2_app; [exact Hh|]. by apply Forall2_drop.
Qed.
Lemma packet_size_header {P} `{PacketLaws P} : HEADER_SIZE <= packet_size P < 65536.
Proof.
  pose proof pk_layout_size as L. unfold packet_size in *. split; [|lia].
  rewrite pk_layout_header. unfold layout_bytes. rewrite sum_list_with_app.
  unfold HEADER_SIZE, packet_size, layout_bytes. cbn [pk_layout header_packet]. lia.
Qed.
Lemma header_at_packet {P} `{PacketLaws P} (p : P) h rest :
  header_ok h -> packet_at MessageHeader (packet_bytes (pk_set_header h p) ++ rest) = Ret h.
Proof.
  intros Hh. unfold packet_bytes. rewrite pk_fields_set, fields_bytes_app, <- app_assoc.
  exact (packet_at_bytes (P := MessageHeader) h _ Hh).
Qed.
