(* ===== verification/Sessions.v ===== *)
(** * FluxTrade: client connections

    [ClientConnection] and [SessionManager]
    (src/gateway/include/gateway/client_connection.hpp, session_manager.hpp):
    a fixed table of connections whose first [active_count] slots are live, a
    removed connection being replaced by the last one.  A
    [ClientConnection*] is the slot it points to.  The table is a finite map
    from connection ids; [sessions_ok] is its invariant. *)
From S2P Require Import Prelude.
Local Open Scope Z_scope.

Record ClientConnection : Type := mkConnection {
  cc_conn_id : Z;
  cc_client_id : Z;
  cc_account_id : Z;
  cc_authenticated : bool;
  cc_last_heartbeat_ts : Z;
  cc_next_inbound_seq : Z;
  cc_next_outbound_seq : Z;
  cc_buffer : list Z;
  cc_buffer_len : Z;
}.
Definition BUFFER_SIZE : Z := 8192.
Definition MAX_CONNECTIONS : Z := 64.

(** [ClientConnection{}] *)
Definition new_connection : ClientConnection :=
  {| cc_conn_id := -1; cc_client_id := 0; cc_account_id := 0; cc_authenticated := false;
     cc_last_heartbeat_ts := 0; cc_next_inbound_seq := 1; cc_next_outbound_seq := 1;
     cc_buffer := replicate (Z.to_nat BUFFER_SIZE) 0; cc_buffer_len := 0 |}.
Definition with_conn_id (id : Z) (c : ClientConnection) : ClientConnection :=
  {| cc_conn_id := id; cc_client_id := cc_client_id c; cc_account_id := cc_account_id c;
     cc_authenticated := cc_authenticated c; cc_last_heartbeat_ts := cc_last_heartbeat_ts c;
     cc_next_inbound_seq := cc_next_inbound_seq c; cc_next_outbound_seq := cc_next_outbound_seq c;
     cc_buffer := cc_buffer c; cc_buffer_len := cc_buffer_len c |}.
Definition with_login (client_id account_id : Z) (c : ClientConnection) : ClientConnection :=
  {| cc_conn_id := cc_conn_id c; cc_client_id := client_id; cc_account_id := account_id;
     cc_authenticated := true; cc_last_heartbeat_ts := 0;
     cc_next_inbound_seq := cc_next_inbound_seq c; cc_next_outbound_seq := cc_next_outbound_seq c;
     cc_buffer := cc_buffer c; cc_buffer_len := cc_buffer_len c |}.
Definition with_heartbeat (ts : Z) (c : ClientConnection) : ClientConnection :=
  {| cc_conn_id := cc_conn_id c; cc_client_id := cc_client_id c; cc_account_id := cc_account_id c;
     cc_authenticated := cc_authenticated c; cc_last_heartbeat_ts := ts;
     cc_next_inbound_seq := cc_next_inbound_seq c; cc_next_outbound_seq := cc_next_outbound_seq c;
     cc_buffer := cc_buffer c; cc_buffer_len := cc_buffer_len c |}.
Definition with_logout (c : ClientConnection) : ClientConnection :=
  {| cc_conn_id := cc_conn_id c; cc_client_id := cc_client_id c; cc_account_id := cc_account_id c;
     cc_authenticated := false; cc_last_heartbeat_ts := cc_last_heartbeat_ts c;
     cc_next_inbound_seq := cc_next_inbound_seq c; cc_next_outbound_seq := cc_next_outbound_seq c;
     cc_buffer := cc_buffer c; cc_buffer_len := cc_buffer_len c |}.
Definition with_input (b : list Z) (n : Z) (c : ClientConnection) : ClientConnection :=
  {| cc_conn_id := cc_conn_id c; cc_client_id := cc_client_id c; cc_account_id := cc_account_id c;
     cc_authenticated := cc_authenticated c; cc_last_heartbeat_ts := cc_last_heartbeat_ts c;
     cc_next_inbound_seq := cc_next_inbound_seq c; cc_next_outbound_seq := cc_next_outbound_seq c;
     cc_buffer := b; cc_buffer_len := n |}.

Record SessionManager : Type := mkSessions {
  connections : list ClientConnection;
  active_count : Z;
}.

(** [reset], which the constructor calls *)
Definition sessions_reset : SessionManager :=
  {| connections := replicate (Z.to_nat MAX_CONNECTIONS) new_connection; active_count := 0 |}.

(** The loop [for (i = 0; i < active_count_; ++i)] looking for [conn_id]. *)
Fixpoint scan_connections (cs : list ClientConnection) (conn_id : Z) (i : Z) (n : nat) : outcome (option Z) :=
  match n with
  | O => Ret None
  | S n =>
      c ← arr_get cs i;
      if cc_conn_id c =? conn_id then Ret (Some i) else scan_connections cs conn_id (i + 1) n
  end.

Definition get_connection (conn_id : Z) (sm : SessionManager) : outcome (option Z) :=
  scan_connections (connections sm) conn_id 0 (Z.to_nat (active_count sm)).

Definition create_connection (conn_id : Z) (sm : SessionManager) : outcome (option Z * SessionManager) :=
  if MAX_CONNECTIONS <=? active_count sm then Ret (None, sm)
  else
    conn ← get_connection conn_id sm;
    match conn with
    | Some i => Ret (Some i, sm)
    | None =>
        let i := active_count sm in
        cs ← arr_set (connections sm) i (with_conn_id conn_id new_connection);
        Ret (Some i, {| connections := cs; active_count := active_count sm + 1 |})
    end.

Definition remove_connection (conn_id : Z) (sm : SessionManager) : outcome SessionManager :=
  slot ← scan_connections (connections sm) conn_id 0 (Z.to_nat (active_count sm));
  match slot with
  | None => Ret sm
  | Some i =>
      cs ← (if negb (i =? active_count sm - 1) then
              c ← arr_get (connections sm) (active_count sm - 1); arr_set (connections sm) i c
            else Ret (connections sm));
      Ret {| connections := cs; active_count := active_count sm - 1 |}
  end.

(** Writing through a [ClientConnection*] *)
Definition update_connection (i : Z) (f : ClientConnection -> ClientConnection) (sm : SessionManager) : outcome SessionManager :=
  c ← arr_get (connections sm) i;
  cs ← arr_set (connections sm) i (f c);
  Ret {| connections := cs; active_count := active_count sm |}.

Definition authenticate (conn_id client_id account_id : Z) (username password : list Z)
    (sm : SessionManager) : outcome (bool * SessionManager) :=
  conn ← get_connection conn_id sm;
  match conn with
  | None => Ret (false, sm)
  | Some i =>
      u ← arr_get username 0;
      w ← (if u =? 0 then Ret 0 else arr_get password 0);
      if (u =? 0) || (w =? 0) then Ret (false, sm)
      else sm' ← update_connection i (with_login client_id account_id) sm; Ret (true, sm')
  end.

(** ** The map the table stands for *)
Definition live (sm : SessionManager) : list ClientConnection :=
  take (Z.to_nat (active_count sm)) (connections sm).
Definition connection_ok (c : ClientConnection) : Prop :=
  length (cc_buffer c) = Z.to_nat BUFFER_SIZE /\ 0 <= cc_buffer_len c <= BUFFER_SIZE.
Definition sessions_ok (sm : SessionManager) : Prop :=
  length (connections sm) = Z.to_nat MAX_CONNECTIONS /\
  0 <= active_count sm <= MAX_CONNECTIONS /\
  NoDup (cc_conn_id <$> live sm) /\
  Forall connection_ok (connections sm).
Definition by_id (c : ClientConnection) : Z * ClientConnection := (cc_conn_id c, c).
Definition sessions_map (sm : SessionManager) : gmap Z ClientConnection :=
  list_to_map (by_id <$> live sm).

Lemma by_id_fst l : (by_id <$> l).*1 = cc_conn_id <$> l.
Proof. by rewrite <- list_fmap_compose. Qed.

Lemma new_connection_ok id : connection_ok (with_conn_id id new_connection).
Proof. split; [apply length_replicate|]. cbn. unfold BUFFER_SIZE. lia. Qed.

Lemma sessions_reset_ok : sessions_ok sessions_reset.
Proof.
  split; [apply length_replicate|]. split; [cbn; unfold MAX_CONNECTIONS; lia|].
  split; [apply NoDup_nil_2|]. apply Forall_replicate. split; [apply length_replicate|].
  cbn. unfold BUFFER_SIZE. lia.
Qed.
Lemma sessions_reset_map : sessions_map sessions_reset = ∅.
Proof. reflexivity. Qed.

Lemma live_length sm : sessions_ok sm -> Z.of_nat (length (live sm)) = active_count sm.
Proof.
  intros (L & B & _). unfold live. rewrite length_take. unfold MAX_CONNECTIONS in *. lia.
Qed.
Lemma live_lookup sm i c : live sm !! i = Some c <-> connections sm !! i = Some c /\ (i < Z.to_nat (active_count sm))%nat.
Proof. unfold live. rewrite lookup_take_Some. done. Qed.

Lemma scan_connections_spec (cs : list ClientConnection) id k n :
  (k + n <= length cs)%nat ->
  (exists i c, scan_connections cs id (Z.of_nat k) n = Ret (Some (Z.of_nat i)) /\ (k <= i < k + n)%nat /\
     cs !! i = Some c /\ cc_conn_id c = id) \/
  (scan_connections cs id (Z.of_nat k) n = Ret None /\
     forall i c, (k <= i < k + n)%nat -> cs !! i = Some c -> cc_conn_id c <> id).
Proof.
  revert k. induction n as [|n IH]; intros k H; [right; split; [done|lia]|]. cbn [scan_connections].
  destruct (arr_get_live cs (Z.of_nat k)) as (c & E & ->); [lia|]. rewrite Nat2Z.id in E. rewrite bind_Ret.
  destruct (Z.eqb_spec (cc_conn_id c) id) as [D|D].
  - left. exists k, c. split_and!; (done || lia).
  - replace (Z.of_nat k + 1) with (Z.of_nat (S k)) by lia.
    destruct (IH (S k) ltac:(lia)) as [(i & c' & -> & Hi & E' & D')|[-> Hn]].
    + left. exists i, c'. split_and!; (done || lia).
    + right. split; [done|]. intros i c' Hi Hc. destruct (decide (i = k)) as [->|]; [by simplify_eq|].
      apply (Hn i); [lia|done].
Qed.

(** [get_connection] finds the slot of the connection in the map, if any. *)
Lemma get_connection_spec id sm :
  sessions_ok sm ->
  match sessions_map sm !! id with
  | Some c => exists i, get_connection id sm = Ret (Some (Z.of_nat i)) /\ live sm !! i = Some c /\ cc_conn_id c = id
  | None => get_connection id sm = Ret None
  end.
Proof.
  intros (L & B & ND & F). unfold get_connection.
  destruct (scan_connections_spec (connections sm) id 0 (Z.to_nat (active_count sm)))
    as [(i & c & E & Hi & Hc & D)|[E Hn]]; [lia|..]; change 0 with (Z.of_nat 0); rewrite E.
  - assert (live sm !! i = Some c) as Hl by (apply live_lookup; split; [done|lia]).
    assert (sessions_map sm !! id = Some c) as ->; [|by eauto].
    apply elem_of_list_to_map_1; [by rewrite by_id_fst|].
    apply list_elem_of_fmap. exists c. split; [unfold by_id; by rewrite D|]. by eapply list_elem_of_lookup_2.
  - destruct (sessions_map sm !! id) as [c|] eqn:Em; [exfalso|done].
    apply elem_of_list_to_map_2, list_elem_of_fmap in Em as (c' & Ec & (i & Hi)%list_elem_of_lookup).
    injection Ec as -> ->. apply live_lookup in Hi as [Hi1 Hi2]. eapply (Hn i); [lia|done|done].
Qed.

Lemma update_connection_spec i f c sm :
  sessions_ok sm -> live sm !! i = Some c -> connection_ok (f c) -> cc_conn_id (f c) = cc_conn_id c ->
  exists sm', update_connection (Z.of_nat i) f sm = Ret sm' /\ sessions_ok sm' /\
    sessions_map sm' = <[cc_conn_id c := f c]> (sessions_map sm) /\
    active_count sm' = active_count sm /\ connections sm' = <[i := f c]> (connections sm).
Proof.
  intros (L & B & ND & F) Hi Hf Hid. pose proof Hi as [Hc Hlt]%live_lookup.
  pose proof (lookup_lt_Some _ _ _ Hc) as Hl.
  unfold update_connection. rewrite (arr_get_Ret _ _ c), bind_Ret by (rewrite ?Nat2Z.id; done || lia).
  rewrite arr_set_Ret, bind_Ret, Nat2Z.id by lia. eexists. split; [reflexivity|].
  assert (live (mkSessions (<[i := f c]> (connections sm)) (active_count sm)) = <[i := f c]> (live sm)) as EL.
  { unfold live; cbn. by rewrite take_insert_lt by lia. }
  assert (cc_conn_id <$> <[i := f c]> (live sm) = cc_conn_id <$> live sm) as EI.
  { rewrite list_fmap_insert, Hid. apply list_insert_id. by rewrite list_lookup_fmap, Hi. }
  split_and!; [|..|done|done].
  - unfold sessions_ok. cbn [connections active_count]. rewrite length_insert, EL, EI.
    split_and!; try done; try lia. by apply Forall_insert.
  - apply map_eq. intros k. unfold sessions_map. rewrite EL.
    assert (NoDup ((by_id <$> <[i:=f c]> (live sm)).*1)) as ND' by (by rewrite by_id_fst, EI).
    assert (NoDup ((by_id <$> live sm).*1)) as ND0 by (by rewrite by_id_fst).
    apply option_eq. intros c'. rewrite lookup_insert_Some.
    rewrite <- !elem_of_list_to_map, !list_elem_of_fmap by done.
    setoid_rewrite list_elem_of_lookup. unfold by_id. split.
    + intros (d & [= -> ->] & j & Hj). destruct (decide (j = i)) as [->|N].
      * rewrite list_lookup_insert_eq in Hj by (eapply lookup_lt_Some; eassumption). simplify_eq. auto.
      * rewrite list_lookup_insert_ne in Hj by done. right. split; [|by eauto].
        intros E. apply N. eapply (NoDup_lookup (cc_conn_id <$> live sm)); [done|..].
        -- by rewrite list_lookup_fmap, Hj.
        -- rewrite list_lookup_fmap, Hi. cbn. by rewrite E.
    + intros [[<- <-]|[N (d & [= -> ->] & j & Hj)]].
      * exists (f c). split; [by rewrite Hid|]. exists i. apply list_lookup_insert_eq. by eapply lookup_lt_Some.
      * exists d. split; [done|]. exists j. rewrite list_lookup_insert_ne; [done|]. intros ->. by simplify_eq.
Qed.

Lemma create_connection_spec id sm :
  sessions_ok sm ->
  exists r sm', create_connection id sm = Ret (r, sm') /\ sessions_ok sm' /\
    (if decide (active_count sm = MAX_CONNECTIONS) then r = None /\ sm' = sm
     else match sessions_map sm !! id with
          | Some _ => sm' = sm /\ is_Some r
          | None => sessions_map sm' = <[id := with_conn_id id new_connection]> (sessions_map sm) /\
              active_count sm' = active_count sm + 1 /\ r = Some (active_count sm)
          end).
Proof.
  intros I. pose proof (get_connection_spec id sm I) as G. pose proof I as (L & B & ND & F).
  unfold create_connection. case_decide as D.
  { destruct (Z.leb_spec MAX_CONNECTIONS (active_count sm)); [|lia]. by eexists _, _. }
  destruct (Z.leb_spec MAX_CONNECTIONS (active_count sm)); [lia|].
  destruct (sessions_map sm !! id) as [c|] eqn:Em.
  { destruct G as (i & -> & _). rewrite bind_Ret. by eexists _, _. }
  rewrite G, bind_Ret, arr_set_Ret, bind_Ret by lia. eexists _, _. split; [reflexivity|].
  set (c := with_conn_id id new_connection). set (n := Z.to_nat (active_count sm)).
  assert (live (mkSessions (<[n := c]> (connections sm)) (active_count sm + 1)) = live sm ++ [c]) as EL.
  { unfold live; cbn. replace (Z.to_nat (active_count sm + 1)) with (S n) by lia.
    rewrite (take_S_r _ _ c) by (apply list_lookup_insert_eq; lia).
    by rewrite take_insert_ge by lia. }
  assert (id ∉ cc_conn_id <$> live sm) as Hnew.
  { intros (c' & -> & Hc)%list_elem_of_fmap. apply not_elem_of_list_to_map_2 in Em.
    apply Em. rewrite by_id_fst. by apply list_elem_of_fmap_2. }
  split; [|split_and!; [|done..]].
  - unfold sessions_ok. cbn [connections active_count]. rewrite length_insert, EL, fmap_app.
    split_and!; try done; try lia.
    + apply NoDup_app. split_and!; [done| |apply NoDup_singleton].
      intros x Hx Hx'. apply list_elem_of_singleton in Hx' as ->. by apply Hnew.
    + apply Forall_insert; [done|apply new_connection_ok].
  - unfold sessions_map. rewrite EL, fmap_app, list_to_map_app. cbn.
    rewrite <- insert_union_r, (right_id_L ∅ (∪)); [done|].
    apply not_elem_of_list_to_map_1. by rewrite by_id_fst.
Qed.

(** Overwriting position [i] with the last element and dropping the last. *)
Lemma swap_remove_perm {A} (l : list A) (i : nat) (c x : A) :
  l !! i = Some c -> l !! (length l - 1)%nat = Some x ->
  l ≡ₚ c :: (if decide (i = (length l - 1)%nat) then take (length l - 1) l
             else <[i := x]> (take (length l - 1) l)).
Proof.
  intros Hi Hx. destruct l as [|y l' _] using rev_ind; [by rewrite lookup_nil in Hi|].
  rewrite length_app in *. cbn [length] in *. replace (length l' + 1 - 1)%nat with (length l') in * by lia.
  rewrite take_app_length. rewrite lookup_app_r, Nat.sub_diag in Hx by lia. injection Hx as ->.
  case_decide as D.
  - subst. rewrite lookup_app_r, Nat.sub_diag in Hi by lia. injection Hi as ->. symmetry. apply Permutation_cons_append.
  - pose proof (lookup_lt_Some _ _ _ Hi) as Hl. rewrite length_app in Hl. cbn in Hl.
    rewrite lookup_app_l in Hi by lia.
    rewrite <- (take_drop_middle l' i c Hi) at 1.
    rewrite insert_take_drop by lia. rewrite <- Permutation_cons_append.
    rewrite <- !Permutation_middle. apply Permutation_swap.
Qed.

Lemma remove_connection_spec id sm :
  sessions_ok sm ->
  exists sm', remove_connection id sm = Ret sm' /\ sessions_ok sm' /\
    sessions_map sm' = delete id (sessions_map sm).
Proof.
  intros I. pose proof (get_connection_spec id sm I) as G. pose proof I as (L & B & ND & F).
  unfold remove_connection. unfold get_connection in G.
  destruct (sessions_map sm !! id) as [c|] eqn:Em.
  2:{ rewrite G, bind_Ret. exists sm. split_and!; [done..|]. by rewrite delete_id. }
  destruct G as (i & -> & Hi & Hid). rewrite bind_Ret. pose proof (live_length sm I) as LL.
  pose proof (lookup_lt_Some _ _ _ Hi) as Hlt. pose proof Hi as [Hc Hin]%live_lookup.
  set (n := Z.to_nat (active_count sm)) in *. assert (Z.of_nat n = active_count sm) as En by lia.
  destruct (lookup_lt_is_Some_2 (live sm) (length (live sm) - 1)) as [x Hx]; [lia|].
  pose proof (swap_remove_perm _ _ _ _ Hi Hx) as HP.
  set (live' := if decide (i = (length (live sm) - 1)%nat) then _ else _) in HP.
  assert (exists cs, (if negb (Z.of_nat i =? active_count sm - 1) then
              c ← arr_get (connections sm) (active_count sm - 1); arr_set (connections sm) (Z.of_nat i) c
            else Ret (connections sm)) = Ret cs /\ length cs = length (connections sm) /\
            take (n - 1) cs = live' /\ Forall connection_ok cs) as (cs & -> & Lcs & Tcs & Fcs).
  { assert (take (length (live sm) - 1) (live sm) = take (n - 1) (connections sm)) as ET.
    { replace (length (live sm)) with n by lia. unfold live. rewrite take_take. f_equal. lia. }
    subst live'. rewrite ET. apply live_lookup in Hx as [Hx _].
    destruct (Z.eqb_spec (Z.of_nat i) (active_count sm - 1)) as [D|D]; cbn.
    - exists (connections sm). rewrite decide_True by lia. by split_and!.
    - rewrite decide_False by lia. assert (Z.to_nat (active_count sm - 1) = length (live sm) - 1)%nat as E by lia.
      rewrite (arr_get_Ret _ _ x), bind_Ret, arr_set_Ret, Nat2Z.id by (rewrite ?E; done || lia).
      exists (<[i := x]> (connections sm)). split; [done|]. split; [by rewrite length_insert|].
      split; [by rewrite take_insert_lt by lia|]. apply Forall_insert; [done|].
      eapply Forall_lookup_1; [apply F|exact Hx]. }
  rewrite bind_Ret. eexists. split; [reflexivity|].
  assert (live (mkSessions cs (active_count sm - 1)) = live') as EL.
  { unfold live. cbn. rewrite <- Tcs. f_equal. lia. }
  rewrite HP in ND. cbn in ND. apply NoDup_cons in ND as [Hno ND].
  split.
  - unfold sessions_ok. cbn [connections active_count]. rewrite EL. split_and!; try done; lia.
  - unfold sessions_map. rewrite EL.
    rewrite (list_to_map_proper (by_id <$> live sm) (by_id <$> c :: live')).
    + cbn. rewrite Hid, delete_insert_id; [done|].
      apply not_elem_of_list_to_map_1. rewrite by_id_fst. by rewrite <- Hid.
    + destruct I as (_ & _ & ND0 & _). by rewrite by_id_fst.
    + by rewrite HP.
Qed.

(** [authenticate]: both strings must start with a character. *)
Lemma authenticate_spec id client account u us w ws sm :
  sessions_ok sm ->
  exists ok sm', authenticate id client account (u :: us) (w :: ws) sm = Ret (ok, sm') /\ sessions_ok sm' /\
    match sessions_map sm !! id with
    | Some c =>
        if (u =? 0) || (w =? 0) then ok = false /\ sm' = sm
        else ok = true /\ sessions_map sm' = <[id := with_login client account c]> (sessions_map sm)
    | None => ok = false /\ sm' = sm
    end.
Proof.
  intros I. pose proof (get_connection_spec id sm I) as G. unfold authenticate.
  destruct (sessions_map sm !! id) as [c|] eqn:Em.
  2:{ rewrite G, bind_Ret. by eexists _, _. }
  destruct G as (i & -> & Hi & Hid). rewrite bind_Ret.
  rewrite (arr_get_Ret (u :: us) 0 u), bind_Ret by done.
  rewrite (arr_get_Ret (w :: ws) 0 w) by done.
  destruct (Z.eqb_spec u 0) as [->|Hu]; cbn; [by eexists _, _|].
  destruct (Z.eqb_spec w 0) as [->|Hw]; cbn; [by eexists _, _|].
  destruct (update_connection_spec i (with_login client account) c sm I Hi) as (sm' & -> & I' & M & _); [|done|].
  - pose proof I as (_ & _ & _ & F). apply live_lookup in Hi as [Hc _].
    exact (Forall_lookup_1 _ _ _ _ F Hc).
  - exists true, sm'. split_and!; [done..|]. by rewrite M, Hid.
Qed.
