(* ===== verification/Gateway.v ===== *)
(** * FluxTrade: the gateway

    [OrderCommand], [SequenceManager], [ITransport]/[ITransportListener],
    [SimulationTransport] and [Gateway] (src/gateway): bytes read from a
    connection are framed, packets are dispatched, order packets become
    commands on the inbound queue and responses are encoded and sent.

    A transport is anything that implements the [Transport] interface; the
    operating-system sockets of tcp_transport.hpp are left to the environment.
    The steady clock is the argument [now], its n-th reading being [now n]. *)
From Stdlib Require Import String.
From Stdlib Require Ascii.
From S2P Require Import Prelude Domain RingBuffer Wire Sessions.
Import Corelib.Init.Datatypes.
Local Open Scope Z_scope.

(** ** Commands *)
Inductive CommandType : Type := CmdNewOrder | CmdCancelOrder | CmdReplaceOrder | CmdUnnamed (code : Z).
Record OrderCommand : Type := mkCommand {
  oc_type : CommandType; oc_sequence : Z; oc_timestamp : Z;
  oc_client_order_id : Z; oc_orig_client_order_id : Z;
  oc_symbol_id : Z; oc_account_id : Z; oc_price : Z; oc_qty : Z;
  oc_side : Side; oc_order_type : OrderType; oc_tif : TimeInForce; oc_conn_id : Z }.
(** [OrderCommand{}] *)
Definition default_command : OrderCommand :=
  {| oc_type := CmdNewOrder; oc_sequence := 0; oc_timestamp := 0; oc_client_order_id := 0;
     oc_orig_client_order_id := 0; oc_symbol_id := 0; oc_account_id := 0; oc_price := 0; oc_qty := 0;
     oc_side := Buy; oc_order_type := Limit; oc_tif := GTC; oc_conn_id := -1 |}.
Definition INBOUND_CAPACITY : Z := 4096.

(** ** Sequence numbers *)
Definition next_sequence (seq : Z) : Z * Z := (seq, u64 (seq + 1)).
Definition sequence_reset : Z := 1.

(** ** Transports *)
Inductive listener_event : Type :=
| OnConnect (conn_id : Z)
| OnDisconnect (conn_id : Z)
| OnRead (conn_id : Z) (data : list Z).

(** [ITransport]: [poll] and [disconnect] call the listener back; [poll] returns
    the calls it makes in order, [disconnect] the connections for which it calls
    [on_disconnect]. *)
Class Transport (X : Type) : Type := {
  t_start : X -> bool * X;
  t_stop : X -> X;
  t_poll : X -> X * list listener_event;
  t_send : X -> Z -> list Z -> bool * X;
  t_disconnect : X -> Z -> X * list Z;
}.

Record SimulationTransport : Type := mkSimulation {
  sim_listener : bool;
  sent_messages : list (list Z);
}.
Definition sim_set_listener (x : SimulationTransport) : SimulationTransport :=
  {| sim_listener := true; sent_messages := sent_messages x |}.
Definition sim_send (x : SimulationTransport) (data : list Z) : bool * SimulationTransport :=
  (true, {| sim_listener := sim_listener x; sent_messages := sent_messages x ++ [data] |}).
Definition simulate_disconnect (x : SimulationTransport) (conn_id : Z) : list listener_event :=
  if sim_listener x then [OnDisconnect conn_id] else [].
Definition simulate_connect (x : SimulationTransport) (conn_id : Z) : list listener_event :=
  if sim_listener x then [OnConnect conn_id] else [].
Definition simulate_read (x : SimulationTransport) (conn_id : Z) (data : list Z) : list listener_event :=
  if sim_listener x then [OnRead conn_id data] else [].
Definition clear_sent (x : SimulationTransport) : SimulationTransport :=
  {| sim_listener := sim_listener x; sent_messages := [] |}.
#[export] Instance simulation_transport : Transport SimulationTransport := {
  t_start := fun x => (true, x);
  t_stop := fun x => x;
  t_poll := fun x => (x, []);
  t_send := fun x _ data => sim_send x data;
  t_disconnect := fun x conn_id => (x, if sim_listener x then [conn_id] else []);
}.

Section Gateway.
Context {X : Type} `{Transport X}.
(** The readings of [Clock::now_steady], and the bytes after the last member
    of a [RejectPacket] on the stack, which the code does not set. *)
Context (now : nat -> Z) (stack_tail : list Z).

(** ** State *)
Record Gateway : Type := mkGateway {
  g_transport : option X;
  g_inbound_queue : SPSCQueue OrderCommand;
  g_sessions : SessionManager;
  g_sequence : Z;
  g_write_buffer : list Z;
  g_ticks : nat;
}.
Definition set_transport (x : X) (g : Gateway) : Gateway :=
  mkGateway (Some x) (g_inbound_queue g) (g_sessions g) (g_sequence g) (g_write_buffer g) (g_ticks g).
Definition set_queue (q : SPSCQueue OrderCommand) (g : Gateway) : Gateway :=
  mkGateway (g_transport g) q (g_sessions g) (g_sequence g) (g_write_buffer g) (g_ticks g).
Definition set_sessions (sm : SessionManager) (g : Gateway) : Gateway :=
  mkGateway (g_transport g) (g_inbound_queue g) sm (g_sequence g) (g_write_buffer g) (g_ticks g).
Definition set_sequence (s : Z) (g : Gateway) : Gateway :=
  mkGateway (g_transport g) (g_inbound_queue g) (g_sessions g) s (g_write_buffer g) (g_ticks g).
Definition set_write_buffer (b : list Z) (g : Gateway) : Gateway :=
  mkGateway (g_transport g) (g_inbound_queue g) (g_sessions g) (g_sequence g) b (g_ticks g).
(** Reading the clock *)
Definition tick (g : Gateway) : Z * Gateway :=
  (now (g_ticks g),
   mkGateway (g_transport g) (g_inbound_queue g) (g_sessions g) (g_sequence g) (g_write_buffer g) (S (g_ticks g))).

(** [Gateway::start], [stop] and [poll] drive the transport, when there is one. *)
Definition gateway_start (g : Gateway) : bool * Gateway :=
  match g_transport g with
  | None => (false, g)
  | Some x => let (ok, x') := t_start x in (ok, set_transport x' g)
  end.
Definition gateway_stop (g : Gateway) : Gateway :=
  let g := match g_transport g with None => g | Some x => set_transport (t_stop x) g end in
  set_sessions sessions_reset g.

Definition on_connect (conn_id : Z) (g : Gateway) : outcome Gateway :=
  r ← create_connection conn_id (g_sessions g);
  Ret (set_sessions r.2 g).
Definition on_disconnect (conn_id : Z) (g : Gateway) : outcome Gateway :=
  sm ← remove_connection conn_id (g_sessions g);
  Ret (set_sessions sm g).

(** ** Responses *)
Definition send_packet {P} `{Packet P} (conn_id : Z) (type : MessageType) (seq ts : Z) (packet : P)
    (g : Gateway) : bool * Gateway :=
  match g_transport g with
  | None => (false, g)
  | Some x =>
      let (len, b) := encode (g_write_buffer g) 8192 type seq ts packet in
      let g := set_write_buffer b g in
      if len =? 0 then (false, g)
      else let (ok, x') := t_send x conn_id (take (Z.to_nat len) b) in (ok, set_transport x' g)
  end.

Definition zero_header : MessageHeader := mkHeader 0 0 0 0 0.
Fixpoint c_string (s : String.string) : list Z :=
  match s with
  | String.EmptyString => []
  | String.String a s => Z.of_N (Ascii.N_of_ascii a) :: c_string s
  end.
(** [std::strncpy] into an array of [n] bytes pads with zeros. *)
Definition strncpy (s : String.string) (n : nat) : list Z := take n (c_string s ++ replicate n 0).

(** ** Packet handling *)
Definition push_command (cmd : OrderCommand) (g : Gateway) : outcome Gateway :=
  r ← push INBOUND_CAPACITY (g_inbound_queue g) cmd;
  Ret (set_queue r.2 g).

Definition handle_login (conn_id : Z) (mem : list Z) (g : Gateway) : outcome Gateway :=
  packet ← packet_at LoginRequestPacket mem;
  r ← authenticate conn_id (lr_client_id packet) (lr_account_id packet) (lr_username packet)
        (lr_password packet) (g_sessions g);
  let ok := r.1 in
  let g := set_sessions r.2 g in
  let resp := {| ls_header := zero_header; ls_client_id := lr_client_id packet;
                 ls_account_id := lr_account_id packet; ls_success := if ok : bool then 1 else 0;
                 ls_reject_reason := if ok then replicate 23 0 else strncpy "Auth Failure"%string 23 |} in
  let (ts, g) := tick g in
  Ret (send_packet conn_id LoginResponse 0 ts resp g).2.

Definition reject_unauthenticated (conn_id : Z) (g : Gateway) : Gateway :=
  let reject := {| rj_header := zero_header; rj_client_order_id := 0; rj_account_id := 0;
                   rj_reason := u16 (RejectReason_code RR_None); rj_padding := replicate 6 0;
                   rj_tail := stack_tail |} in
  let (ts, g) := tick g in
  (send_packet conn_id Reject 0 ts reject g).2.

Definition handle_heartbeat (conn_id slot : Z) (g : Gateway) : outcome Gateway :=
  let (ts, g) := tick g in
  sm ← update_connection slot (with_heartbeat ts) (g_sessions g);
  let g := set_sessions sm g in
  let (ts, g) := tick g in
  Ret (send_packet conn_id Heartbeat 0 ts (mkHeartbeat zero_header) g).2.

Definition handle_new_order (conn_id : Z) (mem : list Z) (g : Gateway) : outcome Gateway :=
  packet ← packet_at NewOrderPacket mem;
  let (seq, s) := next_sequence (g_sequence g) in
  let g := set_sequence s g in
  let (ts, g) := tick g in
  let cmd := {| oc_type := CmdNewOrder; oc_sequence := seq; oc_timestamp := ts;
                oc_client_order_id := no_client_order_id packet; oc_orig_client_order_id := 0;
                oc_symbol_id := no_symbol_id packet; oc_account_id := no_account_id packet;
                oc_price := i64 (no_price_ticks packet); oc_qty := no_qty_units packet;
                oc_side := if no_side packet =? 0 then Buy else Sell;
                oc_order_type := if no_type packet =? 0 then Limit else Market;
                oc_tif := TimeInForce_of_code (no_tif packet); oc_conn_id := conn_id |} in
  push_command cmd g.

Definition handle_cancel_order (conn_id : Z) (mem : list Z) (g : Gateway) : outcome Gateway :=
  packet ← packet_at CancelOrderPacket mem;
  let (seq, s) := next_sequence (g_sequence g) in
  let g := set_sequence s g in
  let (ts, g) := tick g in
  let cmd := {| oc_type := CmdCancelOrder; oc_sequence := seq; oc_timestamp := ts;
                oc_client_order_id := co_client_order_id packet;
                oc_orig_client_order_id := co_orig_client_order_id packet;
                oc_symbol_id := co_symbol_id packet; oc_account_id := co_account_id packet;
                oc_price := 0; oc_qty := 0; oc_side := Buy; oc_order_type := Limit; oc_tif := GTC;
                oc_conn_id := conn_id |} in
  push_command cmd g.

Definition handle_replace_order (conn_id : Z) (mem : list Z) (g : Gateway) : outcome Gateway :=
  packet ← packet_at ReplaceOrderPacket mem;
  let (seq, s) := next_sequence (g_sequence g) in
  let g := set_sequence s g in
  let (ts, g) := tick g in
  let cmd := {| oc_type := CmdReplaceOrder; oc_sequence := seq; oc_timestamp := ts;
                oc_client_order_id := rp_client_order_id packet;
                oc_orig_client_order_id := rp_orig_client_order_id packet;
                oc_symbol_id := rp_symbol_id packet; oc_account_id := rp_account_id packet;
                oc_price := i64 (rp_price_ticks packet); oc_qty := rp_qty_units packet;
                oc_side := Buy; oc_order_type := Limit; oc_tif := GTC; oc_conn_id := conn_id |} in
  push_command cmd g.

(** [Gateway::handle_packet]; [mem] is the memory from the packet's header on
    ([payload - sizeof(MessageHeader)]). *)
Definition handle_packet (conn_id : Z) (header : MessageHeader) (mem : list Z) (g : Gateway) : outcome Gateway :=
  conn ← get_connection conn_id (g_sessions g);
  match conn with
  | None => Ret g
  | Some slot =>
      let type := MessageType_of_code (mh_type header) in
      match type with
      | LoginRequest => handle_login conn_id mem g
      | _ =>
          c ← arr_get (connections (g_sessions g)) slot;
          if negb (cc_authenticated c) then Ret (reject_unauthenticated conn_id g)
          else
            match type with
            | Heartbeat => handle_heartbeat conn_id slot g
            | Logout => sm ← update_connection slot with_logout (g_sessions g); Ret (set_sessions sm g)
            | NewOrder => handle_new_order conn_id mem g
            | CancelOrder => handle_cancel_order conn_id mem g
            | ReplaceOrder => handle_replace_order conn_id mem g
            | _ => Ret g
            end
      end
  end.

(** ** Framing *)
(** The frame parser loop of [on_read]. *)
Fixpoint parse_frames (fuel : nat) (conn_id slot processed : Z) (g : Gateway) : outcome (Z * Gateway) :=
  match fuel with
  | O => Diverge
  | S fuel =>
      c ← arr_get (connections (g_sessions g)) slot;
      if processed <? cc_buffer_len c then
        let from := drop (Z.to_nat processed) (cc_buffer c) in
        let frame := take (Z.to_nat (cc_buffer_len c - processed)) from in
        bytes_read ← decode frame;
        match bytes_read with
        | None => Ret (processed, g)
        | Some (header, n) =>
            g ← handle_packet conn_id header from g;
            parse_frames fuel conn_id slot (processed + n) g
        end
      else Ret (processed, g)
  end.

(** [std::memcpy]/[std::memmove] of [data] to the address [dst] of an array *)
Definition mem_write (b : list Z) (dst : Z) (data : list Z) : outcome (list Z) :=
  if Z.of_nat (length b) <? dst + Z.of_nat (length data) then Undefined
  else Ret (take (Z.to_nat dst) b ++ data ++ drop (Z.to_nat dst + length data) b).

(** Shifting the residual bytes to the start of the buffer. *)
Definition shift_residue (slot processed : Z) (g : Gateway) : outcome Gateway :=
  if 0 <? processed then
    c ← arr_get (connections (g_sessions g)) slot;
    if processed <? cc_buffer_len c then
      b ← mem_write (cc_buffer c) 0
            (take (Z.to_nat (cc_buffer_len c - processed)) (drop (Z.to_nat processed) (cc_buffer c)));
      sm ← update_connection slot (with_input b (cc_buffer_len c - processed)) (g_sessions g);
      Ret (set_sessions sm g)
    else
      sm ← update_connection slot (with_input (cc_buffer c) 0) (g_sessions g);
      Ret (set_sessions sm g)
  else Ret g.

Fixpoint disconnect_all (ids : list Z) (g : Gateway) : outcome Gateway :=
  match ids with
  | [] => Ret g
  | id :: ids => g ← on_disconnect id g; disconnect_all ids g
  end.

Definition on_read (fuel : nat) (conn_id : Z) (data : list Z) (g : Gateway) : outcome Gateway :=
  conn ← get_connection conn_id (g_sessions g);
  match conn with
  | None => Ret g
  | Some slot =>
      c ← arr_get (connections (g_sessions g)) slot;
      if BUFFER_SIZE <? u64 (cc_buffer_len c + Z.of_nat (length data)) then
        match g_transport g with
        | None => Undefined
        | Some x => let (x', ids) := t_disconnect x conn_id in disconnect_all ids (set_transport x' g)
        end
      else
        b ← mem_write (cc_buffer c) (cc_buffer_len c) data;
        sm ← update_connection slot (with_input b (cc_buffer_len c + Z.of_nat (length data))) (g_sessions g);
        r ← parse_frames fuel conn_id slot 0 (set_sessions sm g);
        shift_residue slot r.1 r.2
  end.

(** What the transport tells the gateway, in order. *)
Definition deliver (fuel : nat) (g : Gateway) (e : listener_event) : outcome Gateway :=
  match e with
  | OnConnect id => on_connect id g
  | OnDisconnect id => on_disconnect id g
  | OnRead id data => on_read fuel id data g
  end.
Fixpoint deliver_all (fuel : nat) (es : list listener_event) (g : Gateway) : outcome Gateway :=
  match es with
  | [] => Ret g
  | e :: es => g ← deliver fuel g e; deliver_all fuel es g
  end.
Definition gateway_poll (fuel : nat) (g : Gateway) : outcome Gateway :=
  match g_transport g with
  | None => Ret g
  | Some x => let (x', es) := t_poll x in deliver_all fuel es (set_transport x' g)
  end.
End Gateway.
Arguments Gateway : clear implicits.

(** The constructor over a transport that takes the gateway as its listener;
    [queue] is the engine's inbound queue. *)
Definition gateway_init {X} (transport : option X) (queue : SPSCQueue OrderCommand) : Gateway X :=
  {| g_transport := transport; g_inbound_queue := queue; g_sessions := sessions_reset;
     g_sequence := 1; g_write_buffer := replicate 8192 0; g_ticks := O |}.
