(* ===== verification/GatewayRefine.v ===== *)
(** * FluxTrade: lemmas about the gateway

    What a packet does is independent of the framing buffers, and the framing
    buffers are independent of what a packet does: [strip] forgets the
    buffers, [inputs] keeps them only.  From this, the frame parser loop
    handles the frames of the stream one after the other. *)
From S2P Require Import Prelude Domain RingBuffer Wire Sessions Gateway.
Local Open Scope Z_scope.

#[export] Instance outcome_fmap : FMap outcome := fun A B f m => m ≫= fun a => Ret (f a).
Lemma fmap_bind_comm {A B C} (f : B -> C) (g : A -> outcome B) m : f <$> (m ≫= g) = m ≫= fun a => f <$> g a.
Proof. by destruct m. Qed.

Lemma fmap_Ret {A B} (f : A -> B) a : f <$> Ret a = Ret (f a).
Proof. reflexivity. Qed.

Lemma Ret_inj {A} (a b : A) : Ret a = Ret b -> a = b.
Proof. by intros [= ->]. Qed.

Section Refine.
Context {X : Type} `{Transport X} (now : nat -> Z) (stack_tail : list Z).
(** ** The invariant *)
Definition gateway_ok (g : Gateway X) : Prop :=
  sessions_ok (g_sessions g) /\ exists l, queue_rep INBOUND_CAPACITY (g_inbound_queue g) l.

Definition input (c : ClientConnection) : Z * list Z * Z := (cc_conn_id c, cc_buffer c, cc_buffer_len c).
Definition inputs (g : Gateway X) : list (Z * list Z * Z) * Z :=
  (input <$> connections (g_sessions g), active_count (g_sessions g)).

Definition strip_c (c : ClientConnection) : ClientConnection := with_input [] 0 c.
Definition strip_s (sm : SessionManager) : SessionManager :=
  {| connections := strip_c <$> connections sm; active_count := active_count sm |}.
Definition strip (g : Gateway X) : Gateway X :=
  set_write_buffer [] (set_sessions (strip_s (g_sessions g)) g).

Lemma queue_pos : 0 < INBOUND_CAPACITY < 2 ^ 64.
Proof. unfold INBOUND_CAPACITY. lia. Qed.
Lemma queue_pow : Z.land INBOUND_CAPACITY (INBOUND_CAPACITY - 1) = 0.
Proof. reflexivity. Qed.

(** ** Stripping *)
Lemma arr_get_fmap {A B} (f : A -> B) (l : list A) i : arr_get (f <$> l) i = f <$> arr_get l i.
Proof. unfold arr_get. destruct (i <? 0); [done|]. rewrite list_lookup_fmap. by destruct (l !! _). Qed.
Lemma arr_set_fmap {A B} (f : A -> B) (l : list A) i x :
  arr_set (f <$> l) i (f x) = (fun k : list A => f <$> k) <$> arr_set l i x.
Proof.
  unfold arr_set. rewrite length_fmap. destruct (_ && _); [|done]. cbn. by rewrite list_fmap_insert.
Qed.

Lemma scan_connections_strip cs id i n : scan_connections (strip_c <$> cs) id i n = scan_connections cs id i n.
Proof.
  revert i. induction n as [|n IH]; intros i; [done|]. cbn [scan_connections]. rewrite arr_get_fmap.
  destruct (arr_get cs i); try done. cbn. by rewrite IH.
Qed.
Lemma get_connection_strip id sm : get_connection id (strip_s sm) = get_connection id sm.
Proof. apply scan_connections_strip. Qed.

Lemma update_connection_strip i f sm :
  (forall c, strip_c (f c) = f (strip_c c)) ->
  update_connection i f (strip_s sm) = strip_s <$> update_connection i f sm.
Proof.
  intros Hf. unfold update_connection. cbn [connections strip_s]. rewrite arr_get_fmap.
  destruct (arr_get (connections sm) i); try done. cbn. rewrite <- Hf, arr_set_fmap.
  by destruct (arr_set (connections sm) i (f a)).
Qed.

Lemma strip_c_idemp c : strip_c (strip_c c) = strip_c c.
Proof. reflexivity. Qed.
Lemma strip_s_idemp sm : strip_s (strip_s sm) = strip_s sm.
Proof. unfold strip_s. cbn. f_equal. rewrite <- list_fmap_compose. by apply list_fmap_ext. Qed.

(** Goals that are equal up to stripping twice. *)
Ltac strip_done :=
  unfold strip, set_write_buffer, set_sessions, set_transport, set_queue, set_sequence; cbn;
  rewrite ?strip_s_idemp; reflexivity.
Lemma strip_idemp g : strip (strip g) = strip g.
Proof. strip_done. Qed.

Definition packet_sized {P} `{Packet P} (p : P) : Prop :=
  forall h, Z.of_nat (length (packet_bytes (pk_set_header h p))) = packet_size P.

Lemma send_packet_strip {P} `{Packet P} id type seq ts (p : P) g :
  packet_sized p -> strip (send_packet id type seq ts p (strip g)).2 = strip (send_packet id type seq ts p g).2.
Proof.
  intros Hs. unfold send_packet. cbn. destruct (g_transport g) as [x|]; [|strip_done].
  unfold encode. destruct (8192 <? packet_size P); cbn -[packet_bytes packet_size strip]; [strip_done|].
  set (b := packet_bytes _). assert (length b = Z.to_nat (packet_size P)) as L.
  { subst b. match goal with |- context [pk_set_header ?h _] => pose proof (Hs h) end. lia. }
  destruct (packet_size P =? 0); [strip_done|]. rewrite <- L, !take_app_length.
  destruct (t_send x id b). strip_done.
Qed.

(** [packet_sized] of the responses, whatever the values of their fields. *)
Lemma login_response_sized h a b c r : length r = 23%nat -> packet_sized (mkLoginResponse h a b c r).
Proof.
  intros L h'. unfold packet_bytes, fields_bytes, packet_size. cbn -[le_bytes].
  rewrite !length_app, !le_bytes_length, L. reflexivity.
Qed.
Lemma reject_sized h a b c : length stack_tail = 4%nat -> packet_sized (mkReject h a b c (replicate 6 0) stack_tail).
Proof.
  intros Htail h'. unfold packet_bytes, fields_bytes, packet_size. cbn -[le_bytes replicate].
  rewrite !length_app, !le_bytes_length, length_replicate, Htail. reflexivity.
Qed.
Lemma heartbeat_sized h : packet_sized (mkHeartbeat h).
Proof.
  intros h'. unfold packet_bytes, fields_bytes, packet_size. cbn -[le_bytes].
  rewrite !length_app, !le_bytes_length. reflexivity.
Qed.

Lemma authenticate_strip id client account u w sm :
  authenticate id client account u w (strip_s sm) =
  (fun r => (r.1, strip_s r.2)) <$> authenticate id client account u w sm.
Proof.
  unfold authenticate. rewrite get_connection_strip.
  destruct (get_connection id sm) as [[i|]| | | |]; try done. cbn.
  destruct (arr_get u 0) as [u0| | | |]; try done. cbn.
  destruct (if u0 =? 0 then Ret 0 else arr_get w 0) as [w0| | | |]; try done. cbn.
  destruct ((u0 =? 0) || (w0 =? 0)); [done|]. rewrite update_connection_strip by done.
  by destruct (update_connection i _ sm).
Qed.

Lemma push_command_strip cmd g : strip <$> push_command cmd (strip g) = strip <$> push_command cmd g.
Proof.
  unfold push_command. cbn. destruct (push _ _ _) as [[ok q]| | | |]; try done.
  cbn -[strip]. strip_done.
Qed.



Lemma handle_login_strip id mem g :
  strip <$> handle_login now id mem (strip g) = strip <$> handle_login now id mem g.
Proof.
  unfold handle_login. destruct (packet_at LoginRequestPacket mem) as [p| | | |]; try done. cbn -[strip].
  change (g_sessions (strip g)) with (strip_s (g_sessions g)). rewrite authenticate_strip.
  destruct (authenticate _ _ _ _ _ (g_sessions g)) as [[ok sm]| | | |]; try done. cbn -[strip strncpy replicate].
  f_equal. set (resp := mkLoginResponse _ _ _ _ _). set (g' := mkGateway _ _ sm _ _ _).
  rewrite <- (send_packet_strip id LoginResponse 0 _ resp g'); [reflexivity|].
  apply login_response_sized. by destruct ok.
Qed.

Lemma reject_strip id g :
  length stack_tail = 4%nat ->
  strip (reject_unauthenticated now stack_tail id (strip g)) = strip (reject_unauthenticated now stack_tail id g).
Proof.
  intros Ht. unfold reject_unauthenticated. cbn -[strip replicate].
  set (r := mkReject _ _ _ _ _ _).
  rewrite <- (send_packet_strip id Reject 0 _ r (mkGateway _ _ (g_sessions g) _ (g_write_buffer g) _)); [reflexivity|].
  by apply reject_sized.
Qed.

Lemma handle_heartbeat_strip id slot g :
  strip <$> handle_heartbeat now id slot (strip g) = strip <$> handle_heartbeat now id slot g.
Proof.
  unfold handle_heartbeat. cbn -[strip strip_s].
  change (g_sessions (strip g)) with (strip_s (g_sessions g)). rewrite update_connection_strip by done.
  destruct (update_connection slot _ (g_sessions g)) as [sm| | | |]; try done. cbn -[strip strip_s].
  f_equal. set (g' := mkGateway _ _ sm _ (g_write_buffer g) _).
  rewrite <- (send_packet_strip id Heartbeat 0 _ (mkHeartbeat zero_header) g'); [reflexivity|].
  apply heartbeat_sized.
Qed.

Lemma handle_new_order_strip id mem g :
  strip <$> handle_new_order now id mem (strip g) = strip <$> handle_new_order now id mem g.
Proof.
  unfold handle_new_order. destruct (packet_at NewOrderPacket mem) as [p| | | |]; try done. cbn -[strip push_command].
  set (g' := mkGateway _ _ (g_sessions g) _ (g_write_buffer g) _). by rewrite <- (push_command_strip _ g').
Qed.
Lemma handle_cancel_order_strip id mem g :
  strip <$> handle_cancel_order now id mem (strip g) = strip <$> handle_cancel_order now id mem g.
Proof.
  unfold handle_cancel_order. destruct (packet_at CancelOrderPacket mem) as [p| | | |]; try done. cbn -[strip push_command].
  set (g' := mkGateway _ _ (g_sessions g) _ (g_write_buffer g) _). by rewrite <- (push_command_strip _ g').
Qed.
Lemma handle_replace_order_strip id mem g :
  strip <$> handle_replace_order now id mem (strip g) = strip <$> handle_replace_order now id mem g.
Proof.
  unfold handle_replace_order. destruct (packet_at ReplaceOrderPacket mem) as [p| | | |]; try done. cbn -[strip push_command].
  set (g' := mkGateway _ _ (g_sessions g) _ (g_write_buffer g) _). by rewrite <- (push_command_strip _ g').
Qed.

Lemma handle_logout_strip slot g :
  strip <$> (sm ← update_connection slot with_logout (strip_s (g_sessions g)); Ret (set_sessions sm (strip g))) =
  strip <$> (sm ← update_connection slot with_logout (g_sessions g); Ret (set_sessions sm g)).
Proof.
  rewrite update_connection_strip by done.
  destruct (update_connection slot with_logout (g_sessions g)); try reflexivity. cbn -[strip strip_s]. f_equal. strip_done.
Qed.

Lemma read_strip slot sm (m m' : ClientConnection -> outcome (Gateway X)) :
  (forall c, strip <$> m (strip_c c) = strip <$> m' c) ->
  strip <$> (arr_get (connections (strip_s sm)) slot ≫= m) = strip <$> (arr_get (connections sm) slot ≫= m').
Proof.
  intros Hm. cbn [connections strip_s]. rewrite arr_get_fmap.
  destruct (arr_get (connections sm) slot); try reflexivity. cbn -[strip]. apply Hm.
Qed.

(** A packet's effect does not depend on the framing buffers. *)
Lemma handle_packet_strip id h mem g :
  length stack_tail = 4%nat ->
  strip <$> handle_packet now stack_tail id h mem (strip g) = strip <$> handle_packet now stack_tail id h mem g.
Proof.
  intros Ht. unfold handle_packet. change (g_sessions (strip g)) with (strip_s (g_sessions g)).
  rewrite get_connection_strip. destruct (get_connection id (g_sessions g)) as [[slot|]| | | |]; try reflexivity.
  2:{ rewrite !bind_Ret, !fmap_Ret. f_equal. apply strip_idemp. }
  rewrite !bind_Ret. destruct (MessageType_of_code (mh_type h)); try apply handle_login_strip;
    apply read_strip; intros c; change (cc_authenticated (strip_c c)) with (cc_authenticated c);
    (destruct (cc_authenticated c); unfold negb; [|rewrite !fmap_Ret; f_equal; by apply reject_strip]);
    rewrite ?fmap_Ret.
  all: first
    [ f_equal; apply strip_idemp
    | apply handle_heartbeat_strip
    | apply handle_new_order_strip
    | apply handle_cancel_order_strip
    | apply handle_replace_order_strip
    | apply handle_logout_strip ].
Qed.

(** ** What packets leave alone, and that they are handled *)
Lemma send_packet_sessions {P} `{Packet P} id type seq ts (p : P) (g : Gateway X) :
  g_sessions (send_packet id type seq ts p g).2 = g_sessions g /\
  g_inbound_queue (send_packet id type seq ts p g).2 = g_inbound_queue g /\
  g_sequence (send_packet id type seq ts p g).2 = g_sequence g.
Proof.
  unfold send_packet. destruct (g_transport g) as [x|]; [|done].
  destruct (encode _ _ _ _ _ p) as [len b]. destruct (len =? 0); [done|]. by destruct (t_send x id _).
Qed.

(** [g'] differs from [g] in nothing the framing depends on. *)
Definition keeps (g g' : Gateway X) : Prop := gateway_ok g' /\ inputs g' = inputs g.

Lemma update_keeps i f c g :
  gateway_ok g -> live (g_sessions g) !! i = Some c -> input (f c) = input c ->
  exists sm, update_connection (Z.of_nat i) f (g_sessions g) = Ret sm /\ sessions_ok sm /\
    inputs (set_sessions sm g) = inputs g /\ sessions_map sm = <[cc_conn_id c := f c]> (sessions_map (g_sessions g)).
Proof.
  intros [I _] Hi Hf. injection Hf as Hid Hb Hl.
  destruct (update_connection_spec i f c (g_sessions g) I Hi) as (sm & E & I' & M & A & C); [|done|].
  - unfold connection_ok. rewrite Hb, Hl. pose proof I as (_ & _ & _ & F). apply live_lookup in Hi as [Hc _].
    exact (Forall_lookup_1 _ _ _ _ F Hc).
  - exists sm. split_and!; [done..| |done]. unfold inputs. cbn. rewrite C, A. f_equal.
    rewrite list_fmap_insert. apply list_insert_id. rewrite list_lookup_fmap.
    apply live_lookup in Hi as [-> _]. cbn. unfold input. by rewrite Hid, Hb, Hl.
Qed.

Lemma send_keeps {P} `{Packet P} id type seq ts (p : P) g :
  gateway_ok g -> keeps g (send_packet id type seq ts p g).2.
Proof.
  intros I. destruct (send_packet_sessions id type seq ts p g) as (E1 & E2 & E3).
  unfold keeps, gateway_ok, inputs. by rewrite E1, E2.
Qed.

Lemma push_command_keeps cmd g :
  gateway_ok g -> exists g', push_command cmd g = Ret g' /\ keeps g g'.
Proof.
  intros [I [l Q]]. unfold push_command, push.
  destruct (decide (Z.of_nat (length l) < INBOUND_CAPACITY)) as [L|L].
  - destruct (emplace_room _ queue_pos queue_pow _ l cmd Q L) as (q & -> & Q').
    eexists. split; [reflexivity|]. split; [|done]. split; [done|]. by eexists.
  - rewrite (emplace_full _ queue_pos _ l cmd Q) by (destruct Q as (_ & ? & _); lia).
    eexists. split; [reflexivity|]. split; [|done]. split; [done|]. by exists l.
Qed.

(** The bytes the handler of a message type reads. *)
Definition required_size (t : MessageType) : Z :=
  match t with
  | LoginRequest => packet_size LoginRequestPacket
  | NewOrder => packet_size NewOrderPacket
  | CancelOrder => packet_size CancelOrderPacket
  | ReplaceOrder => packet_size ReplaceOrderPacket
  | _ => HEADER_SIZE
  end.

Lemma login_strings mem :
  packet_size LoginRequestPacket <= Z.of_nat (length mem) ->
  exists p u us w ws, packet_at LoginRequestPacket mem = Ret p /\ lr_username p = u :: us /\ lr_password p = w :: ws.
Proof.
  intros L. destruct (packet_at_total (P := LoginRequestPacket) mem L) as (fs & p & E & M & F).
  exists p. cbn in F. unfold header_layout in F. cbn in F. fields_of_layout. injection M as <-. cbn.
  do 2 (match goal with H : length ?l = 16%nat |- _ => destruct l; [done|]; clear H end).
  by do 4 eexists.
Qed.

Lemma authenticate_keeps id client account u us w ws g :
  gateway_ok g ->
  exists ok sm, authenticate id client account (u :: us) (w :: ws) (g_sessions g) = Ret (ok, sm) /\
    keeps g (set_sessions sm g).
Proof.
  intros I. pose proof I as [S Q]. unfold authenticate. pose proof (get_connection_spec id _ S) as G.
  destruct (sessions_map (g_sessions g) !! id) as [c|].
  2:{ rewrite G, bind_Ret. exists false, (g_sessions g). by split. }
  destruct G as (i & -> & Hi & Hid). rewrite bind_Ret, (arr_get_Ret (u :: us) 0 u), bind_Ret by done.
  rewrite (arr_get_Ret (w :: ws) 0 w) by done.
  destruct (if u =? 0 then Ret 0 else Ret w) as [w0| | | |] eqn:E; try by destruct (u =? 0).
  rewrite bind_Ret. destruct ((u =? 0) || (w0 =? 0)); [exists false, (g_sessions g); by split|].
  destruct (update_keeps i (with_login client account) c g I Hi) as (sm & -> & S' & Hin & _); [done|].
  rewrite bind_Ret. exists true, sm. split; [done|]. by split; [split|].
Qed.

Lemma keeps_trans g1 g2 g3 : keeps g1 g2 -> keeps g2 g3 -> keeps g1 g3.
Proof. intros [_ E1] [I E2]. split; [done|]. by rewrite E2. Qed.

Lemma handle_login_keeps id mem g :
  gateway_ok g -> packet_size LoginRequestPacket <= Z.of_nat (length mem) ->
  exists g', handle_login now id mem g = Ret g' /\ keeps g g'.
Proof.
  intros I L. unfold handle_login. destruct (login_strings mem L) as (p & u & us & w & ws & -> & Eu & Ew).
  rewrite bind_Ret, Eu, Ew. destruct (authenticate_keeps id (lr_client_id p) (lr_account_id p) u us w ws g I) as (ok & sm & -> & K).
  rewrite bind_Ret. cbn [fst snd tick]. eexists. split; [reflexivity|].
  eapply keeps_trans; [|apply send_keeps; exact (proj1 K)]. exact K.
Qed.

Lemma handle_heartbeat_keeps id i c g :
  gateway_ok g -> live (g_sessions g) !! i = Some c ->
  exists g', handle_heartbeat now id (Z.of_nat i) g = Ret g' /\ keeps g g'.
Proof.
  intros I Hi. unfold handle_heartbeat. cbn [tick].
  destruct (update_keeps i (with_heartbeat (now (g_ticks g))) c g I Hi) as (sm & E & S' & Hin & _); [done|].
  change (g_sessions (mkGateway _ _ ?sm _ _ _)) with sm. rewrite E, bind_Ret.
  eexists. split; [reflexivity|]. destruct I as [_ Q].
  assert (keeps g (set_sessions sm g)) as K by (by split; [split|]).
  eapply keeps_trans; [|apply send_keeps; exact (proj1 K)]. exact K.
Qed.

Lemma reject_keeps id g : gateway_ok g -> keeps g (reject_unauthenticated now stack_tail id g).
Proof. intros I. unfold reject_unauthenticated. cbn [tick]. exact (send_keeps _ _ _ _ _ (mkGateway _ _ _ _ _ _) I). Qed.

Lemma handle_packet_keeps id h mem g :
  gateway_ok g -> required_size (MessageType_of_code (mh_type h)) <= Z.of_nat (length mem) ->
  exists g', handle_packet now stack_tail id h mem g = Ret g' /\ keeps g g'.
Proof.
  intros I L. unfold handle_packet. pose proof I as [S Q]. pose proof (get_connection_spec id _ S) as G.
  assert (keeps g g) as Kg by (by split).
  destruct (sessions_map (g_sessions g) !! id) as [c|].
  2:{ rewrite G, bind_Ret. by exists g. }
  destruct G as (i & -> & Hi & Hid). rewrite bind_Ret.
  pose proof Hi as [Hc _]%live_lookup.
  assert (arr_get (connections (g_sessions g)) (Z.of_nat i) = Ret c) as Hget
    by (apply arr_get_Ret; [lia|by rewrite Nat2Z.id]).
  destruct (MessageType_of_code (mh_type h)); cbn [required_size] in L;
    [..|by apply handle_login_keeps| | | | | | | | | |];
    rewrite Hget, bind_Ret; destruct (cc_authenticated c); cbn [negb];
    try (eexists; split; [reflexivity|]; by apply reject_keeps);
    try (exists g; done).
  - by eapply handle_heartbeat_keeps.
  - destruct (update_keeps i with_logout c g I Hi) as (sm & -> & S' & Hin & _); [done|].
    rewrite bind_Ret. eexists. split; [reflexivity|]. by split; [split|].
  - unfold handle_new_order. destruct (packet_at_total (P := NewOrderPacket) mem L) as (fs & p & -> & _).
    rewrite bind_Ret. cbn [next_sequence tick]. exact (push_command_keeps _ (mkGateway _ _ _ _ _ _) I).
  - unfold handle_cancel_order. destruct (packet_at_total (P := CancelOrderPacket) mem L) as (fs & p & -> & _).
    rewrite bind_Ret. cbn [next_sequence tick]. exact (push_command_keeps _ (mkGateway _ _ _ _ _ _) I).
  - unfold handle_replace_order. destruct (packet_at_total (P := ReplaceOrderPacket) mem L) as (fs & p & -> & _).
    rewrite bind_Ret. cbn [next_sequence tick]. exact (push_command_keeps _ (mkGateway _ _ _ _ _ _) I).
Qed.

(** A handler reads no further than the packet it expects. *)
Lemma handle_packet_app id h mem rest g :
  required_size (MessageType_of_code (mh_type h)) <= Z.of_nat (length mem) ->
  handle_packet now stack_tail id h (mem ++ rest) g = handle_packet now stack_tail id h mem g.
Proof.
  intros L. unfold handle_packet. destruct (get_connection id (g_sessions g)) as [[slot|]| | | |]; try reflexivity.
  rewrite !bind_Ret. destruct (MessageType_of_code (mh_type h)); cbn [required_size] in L; try reflexivity.
  - unfold handle_login. by rewrite packet_at_app.
  - destruct (arr_get _ slot) as [c| | | |]; try reflexivity. rewrite !bind_Ret.
    unfold handle_new_order. by rewrite packet_at_app.
  - destruct (arr_get _ slot) as [c| | | |]; try reflexivity. rewrite !bind_Ret.
    unfold handle_cancel_order. by rewrite packet_at_app.
  - destruct (arr_get _ slot) as [c| | | |]; try reflexivity. rewrite !bind_Ret.
    unfold handle_replace_order. by rewrite packet_at_app.
Qed.
End Refine.
