(* ===== verification/GatewayFraming.v ===== *)
(** * FluxTrade: the framing of the byte stream

    Against the stream of well-formed packets a connection sends, [on_read]
    handles the complete frames in order and keeps the bytes of the unfinished
    one, wherever the transport cuts the stream. *)
From S2P Require Import Prelude Domain RingBuffer Wire Sessions Gateway GatewayRefine.
Local Open Scope Z_scope.

Section Framing.
Context {X : Type} `{Transport X} (now : nat -> Z) (stack_tail : list Z).

(** A frame whose header gives its length and which has all the bytes its
    handler reads. *)
Definition frame_ok (f : list Z) : Prop :=
  exists h, packet_at MessageHeader f = Ret h /\ mh_length h = Z.of_nat (length f) /\
    required_size (MessageType_of_code (mh_type h)) <= Z.of_nat (length f).

Definition handle_frame (id : Z) (f : list Z) (g : Gateway X) : outcome (Gateway X) :=
  h ← packet_at MessageHeader f; handle_packet now stack_tail id h f g.
Fixpoint handle_frames (id : Z) (fs : list (list Z)) (g : Gateway X) : outcome (Gateway X) :=
  match fs with
  | [] => Ret g
  | f :: fs => g ← handle_frame id f g; handle_frames id fs g
  end.

(** The bytes of connection [id], at slot [i], that wait for the rest of their
    frame. *)
Definition pending_at (i : nat) (id : Z) (g : Gateway X) (P : list Z) : Prop :=
  exists c, live (g_sessions g) !! i = Some c /\ cc_conn_id c = id /\
    take (Z.to_nat (cc_buffer_len c)) (cc_buffer c) = P.

(** ** Frames *)
Lemma required_header t : HEADER_SIZE <= required_size t.
Proof. by destruct t; unfold required_size. Qed.

Lemma decode_frame f rest h :
  packet_at MessageHeader f = Ret h -> mh_length h = Z.of_nat (length f) -> HEADER_SIZE <= Z.of_nat (length f) ->
  decode (f ++ rest) = Ret (Some (h, Z.of_nat (length f))).
Proof.
  intros E L HS. unfold decode. rewrite length_app.
  destruct (Z.ltb_spec (Z.of_nat (length f + length rest)) HEADER_SIZE); [lia|].
  rewrite packet_at_app, E, bind_Ret, L by done.
  by destruct (Z.ltb_spec (Z.of_nat (length f + length rest)) (Z.of_nat (length f))); [lia|].
Qed.

Lemma decode_short k : Z.of_nat (length k) < HEADER_SIZE -> decode k = Ret None.
Proof. intros L. unfold decode. by destruct (Z.ltb_spec (Z.of_nat (length k)) HEADER_SIZE); [|lia]. Qed.

(** What is incomplete has incomplete beginnings. *)
Lemma decode_beginning k t : decode (k ++ t) = Ret None -> decode k = Ret None.
Proof.
  intros E. destruct (Z_lt_ge_dec (Z.of_nat (length k)) HEADER_SIZE) as [L|L]; [by apply decode_short|].
  revert E. unfold decode. rewrite length_app.
  destruct (Z.ltb_spec (Z.of_nat (length k + length t)) HEADER_SIZE); [lia|].
  destruct (Z.ltb_spec (Z.of_nat (length k)) HEADER_SIZE); [lia|].
  rewrite packet_at_app by (unfold HEADER_SIZE in *; lia).
  destruct (packet_at MessageHeader k) as [h| | | |]; try done. rewrite !bind_Ret.
  destruct (Z.ltb_spec (Z.of_nat (length k + length t)) (mh_length h)); [|done].
  by destruct (Z.ltb_spec (Z.of_nat (length k)) (mh_length h)); [|lia].
Qed.

Lemma decode_cut k t : frame_ok (k ++ t) -> t <> [] -> decode k = Ret None.
Proof.
  intros (h & E & L & R) Ht. destruct (Z_lt_ge_dec (Z.of_nat (length k)) HEADER_SIZE) as [HS|HS]; [by apply decode_short|].
  unfold decode. destruct (Z.ltb_spec (Z.of_nat (length k)) HEADER_SIZE); [lia|].
  rewrite packet_at_app in E by (unfold HEADER_SIZE in *; lia). rewrite E, bind_Ret, L, length_app.
  destruct t; [done|]. cbn [length].
  by destruct (Z.ltb_spec (Z.of_nat (length k)) (Z.of_nat (length k + S (length t)))); [|lia].
Qed.

(** A beginning of the stream is some whole frames and an incomplete one. *)
Lemma stream_cut (fs : list (list Z)) rest k t n :
  Forall frame_ok fs -> Forall (fun f => (length f <= n)%nat) fs -> (length rest <= n)%nat ->
  decode rest = Ret None -> k ++ t = concat fs ++ rest ->
  exists fs1 fs2 rest1, fs = fs1 ++ fs2 /\ k = concat fs1 ++ rest1 /\ rest1 ++ t = concat fs2 ++ rest /\
    decode rest1 = Ret None /\ (length rest1 <= n)%nat.
Proof.
  intros F. revert k. induction F as [|f fs Hf _ IH]; intros k Fn Hn Hr E.
  - exists [], [], k. cbn in *. subst rest. split_and!; [done..|by eapply decode_beginning|].
    rewrite length_app in Hn. lia.
  - apply Forall_cons in Fn as [Hl Fn]. cbn in E. rewrite <- app_assoc in E.
    destruct (decide (length k < length f)%nat) as [L|L].
    + exists [], (f :: fs), k. cbn. rewrite <- app_assoc. split_and!; [done..| |lia].
      assert (f = k ++ drop (length k) f) as Ef.
      { rewrite <- (take_drop (length k) f) at 1. f_equal.
        rewrite <- (take_app_le f (concat fs ++ rest)) by lia. by rewrite <- E, take_app_length. }
      apply (decode_cut k (drop (length k) f)); [by rewrite <- Ef|].
      intros D. apply (f_equal length) in D. rewrite length_drop in D. cbn in D. lia.
    + assert (k = f ++ drop (length f) k) as Ek.
      { rewrite <- (take_drop (length f) k) at 1. f_equal.
        rewrite <- (take_app_le k t) by lia. by rewrite E, take_app_length. }
      rewrite Ek, <- app_assoc in E. apply app_inv_head in E.
      destruct (IH _ Fn Hn Hr E) as (fs1 & fs2 & rest1 & -> & E1 & E2 & D & Ln).
      exists (f :: fs1), fs2, rest1. split_and!; try done. rewrite Ek, E1. cbn. by rewrite app_assoc.
Qed.

(** ** The handler over frames *)
Lemma handle_frame_keeps id f g : gateway_ok g -> frame_ok f -> exists g', handle_frame id f g = Ret g' /\ keeps g g'.
Proof.
  intros I (h & E & L & R). unfold handle_frame. rewrite E, bind_Ret. by apply handle_packet_keeps.
Qed.
Lemma handle_frames_keeps id fs g :
  gateway_ok g -> Forall frame_ok fs -> exists g', handle_frames id fs g = Ret g' /\ keeps g g'.
Proof.
  intros I F. revert g I. induction F as [|f fs Hf _ IH]; intros g I; cbn [handle_frames]; [by exists g|].
  destruct (handle_frame_keeps id f g I Hf) as (g1 & -> & K1). rewrite bind_Ret.
  destruct (IH g1 (proj1 K1)) as (g2 & -> & K2). exists g2. split; [done|]. by eapply keeps_trans.
Qed.

Lemma handle_frames_strip id fs g g' :
  length stack_tail = 4%nat -> strip g = strip g' ->
  strip <$> handle_frames id fs g = strip <$> handle_frames id fs g'.
Proof.
  intros Ht. revert g g'. induction fs as [|f fs IH]; intros g g' E; cbn [handle_frames]; [by rewrite !fmap_Ret, E|].
  assert (strip <$> handle_frame id f g = strip <$> handle_frame id f g') as Ef.
  { unfold handle_frame. destruct (packet_at MessageHeader f) as [h| | | |]; try reflexivity. rewrite !bind_Ret.
    rewrite <- (handle_packet_strip now stack_tail id h f g Ht), E. by apply handle_packet_strip. }
  destruct (handle_frame id f g), (handle_frame id f g'); try discriminate Ef; try reflexivity.
  rewrite !bind_Ret. apply IH. exact (Ret_inj _ _ Ef).
Qed.

Lemma handle_frames_app id fs1 fs2 g :
  handle_frames id (fs1 ++ fs2) g = handle_frames id fs1 g ≫= handle_frames id fs2.
Proof.
  revert g. induction fs1 as [|f fs1 IH]; intros g; cbn [handle_frames app]; [done|].
  destruct (handle_frame id f g); try reflexivity. rewrite !bind_Ret. apply IH.
Qed.

(** ** The loop *)
Lemma inputs_lookup (g g' : Gateway X) i c :
  inputs g' = inputs g -> live (g_sessions g) !! i = Some c ->
  exists c', live (g_sessions g') !! i = Some c' /\ input c' = input c.
Proof.
  intros E [Hc Hi]%live_lookup. injection E as E1 E2.
  assert ((input <$> connections (g_sessions g')) !! i = Some (input c)) as E by (by rewrite E1, list_lookup_fmap, Hc).
  rewrite list_lookup_fmap in E. apply fmap_Some in E as (c' & Hc' & Ec). exists c'. split; [|done].
  apply live_lookup. split; [done|]. by rewrite E2.
Qed.

(** One turn of the loop on a complete frame. *)
Lemma parse_frames_step f tail id i c fuel p g :
  gateway_ok g -> live (g_sessions g) !! i = Some c -> (p <= Z.to_nat (cc_buffer_len c))%nat ->
  drop p (take (Z.to_nat (cc_buffer_len c)) (cc_buffer c)) = f ++ tail -> frame_ok f ->
  exists g1, parse_frames now stack_tail (S fuel) id (Z.of_nat i) (Z.of_nat p) g =
      parse_frames now stack_tail fuel id (Z.of_nat i) (Z.of_nat (p + length f)) g1 /\
    handle_frame id f g = Ret g1 /\ keeps g g1.
Proof.
  intros I Hi Hp Hs (h & Eh & El & Er). cbn [parse_frames]. pose proof Hi as [Hc _]%live_lookup.
  rewrite (arr_get_Ret _ _ c), bind_Ret by (rewrite ?Nat2Z.id; done || lia).
  pose proof (required_header (MessageType_of_code (mh_type h))) as Hh.
  pose proof (f_equal length Hs) as Ls. rewrite length_drop, length_take, length_app in Ls.
  unfold HEADER_SIZE, packet_size in Hh. cbn in Hh.
  destruct (Z.ltb_spec (Z.of_nat p) (cc_buffer_len c)); [|lia].
  rewrite Nat2Z.id, take_drop_commute. replace (p + Z.to_nat (cc_buffer_len c - Z.of_nat p))%nat with (Z.to_nat (cc_buffer_len c)) by lia.
  rewrite Hs, (decode_frame f _ h Eh El) by (unfold HEADER_SIZE, packet_size; cbn; lia). rewrite bind_Ret.
  assert (drop p (cc_buffer c) = f ++ tail ++ drop (Z.to_nat (cc_buffer_len c)) (cc_buffer c)) as ->.
  { rewrite app_assoc, <- Hs, <- drop_app_le by (rewrite length_take; lia). by rewrite take_drop. }
  rewrite handle_packet_app by done. unfold handle_frame. rewrite Eh, bind_Ret.
  destruct (handle_packet_keeps now stack_tail id h f g I Er) as (g1 & -> & K). rewrite bind_Ret.
  exists g1. by rewrite Nat2Z.inj_add.
Qed.

Lemma parse_frames_spec fs rest id i c fuel p g :
  gateway_ok g -> live (g_sessions g) !! i = Some c -> (p <= Z.to_nat (cc_buffer_len c))%nat ->
  drop p (take (Z.to_nat (cc_buffer_len c)) (cc_buffer c)) = concat fs ++ rest ->
  Forall frame_ok fs -> decode rest = Ret None -> (length fs < fuel)%nat ->
  exists g', parse_frames now stack_tail fuel id (Z.of_nat i) (Z.of_nat p) g =
      Ret (Z.of_nat (p + length (concat fs)), g') /\
    handle_frames id fs g = Ret g'.
Proof.
  intros I Hi Hp Hs F Hr. revert c fuel p g I Hi Hp Hs.
  induction F as [|f fs Hf F IH]; intros c fuel p g I Hi Hp Hs Hfuel; (destruct fuel as [|fuel]; [cbn in *; lia|]).
  - cbn [parse_frames handle_frames]. pose proof Hi as [Hc _]%live_lookup.
    rewrite (arr_get_Ret _ _ c), bind_Ret by (rewrite ?Nat2Z.id; done || lia).
    cbn [concat app length] in *. rewrite Nat.add_0_r. exists g. split; [|done].
    destruct (Z.ltb_spec (Z.of_nat p) (cc_buffer_len c)); [|done].
    rewrite Nat2Z.id, take_drop_commute. replace (p + _)%nat with (Z.to_nat (cc_buffer_len c)) by lia.
    by rewrite Hs, Hr, bind_Ret.
  - cbn [concat] in Hs. rewrite <- app_assoc in Hs.
    destruct (parse_frames_step f _ id i c fuel p g I Hi Hp Hs Hf) as (g1 & -> & Eg & I1 & K1).
    destruct (inputs_lookup _ _ i c K1 Hi) as (c1 & Hi1 & [= Eid Eb Ebl]).
    pose proof (f_equal length Hs) as Ls. rewrite length_drop, length_take, length_app in Ls.
    destruct (IH c1 fuel (p + length f)%nat g1 I1 Hi1) as (g' & Ep & Eg').
    + rewrite Ebl. lia.
    + rewrite Eb, Ebl, <- drop_drop, Hs. by rewrite drop_app_length.
    + cbn in Hfuel. lia.
    + exists g'. cbn [handle_frames concat]. rewrite Eg, bind_Ret, Ep, length_app. split; [|done]. do 2 f_equal. lia.
Qed.

(** ** Reading *)
Lemma get_connection_slot i id c sm :
  sessions_ok sm -> live sm !! i = Some c -> cc_conn_id c = id -> get_connection id sm = Ret (Some (Z.of_nat i)).
Proof.
  intros I Hi Hid. pose proof (get_connection_spec id sm I) as G. pose proof I as (_ & _ & ND & _).
  assert (sessions_map sm !! id = Some c) as E.
  { apply elem_of_list_to_map_1; [by rewrite by_id_fst|]. apply list_elem_of_fmap.
    exists c. split; [unfold by_id; by rewrite Hid|]. by eapply list_elem_of_lookup_2. }
  rewrite E in G. destruct G as (j & -> & Hj & _). do 3 f_equal.
  eapply (NoDup_lookup (cc_conn_id <$> live sm)); [done|..]; by rewrite list_lookup_fmap, ?Hi, ?Hj.
Qed.

(** Writing a connection's buffer. *)
Lemma set_input_spec i c b n (g : Gateway X) :
  gateway_ok g -> live (g_sessions g) !! i = Some c -> length b = Z.to_nat BUFFER_SIZE -> 0 <= n <= BUFFER_SIZE ->
  exists sm, update_connection (Z.of_nat i) (with_input b n) (g_sessions g) = Ret sm /\
    gateway_ok (set_sessions sm g) /\ strip (set_sessions sm g) = strip g /\
    live sm !! i = Some (with_input b n c) /\
    (forall j, j <> i -> live sm !! j = live (g_sessions g) !! j).
Proof.
  intros [I Q] Hi Hb Hn. pose proof Hi as [Hc Hlt]%live_lookup.
  destruct (update_connection_spec i (with_input b n) c (g_sessions g) I Hi) as (sm & E & I' & M & A & C); [done|done|].
  exists sm. split; [done|]. split; [by split|]. split_and!.
  - unfold strip, set_write_buffer, set_sessions. cbn. f_equal. unfold strip_s. rewrite C, A. f_equal.
    rewrite list_fmap_insert. apply list_insert_id. by rewrite list_lookup_fmap, Hc.
  - apply live_lookup. rewrite C, A. split; [|done]. apply list_lookup_insert_eq. by eapply lookup_lt_Some.
  - intros j Hj. unfold live. rewrite C, A, take_insert_lt by lia.
    by apply list_lookup_insert_ne.
Qed.

Lemma mem_write_spec b dst data :
  (dst + length data <= length b)%nat ->
  exists b', mem_write b (Z.of_nat dst) data = Ret b' /\ length b' = length b /\
    take (dst + length data) b' = take dst b ++ data.
Proof.
  intros L. unfold mem_write. destruct (Z.ltb_spec (Z.of_nat (length b)) (Z.of_nat dst + Z.of_nat (length data))); [lia|].
  eexists. split; [reflexivity|]. rewrite Nat2Z.id. split.
  - rewrite !length_app, length_take, length_drop. lia.
  - rewrite app_assoc. rewrite take_app_le by (rewrite length_app, length_take; lia).
    apply take_ge. rewrite length_app, length_take. lia.
Qed.

Lemma shift_residue_spec i id c p (g : Gateway X) :
  gateway_ok g -> live (g_sessions g) !! i = Some c -> cc_conn_id c = id -> (p <= Z.to_nat (cc_buffer_len c))%nat ->
  exists g', shift_residue (Z.of_nat i) (Z.of_nat p) g = Ret g' /\ gateway_ok g' /\ strip g' = strip g /\
    pending_at i id g' (drop p (take (Z.to_nat (cc_buffer_len c)) (cc_buffer c))) /\
    (forall j, j <> i -> live (g_sessions g') !! j = live (g_sessions g) !! j).
Proof.
  intros I Hi Hid Hp. pose proof Hi as [Hc _]%live_lookup.
  assert (connection_ok c) as [Hb Hl] by (destruct I as [(_ & _ & _ & F) _]; exact (Forall_lookup_1 _ _ _ _ F Hc)).
  unfold shift_residue. destruct (Z.ltb_spec 0 (Z.of_nat p)).
  2:{ assert (p = 0%nat) as -> by lia. exists g. split_and!; try done. by exists c. }
  rewrite (arr_get_Ret _ _ c), bind_Ret by (rewrite ?Nat2Z.id; done || lia).
  destruct (Z.ltb_spec (Z.of_nat p) (cc_buffer_len c)).
  - rewrite Nat2Z.id. set (r := take _ (drop p (cc_buffer c))).
    assert (r = drop p (take (Z.to_nat (cc_buffer_len c)) (cc_buffer c))) as Er
      by (subst r; rewrite take_drop_commute; do 2 f_equal; lia).
    assert (length r = Z.to_nat (cc_buffer_len c) - p)%nat as Lr by (rewrite Er, length_drop, length_take; lia).
    destruct (mem_write_spec (cc_buffer c) 0 r) as (b & Eb & Lb & Tb); [lia|].
    change (Z.of_nat 0) with 0 in Eb. rewrite Eb, bind_Ret.
    destruct (set_input_spec i c b (cc_buffer_len c - Z.of_nat p) g I Hi) as (sm & -> & I' & S' & Hi' & Ho); [congruence|lia|].
    rewrite bind_Ret. eexists. split_and!; [reflexivity|done|done| |done].
    eexists. split_and!; [exact Hi'|done|]. cbn. rewrite <- Er.
    transitivity (take (length r) b); [f_equal; lia|exact Tb].
  - destruct (set_input_spec i c (cc_buffer c) 0 g I Hi) as (sm & -> & I' & S' & Hi' & Ho); [done|lia|].
    rewrite bind_Ret. eexists. split_and!; [reflexivity|done|done| |done].
    eexists. split_and!; [exact Hi'|done|]. cbn. symmetry. apply drop_ge. rewrite length_take. lia.
Qed.

(** A read that fits puts its bytes behind those that wait and parses. *)
Lemma on_read_fills i id P data fuel (g : Gateway X) :
  gateway_ok g -> pending_at i id g P -> Z.of_nat (length (P ++ data)) <= BUFFER_SIZE ->
  exists g1 c1, on_read now stack_tail fuel id data g =
      (r ← parse_frames now stack_tail fuel id (Z.of_nat i) 0 g1; shift_residue (Z.of_nat i) r.1 r.2) /\
    gateway_ok g1 /\ strip g1 = strip g /\
    live (g_sessions g1) !! i = Some c1 /\ cc_conn_id c1 = id /\ length (cc_buffer c1) = Z.to_nat BUFFER_SIZE /\
    cc_buffer_len c1 = Z.of_nat (length (P ++ data)) /\ take (length (P ++ data)) (cc_buffer c1) = P ++ data /\
    (forall j, j <> i -> live (g_sessions g1) !! j = live (g_sessions g) !! j).
Proof.
  intros I (c & Hi & Hid & HP) HL. unfold on_read.
  rewrite (get_connection_slot i id c) by (done || apply I). rewrite bind_Ret.
  pose proof Hi as [Hc _]%live_lookup.
  assert (connection_ok c) as [Hb Hl] by (destruct I as [(_ & _ & _ & F') _]; exact (Forall_lookup_1 _ _ _ _ F' Hc)).
  rewrite (arr_get_Ret _ _ c), bind_Ret by (rewrite ?Nat2Z.id; done || lia).
  assert (length P = Z.to_nat (cc_buffer_len c)) as LP by (rewrite <- HP, length_take; lia).
  rewrite length_app in *. unfold BUFFER_SIZE in *.
  rewrite u64_small by lia. destruct (Z.ltb_spec 8192 (cc_buffer_len c + Z.of_nat (length data))); [lia|].
  destruct (mem_write_spec (cc_buffer c) (Z.to_nat (cc_buffer_len c)) data) as (b & Eb & Lb & Tb); [lia|].
  rewrite Z2Nat.id in Eb by lia. rewrite Eb, bind_Ret. rewrite HP, <- LP in Tb.
  destruct (set_input_spec i c b (cc_buffer_len c + Z.of_nat (length data)) g I Hi) as (sm & -> & I1 & S1 & Hi1 & Ho1);
    [rewrite Lb; exact Hb|unfold BUFFER_SIZE; lia|]. rewrite bind_Ret.
  eexists (set_sessions sm g), _. split_and!; [done|done|done|exact Hi1|done| | |exact Tb|exact Ho1]; cbn; [congruence|lia].
Qed.

Lemma on_read_spec fs rest i id P data fuel (g : Gateway X) :
  length stack_tail = 4%nat -> gateway_ok g -> pending_at i id g P ->
  P ++ data = concat fs ++ rest -> Forall frame_ok fs -> decode rest = Ret None ->
  Z.of_nat (length (P ++ data)) <= BUFFER_SIZE -> (length fs < fuel)%nat ->
  exists g', on_read now stack_tail fuel id data g = Ret g' /\ gateway_ok g' /\ pending_at i id g' rest /\
    strip <$> handle_frames id fs g = Ret (strip g') /\
    (forall j c, j <> i -> live (g_sessions g) !! j = Some c ->
       exists c', live (g_sessions g') !! j = Some c' /\ input c' = input c).
Proof.
  intros Ht I HP E F Hr HL Hfuel.
  destruct (on_read_fills i id P data fuel g I HP HL) as (g1 & c1 & -> & I1 & S1 & Hi1 & Hid & _ & El & Tb & Ho1).
  assert (take (Z.to_nat (cc_buffer_len c1)) (cc_buffer c1) = concat fs ++ rest) as T1 by (by rewrite El, Nat2Z.id, Tb).
  destruct (parse_frames_spec fs rest id i c1 fuel 0 g1 I1 Hi1 ltac:(lia) T1 F Hr Hfuel)
    as (g2 & Ep & Eh). change (Z.of_nat 0) with 0 in Ep. rewrite Ep, bind_Ret. cbn [fst snd].
  destruct (handle_frames_keeps id fs _ I1 F) as (g2' & Eh' & I2 & K2).
  rewrite Eh in Eh'. apply Ret_inj in Eh' as <-.
  destruct (inputs_lookup _ _ i c1 K2 Hi1) as (c2 & Hi2 & [= Eid2 Eb2 El2]).
  assert (take (Z.to_nat (cc_buffer_len c2)) (cc_buffer c2) = concat fs ++ rest) as T2.
  { rewrite Eb2, El2. exact T1. }
  destruct (shift_residue_spec i id c2 (0 + length (concat fs)) g2 I2 Hi2) as (g3 & Es & I3 & S3 & P3 & Ho3).
  - congruence.
  - apply (f_equal length) in T2. rewrite length_app, length_take in T2. lia.
  - exists g3. rewrite T2 in P3. cbn [Nat.add] in P3. rewrite drop_app_length in P3. split_and!; try done.
    + rewrite S3. rewrite (handle_frames_strip id fs g g1) by done. by rewrite Eh.
    + intros j d Hj Hd. rewrite <- Ho1 in Hd by done. rewrite Ho3 by done.
      by eapply (inputs_lookup g1 g2).
Qed.

(** Reading a stream in pieces. *)
Lemma deliver_chunks_spec fuel i id chunks : forall fs rest P (g : Gateway X),
  length stack_tail = 4%nat -> gateway_ok g -> pending_at i id g P -> (length P <= 4096)%nat ->
  P ++ concat chunks = concat fs ++ rest -> Forall frame_ok fs -> Forall (fun f => (length f <= 4096)%nat) fs ->
  decode rest = Ret None -> (length rest <= 4096)%nat -> decode P = Ret None ->
  Forall (fun ch => (length ch <= 4096)%nat) chunks -> (length fs < fuel)%nat ->
  exists g', deliver_all now stack_tail fuel (OnRead id <$> chunks) g = Ret g' /\
    gateway_ok g' /\ pending_at i id g' rest /\ strip <$> handle_frames id fs g = Ret (strip g').
Proof.
  induction chunks as [|ch chunks IH]; intros fs rest P g Ht I HP LP E F Fn Hr Hn HdP Fc Hfuel;
    cbn [deliver_all fmap list_fmap concat] in *.
  - rewrite app_nil_r in E. subst P. exists g. destruct fs as [|f fs]; [done|].
    exfalso. apply Forall_cons in F as [(h & Eh & El & Er) _]. cbn in HdP. rewrite <- app_assoc in HdP.
    pose proof (required_header (MessageType_of_code (mh_type h))).
    rewrite (decode_frame f _ h) in HdP by (done || lia). discriminate HdP.
  - apply Forall_cons in Fc as [Lc Fc]. rewrite app_assoc in E.
    destruct (stream_cut fs rest (P ++ ch) (concat chunks) 4096 F Fn Hn Hr E)
      as (fs1 & fs2 & rest1 & -> & E1 & E2 & D1 & L1).
    apply Forall_app in F as [F1 F2]. apply Forall_app in Fn as [Fn1 Fn2]. rewrite length_app in Hfuel.
    destruct (on_read_spec fs1 rest1 i id P ch fuel g Ht I HP E1 F1 D1) as (g1 & Er & I1 & P1 & S1 & _);
      [rewrite length_app; unfold BUFFER_SIZE; lia|lia|].
    unfold deliver. rewrite Er, bind_Ret.
    destruct (IH fs2 rest rest1 g1 Ht I1 P1 L1 E2 F2 Fn2 Hr Hn D1 Fc ltac:(lia)) as (g2 & Ed & I2 & P2 & S2).
    exists g2. split_and!; [exact Ed|done|done|]. rewrite handle_frames_app.
    destruct (handle_frames id fs1 g) as [g1'| | | |]; try discriminate S1. rewrite bind_Ret.
    apply Ret_inj in S1. by rewrite (handle_frames_strip id fs2 g1' g1).
Qed.
End Framing.

(** ** An order packet in one piece *)
(** The command an order packet stands for *)
Definition order_command (sequence timestamp conn_id : Z) (p : NewOrderPacket) : OrderCommand :=
  {| oc_type := CmdNewOrder; oc_sequence := sequence; oc_timestamp := timestamp;
     oc_client_order_id := no_client_order_id p; oc_orig_client_order_id := 0;
     oc_symbol_id := no_symbol_id p; oc_account_id := no_account_id p;
     oc_price := i64 (no_price_ticks p); oc_qty := no_qty_units p;
     oc_side := if no_side p =? 0 then Buy else Sell;
     oc_order_type := if no_type p =? 0 then Limit else Market;
     oc_tif := TimeInForce_of_code (no_tif p); oc_conn_id := conn_id |}.

(** What [encode] writes for an order is one frame that reads back. *)
Lemma encoded_order (p : NewOrderPacket) dest seq ts :
  packet_ok p -> packet_size NewOrderPacket <= Z.of_nat (length dest) ->
  0 <= seq < 2 ^ 64 -> 0 <= ts < 2 ^ 64 -> mh_padding (no_header p) = 0 ->
  let h := mkHeader 64 5 0 seq ts in
  let r := encode dest (Z.of_nat (length dest)) NewOrder seq ts p in
  let b := take (Z.to_nat r.1) r.2 in
  length b = 64%nat /\ frame_ok b /\ packet_at MessageHeader b = Ret h /\
  packet_at NewOrderPacket b = Ret (pk_set_header h p).
Proof.
  intros Hp HL Hs Hts Hpad h. change (packet_size NewOrderPacket) with 64 in HL. unfold encode.
  change (packet_size NewOrderPacket) with 64. destruct (Z.ltb_spec (Z.of_nat (length dest)) 64); [lia|]. cbn [fst snd].
  change (mh_padding (pk_header p)) with (mh_padding (no_header p)). rewrite Hpad.
  change (u16 64) with 64. change (u16 (MessageType_code NewOrder)) with 5. fold h.
  assert (header_ok h) as Hh.
  { unfold header_ok, packet_ok. cbn. unfold header_layout, header_fields. repeat constructor; cbn; lia. }
  assert (packet_ok (pk_set_header h p)) as Hp' by (by apply packet_ok_set).
  pose proof (packet_bytes_length _ Hp') as LB. change (packet_size NewOrderPacket) with 64 in LB.
  set (b := packet_bytes (pk_set_header h p)) in *.
  assert (take (Z.to_nat 64) (b ++ drop (Z.to_nat 64) dest) = b) as ->.
  { rewrite take_app_le by lia. apply take_ge. lia. }
  assert (packet_at MessageHeader b = Ret h) as Eh.
  { subst b. rewrite <- (app_nil_r (packet_bytes _)). by apply header_at_packet. }
  assert (packet_at NewOrderPacket b = Ret (pk_set_header h p)) as Ep.
  { subst b. rewrite <- (app_nil_r (packet_bytes _)). by apply packet_at_bytes. }
  split_and!; [lia| |done|done]. exists h. split_and!; [done|by rewrite LB|by rewrite LB].
Qed.

Lemma new_order_queued {X} `{Transport X} (now : nat -> Z) (stack_tail : list Z)
    fuel i id c (p : NewOrderPacket) dest seq ts l (g : Gateway X) :
  length stack_tail = 4%nat -> gateway_ok g -> (1 < fuel)%nat ->
  queue_rep INBOUND_CAPACITY (g_inbound_queue g) l -> Z.of_nat (length l) < INBOUND_CAPACITY ->
  live (g_sessions g) !! i = Some c -> cc_conn_id c = id -> cc_authenticated c = true -> cc_buffer_len c = 0 ->
  packet_ok p -> packet_size NewOrderPacket <= Z.of_nat (length dest) ->
  0 <= seq < 2 ^ 64 -> 0 <= ts < 2 ^ 64 -> mh_padding (no_header p) = 0 ->
  let r := encode dest (Z.of_nat (length dest)) NewOrder seq ts p in
  exists g', on_read now stack_tail fuel id (take (Z.to_nat r.1) r.2) g = Ret g' /\ gateway_ok g' /\
    queue_rep INBOUND_CAPACITY (g_inbound_queue g') (l ++ [order_command (g_sequence g) (now (g_ticks g)) id p]) /\
    g_sequence g' = u64 (g_sequence g + 1) /\ g_transport g' = g_transport g /\ pending_at i id g' [].
Proof.
  intros Ht I Hfuel Q Hroom Hi Hid Ha H0 Hp HL Hs Hts Hpad r.
  destruct (encoded_order p dest seq ts Hp HL Hs Hts Hpad) as (LB & Fb & Eh & Ep). fold r in LB, Fb, Eh, Ep.
  set (b := take (Z.to_nat r.1) r.2) in *. set (h := mkHeader 64 5 0 seq ts) in *.
  destruct (on_read_spec now stack_tail [b] [] i id [] b fuel g Ht I) as (g' & Er & I' & P' & S' & _).
  - exists c. split_and!; [done..|]. by rewrite H0.
  - cbn. by rewrite !app_nil_r.
  - by repeat constructor.
  - done.
  - cbn [app]. rewrite LB. done.
  - cbn. lia.
  - exists g'. split; [done|]. split; [done|]. revert S'. cbn [handle_frames]. unfold handle_frame. rewrite Eh, bind_Ret.
    unfold handle_packet. rewrite (get_connection_slot i id c) by (done || apply I). rewrite bind_Ret.
    change (MessageType_of_code (mh_type h)) with NewOrder. cbn iota.
    pose proof Hi as [Hc _]%live_lookup.
    rewrite (arr_get_Ret _ _ c), bind_Ret, Ha by (rewrite ?Nat2Z.id; done || lia). cbn [negb].
    unfold handle_new_order. rewrite Ep, bind_Ret. cbn [next_sequence tick set_sequence g_sequence g_ticks].
    unfold push_command, push. cbn [g_inbound_queue set_sequence].
    destruct (emplace_room _ queue_pos queue_pow _ l (order_command (g_sequence g) (now (g_ticks g)) id p) Q Hroom)
      as (q & Eq & Q'). unfold order_command in Eq at 1.
    intros S'. cbn [no_client_order_id no_symbol_id no_account_id no_price_ticks no_qty_units no_side no_type no_tif
      pk_set_header new_order_packet] in S'.
    rewrite Eq, !bind_Ret, fmap_Ret in S'. apply Ret_inj in S'.
    pose proof (f_equal g_inbound_queue S') as E1. pose proof (f_equal g_sequence S') as E2.
    pose proof (f_equal g_transport S') as E3. cbn in E1, E2, E3. by rewrite <- E1, <- E2, <- E3.
Qed.
