(* ===== verification/GatewayProperties.v ===== *)
(** * FluxTrade: what the gateway guarantees

    Packets survive encoding and decoding; the session table is a bounded map;
    the byte stream is cut into the frames that were sent, wherever the
    transport cut it; an order packet reaches the engine's queue as the command
    it encodes, and only from a client that has logged in. *)
From S2P Require Import Prelude Domain RingBuffer Wire Sessions Gateway GatewayRefine GatewayFraming.
Local Open Scope Z_scope.

(** ** The binary protocol *)
(** C23: whatever packet is encoded into a large enough buffer, the decoder
    finds exactly one frame of the packet's size, with the given type, sequence
    number and timestamp, and reinterpreting the frame gives the packet back. *)
Theorem packet_roundtrip {P} `{PacketLaws P} (p : P) dest type seq ts rest :
  packet_ok p -> packet_size P <= Z.of_nat (length dest) ->
  0 <= MessageType_code type < 2 ^ 16 -> 0 <= seq < 2 ^ 64 -> 0 <= ts < 2 ^ 64 ->
  0 <= mh_padding (pk_header p) < 2 ^ 32 ->
  let h := mkHeader (packet_size P) (MessageType_code type) (mh_padding (pk_header p)) seq ts in
  let r := encode dest (Z.of_nat (length dest)) type seq ts p in
  let sent := take (Z.to_nat r.1) r.2 in
  r.1 = packet_size P /\ length r.2 = length dest /\
  decode (sent ++ rest) = Ret (Some (h, packet_size P)) /\
  packet_at P (sent ++ rest) = Ret (pk_set_header h p).
Proof.
  intros Hp HL Ht Hs Hts Hpad h. pose proof (packet_size_header (P := P)) as HS.
  change HEADER_SIZE with 24 in HS. unfold encode. destruct (Z.ltb_spec (Z.of_nat (length dest)) (packet_size P)); [lia|].
  rewrite !u16_small by lia. fold h. cbn [fst snd]. cbv zeta.
  assert (header_ok h) as Hh.
  { unfold header_ok, packet_ok. cbn. unfold header_layout, header_fields.
    repeat constructor; cbn; lia. }
  assert (packet_ok (pk_set_header h p)) as Hp' by (by apply packet_ok_set).
  pose proof (packet_bytes_length _ Hp') as LB. set (b := packet_bytes (pk_set_header h p)) in *.
  assert (take (Z.to_nat (packet_size P)) (b ++ drop (Z.to_nat (packet_size P)) dest) = b) as ->.
  { rewrite take_app_le by lia. apply take_ge. lia. }
  split_and!; [done| | |by apply packet_at_bytes].
  - rewrite length_app, length_drop. lia.
  - rewrite (decode_frame b rest h); [by rewrite LB| | |change HEADER_SIZE with 24; lia].
    + subst b. rewrite <- (app_nil_r (packet_bytes _)). by apply header_at_packet.
    + cbn. by rewrite LB.
Qed.

Definition sample_order : NewOrderPacket :=
  mkNewOrder zero_header 7 1 10 10000000000 5000000 1 0 1 [0; 0; 0; 0; 0].
Lemma sample_order_ok : packet_ok sample_order.
Proof. unfold packet_ok. cbn. unfold header_layout. repeat constructor; cbn; lia. Qed.

Lemma packet_roundtrip_witness :
  decode (take 64 (encode (replicate 80 0) 80 NewOrder 3 4 sample_order).2 ++ [1; 2]) =
  Ret (Some (mkHeader 64 5 0 3 4, 64)).
Proof.
  edestruct (packet_roundtrip sample_order (replicate 80 0) NewOrder 3 4 [1; 2]) as (_ & _ & E & _);
    [exact sample_order_ok|vm_compute; congruence|vm_compute; split; congruence..|exact E].
Defined.

(** ** The session table *)
Inductive session_op : Type :=
| OpConnect (id : Z)
| OpDisconnect (id : Z)
| OpLogin (id client account : Z) (user0 pass0 : Z) (user pass : list Z).
Definition session_step (sm : SessionManager) (o : session_op) : outcome SessionManager :=
  match o with
  | OpConnect id => r ← create_connection id sm; Ret r.2
  | OpDisconnect id => remove_connection id sm
  | OpLogin id c a u0 w0 u w => r ← authenticate id c a (u0 :: u) (w0 :: w) sm; Ret r.2
  end.
Fixpoint session_run (sm : SessionManager) (os : list session_op) : outcome SessionManager :=
  match os with [] => Ret sm | o :: os => sm ← session_step sm o; session_run sm os end.
(** The specification: a map of at most [MAX_CONNECTIONS] connections. *)
Definition session_spec (m : gmap Z ClientConnection) (o : session_op) : gmap Z ClientConnection :=
  match o with
  | OpConnect id =>
      if decide (Z.of_nat (size m) = MAX_CONNECTIONS) then m
      else match m !! id with Some _ => m | None => <[id := with_conn_id id new_connection]> m end
  | OpDisconnect id => delete id m
  | OpLogin id c a u0 w0 _ _ =>
      match m !! id with
      | Some conn => if (u0 =? 0) || (w0 =? 0) then m else <[id := with_login c a conn]> m
      | None => m
      end
  end.

Lemma sessions_map_size sm : sessions_ok sm -> Z.of_nat (size (sessions_map sm)) = active_count sm.
Proof.
  intros I. rewrite <- (live_length sm I). pose proof I as (_ & _ & ND & _).
  unfold sessions_map. rewrite map_size_list_to_map by (by rewrite by_id_fst). by rewrite length_fmap.
Qed.

Lemma session_step_spec sm o :
  sessions_ok sm -> exists sm', session_step sm o = Ret sm' /\ sessions_ok sm' /\
    sessions_map sm' = session_spec (sessions_map sm) o.
Proof.
  intros I. destruct o as [id|id|id c a u0 w0 u w]; cbn [session_step session_spec].
  - rewrite sessions_map_size by done.
    destruct (create_connection_spec id sm I) as (r & sm' & -> & I' & E). rewrite bind_Ret. exists sm'. split_and!; [done..|].
    case_decide; [by destruct E as [_ ->]|]. destruct (sessions_map sm !! id); [by destruct E as [-> _]|by destruct E].
  - exact (remove_connection_spec id sm I).
  - destruct (authenticate_spec id c a u0 u w0 w sm I) as (ok & sm' & -> & I' & E). rewrite bind_Ret.
    exists sm'. split_and!; [done..|]. destruct (sessions_map sm !! id); [|by destruct E as [_ ->]].
    destruct ((u0 =? 0) || (w0 =? 0)); [by destruct E as [_ ->]|by destruct E].
Qed.

(** C24: from an empty table, any sequence of connects, disconnects and logins
    runs without touching memory out of range, keeps connection ids distinct
    and leaves in the table what the bounded map holds; [get_connection] finds
    a connection exactly when the map has one. *)
Theorem sessions_refine_map (os : list session_op) :
  exists sm, session_run sessions_reset os = Ret sm /\
    NoDup (cc_conn_id <$> live sm) /\
    sessions_map sm = foldl session_spec ∅ os /\
    forall id, match foldl session_spec ∅ os !! id with
      | Some c => exists i, get_connection id sm = Ret (Some (Z.of_nat i)) /\ live sm !! i = Some c
      | None => get_connection id sm = Ret None
      end.
Proof.
  assert (exists sm, session_run sessions_reset os = Ret sm /\ sessions_ok sm /\
    sessions_map sm = foldl session_spec ∅ os) as (sm & E & I & M).
  { rewrite <- sessions_reset_map. pose proof sessions_reset_ok as I. revert I. generalize sessions_reset as sm.
    induction os as [|o os IH]; intros sm I; cbn [session_run foldl]; [by exists sm|].
    destruct (session_step_spec sm o I) as (sm' & -> & I' & E'). rewrite bind_Ret, <- E'. by apply IH. }
  exists sm. split_and!; [done|apply I|done|]. intros id. rewrite <- M. pose proof (get_connection_spec id sm I) as G.
  destruct (sessions_map sm !! id); [|done]. destruct G as (i & ? & ? & _). by exists i.
Qed.

(** ** The byte stream *)
Section Stream.
Context {X : Type} `{Transport X} (now : nat -> Z) (stack_tail : list Z).

(** C22: let a connected client send well-formed frames of at most 4096 bytes,
    the last possibly unfinished, and let the transport deliver the bytes in
    any pieces of at most 4096 bytes (what [TcpTransport] reads at once).  The
    gateway then handles exactly the complete frames, once each and in order,
    and keeps the bytes of the unfinished one, wherever the cuts fall; up to
    the framing buffers, its state is that of handling the frames one by one. *)
Theorem stream_framing fuel i id chunks fs rest (g : Gateway X) :
  length stack_tail = 4%nat -> gateway_ok g -> pending_at i id g [] ->
  concat chunks = concat fs ++ rest -> Forall frame_ok fs -> decode rest = Ret None ->
  Forall (fun f => (length f <= 4096)%nat) (rest :: fs) ->
  Forall (fun ch => (length ch <= 4096)%nat) chunks -> (length fs < fuel)%nat ->
  exists g', deliver_all now stack_tail fuel (OnRead id <$> chunks) g = Ret g' /\
    gateway_ok g' /\ pending_at i id g' rest /\
    strip <$> handle_frames now stack_tail id fs g = Ret (strip g').
Proof.
  intros Ht I HP E F Hr [Ln Fn]%Forall_cons Fc Hfuel.
  apply (deliver_chunks_spec now stack_tail fuel i id chunks fs rest []); try done; cbn; lia.
Qed.

(** C27: a header that gives a length of zero is a frame that consumes nothing:
    [on_read] handles it again and again and never returns, however many
    iterations it is given, provided the queue and the table are sound. *)
Theorem zero_length_frame_spins fuel i id data h (g : Gateway X) :
  gateway_ok g -> pending_at i id g [] ->
  HEADER_SIZE <= Z.of_nat (length data) <= BUFFER_SIZE ->
  packet_at MessageHeader data = Ret h -> mh_length h = 0 ->
  on_read now stack_tail fuel id data g = Diverge.
Proof.
  intros I HP HL Eh E0. change HEADER_SIZE with 24 in HL.
  destruct (on_read_fills now stack_tail i id [] data fuel g I HP) as (g1 & c1 & -> & I1 & _ & Hi1 & _ & Hb & El & Tb & _);
    [cbn; lia|]. cbn [app] in *.
  enough (parse_frames now stack_tail fuel id (Z.of_nat i) 0 g1 = Diverge) as -> by done.
  revert c1 g1 I1 Hi1 Hb El Tb. induction fuel as [|fuel IH]; intros c1 g1 I1 Hi1 Hb El Tb; [done|]. cbn [parse_frames].
  pose proof Hi1 as [Hc _]%live_lookup. rewrite (arr_get_Ret _ _ c1), bind_Ret by (rewrite ?Nat2Z.id; done || lia).
  rewrite El. destruct (Z.ltb_spec 0 (Z.of_nat (length data))); [|lia].
  rewrite Z.sub_0_r, Nat2Z.id. change (drop (Z.to_nat 0) (cc_buffer c1)) with (cc_buffer c1). rewrite Tb.
  unfold decode. change HEADER_SIZE with 24.
  destruct (Z.ltb_spec (Z.of_nat (length data)) 24); [lia|]. rewrite Eh, bind_Ret, E0.
  destruct (Z.ltb_spec (Z.of_nat (length data)) 0); [lia|]. rewrite bind_Ret.
  destruct (handle_packet_keeps now stack_tail id h (cc_buffer c1) g1 I1) as (g2 & -> & I2 & K2).
  { rewrite Hb. unfold BUFFER_SIZE. destruct (MessageType_of_code (mh_type h)); vm_compute; congruence. }
  rewrite bind_Ret. destruct (inputs_lookup _ _ i c1 K2 Hi1) as (c3 & Hi3 & [= _ Eb3 El3]).
  change (0 + 0) with 0. apply (IH c3 g2 I2 Hi3); congruence.
Qed.

(** C28: the length of a frame is not compared with the size of its packet.  When
    the last bytes of a full framing buffer are a header that says it is a login
    request of its own length, the handler reads past the end of the buffer:
    undefined behaviour that any client can cause before it has logged in. *)
Theorem short_frame_overreads fuel i id P data f k h (g : Gateway X) :
  gateway_ok g -> pending_at i id g P -> (1 < fuel)%nat ->
  P ++ data = f ++ k -> Z.of_nat (length (f ++ k)) = BUFFER_SIZE -> frame_ok f ->
  packet_at MessageHeader k = Ret h -> mh_type h = MessageType_code LoginRequest ->
  HEADER_SIZE <= mh_length h <= Z.of_nat (length k) -> Z.of_nat (length k) < packet_size LoginRequestPacket ->
  on_read now stack_tail fuel id data g = Undefined.
Proof.
  intros I HP Hfuel E HB Hf Eh Ety HL Hk. change HEADER_SIZE with 24 in HL.
  change (packet_size LoginRequestPacket) with 64 in Hk. rewrite <- E in HB.
  destruct (on_read_fills now stack_tail i id P data fuel g I HP ltac:(lia))
    as (g1 & c1 & -> & I1 & _ & Hi1 & Hid & Hb & El & Tb & _).
  destruct fuel as [|[|fuel]]; [lia..|].
  destruct (parse_frames_step now stack_tail f k id i c1 (S fuel) 0 g1 I1 Hi1 ltac:(lia)) as (g2 & Ep & _ & I2 & K2);
    [rewrite El, Nat2Z.id, Tb; exact E|done|].
  change (Z.of_nat 0) with 0 in Ep. rewrite Ep. cbn [parse_frames Nat.add].
  destruct (inputs_lookup _ _ i c1 K2 Hi1) as (c2 & Hi2 & [= Eid2 Eb2 El2]).
  pose proof Hi2 as [Hc2 _]%live_lookup. rewrite (arr_get_Ret _ _ c2), bind_Ret by (rewrite ?Nat2Z.id; done || lia).
  rewrite El2, El, HB, Eb2. assert (cc_buffer c1 = f ++ k) as Ebuf.
  { rewrite <- E, <- Tb. symmetry. apply take_ge. lia. }
  rewrite E, length_app in HB. rewrite Ebuf, Nat2Z.id, drop_app_length.
  destruct (Z.ltb_spec (Z.of_nat (length f)) BUFFER_SIZE); [|lia].
  rewrite take_ge by lia. unfold decode. change HEADER_SIZE with 24.
  destruct (Z.ltb_spec (Z.of_nat (length k)) 24); [lia|]. rewrite Eh, bind_Ret.
  destruct (Z.ltb_spec (Z.of_nat (length k)) (mh_length h)); [lia|]. rewrite bind_Ret.
  unfold handle_packet. rewrite (get_connection_slot i id c2) by (done || apply I2 || congruence). rewrite bind_Ret, Ety.
  change (MessageType_of_code (MessageType_code LoginRequest)) with LoginRequest. cbn iota.
  unfold handle_login. by rewrite packet_at_short by exact Hk.
Qed.

(** C25: a packet of any type but a login request, on a connection that has not
    logged in, changes neither the session table, nor the queue of commands,
    nor the sequence numbers; the client gets one [Reject] packet with reason
    [None] and order id 0. *)
Theorem login_required i id c h mem (g : Gateway X) x :
  length stack_tail = 4%nat -> sessions_ok (g_sessions g) ->
  live (g_sessions g) !! i = Some c -> cc_conn_id c = id -> cc_authenticated c = false ->
  mh_type h <> MessageType_code LoginRequest -> g_transport g = Some x ->
  exists g', handle_packet now stack_tail id h mem g = Ret g' /\
    g_sessions g' = g_sessions g /\ g_inbound_queue g' = g_inbound_queue g /\
    g_sequence g' = g_sequence g /\
    g_transport g' = Some (t_send x id (packet_bytes
      (mkReject (mkHeader 48 (MessageType_code Reject) 0 0 (now (g_ticks g))) 0 0 0 (replicate 6 0) stack_tail))).2.
Proof.
  intros Ht I Hi Hid Ha Hty Hx. exists (reject_unauthenticated now stack_tail id g).
  assert (MessageType_of_code (mh_type h) <> LoginRequest) as Hn.
  { intros E. apply Hty. by rewrite <- E, MessageType_code_of_code. }
  split_and!.
  - unfold handle_packet. rewrite (get_connection_slot i id c) by done. rewrite bind_Ret.
    pose proof Hi as [Hc _]%live_lookup.
    rewrite (arr_get_Ret _ _ c), bind_Ret, Ha by (rewrite ?Nat2Z.id; done || lia).
    by destruct (MessageType_of_code (mh_type h)).
  - unfold reject_unauthenticated. cbn [tick]. by rewrite (proj1 (send_packet_sessions _ _ _ _ _ _)).
  - unfold reject_unauthenticated. cbn [tick]. by rewrite (proj1 (proj2 (send_packet_sessions _ _ _ _ _ _))).
  - unfold reject_unauthenticated. cbn [tick]. by rewrite (proj2 (proj2 (send_packet_sessions _ _ _ _ _ _))).
  - unfold reject_unauthenticated, send_packet. cbn [tick g_transport]. rewrite Hx.
    unfold encode. change (packet_size RejectPacket) with 48. cbn [Z.ltb Z.compare].
    set (p := pk_set_header _ _). change (8192 <? 48) with false. cbn iota. change (48 =? 0) with false. cbn iota.
    assert (length (packet_bytes p) = Z.to_nat 48) as L.
    { pose proof (reject_sized stack_tail zero_header 0 0 (u16 (RejectReason_code RR_None)) Ht) as S.
      specialize (S (mkHeader (u16 48) (u16 (MessageType_code Reject)) 0 0 (now (g_ticks g)))).
      change (packet_size RejectPacket) with 48 in S. apply (f_equal Z.to_nat) in S. by rewrite Nat2Z.id in S. }
    rewrite <- L, take_app_length.
    change (packet_bytes p) with (packet_bytes
      (mkReject (mkHeader 48 (MessageType_code Reject) 0 0 (now (g_ticks g))) 0 0 0 (replicate 6 0) stack_tail)).
    by destruct (t_send x id _).
Qed.
End Stream.

(** ** A gateway with one client, for the witnesses *)
Definition one_client (auth : bool) : Gateway SimulationTransport :=
  {| g_transport := Some (mkSimulation true []);
     g_inbound_queue := queue_init INBOUND_CAPACITY default_command;
     g_sessions := mkSessions
       ((if auth then with_login 1 10 (with_conn_id 7 new_connection) else with_conn_id 7 new_connection)
        :: replicate 63 new_connection) 1;
     g_sequence := 1; g_write_buffer := replicate 8192 0; g_ticks := O |}.
Definition clock (n : nat) : Z := Z.of_nat n.
Definition tail4 : list Z := [0; 0; 0; 0].

Lemma one_client_queue auth : queue_rep INBOUND_CAPACITY (g_inbound_queue (one_client auth)) [].
Proof. exact (queue_init_rep INBOUND_CAPACITY queue_pos default_command). Qed.
Lemma connection_ok_new c : cc_buffer c = cc_buffer new_connection -> cc_buffer_len c = 0 -> connection_ok c.
Proof.
  intros Eb El. unfold connection_ok. rewrite Eb, El. split; [apply length_replicate|]. unfold BUFFER_SIZE. lia.
Qed.
Lemma one_client_ok auth : gateway_ok (one_client auth).
Proof.
  split; [|exists []; apply one_client_queue]. unfold sessions_ok. cbn [g_sessions one_client connections active_count].
  split_and!; [reflexivity|unfold MAX_CONNECTIONS; lia..| |].
  - unfold live. change (Z.to_nat _) with 1%nat. cbn [take connections]. apply NoDup_singleton.
  - apply Forall_cons. split; [|apply Forall_replicate]; apply connection_ok_new; by destruct auth.
Qed.
Lemma one_client_live auth : exists c, live (g_sessions (one_client auth)) !! O = Some c /\ cc_conn_id c = 7 /\
  cc_authenticated c = auth /\ cc_buffer_len c = 0.
Proof. eexists. split; [reflexivity|]. by destruct auth. Qed.
Lemma one_client_pending auth : pending_at 0 7 (one_client auth) [].
Proof. destruct (one_client_live auth) as (c & Hi & Hid & _ & H0). exists c. split_and!; [done..|]. by rewrite H0. Qed.

(** A heartbeat, cut in two, and the first byte of the next packet. *)
Definition heartbeat_bytes : list Z := packet_bytes (mkHeartbeat (mkHeader 24 1 0 9 9)).
Lemma stream_framing_witness :
  exists g', deliver_all clock tail4 2 (OnRead 7 <$> [take 10 heartbeat_bytes; drop 10 heartbeat_bytes ++ [64]]) (one_client true) = Ret g' /\
    pending_at 0 7 g' [64].
Proof.
  destruct (stream_framing clock tail4 2 0 7 [take 10 heartbeat_bytes; drop 10 heartbeat_bytes ++ [64]] [heartbeat_bytes] [64] (one_client true))
    as (g' & E & _ & HP & _).
  - reflexivity.
  - apply one_client_ok.
  - apply one_client_pending.
  - reflexivity.
  - apply Forall_singleton. eexists. split_and!; [reflexivity..|]. vm_compute. congruence.
  - reflexivity.
  - repeat (apply Forall_cons; split; [apply Nat.leb_le; reflexivity|]). apply Forall_nil_2.
  - repeat (apply Forall_cons; split; [apply Nat.leb_le; reflexivity|]). apply Forall_nil_2.
  - cbn. lia.
  - exists g'. split; [exact E|exact HP].
Defined.

Lemma zero_length_frame_spins_witness :
  on_read clock tail4 1000 7 (packet_bytes (mkHeader 0 1 0 9 9)) (one_client false) = Diverge.
Proof.
  apply (zero_length_frame_spins clock tail4 1000 0 7 _ (mkHeader 0 1 0 9 9));
    [apply one_client_ok|apply one_client_pending|vm_compute; split; congruence|reflexivity..].
Defined.

(** A heartbeat of 8168 bytes and a login request of 24. *)
Definition long_heartbeat : list Z := packet_bytes (mkHeader 8168 1 0 9 9) ++ replicate 8144 0.
Lemma short_frame_overreads_witness :
  on_read clock tail4 2 7 (long_heartbeat ++ packet_bytes (mkHeader 24 2 0 9 9)) (one_client false) = Undefined.
Proof.
  apply (short_frame_overreads clock tail4 2 0 7 [] _ long_heartbeat (packet_bytes (mkHeader 24 2 0 9 9)) (mkHeader 24 2 0 9 9));
    [apply one_client_ok|apply one_client_pending|lia|reflexivity|reflexivity| |reflexivity..
    |vm_compute; split; congruence|reflexivity].
  exists (mkHeader 8168 1 0 9 9). split; [reflexivity|]. split; [reflexivity|]. vm_compute. congruence.
Defined.

Lemma login_required_witness :
  exists g', handle_packet clock tail4 7 (mkHeader 64 5 0 1 1) [] (one_client false) = Ret g' /\
    g_inbound_queue g' = g_inbound_queue (one_client false).
Proof.
  destruct (one_client_live false) as (c & Hi & Hid & Ha & _).
  destruct (login_required clock tail4 0 7 c (mkHeader 64 5 0 1 1) [] (one_client false) (mkSimulation true []))
    as (g' & E & _ & Q & _); [reflexivity|exact (proj1 (one_client_ok false))|exact Hi|exact Hid|exact Ha|discriminate|reflexivity|].
  exists g'. split; [exact E|exact Q].
Defined.

