(* ===== verification/GatewayThreads.v ===== *)
(** * FluxTrade: two threads send through one gateway

    [Gateway::send_packet] (src/gateway/src/gateway.cpp, 87-99) encodes into
    the gateway's only write buffer and hands the buffer to the transport, with
    no lock.  The gateway's thread calls it to answer logins and heartbeats, the
    response thread to send reports.  Here the call is cut between the two and
    the threads are interleaved. *)
From S2P Require Import Prelude Domain RingBuffer Wire Sessions Gateway GatewayRefine GatewayProperties.
Local Open Scope Z_scope.

Section Threads.
Context {X : Type} `{Transport X}.

(** A call of [send_packet]: the connection, and the encoder applied to the
    arguments of the call. *)
Record SendCall : Type := mkCall {
  sc_conn : Z;
  sc_encode : list Z -> Z * list Z;
}.
Definition call_of {P} `{Packet P} (conn_id : Z) (type : MessageType) (seq ts : Z) (packet : P) : SendCall :=
  mkCall conn_id (fun dest => encode dest 8192 type seq ts packet).
(** Where a thread is inside [send_packet]. *)
Inductive sender : Type :=
| Calling (c : SendCall)
| Encoded (c : SendCall) (len : Z)
| Returned (ok : bool).

Inductive send_step : Gateway X -> sender -> Gateway X -> sender -> Prop :=
| send_no_transport g c :
    g_transport g = None -> send_step g (Calling c) g (Returned false)
| send_encode g c x len b :
    g_transport g = Some x -> sc_encode c (g_write_buffer g) = (len, b) ->
    send_step g (Calling c) (set_write_buffer b g) (if len =? 0 then Returned false else Encoded c len)
| send_out g c len x ok x' :
    g_transport g = Some x -> t_send x (sc_conn c) (take (Z.to_nat len) (g_write_buffer g)) = (ok, x') ->
    send_step g (Encoded c len) (set_transport x' g) (Returned ok).

(** A step of the gateway's thread or of the response thread. *)
Inductive threads_step : Gateway X * sender * sender -> Gateway X * sender * sender -> Prop :=
| gateway_thread g s1 s2 g' s1' : send_step g s1 g' s1' -> threads_step (g, s1, s2) (g', s1', s2)
| response_thread g s1 s2 g' s2' : send_step g s2 g' s2' -> threads_step (g, s1, s2) (g', s1, s2').

(** The bytes of a packet with the header [encode] gives it. *)
Definition wire_bytes {P} `{Packet P} (type : MessageType) (seq ts : Z) (p : P) : list Z :=
  packet_bytes (pk_set_header {| mh_length := u16 (packet_size P); mh_type := u16 (MessageType_code type);
    mh_padding := mh_padding (pk_header p); mh_sequence := seq; mh_timestamp := ts |} p).

Lemma encode_fits {P} `{Packet P} dest type seq ts (p : P) :
  packet_size P <= 8192 ->
  encode dest 8192 type seq ts p = (packet_size P, wire_bytes type seq ts p ++ drop (Z.to_nat (packet_size P)) dest).
Proof. intros L. unfold encode. by destruct (Z.ltb_spec 8192 (packet_size P)); [lia|]. Qed.

(** A call nobody interrupts is [send_packet]. *)
Lemma send_alone {P} `{Packet P} id type seq ts (p : P) (g : Gateway X) s2 :
  let r := send_packet id type seq ts p g in
  rtc threads_step (g, Calling (call_of id type seq ts p), s2) (r.2, Returned r.1, s2).
Proof.
  unfold send_packet. destruct (g_transport g) as [x|] eqn:T; cbn.
  2:{ eapply rtc_l, rtc_refl. by apply gateway_thread, send_no_transport. }
  destruct (encode (g_write_buffer g) 8192 type seq ts p) as [len b] eqn:E.
  eapply rtc_l; [apply gateway_thread; by eapply send_encode|].
  destruct (len =? 0); [apply rtc_refl|].
  destruct (t_send x id (take (Z.to_nat len) b)) as [ok x'] eqn:S.
  eapply rtc_l, rtc_refl. apply gateway_thread. by eapply send_out.
Qed.
End Threads.

(** C29: the gateway's thread and the response thread can overwrite each
    other's packet in the shared write buffer.  When the response thread encodes
    a packet for connection [b] between the gateway thread's encoding and its
    sending of a packet no longer than it for connection [a], the transport is
    given the beginning of [b]'s packet for [a]: a client receives another
    client's report and never its own answer, and both calls return what the
    transport answers: success, where it accepts the bytes. *)
Theorem write_buffer_raced {X P Q} `{Transport X, Packet P, Packet Q} a b tp tq sp sq up uq (p : P) (q : Q)
    (x : X) (g : Gateway X) :
  g_transport g = Some x -> packet_sized q -> 0 < packet_size P -> packet_size P <= packet_size Q -> packet_size Q <= 8192 ->
  let bytes := wire_bytes tq sq uq q in
  let r1 := t_send x a (take (Z.to_nat (packet_size P)) bytes) in
  let r2 := t_send r1.2 b bytes in
  exists g', rtc threads_step (g, Calling (call_of a tp sp up p), Calling (call_of b tq sq uq q))
      (g', Returned r1.1, Returned r2.1) /\
    g_transport g' = Some r2.2.
Proof.
  intros T Sq HP HPQ HQ bytes r1 r2.
  assert (Z.of_nat (length bytes) = packet_size Q) as L by apply Sq.
  set (bp := wire_bytes tp sp up p ++ drop (Z.to_nat (packet_size P)) (g_write_buffer g)).
  set (bq := bytes ++ drop (Z.to_nat (packet_size Q)) bp).
  assert (take (Z.to_nat (packet_size Q)) bq = bytes) as Tq.
  { subst bq. rewrite take_app_le by lia. apply take_ge. lia. }
  assert (take (Z.to_nat (packet_size P)) bq = take (Z.to_nat (packet_size P)) bytes) as Tp
    by (subst bq; by rewrite take_app_le by lia).
  exists (set_transport r2.2 (set_transport r1.2 (set_write_buffer bq (set_write_buffer bp g)))). split; [|done].
  eapply rtc_l.
  { apply gateway_thread. eapply (send_encode g _ x (packet_size P) bp); [done|]. apply encode_fits. lia. }
  destruct (Z.eqb_spec (packet_size P) 0); [lia|]. eapply rtc_l.
  { apply response_thread. eapply (send_encode _ _ x (packet_size Q) bq); [done|]. by apply encode_fits. }
  destruct (Z.eqb_spec (packet_size Q) 0); [lia|]. eapply rtc_l.
  { apply gateway_thread. eapply (send_out _ _ _ x r1.1 r1.2); [done|]. cbn. rewrite Tp. apply surjective_pairing. }
  eapply rtc_l, rtc_refl. apply response_thread. eapply (send_out _ _ _ r1.2 r2.1 r2.2); [done|].
  cbn. rewrite Tq. apply surjective_pairing.
Qed.

(** A heartbeat answer to connection 7 and a report for connection 8. *)
Definition report_for_8 : RejectPacket := mkReject zero_header 1 10 6 (replicate 6 0) tail4.
Definition heartbeat_for_7 : HeartbeatPacket := mkHeartbeat zero_header.
Lemma write_buffer_raced_witness : exists g' ok1 ok2,
  rtc threads_step
    (one_client true, Calling (call_of 7 Heartbeat 0 3 heartbeat_for_7), Calling (call_of 8 Reject 5 4 report_for_8))
    (g', Returned ok1, Returned ok2) /\
  g_transport g' = Some (mkSimulation true [take 24 (wire_bytes Reject 5 4 report_for_8); wire_bytes Reject 5 4 report_for_8]).
Proof.
  destruct (write_buffer_raced 7 8 Heartbeat Reject 0 5 3 4 heartbeat_for_7 report_for_8 (mkSimulation true []) (one_client true))
    as (g' & R & T); [reflexivity|exact (reject_sized tail4 zero_header 1 10 6 eq_refl)|reflexivity|vm_compute; congruence..|].
  exists g', true, true. split; [exact R|exact T].
Defined.
