(* ===== verification/TcpTransport.v ===== *)
(** * FluxTrade: the TCP transport

    [TcpTransport] of src/gateway/include/gateway/tcp_transport.hpp: a
    non-blocking server socket, the vector of its clients' sockets, and the
    listener they are announced to.

    The operating system is the environment: [Sockets] lists the system calls
    the code makes, each a function of a state the theorems know nothing about.
    The listener may call back into the transport, so its three methods act on
    everything there is, a [World].  The range-based loop of [poll] over the
    vector keeps iterators to it: once a callback has changed the vector, the
    next step of the loop is undefined. *)
From S2P Require Import Prelude.
Local Open Scope Z_scope.

Class Sockets (OS : Type) : Type := {
  sys_socket : OS -> Z * OS;
  sys_set_nonblocking : Z -> OS -> OS;
  sys_set_reuseaddr : Z -> OS -> OS;
  sys_bind : Z -> Z -> OS -> Z * OS;
  sys_listen : Z -> Z -> OS -> Z * OS;
  sys_accept : Z -> OS -> Z * OS;
  (** the count, the contents of the buffer and [errno] *)
  sys_recv : Z -> OS -> Z * list Z * Z * OS;
  sys_write : Z -> list Z -> OS -> Z * OS;
  sys_close : Z -> OS -> OS;
  EAGAIN : Z;
  EWOULDBLOCK : Z;
}.

Record TcpTransport : Type := mkTcp { server_fd_ : Z; clients_ : list Z }.
Definition TcpTransport_init : TcpTransport := mkTcp (-1) [].

Section Tcp.
Context {OS L : Type} `{Sockets OS}.

Record World : Type := mkWorld { w_listener : L; w_tcp : TcpTransport; w_os : OS }.
Record Listener : Type := mkListener {
  listener_on_connect : Z -> World -> outcome World;
  listener_on_disconnect : Z -> World -> outcome World;
  listener_on_read : Z -> list Z -> World -> outcome World;
}.
(** [listener_]; [None] is the null pointer. *)
Context (listener : option Listener).

Definition set_tcp (t : TcpTransport) (w : World) : World := mkWorld (w_listener w) t (w_os w).
Definition set_os (o : OS) (w : World) : World := mkWorld (w_listener w) (w_tcp w) o.
Definition set_clients (cs : list Z) (w : World) : World := set_tcp (mkTcp (server_fd_ (w_tcp w)) cs) w.
Definition tell_connect (fd : Z) (w : World) : outcome World :=
  match listener with Some l => listener_on_connect l fd w | None => Ret w end.
Definition tell_disconnect (fd : Z) (w : World) : outcome World :=
  match listener with Some l => listener_on_disconnect l fd w | None => Ret w end.
Definition tell_read (fd : Z) (data : list Z) (w : World) : outcome World :=
  match listener with Some l => listener_on_read l fd data w | None => Ret w end.

(** ** Starting and stopping *)
Definition tcp_start (port : Z) (w : World) : bool * World :=
  let (fd, os) := sys_socket (w_os w) in
  let set_fd fd := set_tcp (mkTcp fd (clients_ (w_tcp w))) in
  if fd <? 0 then (false, set_fd fd (set_os os w))
  else
    let os := sys_set_reuseaddr fd (sys_set_nonblocking fd os) in
    let (r, os) := sys_bind fd port os in
    if r <? 0 then (false, set_fd (-1) (set_os (sys_close fd os) w))
    else
      let (r, os) := sys_listen fd 128 os in
      if r <? 0 then (false, set_fd (-1) (set_os (sys_close fd os) w))
      else (true, set_fd fd (set_os os w)).

(** [stop] closes every socket; the listener is not told. *)
Definition tcp_stop (w : World) : World :=
  let t := w_tcp w in
  let os := w_os w in
  let (fd, os) := if 0 <=? server_fd_ t then (-1, sys_close (server_fd_ t) os) else (server_fd_ t, os) in
  mkWorld (w_listener w) (mkTcp fd []) (foldl (fun os fd => sys_close fd os) os (clients_ t)).

(** ** Sending and disconnecting *)
Definition tcp_send (conn_id : Z) (data : list Z) (w : World) : bool * World :=
  let (n, os) := sys_write conn_id data (w_os w) in (n =? Z.of_nat (length data), set_os os w).

(** [std::find] and [erase]: the first occurrence *)
Fixpoint erase (fd : Z) (cs : list Z) : list Z :=
  match cs with [] => [] | c :: cs => if c =? fd then cs else c :: erase fd cs end.
Definition drop_client (fd : Z) (w : World) : outcome World :=
  let w := set_clients (erase fd (clients_ (w_tcp w))) w in
  w ← tell_disconnect fd w;
  Ret (set_os (sys_close fd (w_os w)) w).
Definition tcp_disconnect (conn_id : Z) (w : World) : outcome World := drop_client conn_id w.

(** ** Polling *)
(** The loop over the clients, of which [todo] are left; [all] is the vector the
    iterators belong to.  The result holds the sockets to be dropped. *)
Fixpoint poll_clients (all todo disconnected : list Z) (w : World) : outcome (list Z * World) :=
  match todo with
  | [] => Ret (disconnected, w)
  | fd :: todo =>
      let '(n, buffer, errno, os) := sys_recv fd (w_os w) in
      let w := set_os os w in
      if n >? 0 then
        w ← tell_read fd (take (Z.to_nat n) buffer) w;
        if bool_decide (clients_ (w_tcp w) = all) then poll_clients all todo disconnected w else Undefined
      else if n =? 0 then poll_clients all todo (disconnected ++ [fd]) w
      else if negb (errno =? EAGAIN) && negb (errno =? EWOULDBLOCK)
      then poll_clients all todo (disconnected ++ [fd]) w
      else poll_clients all todo disconnected w
  end.
Fixpoint drop_clients (fds : list Z) (w : World) : outcome World :=
  match fds with [] => Ret w | fd :: fds => w ← drop_client fd w; drop_clients fds w end.

Definition tcp_accept (w : World) : outcome World :=
  let (client_fd, os) := sys_accept (server_fd_ (w_tcp w)) (w_os w) in
  let w := set_os os w in
  if 0 <=? client_fd then
    let w := set_os (sys_set_nonblocking client_fd (w_os w)) w in
    tell_connect client_fd (set_clients (clients_ (w_tcp w) ++ [client_fd]) w)
  else Ret w.
Definition tcp_poll (w : World) : outcome World :=
  if server_fd_ (w_tcp w) <? 0 then Ret w
  else
    w ← tcp_accept w;
    '(disconnected, w) ← poll_clients (clients_ (w_tcp w)) (clients_ (w_tcp w)) [] w;
    drop_clients disconnected w.

(** ** A listener that keeps in step

    [tracks]: the listener never touches the transport, and [connected] is what
    it thinks is connected. *)
Context (connected : L -> gset Z).
Record tracks (l : Listener) : Prop := {
  track_connect fd w : exists w', listener_on_connect l fd w = Ret w' /\ w_tcp w' = w_tcp w /\
    connected (w_listener w') = {[fd]} ∪ connected (w_listener w);
  track_disconnect fd w : exists w', listener_on_disconnect l fd w = Ret w' /\ w_tcp w' = w_tcp w /\
    connected (w_listener w') = connected (w_listener w) ∖ {[fd]};
  track_read fd data w : exists w', listener_on_read l fd data w = Ret w' /\ w_tcp w' = w_tcp w /\
    connected (w_listener w') = connected (w_listener w) }.
Definition in_step (w : World) : Prop :=
  NoDup (clients_ (w_tcp w)) /\ connected (w_listener w) = list_to_set (clients_ (w_tcp w)).

Lemma erase_spec fd cs : NoDup cs -> erase fd cs = filter (fun c => c <> fd) cs.
Proof.
  induction 1 as [|c cs N ND IH]; [done|]. cbn [erase]. rewrite filter_cons.
  destruct (Z.eqb_spec c fd) as [->|Ne].
  - rewrite decide_False by (intros F; by apply F). symmetry. apply filter_all. by intros x Hx ->.
  - by rewrite decide_True, IH.
Qed.

Section tracked.
Context (l : Listener) (El : listener = Some l) (T : tracks l).

Lemma drop_client_step fd w :
  in_step w -> exists w', drop_client fd w = Ret w' /\ in_step w' /\
    clients_ (w_tcp w') = filter (fun c => c <> fd) (clients_ (w_tcp w)) /\ server_fd_ (w_tcp w') = server_fd_ (w_tcp w).
Proof.
  intros [ND E]. unfold drop_client, tell_disconnect. rewrite El, erase_spec by done.
  destruct (track_disconnect l T fd (set_clients (filter (fun c => c <> fd) (clients_ (w_tcp w))) w)) as (w1 & -> & Ht & Hc).
  rewrite bind_Ret. eexists. split; [done|]. cbn. rewrite Ht. cbn. split; [|done]. unfold in_step. cbn. rewrite Ht. cbn.
  split; [by apply NoDup_filter|]. rewrite Hc. cbn. rewrite E. apply set_eq. intros x.
  rewrite elem_of_difference, !elem_of_list_to_set, list_elem_of_filter, elem_of_singleton. naive_solver.
Qed.
Lemma drop_clients_step fds : forall w,
  in_step w -> exists w', drop_clients fds w = Ret w' /\ in_step w' /\
    clients_ (w_tcp w') = filter (fun c => c ∉ fds) (clients_ (w_tcp w)).
Proof.
  induction fds as [|fd fds IH]; intros w I.
  - exists w. split; [done|]. split; [done|]. symmetry. apply filter_all. intros x _. apply not_elem_of_nil.
  - cbn [drop_clients]. destruct (drop_client_step fd w I) as (w1 & -> & I1 & C1 & _). rewrite bind_Ret.
    destruct (IH w1 I1) as (w2 & E2 & I2 & C2). exists w2. split; [done|]. split; [done|].
    rewrite C2, C1, list_filter_filter. apply list_filter_iff. intros x. rewrite not_elem_of_cons. naive_solver.
Qed.
Lemma poll_clients_step all todo : forall gone w,
  in_step w -> clients_ (w_tcp w) = all ->
  exists more w', poll_clients all todo gone w = Ret (gone ++ more, w') /\ in_step w' /\
    clients_ (w_tcp w') = all /\ more `sublist_of` todo.
Proof.
  induction todo as [|fd todo IH]; intros gone w I Ea; cbn [poll_clients].
  - exists [], w. rewrite app_nil_r. by split_and!.
  - destruct (sys_recv fd (w_os w)) as [[[n buffer] errno] os].
    assert (forall more, more `sublist_of` todo -> (fd :: more) `sublist_of` (fd :: todo)) as S1 by (by constructor).
    destruct (n >? 0).
    { unfold tell_read. rewrite El.
      destruct (track_read l T fd (take (Z.to_nat n) buffer) (set_os os w)) as (w1 & -> & Ht & Hc). rewrite bind_Ret.
      assert (in_step w1) as I1 by (unfold in_step in *; by rewrite Ht, Hc). rewrite bool_decide_eq_true_2 by (by rewrite Ht).
      destruct (IH gone w1 I1) as (more & w2 & -> & I2 & C2 & S2); [by rewrite Ht|].
      exists more, w2. split_and!; [done..|]. by constructor. }
    destruct (n =? 0); [|destruct (_ && _)].
    1,2: destruct (IH (gone ++ [fd]) (set_os os w) I Ea) as (more & w2 & -> & I2 & C2 & S2);
      exists (fd :: more), w2; rewrite <- app_assoc; split_and!; [done..|]; by apply S1.
    destruct (IH gone (set_os os w) I Ea) as (more & w2 & -> & I2 & C2 & S2).
    exists more, w2. split_and!; [done..|]. by constructor.
Qed.

(** A poll tells the listener of every arrival and departure: what the listener
    thinks is connected stays exactly the vector of clients, provided [accept]
    answers a descriptor that is not open yet. *)
Lemma tcp_poll_in_step w :
  in_step w -> (sys_accept (server_fd_ (w_tcp w)) (w_os w)).1 ∉ clients_ (w_tcp w) ->
  exists w', tcp_poll w = Ret w' /\ in_step w'.
Proof.
  intros I Hn. unfold tcp_poll. destruct (_ <? 0); [by exists w|].
  assert (exists w1, tcp_accept w = Ret w1 /\ in_step w1) as (w1 & -> & I1).
  { unfold tcp_accept. destruct (sys_accept (server_fd_ (w_tcp w)) (w_os w)) as [fd os]. cbn in Hn.
    destruct (0 <=? fd); [|by eexists]. unfold tell_connect. rewrite El.
    match goal with |- context [listener_on_connect l fd ?x] =>
      destruct (track_connect l T fd x) as (w1 & -> & Ht & Hc) end.
    exists w1. split; [done|]. destruct I as [ND E]. unfold in_step. rewrite Ht, Hc. cbn. split.
    - apply NoDup_app. split; [done|]. split; [set_solver|apply NoDup_singleton].
    - rewrite E, list_to_set_app_L. cbn. set_solver. }
  rewrite bind_Ret. destruct (poll_clients_step _ (clients_ (w_tcp w1)) [] w1 I1 eq_refl) as (more & w2 & -> & I2 & _ & _).
  rewrite bind_Ret. destruct (drop_clients_step ([] ++ more) w2 I2) as (w3 & -> & I3 & _). by exists w3.
Qed.
End tracked.

(** ** A listener that disconnects

    When the listener answers a client's bytes by disconnecting it, as
    [Gateway::on_read] does when they do not fit the framing buffer, the loop
    goes on with iterators to a vector that has changed. *)
Lemma erase_length fd cs : fd ∈ cs -> length cs = S (length (erase fd cs)).
Proof.
  induction cs as [|c cs IH]; [by intros ?%elem_of_nil|]. cbn [erase]. destruct (Z.eqb_spec c fd) as [->|Ne]; [done|].
  intros [->|Hc]%elem_of_cons; [done|]. cbn. by rewrite <- IH.
Qed.
Lemma tcp_poll_reentrant l fd todo gone w n buffer errno os :
  listener = Some l -> sys_recv fd (w_os w) = (n, buffer, errno, os) -> n > 0 ->
  (forall w', exists w'', listener_on_disconnect l fd w' = Ret w'' /\ w_tcp w'' = w_tcp w') ->
  (forall data w', listener_on_read l fd data w' = tcp_disconnect fd w') ->
  fd ∈ clients_ (w_tcp w) ->
  poll_clients (clients_ (w_tcp w)) (fd :: todo) gone w = Undefined.
Proof.
  intros El Er Hn Hd Hr Hin. cbn [poll_clients]. rewrite Er. destruct (Z.gtb_spec n 0); [|lia].
  unfold tell_read. rewrite El, Hr. unfold tcp_disconnect, drop_client, tell_disconnect. rewrite El.
  match goal with |- context [listener_on_disconnect l fd ?x] => destruct (Hd x) as (w1 & -> & Ht) end.
  rewrite !bind_Ret. cbn. rewrite Ht. cbn. rewrite bool_decide_eq_false_2; [done|].
  intros E%(f_equal length). pose proof (erase_length fd _ Hin). lia.
Qed.
End Tcp.
