(* ===== verification/Checksum.v ===== *)
(** * FluxTrade: CRC-32C

    [Checksum::crc32c] (src/persistence/include/persistence/checksum.hpp), the
    portable branch ([ChecksumHardware] has the others).  Each step of the
    register is injective, so a change confined to one byte of the data always
    changes the checksum. *)
From S2P Require Import Prelude Wire.
Local Open Scope Z_scope.

Definition CRC_POLY : Z := 0x82F63B78.
Definition CRC_INIT : Z := 0xFFFFFFFF.
(** [~crc] on [uint32_t] *)
Definition not32 (c : Z) : Z := Z.lxor c (2 ^ 32 - 1).

Definition crc_bit (crc : Z) : Z := Z.lxor (Z.shiftr crc 1) (u32 (CRC_POLY * Z.land crc 1)).
Definition crc_byte (crc b : Z) : Z := Nat.iter 8 crc_bit (Z.lxor crc b).
Definition crc32c (data : list Z) (initial_crc : Z) : Z := not32 (foldl crc_byte initial_crc data).

Definition is_byte (b : Z) : Prop := 0 <= b < 256.
Definition is_u32 (c : Z) : Prop := 0 <= c < 2 ^ 32.

Lemma le_bytes_bytes n z : Forall is_byte (le_bytes n z).
Proof.
  revert z. induction n as [|n IH]; intros z; cbn [le_bytes]; [constructor|].
  constructor; [|apply IH]. unfold is_byte. pose proof (Z.mod_pos_bound z 256). lia.
Qed.
Lemma le_value_bound l : Forall is_byte l -> 0 <= le_value l < 256 ^ Z.of_nat (length l).
Proof.
  induction 1 as [|b l Hb _ IH]; cbn [le_value length]; [done|]. unfold is_byte in Hb.
  rewrite Nat2Z.inj_succ, Z.pow_succ_r by lia. lia.
Qed.

(** ** The register stays in 32 bits *)
Lemma lt_pow2_bits c n : 0 <= n -> 0 <= c -> (forall i, n <= i -> Z.testbit c i = false) -> c < 2 ^ n.
Proof.
  intros Hn Hc H. destruct (decide (c = 0)) as [->|N]; [lia|].
  apply Z.log2_lt_pow2; [lia|]. apply Z.nle_gt. intros L.
  specialize (H (Z.log2 c) L). rewrite Z.bit_log2 in H by lia. done.
Qed.
Lemma high_bits c n i : 0 <= c < 2 ^ n -> n <= i -> Z.testbit c i = false.
Proof.
  intros H L. destruct (decide (c = 0)) as [->|N]; [apply Z.bits_0|].
  apply Z.bits_above_log2; [lia|]. assert (Z.log2 c < n) by (apply Z.log2_lt_pow2; lia). lia.
Qed.
Lemma lxor_u32 a b : is_u32 a -> is_u32 b -> is_u32 (Z.lxor a b).
Proof.
  intros Ha Hb. pose proof (Z.lxor_nonneg a b) as P. unfold is_u32 in *. split; [lia|].
  apply lt_pow2_bits; [lia..|]. intros i Hi. rewrite Z.lxor_spec.
  rewrite (high_bits a 32 i), (high_bits b 32 i) by done. done.
Qed.
Lemma shiftr_u32 c : is_u32 c -> is_u32 (Z.shiftr c 1).
Proof.
  unfold is_u32. rewrite Z.shiftr_div_pow2 by lia. change (2 ^ 1) with 2. intros H.
  pose proof (Z.div_pos c 2). assert (c / 2 <= c) by (apply Z.div_le_upper_bound; lia). lia.
Qed.
Lemma crc_bit_u32 c : is_u32 c -> is_u32 (crc_bit c).
Proof. intros H. unfold crc_bit. apply lxor_u32; [by apply shiftr_u32|apply u32_bound]. Qed.
(** ** A step is injective *)
Lemma lxor_inj_r a b c : Z.lxor a c = Z.lxor b c -> a = b.
Proof.
  intros E. apply (f_equal (fun x => Z.lxor x c)) in E.
  by rewrite !Z.lxor_assoc, !Z.lxor_nilpotent, !Z.lxor_0_r in E.
Qed.
Lemma lxor_inj_l a b c : Z.lxor c a = Z.lxor c b -> a = b.
Proof. rewrite (Z.lxor_comm c a), (Z.lxor_comm c b). apply lxor_inj_r. Qed.

Lemma land_1 c : Z.land c 1 = c mod 2.
Proof. exact (Z.land_ones c 1 ltac:(lia)). Qed.

Lemma crc_bit_top c : is_u32 c -> Z.testbit (crc_bit c) 31 = Z.odd c.
Proof.
  intros H. unfold crc_bit. rewrite Z.lxor_spec, Z.shiftr_spec by lia.
  rewrite (high_bits c 32 (31 + 1)) by (done || lia). rewrite land_1, Zmod_odd. by destruct (Z.odd c).
Qed.
Lemma crc_bit_inj c d : is_u32 c -> is_u32 d -> crc_bit c = crc_bit d -> c = d.
Proof.
  intros Hc Hd E. pose proof (crc_bit_top c Hc) as Tc. rewrite E, (crc_bit_top d Hd) in Tc.
  unfold crc_bit in E. rewrite !land_1, !Zmod_odd, Tc in E. apply lxor_inj_r in E.
  rewrite !Z.shiftr_div_pow2 in E by lia. change (2 ^ 1) with 2 in E.
  pose proof (Z.div_mod c 2). pose proof (Z.div_mod d 2). rewrite Zmod_odd in *. rewrite Tc in *. lia.
Qed.
#[global] Opaque crc_bit.

(** ** The register over the data *)
Lemma iter_u32 n c : is_u32 c -> is_u32 (Nat.iter n crc_bit c).
Proof. intros H. induction n; cbn [Nat.iter nat_rect]; [done|]. by apply crc_bit_u32. Qed.
Lemma byte_u32 b : is_byte b -> is_u32 b.
Proof. unfold is_byte, is_u32. lia. Qed.
Lemma crc_byte_u32 c b : is_u32 c -> is_byte b -> is_u32 (crc_byte c b).
Proof. intros. unfold crc_byte. apply iter_u32, lxor_u32; [done|by apply byte_u32]. Qed.
Lemma crc_fold_u32 l c : is_u32 c -> Forall is_byte l -> is_u32 (foldl crc_byte c l).
Proof.
  intros Hc F. revert c Hc. induction F as [|b l Hb _ IH]; intros c Hc; cbn [foldl]; [done|]. apply IH. by apply crc_byte_u32.
Qed.
Lemma not32_u32 c : is_u32 c -> is_u32 (not32 c).
Proof. intros. apply lxor_u32; [done|]. unfold is_u32. lia. Qed.
Lemma not32_not32 c : not32 (not32 c) = c.
Proof. unfold not32. by rewrite Z.lxor_assoc, Z.lxor_nilpotent, Z.lxor_0_r. Qed.
Lemma crc32c_u32 l c : is_u32 c -> Forall is_byte l -> is_u32 (crc32c l c).
Proof. intros. by apply not32_u32, crc_fold_u32. Qed.

(** ** Chaining *)
(** Continuing from the complement of a checksum is checksumming the
    concatenation: how the journal covers a header and its payload. *)
Lemma crc32c_app a b c : crc32c b (not32 (crc32c a c)) = crc32c (a ++ b) c.
Proof. unfold crc32c. by rewrite not32_not32, foldl_app. Qed.

(** ** Corruption is detected *)
Lemma iter_inj n c d : is_u32 c -> is_u32 d -> Nat.iter n crc_bit c = Nat.iter n crc_bit d -> c = d.
Proof.
  intros Hc Hd. induction n as [|n IH]; cbn; [done|]. intros E. apply IH.
  apply crc_bit_inj; [by apply iter_u32..|done].
Qed.
Lemma crc_byte_inj_l c d b : is_u32 c -> is_u32 d -> is_byte b -> crc_byte c b = crc_byte d b -> c = d.
Proof.
  intros Hc Hd Hb E. unfold crc_byte in E. apply byte_u32 in Hb. apply iter_inj in E; [|by apply lxor_u32..]. by eapply lxor_inj_r.
Qed.
Lemma crc_byte_inj_r c a b : is_u32 c -> is_byte a -> is_byte b -> crc_byte c a = crc_byte c b -> a = b.
Proof.
  intros Hc Ha Hb E. unfold crc_byte in E. apply byte_u32 in Ha, Hb. apply iter_inj in E; [|by apply lxor_u32..]. by eapply lxor_inj_l.
Qed.
Lemma crc_fold_inj l c d : is_u32 c -> is_u32 d -> Forall is_byte l -> foldl crc_byte c l = foldl crc_byte d l -> c = d.
Proof.
  intros Hc Hd F. revert c d Hc Hd. induction F as [|b l Hb _ IH]; intros c d Hc Hd; cbn [foldl]; [done|]. intros E.
  eapply crc_byte_inj_l; [done..|exact Hb|]. apply IH; [by apply crc_byte_u32..|done].
Qed.

Lemma crc32c_differs p x y s c :
  is_u32 c -> Forall is_byte (p ++ x :: s) -> is_byte y -> x <> y ->
  crc32c (p ++ x :: s) c <> crc32c (p ++ y :: s) c.
Proof.
  intros Hc F Hy N E. unfold crc32c in E. apply lxor_inj_r in E. rewrite !foldl_app in E. cbn [foldl] in E.
  apply Forall_app in F as [Fp [Hx Fs]%Forall_cons].
  apply crc_fold_inj in E; [|apply crc_byte_u32; [by apply crc_fold_u32|done]..|done].
  apply crc_byte_inj_r in E; [done|by apply crc_fold_u32|done..].
Qed.

(** The published check value: the CRC-32C of the digits 1 to 9. *)
Example crc32c_check : crc32c [49; 50; 51; 52; 53; 54; 55; 56; 57] CRC_INIT = 0xE3069283.
Proof. reflexivity. Qed.
