(* ===== verification/ChecksumHardware.v ===== *)
(** * FluxTrade: CRC-32C by processor instructions

    The other branches of [Checksum::crc32c]
    (src/persistence/include/persistence/checksum.hpp, 21-52): with SSE 4.2 or
    the ARM CRC extension the data is taken eight bytes at a time, then four,
    then one.  The instructions are classes; their laws say what the processor
    manuals say: an instruction shifts the bits of its operand, least significant
    first, through the register of the Castagnoli polynomial.  The two branches
    are shown to compute what the portable loop computes. *)
From S2P Require Import Prelude Wire Checksum.
Local Open Scope Z_scope.

(** [while (length >= n) { crc = step(crc, the next n bytes); ptr += n; length -= n; }] *)
Fixpoint crc_words (fuel n : nat) (step : Z -> Z -> Z) (crc : Z) (data : list Z) : Z * list Z :=
  match fuel with
  | O => (crc, data)
  | S fuel =>
      if (length data <? n)%nat then (crc, data)
      else crc_words fuel n step (step crc (le_value (take n data))) (drop n data)
  end.

(** ** SSE 4.2 *)
Class Sse42 : Type := {
  mm_crc32_u64 : Z -> Z -> Z;
  mm_crc32_u32 : Z -> Z -> Z;
  mm_crc32_u8 : Z -> Z -> Z;
}.
Definition crc32c_sse42 `{Sse42} (data : list Z) (initial_crc : Z) : Z :=
  let fuel := length data in
  let r := crc_words fuel 8 (fun crc v => u32 (mm_crc32_u64 crc v)) initial_crc data in
  let r := crc_words fuel 4 mm_crc32_u32 r.1 r.2 in
  let r := crc_words fuel 1 mm_crc32_u8 r.1 r.2 in
  not32 r.1.

(** ** ARM *)
Class ArmCrc : Type := {
  crc32cd : Z -> Z -> Z;
  crc32cw : Z -> Z -> Z;
  crc32cb : Z -> Z -> Z;
}.
Definition crc32c_arm `{ArmCrc} (data : list Z) (initial_crc : Z) : Z :=
  let fuel := length data in
  let r := crc_words fuel 8 crc32cd initial_crc data in
  let r := crc_words fuel 4 crc32cw r.1 r.2 in
  let r := crc_words fuel 1 crc32cb r.1 r.2 in
  not32 r.1.

(** [step] runs [n] bytes of operand through the register. *)
Definition shifts (n : nat) (step : Z -> Z -> Z) : Prop :=
  forall crc v, is_u32 crc -> 0 <= v < 256 ^ Z.of_nat n -> step crc v = Nat.iter (8 * n) crc_bit (Z.lxor crc v).
Class Sse42Laws `{Sse42} : Prop := {
  sse42_u64 : shifts 8 mm_crc32_u64;
  sse42_u32 : shifts 4 mm_crc32_u32;
  sse42_u8 : shifts 1 mm_crc32_u8;
}.
Class ArmCrcLaws `{ArmCrc} : Prop := {
  arm_d : shifts 8 crc32cd;
  arm_w : shifts 4 crc32cw;
  arm_b : shifts 1 crc32cb;
}.

(** ** The register is linear

    What enters above the bits that are shifted out is only moved. *)
Lemma land_lxor_double a r : Z.land (Z.lxor a (2 * r)) 1 = Z.land a 1.
Proof.
  rewrite !land_1, <-!Z.bit0_mod, Z.lxor_spec, Z.testbit_even_0. by destruct (Z.testbit a 0).
Qed.
#[local] Transparent crc_bit.
Lemma crc_bit_lxor a r : crc_bit (Z.lxor a (2 * r)) = Z.lxor (crc_bit a) r.
Proof.
  unfold crc_bit. rewrite land_lxor_double, Z.shiftr_lxor.
  rewrite (Z.shiftr_div_pow2 (2 * r)) by lia. change (2 ^ 1) with 2. rewrite (Z.mul_comm 2 r), Z.div_mul by lia.
  rewrite !Z.lxor_assoc. f_equal. apply Z.lxor_comm.
Qed.
#[local] Opaque crc_bit.
Lemma iter_lxor n a r : Nat.iter n crc_bit (Z.lxor a (2 ^ Z.of_nat n * r)) = Z.lxor (Nat.iter n crc_bit a) r.
Proof.
  revert r. induction n as [|n IH]; intros r; [by rewrite Z.mul_1_l|].
  cbn [Nat.iter nat_rect]. change (nat_rect _ ?x (fun _ => crc_bit) n) with (Nat.iter n crc_bit x).
  replace (2 ^ Z.of_nat (S n) * r) with (2 ^ Z.of_nat n * (2 * r)) by (rewrite Nat2Z.inj_succ, Z.pow_succ_r by lia; lia).
  by rewrite IH, crc_bit_lxor.
Qed.
Lemma iter_plus n m c : Nat.iter (n + m) crc_bit c = Nat.iter n crc_bit (Nat.iter m crc_bit c).
Proof. induction n as [|n IH]; [done|]. cbn. f_equal. exact IH. Qed.

Lemma byte_below b r : is_byte b -> b + 256 * r = Z.lxor b (256 * r).
Proof.
  intros Hb. apply Z.add_nocarry_lxor. apply Z.bits_inj'. intros i Hi. rewrite Z.land_spec, Z.bits_0.
  destruct (Z.lt_ge_cases i 8).
  - rewrite (Z.mul_comm 256 r). change 256 with (2 ^ 8). by rewrite Z.mul_pow2_bits_low, andb_false_r.
  - by rewrite (high_bits b 8 i).
Qed.

(** Several bytes at once are those bytes one by one. *)
Lemma crc_bytes_word bs : forall c, Forall is_byte bs ->
  foldl crc_byte c bs = Nat.iter (8 * length bs) crc_bit (Z.lxor c (le_value bs)).
Proof.
  induction bs as [|b bs IH]; intros c F; [cbn; by rewrite Z.lxor_0_r|]. apply Forall_cons in F as [Hb F].
  cbn [foldl length le_value]. rewrite (IH _ F), (byte_below _ _ Hb), <-Z.lxor_assoc.
  change 256 with (2 ^ Z.of_nat 8). replace (8 * S (length bs))%nat with (8 * length bs + 8)%nat by lia.
  by rewrite iter_plus, iter_lxor.
Qed.

(** Once all of the operand has gone through, the register holds 32 bits. *)
Lemma shifts_u32 n step crc v : shifts n step -> is_u32 crc -> 0 <= v < 256 ^ Z.of_nat n -> is_u32 (step crc v).
Proof.
  intros Sh Hc Hv. rewrite (Sh crc v Hc Hv). pose proof (le_bytes_bytes n v) as F.
  pose proof (crc_bytes_word (le_bytes n v) crc F) as E. rewrite le_bytes_length, le_value_bytes in E by done.
  rewrite <-E. by apply crc_fold_u32.
Qed.

(** A loop over words consumes whole words, as the byte loop would. *)
Lemma crc_words_spec n step fuel : (0 < n)%nat -> shifts n step -> forall crc data,
  is_u32 crc -> Forall is_byte data -> (length data <= fuel)%nat ->
  exists done rest, data = done ++ rest /\ (length rest < n)%nat /\
    crc_words fuel n step crc data = (foldl crc_byte crc done, rest).
Proof.
  intros Hn Sh. induction fuel as [|fuel IH]; intros crc data Hc F Hf.
  { destruct data; [|cbn in Hf; lia]. by exists [], []. }
  cbn [crc_words]. destruct (Nat.ltb_spec (length data) n) as [L|L]; [by exists [], data|].
  assert (length (take n data) = n) as Lt by (rewrite length_take; lia).
  pose proof (Forall_take _ n _ F) as Ft. pose proof (le_value_bound _ Ft) as B. rewrite Lt in B.
  assert (step crc (le_value (take n data)) = foldl crc_byte crc (take n data)) as ->
    by (rewrite (Sh crc _ Hc B), (crc_bytes_word _ _ Ft); f_equal; by rewrite Lt).
  destruct (IH (foldl crc_byte crc (take n data)) (drop n data)) as (d & rest & E & Lr & Ew);
    [by apply crc_fold_u32|by apply Forall_drop|rewrite length_drop; lia|].
  exists (take n data ++ d), rest. rewrite <-app_assoc, <-E, take_drop. split; [done|]. split; [done|].
  by rewrite Ew, foldl_app.
Qed.

(** Words of eight, then four, then one: nothing is left and nothing is skipped. *)
Lemma three_loops s8 s4 s1 data crc :
  shifts 8 s8 -> shifts 4 s4 -> shifts 1 s1 -> is_u32 crc -> Forall is_byte data ->
  let fuel := length data in
  let r := crc_words fuel 8 s8 crc data in
  let r := crc_words fuel 4 s4 r.1 r.2 in
  (crc_words fuel 1 s1 r.1 r.2).1 = foldl crc_byte crc data.
Proof.
  intros S8 S4 S1 Hc F. cbv zeta.
  destruct (crc_words_spec 8 s8 (length data) ltac:(lia) S8 crc data Hc F ltac:(lia)) as (d8 & r8 & E8 & _ & ->).
  cbn [fst snd]. rewrite E8 in F. apply Forall_app in F as [F8 G8].
  assert (is_u32 (foldl crc_byte crc d8)) as H8 by (by apply crc_fold_u32).
  assert (length data = length d8 + length r8)%nat as Ln by (by rewrite E8, length_app).
  destruct (crc_words_spec 4 s4 (length data) ltac:(lia) S4 _ r8 H8 G8 ltac:(lia)) as (d4 & r4 & E4 & _ & ->).
  cbn [fst snd]. rewrite E4 in G8. apply Forall_app in G8 as [F4 G4].
  assert (length r8 = length d4 + length r4)%nat as Lr by (by rewrite E4, length_app).
  destruct (crc_words_spec 1 s1 (length data) ltac:(lia) S1 (foldl crc_byte (foldl crc_byte crc d8) d4) r4)
    as (d1 & r1 & E1 & L1 & ->); [by apply crc_fold_u32|done|lia|].
  cbn [fst snd]. destruct r1; [|cbn in L1; lia]. rewrite E8, E4, E1, app_nil_r, !foldl_app. done.
Qed.

(** C34: the three branches of [Checksum::crc32c] are one function: for any
    bytes and any initial value, the checksum computed with the SSE 4.2
    instructions and the one computed with the ARM instructions are that of the
    portable bit loop, so a file written on one machine is accepted on another. *)
Theorem crc32c_branches_agree `{Sse42Laws, ArmCrcLaws} data initial_crc :
  is_u32 initial_crc -> Forall is_byte data ->
  crc32c_sse42 data initial_crc = crc32c data initial_crc /\
  crc32c_arm data initial_crc = crc32c data initial_crc.
Proof.
  intros Hc F. unfold crc32c_sse42, crc32c_arm, crc32c. cbv zeta. split; f_equal.
  - apply three_loops; [|apply sse42_u32|apply sse42_u8|done..]. intros crc v Hcrc Hv.
    rewrite u32_small by (apply (shifts_u32 8); [apply sse42_u64|done..]). by apply sse42_u64.
  - apply three_loops; [apply arm_d|apply arm_w|apply arm_b|done..].
Qed.

(** Instructions as the manuals describe them. *)
#[export] Instance manual_sse42 : Sse42 := {
  mm_crc32_u64 := fun crc v => Nat.iter 64 crc_bit (Z.lxor crc v);
  mm_crc32_u32 := fun crc v => Nat.iter 32 crc_bit (Z.lxor crc v);
  mm_crc32_u8 := fun crc v => Nat.iter 8 crc_bit (Z.lxor crc v);
}.
#[export] Instance manual_arm : ArmCrc := {
  crc32cd := fun crc v => Nat.iter 64 crc_bit (Z.lxor crc v);
  crc32cw := fun crc v => Nat.iter 32 crc_bit (Z.lxor crc v);
  crc32cb := fun crc v => Nat.iter 8 crc_bit (Z.lxor crc v);
}.
#[export] Instance manual_sse42_laws : Sse42Laws.
Proof. by split; intros crc v _ _. Qed.
#[export] Instance manual_arm_laws : ArmCrcLaws.
Proof. by split; intros crc v _ _. Qed.

(** The check value of CRC-32C: the bytes of ["123456789"]. *)
Lemma crc32c_branches_agree_witness :
  let data := [49; 50; 51; 52; 53; 54; 55; 56; 57] in
  crc32c data CRC_INIT = 0xE3069283 /\ crc32c_sse42 data CRC_INIT = 0xE3069283 /\ crc32c_arm data CRC_INIT = 0xE3069283.
Proof.
  cbv zeta. assert (crc32c [49; 50; 51; 52; 53; 54; 55; 56; 57] CRC_INIT = 0xE3069283) as E by (vm_compute; reflexivity).
  destruct (crc32c_branches_agree [49; 50; 51; 52; 53; 54; 55; 56; 57] CRC_INIT) as [E1 E2].
  - unfold is_u32, CRC_INIT. lia.
  - repeat constructor; unfold is_byte; lia.
  - rewrite E1, E2. auto.
Defined.
