(* ===== verification/Journal.v ===== *)
(** * FluxTrade: the write-ahead journal

    The records of the journal (src/persistence/include/persistence:
    wal_record.hpp, memory_journal.hpp, disk_journal.hpp, metadata_manager.hpp)
    and the replay of a journal file (replay_engine.hpp).

    A file is the list of its bytes and the directory maps a file's index to
    it; creating, opening and renaming files succeed, and a write puts its bytes
    at the end of the file.  How much of what was written survives a crash is
    left open: the theorems about reading a journal speak of any beginning of
    the file.  Snapshots and recovery are in [Snapshot]. *)
From S2P Require Import Prelude Domain RingBuffer Wire Gateway Checksum ObjectPool OrderBook.
Local Open Scope Z_scope.

(** ** Record formats *)
Definition WAL_MAGIC : Z := 0x58554C46.
Definition WAL_VERSION : Z := 1.

Record WALHeader : Type := mkWALHeader {
  wh_magic : Z; wh_version : Z; wh_flags : Z; wh_start_sequence : Z; wh_timestamp : Z; wh_padding : list Z }.
Definition wal_header_layout : list layout := [TInt 4; TInt 2; TInt 2; TInt 8; TInt 8; TRaw 8].
Definition wal_header_fields (h : WALHeader) : list field :=
  [FInt 4 (wh_magic h); FInt 2 (wh_version h); FInt 2 (wh_flags h); FInt 8 (wh_start_sequence h);
   FInt 8 (wh_timestamp h); FRaw (wh_padding h)].
Definition wal_header_make (fs : list field) : outcome WALHeader :=
  match fs with
  | [FInt _ m; FInt _ v; FInt _ f; FInt _ s; FInt _ t; FRaw p] => Ret (mkWALHeader m v f s t p)
  | _ => Undefined
  end.

Record WALRecordHeader : Type := mkRecordHeader {
  rh_sequence : Z; rh_timestamp : Z; rh_message_type : Z; rh_payload_length : Z; rh_checksum : Z }.
Definition record_layout : list layout := [TInt 8; TInt 8; TInt 2; TInt 2; TInt 4].
Definition record_fields (h : WALRecordHeader) : list field :=
  [FInt 8 (rh_sequence h); FInt 8 (rh_timestamp h); FInt 2 (rh_message_type h);
   FInt 2 (rh_payload_length h); FInt 4 (rh_checksum h)].
Definition record_make (fs : list field) : outcome WALRecordHeader :=
  match fs with
  | [FInt _ s; FInt _ t; FInt _ m; FInt _ l; FInt _ c] => Ret (mkRecordHeader s t m l c)
  | _ => Undefined
  end.
(** The bytes before [offsetof(WALRecordHeader, checksum)] *)
Definition record_prefix (h : WALRecordHeader) : list Z := take 20 (fields_bytes (record_fields h)).

(** [WALRecordView::total_size] *)
Definition total_size (header : option WALRecordHeader) : Z :=
  24 + match header with Some h => rh_payload_length h | None => 0 end.

Record LogEntry : Type := mkEntry { le_header : WALRecordHeader; le_payload : list Z }.
Definition JOURNAL_CAPACITY : Z := 65536.

(** [MemoryJournal::append]; [stack] is what the payload array holds before the
    copy, [data] the [length] bytes to append. *)
Definition make_entry (stack : list Z) (sequence timestamp msg_type : Z) (data : list Z) : LogEntry :=
  let h := mkRecordHeader sequence timestamp msg_type (u16 (Z.of_nat (length data))) 0 in
  let crc := crc32c (record_prefix h) CRC_INIT in
  let crc := crc32c data (not32 crc) in
  {| le_header := mkRecordHeader sequence timestamp msg_type (u16 (Z.of_nat (length data))) crc;
     le_payload := data ++ drop (length data) stack |}.
Definition journal_append (stack : list Z) (queue : SPSCQueue LogEntry) (sequence timestamp msg_type : Z)
    (data : list Z) : outcome (bool * SPSCQueue LogEntry) :=
  if 256 <? Z.of_nat (length data) then Ret (false, queue)
  else push JOURNAL_CAPACITY queue (make_entry stack sequence timestamp msg_type data).

(** ** Commands as bytes *)
Definition CommandType_code (t : CommandType) : Z :=
  match t with CmdNewOrder => 0 | CmdCancelOrder => 1 | CmdReplaceOrder => 2 | CmdUnnamed c => c end.
Definition CommandType_of_code (c : Z) : CommandType :=
  if c =? 0 then CmdNewOrder else if c =? 1 then CmdCancelOrder else if c =? 2 then CmdReplaceOrder
  else CmdUnnamed c.

Definition COMMAND_SIZE : Z := 72.
Definition command_layout : list layout :=
  [TInt 1; TRaw 7; TInt 8; TInt 8; TInt 8; TInt 8; TInt 4; TInt 4; TInt 8; TInt 8;
   TInt 1; TInt 1; TInt 1; TRaw 1; TInt 4].
(** [gap]: the byte between [tif] and [conn_id], which belongs to no member *)
Definition command_fields (gap : Z) (c : OrderCommand) : list field :=
  [FInt 1 (CommandType_code (oc_type c)); FRaw (replicate 7 0); FInt 8 (oc_sequence c); FInt 8 (oc_timestamp c);
   FInt 8 (oc_client_order_id c); FInt 8 (oc_orig_client_order_id c); FInt 4 (oc_symbol_id c);
   FInt 4 (oc_account_id c); FInt 8 (u64 (oc_price c)); FInt 8 (oc_qty c); FInt 1 (Side_code (oc_side c));
   FInt 1 (OrderType_code (oc_order_type c)); FInt 1 (TimeInForce_code (oc_tif c)); FRaw [gap];
   FInt 4 (u32 (oc_conn_id c))].
Definition command_bytes (gap : Z) (c : OrderCommand) : list Z := fields_bytes (command_fields gap c).
(** [reinterpret_cast<const OrderCommand*>] *)
Definition command_at (mem : list Z) : outcome OrderCommand :=
  fs ← fields_at command_layout mem;
  match fs with
  | [FInt _ ty; FRaw _; FInt _ sq; FInt _ ts; FInt _ co; FInt _ oc; FInt _ sy; FInt _ ac; FInt _ pr; FInt _ qt;
     FInt _ sd; FInt _ ot; FInt _ tf; FRaw _; FInt _ cn] =>
      Ret {| oc_type := CommandType_of_code ty; oc_sequence := sq; oc_timestamp := ts; oc_client_order_id := co;
             oc_orig_client_order_id := oc; oc_symbol_id := sy; oc_account_id := ac; oc_price := i64 pr;
             oc_qty := qt; oc_side := Side_of_code sd; oc_order_type := OrderType_of_code ot;
             oc_tif := TimeInForce_of_code tf; oc_conn_id := i32 cn |}
  | _ => Undefined
  end.

(** ** The disk journal *)
Inductive FlushPolicy : Type := FlushNever | FlushInterval | FlushBatch | FlushImmediate.
#[export] Instance FlushPolicy_eq_dec : EqDecision FlushPolicy.
Proof. solve_decision. Defined.

(** [dj_flushed]: how many bytes of the current file have been flushed. *)
Record DiskJournal : Type := mkDisk {
  dj_policy : FlushPolicy;
  dj_max_file_size : Z;
  dj_open : bool;
  dj_current_bytes : Z;
  dj_file_index : Z;
  dj_files : gmap Z (list Z);
  dj_flushed : Z;
}.
(** The constructor; [files]: what the directory already holds. *)
Definition DiskJournal_init (policy : FlushPolicy) (max_file_size : Z) (files : gmap Z (list Z)) : DiskJournal :=
  mkDisk policy max_file_size false 0 0 files 0.

Definition file_write (data : list Z) (d : DiskJournal) : DiskJournal :=
  mkDisk (dj_policy d) (dj_max_file_size d) (dj_open d) (dj_current_bytes d) (dj_file_index d)
    (<[dj_file_index d := default [] (dj_files d !! dj_file_index d) ++ data]> (dj_files d)) (dj_flushed d).
Definition file_sync (d : DiskJournal) : DiskJournal :=
  mkDisk (dj_policy d) (dj_max_file_size d) (dj_open d) (dj_current_bytes d) (dj_file_index d) (dj_files d)
    (Z.of_nat (length (default [] (dj_files d !! dj_file_index d)))).
Definition with_bytes (n : Z) (d : DiskJournal) : DiskJournal :=
  mkDisk (dj_policy d) (dj_max_file_size d) (dj_open d) n (dj_file_index d) (dj_files d) (dj_flushed d).

Definition journal_flush (d : DiskJournal) : DiskJournal :=
  if dj_open d && negb (bool_decide (dj_policy d = FlushNever)) then file_sync d else d.

(** [now] is the system clock. *)
Definition wal_header (sequence now : Z) : WALHeader :=
  mkWALHeader WAL_MAGIC WAL_VERSION 0 sequence now (replicate 8 0).
Definition rotate_file (sequence now : Z) (d : DiskJournal) : DiskJournal :=
  let d := if dj_open d then file_sync d else d in
  let index := u64 (dj_file_index d + 1) in
  let d := mkDisk (dj_policy d) (dj_max_file_size d) true (dj_current_bytes d) index
             (<[index := []]> (dj_files d)) 0 in
  let d := file_write (fields_bytes (wal_header_fields (wal_header sequence now))) d in
  with_bytes 32 d.

Definition record_bytes (e : LogEntry) : list Z :=
  fields_bytes (record_fields (le_header e)) ++ take (Z.to_nat (rh_payload_length (le_header e))) (le_payload e).
Definition write_entry (now : Z) (e : LogEntry) (d : DiskJournal) : DiskJournal :=
  let d := if negb (dj_open d) || (dj_max_file_size d <=? dj_current_bytes d)
           then rotate_file (rh_sequence (le_header e)) now d else d in
  let d := file_write (fields_bytes (record_fields (le_header e))) d in
  let d := file_write (take (Z.to_nat (rh_payload_length (le_header e))) (le_payload e)) d in
  with_bytes (u64 (dj_current_bytes d + (24 + rh_payload_length (le_header e)))) d.

(** The journal thread: one turn of the loop of [DiskJournal::run] ([None]
    when the loop is left, after the final flush). *)
Record JournalThread : Type := mkJournalThread {
  jt_disk : DiskJournal;
  jt_queue : SPSCQueue LogEntry;
  jt_batch_count : Z;
  jt_last_flush : Z;
}.
Definition journal_turn (running : bool) (now steady : Z) (t : JournalThread)
    : outcome (JournalThread + DiskJournal) :=
  if running || negb (queue_empty (jt_queue t)) then
    r ← pop JOURNAL_CAPACITY (jt_queue t);
    match r.1 with
    | Some entry =>
        let d := write_entry now entry (jt_disk t) in
        let batch := jt_batch_count t + 1 in
        if decide (dj_policy d = FlushImmediate) then
          Ret (inl (mkJournalThread (journal_flush d) r.2 batch (jt_last_flush t)))
        else if bool_decide (dj_policy d = FlushBatch) && (1000 <=? batch) then
          Ret (inl (mkJournalThread (journal_flush d) r.2 0 (jt_last_flush t)))
        else Ret (inl (mkJournalThread d r.2 batch (jt_last_flush t)))
    | None =>
        if bool_decide (dj_policy (jt_disk t) = FlushInterval) && (10000000 <=? steady - jt_last_flush t) then
          Ret (inl (mkJournalThread (journal_flush (jt_disk t)) r.2 (jt_batch_count t) steady))
        else Ret (inl (mkJournalThread (jt_disk t) r.2 (jt_batch_count t) (jt_last_flush t)))
    end
  else Ret (inr (journal_flush (jt_disk t))).
(** The turns after [stop]: the queue is drained and the loop left. *)
Fixpoint journal_drain (fuel : nat) (now steady : Z) (t : JournalThread) : outcome DiskJournal :=
  match fuel with
  | O => Diverge
  | S fuel =>
      r ← journal_turn false now steady t;
      match r with inl t => journal_drain fuel now steady t | inr d => Ret d end
  end.

(** ** Replay *)
Definition order_of_command (c : OrderCommand) (exchange_timestamp : Z) : Order :=
  MkOrder (oc_client_order_id c) (oc_price c) (oc_qty c) (oc_sequence c) (oc_timestamp c) exchange_timestamp
    1 (oc_account_id c) (oc_symbol_id c) (oc_side c) (oc_order_type c) (oc_tif c) FlagNone.

(** The application of a record's payload to the book. *)
Definition apply_record (h : WALRecordHeader) (payload : list Z) (book : LimitOrderBook) : outcome LimitOrderBook :=
  if rh_message_type h =? CommandType_code CmdNewOrder then
    if Z.of_nat (length payload) =? COMMAND_SIZE then
      cmd ← command_at payload;
      r ← insert (order_of_command cmd (rh_timestamp h)) (oc_sequence cmd) book;
      Ret r.2
    else Ret book
  else if rh_message_type h =? CommandType_code CmdCancelOrder then
    if Z.of_nat (length payload) =? COMMAND_SIZE then
      cmd ← command_at payload;
      r ← cancel (oc_orig_client_order_id cmd) book;
      Ret r.2
    else Ret book
  else Ret book.

(** The loop over the records: [bytes] is what remains of the file. *)
Fixpoint replay_records (fuel : nat) (bytes : list Z) (book : LimitOrderBook) (current_seq : Z)
    : outcome (bool * LimitOrderBook * Z) :=
  match bytes with
  | [] => Ret (true, book, current_seq)
  | _ =>
      match fuel with
      | O => Diverge
      | S fuel =>
          if Z.of_nat (length bytes) <? 24 then Ret (true, book, current_seq)
          else
            fs ← fields_at record_layout bytes;
            h ← record_make fs;
            let rest := drop 24 bytes in
            let n := Z.to_nat (rh_payload_length h) in
            if (length rest <? n)%nat then Ret (true, book, current_seq)
            else
              let payload := take n rest in
              let crc := crc32c (record_prefix h) CRC_INIT in
              let crc := crc32c payload (not32 crc) in
              if negb (rh_checksum h =? crc) then Ret (false, book, current_seq)
              else if rh_sequence h <=? current_seq then replay_records fuel (drop n rest) book current_seq
              else
                book ← apply_record h payload book;
                replay_records fuel (drop n rest) book (rh_sequence h)
      end
  end.

Definition replay_journal (file : list Z) (book : LimitOrderBook) (current_seq : Z)
    : outcome (bool * LimitOrderBook * Z) :=
  if Z.of_nat (length file) <? 32 then Ret (false, book, current_seq)
  else
    fs ← fields_at wal_header_layout file;
    h ← wal_header_make fs;
    if negb (wh_magic h =? WAL_MAGIC) || negb (wh_version h =? WAL_VERSION) then Ret (false, book, current_seq)
    else replay_records (S (length file)) (drop 32 file) book current_seq.

(** The loop of [recover] over the journal files, from [start] on. *)
Fixpoint replay_files (fuel : nat) (start : Z) (files : gmap Z (list Z)) (book : LimitOrderBook) (current_seq : Z)
    : outcome (bool * LimitOrderBook * Z) :=
  match files !! start with
  | None => Ret (true, book, current_seq)
  | Some file =>
      match fuel with
      | O => Diverge
      | S fuel =>
          r ← replay_journal file book current_seq;
          let '(ok, book, current_seq) := r in
          if (ok : bool) then replay_files fuel (u64 (start + 1)) files book current_seq
          else Ret (false, book, current_seq)
      end
  end.

(** ** Metadata *)
Definition METADATA_MAGIC : Z := 0x4D455441.
Definition METADATA_VERSION : Z := 1.
Record MetadataInfo : Type := mkMetadata {
  md_magic : Z; md_version : Z; md_flags : Z; md_latest_snapshot_sequence : Z;
  md_last_journal_sequence : Z; md_current_journal_index : Z; md_checksum : Z; md_padding : Z }.
Definition metadata_layout : list layout := [TInt 4; TInt 2; TInt 2; TInt 8; TInt 8; TInt 8; TInt 4; TInt 4].
Definition metadata_fields (i : MetadataInfo) : list field :=
  [FInt 4 (md_magic i); FInt 2 (md_version i); FInt 2 (md_flags i); FInt 8 (md_latest_snapshot_sequence i);
   FInt 8 (md_last_journal_sequence i); FInt 8 (md_current_journal_index i); FInt 4 (md_checksum i);
   FInt 4 (md_padding i)].
Definition metadata_make (fs : list field) : outcome MetadataInfo :=
  match fs with
  | [FInt _ m; FInt _ v; FInt _ f; FInt _ s; FInt _ j; FInt _ i; FInt _ c; FInt _ p] =>
      Ret (mkMetadata m v f s j i c p)
  | _ => Undefined
  end.
Definition metadata_crc (i : MetadataInfo) : Z := crc32c (take 32 (fields_bytes (metadata_fields i))) CRC_INIT.
(** The file [save] leaves in place. *)
Definition metadata_save (info : MetadataInfo) : list Z :=
  let out := mkMetadata METADATA_MAGIC METADATA_VERSION (md_flags info) (md_latest_snapshot_sequence info)
    (md_last_journal_sequence info) (md_current_journal_index info) (md_checksum info) (md_padding info) in
  fields_bytes (metadata_fields
    (mkMetadata (md_magic out) (md_version out) (md_flags out) (md_latest_snapshot_sequence out)
       (md_last_journal_sequence out) (md_current_journal_index out) (metadata_crc out) (md_padding out))).
(** [load]; [None] for the file: it does not exist. *)
Definition metadata_load (file : option (list Z)) : outcome (option MetadataInfo) :=
  match file with
  | None => Ret None
  | Some bytes =>
      if Z.of_nat (length bytes) <? 40 then Ret None
      else
        fs ← fields_at metadata_layout bytes;
        info ← metadata_make fs;
        if negb (md_magic info =? METADATA_MAGIC) || negb (md_version info =? METADATA_VERSION) then Ret None
        else if negb (md_checksum info =? metadata_crc info) then Ret None
        else Ret (Some info)
  end.
