(* ===== verification/JournalRefine.v ===== *)
(** * FluxTrade: lemmas about the journal

    Reading back what was written: records, commands, and whole files up to a
    torn tail. *)
From S2P Require Import Prelude Domain RingBuffer Wire Gateway Checksum ObjectPool OrderBook Journal.
Local Open Scope Z_scope.

Lemma init_u32 : is_u32 CRC_INIT.
Proof. unfold is_u32, CRC_INIT. lia. Qed.

(** ** Records *)
Definition record_header_ok (h : WALRecordHeader) : Prop := Forall2 field_ok record_layout (record_fields h).
Definition entry_ok (e : LogEntry) : Prop :=
  let h := le_header e in
  record_header_ok h /\ rh_payload_length h <= Z.of_nat (length (le_payload e)) /\
  rh_checksum h = crc32c (take (Z.to_nat (rh_payload_length h)) (le_payload e)) (not32 (crc32c (record_prefix h) CRC_INIT)).

Lemma record_header_bytes h : record_header_ok h -> length (fields_bytes (record_fields h)) = 24%nat.
Proof. intros H. by rewrite (fields_bytes_length _ _ H). Qed.
Lemma record_bytes_length e :
  entry_ok e -> length (record_bytes e) = (24 + Z.to_nat (rh_payload_length (le_header e)))%nat.
Proof.
  intros (H & L & _). unfold record_bytes. rewrite length_app, record_header_bytes, length_take by done. lia.
Qed.
Lemma record_make_fields h : record_make (record_fields h) = Ret h.
Proof. by destruct h. Qed.
Lemma payload_range h : record_header_ok h -> 0 <= rh_payload_length h < 65536.
Proof.
  unfold record_header_ok, record_layout, record_fields. intros F. do 3 apply Forall2_cons in F as [_ F].
  apply Forall2_cons in F as [[_ H] _]. exact H.
Qed.

(** The prefix covered by the checksum does not depend on it. *)
Lemma record_prefix_crc s t m l c c' :
  record_prefix (mkRecordHeader s t m l c) = record_prefix (mkRecordHeader s t m l c').
Proof. reflexivity. Qed.
Lemma record_prefix_bytes h : Forall is_byte (record_prefix h).
Proof.
  unfold record_prefix, fields_bytes. cbn [record_fields fmap list_fmap concat field_bytes].
  apply Forall_take. repeat (apply Forall_app; split); try apply le_bytes_bytes. constructor.
Qed.

Lemma make_entry_ok stack sq ts ty data :
  0 <= sq < 2 ^ 64 -> 0 <= ts < 2 ^ 64 -> 0 <= ty < 2 ^ 16 -> (length data <= 256)%nat -> Forall is_byte data ->
  entry_ok (make_entry stack sq ts ty data).
Proof.
  intros Hs Ht Hy Hl Hd. unfold entry_ok, make_entry. cbn [le_header le_payload rh_payload_length rh_checksum].
  rewrite u16_small by lia. split_and!.
  - unfold record_header_ok, record_layout, record_fields. cbn [rh_sequence rh_timestamp rh_message_type rh_payload_length rh_checksum].
    repeat (apply Forall2_cons; split; [split; [done|]|]); [done|done|done|lia| |constructor].
    apply crc32c_u32; [|done]. apply not32_u32, crc32c_u32; [apply init_u32|apply record_prefix_bytes].
  - rewrite length_app. lia.
  - rewrite Nat2Z.id, take_app_length. f_equal.
Qed.

(** ** Commands *)
Definition command_ok (c : OrderCommand) : Prop :=
  0 <= oc_sequence c < 2 ^ 64 /\ 0 <= oc_timestamp c < 2 ^ 64 /\ 0 <= oc_client_order_id c < 2 ^ 64 /\
  0 <= oc_orig_client_order_id c < 2 ^ 64 /\ 0 <= oc_symbol_id c < 2 ^ 32 /\ 0 <= oc_account_id c < 2 ^ 32 /\
  - 2 ^ 63 <= oc_price c < 2 ^ 63 /\ 0 <= oc_qty c < 2 ^ 64 /\ - 2 ^ 31 <= oc_conn_id c < 2 ^ 31 /\
  0 <= CommandType_code (oc_type c) < 256 /\ CommandType_of_code (CommandType_code (oc_type c)) = oc_type c /\
  0 <= Side_code (oc_side c) < 256 /\ Side_of_code (Side_code (oc_side c)) = oc_side c /\
  0 <= OrderType_code (oc_order_type c) < 256 /\
  OrderType_of_code (OrderType_code (oc_order_type c)) = oc_order_type c /\
  0 <= TimeInForce_code (oc_tif c) < 256 /\ TimeInForce_of_code (TimeInForce_code (oc_tif c)) = oc_tif c.

Lemma i64_u64 z : - 2 ^ 63 <= z < 2 ^ 63 -> i64 (u64 z) = z.
Proof.
  intros H. unfold i64. change (u64 z mod 2 ^ 64) with (u64 (u64 z)). rewrite u64_u64.
  exact (i64_small z H).
Qed.
Lemma i32_u32 z : - 2 ^ 31 <= z < 2 ^ 31 -> i32 (u32 z) = z.
Proof.
  intros H. unfold i32, u32. rewrite Zmod_mod. destruct (decide (0 <= z)).
  - rewrite Z.mod_small by lia. by destruct (Z.ltb_spec z (2 ^ 31)); [|lia].
  - assert (z mod 2 ^ 32 = z + 2 ^ 32) as ->.
    { symmetry. apply (Z.mod_unique_pos z (2 ^ 32) (-1)); lia. }
    destruct (Z.ltb_spec (z + 2 ^ 32) (2 ^ 31)); lia.
Qed.

Lemma command_fields_ok gap c : command_ok c -> Forall2 field_ok command_layout (command_fields gap c).
Proof.
  intros (H1 & H2 & H3 & H4 & H5 & H6 & H7 & H8 & H9 & H10 & _ & H11 & _ & H12 & _ & H13 & _).
  unfold command_layout, command_fields. pose proof (u64_bound (oc_price c)). pose proof (u32_bound (oc_conn_id c)).
  repeat constructor; try lia; reflexivity.
Qed.
Lemma command_bytes_length gap c : command_ok c -> length (command_bytes gap c) = 72%nat.
Proof. intros H. exact (fields_bytes_length _ _ (command_fields_ok gap c H)). Qed.
Lemma command_bytes_bytes gap c : is_byte gap -> Forall is_byte (command_bytes gap c).
Proof.
  intros Hg. unfold command_bytes, fields_bytes. cbn [command_fields fmap list_fmap concat field_bytes].
  repeat (apply Forall_app; split); try apply le_bytes_bytes.
  - apply (Forall_replicate is_byte 7 0). unfold is_byte. lia.
  - by apply Forall_singleton.
  - constructor.
Qed.
Lemma command_at_bytes gap c : command_ok c -> command_at (command_bytes gap c) = Ret c.
Proof.
  intros H. unfold command_at, command_bytes. rewrite <- (app_nil_r (fields_bytes _)).
  rewrite (fields_at_bytes _ _ _ (command_fields_ok gap c H)), bind_Ret. cbn [command_fields].
  destruct H as (_ & _ & _ & _ & _ & _ & Hp & _ & Hc & _ & E1 & _ & E2 & _ & E3 & _ & E4).
  rewrite E1, E2, E3, E4, i64_u64, i32_u32 by done. by destruct c.
Qed.

(** The record the engine appends for a command. *)
Definition command_entry (stack : list Z) (gap : Z) (c : OrderCommand) : LogEntry :=
  make_entry stack (oc_sequence c) (oc_timestamp c) (u16 (CommandType_code (oc_type c))) (command_bytes gap c).
Lemma command_entry_ok stack gap c : command_ok c -> is_byte gap -> entry_ok (command_entry stack gap c).
Proof.
  intros H Hg. pose proof (command_bytes_length gap c H). apply make_entry_ok.
  - apply H.
  - apply H.
  - apply u16_bound.
  - lia.
  - by apply command_bytes_bytes.
Qed.

(** ** Replaying records *)
(** What applying a command to a book means. *)
Definition apply_command (c : OrderCommand) (book : LimitOrderBook) : outcome LimitOrderBook :=
  match oc_type c with
  | CmdNewOrder => r ← insert (order_of_command c (oc_timestamp c)) (oc_sequence c) book; Ret r.2
  | CmdCancelOrder => r ← cancel (oc_orig_client_order_id c) book; Ret r.2
  | _ => Ret book
  end.
Fixpoint apply_commands (cs : list OrderCommand) (book : LimitOrderBook) (current_seq : Z)
    : outcome (LimitOrderBook * Z) :=
  match cs with
  | [] => Ret (book, current_seq)
  | c :: cs =>
      if oc_sequence c <=? current_seq then apply_commands cs book current_seq
      else book ← apply_command c book; apply_commands cs book (oc_sequence c)
  end.

Definition entry_payload (e : LogEntry) : list Z := take (Z.to_nat (rh_payload_length (le_header e))) (le_payload e).

Lemma replay_one fuel e rest book cur :
  entry_ok e ->
  replay_records (S fuel) (record_bytes e ++ rest) book cur =
  if rh_sequence (le_header e) <=? cur then replay_records fuel rest book cur
  else book ← apply_record (le_header e) (entry_payload e) book;
       replay_records fuel rest book (rh_sequence (le_header e)).
Proof.
  intros I. pose proof (record_bytes_length e I) as L. destruct I as (H & HL & HC).
  pose proof (record_header_bytes _ H) as L24. pose proof (payload_range _ H).
  destruct (record_bytes e ++ rest) as [|b0 bs] eqn:Eb; [apply (f_equal length) in Eb; rewrite length_app in Eb; cbn in Eb; lia|].
  cbn [replay_records]. rewrite <- Eb. rewrite length_app, L.
  destruct (Z.ltb_spec (Z.of_nat (24 + Z.to_nat (rh_payload_length (le_header e)) + length rest)) 24); [lia|].
  assert (record_bytes e ++ rest = fields_bytes (record_fields (le_header e)) ++ entry_payload e ++ rest) as ->
    by (unfold record_bytes; by rewrite <- app_assoc).
  rewrite fields_at_bytes by exact H. rewrite bind_Ret, record_make_fields, bind_Ret, <- L24, drop_app_length.
  assert (length (entry_payload e) = Z.to_nat (rh_payload_length (le_header e))) as Lp
    by (unfold entry_payload; rewrite length_take; lia).
  rewrite length_app, <- Lp.
  destruct (Nat.ltb_spec (length (entry_payload e) + length rest) (length (entry_payload e))); [lia|].
  rewrite take_app_length, drop_app_length. fold (entry_payload e) in HC. rewrite <- HC, Z.eqb_refl. done.
Qed.

(** A torn record ends the replay. *)
Definition torn (tail : list Z) : Prop := exists e k, entry_ok e /\ k <> [] /\ record_bytes e = tail ++ k.
Lemma replay_torn fuel tail book cur :
  torn tail -> replay_records (S fuel) tail book cur = Ret (true, book, cur).
Proof.
  intros (e & k & I & Hk & E). pose proof (record_bytes_length e I) as L. rewrite E, length_app in L.
  destruct I as (H & HL & _). pose proof (payload_range _ H). pose proof (record_header_bytes _ H) as L24.
  assert (0 < length k)%nat by (destruct k; [done|cbn; lia]).
  destruct tail as [|b0 bs] eqn:Et; [done|]. cbn [replay_records]. rewrite <- Et. rewrite <- Et in E, L.
  destruct (Z.ltb_spec (Z.of_nat (length tail)) 24); [done|].
  unfold record_bytes in E.
  assert (tail = fields_bytes (record_fields (le_header e)) ++ drop 24 tail) as Etail.
  { rewrite <- (take_drop 24 tail) at 1. f_equal.
    rewrite <- (take_app_le tail k) by lia. rewrite <- E, <- L24. apply take_app_length. }
  rewrite Etail at 1. rewrite fields_at_bytes by exact H. rewrite bind_Ret, record_make_fields, bind_Ret.
  rewrite length_drop.
  by destruct (Nat.ltb_spec (length tail - 24) (Z.to_nat (rh_payload_length (le_header e)))); [|lia].
Qed.
Lemma replay_end fuel tail book cur :
  tail = [] \/ torn tail -> replay_records (S fuel) tail book cur = Ret (true, book, cur).
Proof. intros [->|T]; [done|by apply replay_torn]. Qed.

Lemma apply_command_record stack gap c book :
  command_ok c ->
  apply_record (le_header (command_entry stack gap c)) (entry_payload (command_entry stack gap c)) book =
  apply_command c book.
Proof.
  intros H. pose proof (command_bytes_length gap c H) as L. unfold command_entry, entry_payload, make_entry.
  cbn [le_header le_payload rh_payload_length]. rewrite (u16_small (Z.of_nat _)), Nat2Z.id, take_app_length by lia.
  unfold apply_record, apply_command. cbn [rh_message_type rh_timestamp].
  pose proof H as (_ & _ & _ & _ & _ & _ & _ & _ & _ & Hc & Ec & _).
  rewrite u16_small by lia. rewrite L. change (Z.of_nat 72 =? COMMAND_SIZE) with true. cbn iota.
  rewrite (command_at_bytes gap c H), !bind_Ret. revert Ec. unfold CommandType_of_code.
  destruct (oc_type c) as [| | |k]; cbn [CommandType_code Z.eqb]; try done.
  destruct (Z.eqb_spec k 0), (Z.eqb_spec k 1); done.
Qed.

Lemma replay_commands stack gap cs tail book cur fuel :
  Forall command_ok cs -> is_byte gap -> tail = [] \/ torn tail -> (length cs < fuel)%nat ->
  replay_records fuel (concat ((fun c => record_bytes (command_entry stack gap c)) <$> cs) ++ tail) book cur =
  r ← apply_commands cs book cur; Ret (true, r.1, r.2).
Proof.
  intros F Hg HT. revert fuel book cur. induction F as [|c cs Hc _ IH]; intros fuel book cur Hf;
    (destruct fuel as [|fuel]; [cbn in Hf; lia|]); cbn [fmap list_fmap concat apply_commands app].
  - by rewrite replay_end.
  - rewrite <- app_assoc, replay_one by (by apply command_entry_ok).
    change (rh_sequence (le_header (command_entry stack gap c))) with (oc_sequence c).
    cbn [length] in Hf. destruct (oc_sequence c <=? cur); [apply IH; lia|].
    rewrite (apply_command_record stack gap c book Hc), bind_assoc.
    destruct (apply_command c book); try reflexivity. rewrite !bind_Ret. apply IH. lia.
Qed.

(** ** From bytes to fields and back *)
Lemma le_bytes_value l : Forall is_byte l -> le_bytes (length l) (le_value l) = l.
Proof.
  induction 1 as [|b l Hb _ IH]; [done|]. cbn [length le_bytes le_value]. unfold is_byte in Hb.
  rewrite (Z.mul_comm 256), Z.mod_add, Z.div_add, Z.mod_small, Z.div_small by lia. by rewrite Z.add_0_l, IH.
Qed.
Lemma le_value_inj l k : Forall is_byte l -> Forall is_byte k -> length l = length k -> le_value l = le_value k -> l = k.
Proof. intros Fl Fk L E. rewrite <- (le_bytes_value l Fl), <- (le_bytes_value k Fk). by rewrite L, E. Qed.

(** The fields a memory is cut into. *)
Fixpoint cut (ts : list layout) (mem : list Z) : list field :=
  match ts with
  | [] => []
  | t :: ts => field_of t (take (layout_size t) mem) :: cut ts (drop (layout_size t) mem)
  end.
Lemma fields_at_cut ts mem : (layout_bytes ts <= length mem)%nat -> fields_at ts mem = Ret (cut ts mem).
Proof.
  unfold layout_bytes. revert mem. induction ts as [|t ts IH]; intros mem H; [done|].
  cbn [sum_list_with fields_at cut] in *. destruct (Nat.ltb_spec (length mem) (layout_size t)); [lia|].
  rewrite IH; [done|]. rewrite length_drop. lia.
Qed.
Lemma cut_bytes ts mem :
  (layout_bytes ts <= length mem)%nat -> Forall is_byte mem -> fields_bytes (cut ts mem) = take (layout_bytes ts) mem.
Proof.
  unfold layout_bytes, fields_bytes. revert mem. induction ts as [|t ts IH]; intros mem H F; [done|].
  cbn [sum_list_with cut fmap list_fmap concat] in *.
  rewrite IH; [|rewrite length_drop; lia|by apply Forall_drop]. rewrite <- take_take_drop. f_equal.
  assert (length (take (layout_size t) mem) = layout_size t) as L by (rewrite length_take; lia).
  destruct t as [n|n]; cbn [field_of field_bytes layout_size] in *; [|done].
  rewrite <- L at 1. apply le_bytes_value. by apply Forall_take.
Qed.

Lemma take_other {A} (p s : list A) x y n : (n <= length p)%nat -> take n (p ++ x :: s) = take n (p ++ y :: s).
Proof. intros H. by rewrite !take_app_le by lia. Qed.
Lemma drop_other {A} (p s : list A) x y n : (length p < n)%nat -> drop n (p ++ x :: s) = drop n (p ++ y :: s).
Proof.
  intros H. rewrite !drop_app_ge by lia. destruct (n - length p)%nat eqn:E; [lia|]. done.
Qed.
Lemma take_mid {A} (p s : list A) x n :
  (length p < n)%nat -> take n (p ++ x :: s) = p ++ x :: take (n - length p - 1) s.
Proof.
  intros H. rewrite take_app_ge by lia. destruct (n - length p)%nat as [|m] eqn:E; [lia|].
  cbn. do 3 f_equal. lia.
Qed.
Lemma drop_mid {A} (p s : list A) x n : (n <= length p)%nat -> drop n (p ++ x :: s) = drop n p ++ x :: s.
Proof. intros H. by rewrite drop_app_le by lia. Qed.

(** ** Records whose bytes changed *)
(** The bytes a record's checksum covers, and the checksum it carries. *)
Definition covered (bytes : list Z) : list Z := take 20 bytes ++ drop 24 bytes.
Definition carried (bytes : list Z) : Z := le_value (take 4 (drop 20 bytes)).

Lemma record_cut bytes :
  (24 <= length bytes)%nat -> Forall is_byte bytes ->
  exists h, (fields_at record_layout bytes ≫= record_make) = Ret h /\
    rh_payload_length h = le_value (take 2 (drop 18 bytes)) /\ rh_checksum h = carried bytes /\
    record_prefix h = take 20 bytes.
Proof.
  intros L F. rewrite fields_at_cut by exact L. rewrite bind_Ret. pose proof (cut_bytes record_layout bytes L F) as C.
  cbn [cut record_layout layout_size field_of]. rewrite !drop_drop. cbn [Nat.add].
  eexists. split; [reflexivity|]. split_and!; [done|done|].
  cbn [cut record_layout layout_size field_of] in C. rewrite !drop_drop in C. cbn [Nat.add] in C.
  etransitivity; [exact (f_equal (take 20) C)|]. by rewrite take_take.
Qed.

(** Replaying a damaged record whose length field is intact. *)
Lemma replay_damaged fuel bytes rest n book cur :
  (24 + n = length bytes)%nat -> Forall is_byte bytes -> le_value (take 2 (drop 18 bytes)) = Z.of_nat n ->
  crc32c (covered bytes) CRC_INIT <> carried bytes ->
  replay_records (S fuel) (bytes ++ rest) book cur = Ret (false, book, cur).
Proof.
  intros L F Hn Hc. destruct (record_cut bytes ltac:(lia) F) as (h & E & Ep & Ec & Ex).
  destruct (bytes ++ rest) as [|b0 bs] eqn:Eb; [apply (f_equal length) in Eb; rewrite length_app in Eb; cbn in Eb; lia|].
  cbn [replay_records]. rewrite <- Eb. rewrite length_app.
  destruct (Z.ltb_spec (Z.of_nat (length bytes + length rest)) 24); [lia|].
  rewrite fields_at_app by (cbn; lia).
  rewrite fields_at_cut by (cbn; lia). rewrite fields_at_cut in E by (cbn; lia).
  rewrite bind_Ret in E. rewrite bind_Ret, E, bind_Ret.
  rewrite Ep, Hn, Nat2Z.id, length_drop, length_app.
  destruct (Nat.ltb_spec (length bytes + length rest - 24) n); [lia|].
  rewrite drop_app_le, take_app_le, (take_ge (drop 24 bytes)) by (rewrite ?length_drop; lia).
  rewrite Ec, Ex, crc32c_app. fold (covered bytes).
  destruct (Z.eqb_spec (carried bytes) (crc32c (covered bytes) CRC_INIT)) as [D|D]; [by rewrite D in Hc|done].
Qed.
