(* ===== verification/GatewayTyping.v ===== *)
(** * FluxTrade: the gateway keeps values in their types

    Memory holds bytes; whatever packet it is reinterpreted as has every field
    in the range of its type, and so has every command the gateway queues.
    [gateway_typed] is preserved by every callback of the transport, whatever
    bytes the clients send. *)
From S2P Require Import Prelude Domain RingBuffer Wire Sessions Gateway GatewayRefine GatewayFraming GatewayProperties Checksum Journal JournalRefine.
Local Open Scope Z_scope.

(** A connection's fields in the ranges of their types *)
Definition connection_typed (c : ClientConnection) : Prop :=
  Forall is_byte (cc_buffer c) /\ 0 <= cc_client_id c < 2 ^ 32 /\ 0 <= cc_account_id c < 2 ^ 32 /\
  - 2 ^ 31 <= cc_conn_id c < 2 ^ 31 /\ 0 <= cc_last_heartbeat_ts c < 2 ^ 64 /\
  0 <= cc_next_inbound_seq c < 2 ^ 64 /\ 0 <= cc_next_outbound_seq c < 2 ^ 64.
Definition sessions_typed (sm : SessionManager) : Prop := Forall connection_typed (connections sm).
Definition event_typed (e : listener_event) : Prop :=
  match e with
  | OnConnect id | OnDisconnect id => - 2 ^ 31 <= id < 2 ^ 31
  | OnRead id data => - 2 ^ 31 <= id < 2 ^ 31 /\ Forall is_byte data
  end.

(** ** Reading fields *)
Lemma fields_at_ok ts mem fs : Forall is_byte mem -> fields_at ts mem = Ret fs -> Forall2 field_ok ts fs.
Proof.
  revert mem fs. induction ts as [|t ts IH]; intros mem fs F; cbn [fields_at]; [by intros [= <-]|].
  destruct (Nat.ltb_spec (length mem) (layout_size t)) as [|L]; [done|].
  intros (k & E & [= <-])%bind_Ret_inv. constructor; [|eapply IH; [|done]; by apply Forall_drop].
  destruct t as [n|n]; cbn in *; [|rewrite length_take; lia]. split; [done|].
  pose proof (le_value_bound (take n mem) ltac:(by apply Forall_take)) as B.
  rewrite length_take in B. by replace (n `min` length mem)%nat with n in B by lia.
Qed.
Lemma packet_at_ok {P} `{PacketLaws P} mem (p : P) : Forall is_byte mem -> packet_at P mem = Ret p -> packet_ok p.
Proof.
  intros F E. unfold packet_at in E. apply bind_Ret_inv in E as (fs & Ef & E).
  apply fields_at_ok in Ef; [|done]. destruct (pk_make fs) as [p'|] eqn:Em; [|done]. injection E as ->.
  unfold packet_ok. by rewrite (pk_fields_make _ _ Ef Em).
Qed.

(** The ranges a well-typed packet gives. *)
Lemma field_range n m v : field_ok (TInt n) (FInt m v) -> 0 <= v < 2 ^ (8 * Z.of_nat n).
Proof. intros [_ H]. rewrite Z.pow_mul_r by lia. exact H. Qed.
Ltac packet_ranges H :=
  unfold packet_ok in H; cbn in H; unfold header_layout, header_fields in H; cbn in H;
  repeat match goal with
  | H : Forall2 field_ok (_ :: _) (_ :: _) |- _ =>
      let H1 := fresh "Hr" in apply Forall2_cons in H as [H1 H]; try apply field_range in H1
  end; clear H.

Lemma tif_of_code z :
  0 <= z < 256 -> 0 <= TimeInForce_code (TimeInForce_of_code z) < 256 /\
  TimeInForce_of_code (TimeInForce_code (TimeInForce_of_code z)) = TimeInForce_of_code z.
Proof.
  intros H. destruct (Z.eqb_spec z 1) as [->|N1]; [done|]. destruct (Z.eqb_spec z 2) as [->|N2]; [done|].
  destruct (Z.eqb_spec z 3) as [->|N3]; [done|].
  assert (TimeInForce_of_code z = TimeInForceUnnamed z) as E.
  { unfold TimeInForce_of_code. by rewrite (proj2 (Z.eqb_neq _ _) N1), (proj2 (Z.eqb_neq _ _) N2), (proj2 (Z.eqb_neq _ _) N3). }
  rewrite E. by split.
Qed.

(** ** The session table *)
Lemma typed_new id : - 2 ^ 31 <= id < 2 ^ 31 -> connection_typed (with_conn_id id new_connection).
Proof.
  intros H. unfold connection_typed. cbn -[Z.pow]. split_and!; try lia. apply Forall_replicate. unfold is_byte. lia.
Qed.
Lemma sessions_reset_typed : sessions_typed sessions_reset.
Proof. apply Forall_replicate. exact (typed_new (-1) ltac:(lia)). Qed.

Lemma create_typed id sm r sm' :
  - 2 ^ 31 <= id < 2 ^ 31 -> sessions_typed sm -> create_connection id sm = Ret (r, sm') -> sessions_typed sm'.
Proof.
  intros Hid S. unfold create_connection. destruct (_ <=? _); [by intros [= _ <-]|].
  intros ([i|] & _ & E)%bind_Ret_inv; [by injection E as _ <-|].
  apply bind_Ret_inv in E as (cs & (_ & ->)%arr_set_inv & [= _ <-]). apply Forall_insert; [done|]. by apply typed_new.
Qed.
Lemma remove_typed id sm sm' : sessions_typed sm -> remove_connection id sm = Ret sm' -> sessions_typed sm'.
Proof.
  intros S. unfold remove_connection. intros ([i|] & _ & E)%bind_Ret_inv; [|by injection E as <-].
  apply bind_Ret_inv in E as (cs & E & [= <-]). unfold sessions_typed. cbn. destruct (negb _); [|by injection E as <-].
  apply bind_Ret_inv in E as (c & [_ Hc]%arr_get_inv & [_ ->]%arr_set_inv).
  apply Forall_insert; [done|]. exact (Forall_lookup_1 _ _ _ _ S Hc).
Qed.
Lemma update_typed i f sm sm' :
  (forall c, connection_typed c -> connection_typed (f c)) ->
  sessions_typed sm -> update_connection i f sm = Ret sm' -> sessions_typed sm'.
Proof.
  intros Hf S. unfold update_connection.
  intros (c & [_ Hc]%arr_get_inv & (cs & [_ ->]%arr_set_inv & [= <-])%bind_Ret_inv)%bind_Ret_inv.
  apply Forall_insert; [done|]. apply Hf. exact (Forall_lookup_1 _ _ _ _ S Hc).
Qed.
Lemma authenticate_typed id client account u w sm ok sm' :
  0 <= client < 2 ^ 32 -> 0 <= account < 2 ^ 32 ->
  sessions_typed sm -> authenticate id client account u w sm = Ret (ok, sm') -> sessions_typed sm'.
Proof.
  intros Hc Ha S. unfold authenticate. intros ([i|] & _ & E)%bind_Ret_inv; [|by injection E as _ <-].
  apply bind_Ret_inv in E as (u0 & _ & E). apply bind_Ret_inv in E as (w0 & _ & E).
  destruct (_ || _); [by injection E as _ <-|]. apply bind_Ret_inv in E as (sm1 & E & [= _ <-]).
  eapply update_typed; [|done|exact E]. intros c (? & ? & ? & ? & ? & ? & ?). unfold connection_typed. cbn -[Z.pow]. split_and!; (done || lia).
Qed.

(** ** The gateway *)
Ltac command_fields :=
  unfold command_ok; cbn [oc_type oc_sequence oc_timestamp oc_client_order_id oc_orig_client_order_id oc_symbol_id
    oc_account_id oc_price oc_qty oc_side oc_order_type oc_tif oc_conn_id CommandType_code
    no_client_order_id no_symbol_id no_account_id no_price_ticks no_qty_units no_side no_type no_tif
    co_client_order_id co_orig_client_order_id co_symbol_id co_account_id
    rp_client_order_id rp_orig_client_order_id rp_symbol_id rp_account_id rp_price_ticks rp_qty_units].
Section Typed.
Context {X : Type} `{Transport X} (now : nat -> Z) (stack_tail : list Z).
Context (Hnow : forall n, 0 <= now n < 2 ^ 64).

Record gateway_typed (g : Gateway X) : Prop := mkTyped {
  ty_sessions : sessions_typed (g_sessions g);
  ty_sequence : 0 <= g_sequence g < 2 ^ 64;
  ty_commands : exists l, queue_rep INBOUND_CAPACITY (g_inbound_queue g) l /\ Forall command_ok l;
}.

Lemma typed_set_sessions sm g : gateway_typed g -> sessions_typed sm -> gateway_typed (set_sessions sm g).
Proof. intros [S N Q] S'. by split. Qed.
Lemma typed_tick g : gateway_typed g -> gateway_typed (tick now g).2.
Proof. by intros [S N Q]. Qed.
Lemma typed_send {P} `{Packet P} id type seq ts (p : P) g :
  gateway_typed g -> gateway_typed (send_packet id type seq ts p g).2.
Proof.
  intros [S N Q]. destruct (send_packet_sessions id type seq ts p g) as (E1 & E2 & E3).
  split; [by rewrite E1|by rewrite E3|by rewrite E2].
Qed.
Lemma typed_transport x g : gateway_typed g -> gateway_typed (set_transport x g).
Proof. by intros [S N Q]. Qed.
Lemma typed_sequence g : gateway_typed g -> gateway_typed (set_sequence (next_sequence (g_sequence g)).2 g).
Proof. intros [S N Q]. split; [done| |done]. cbn. apply u64_bound. Qed.
Hint Resolve typed_set_sessions typed_tick typed_send typed_transport typed_sequence : core.

Lemma typed_push cmd g g' :
  gateway_typed g -> command_ok cmd -> push_command cmd g = Ret g' -> gateway_typed g'.
Proof.
  intros [S N (l & Q & F)] C. unfold push_command, push.
  destruct (decide (Z.of_nat (length l) < INBOUND_CAPACITY)) as [L|L].
  - destruct (emplace_room _ queue_pos queue_pow _ l cmd Q L) as (q & -> & Q'). rewrite bind_Ret. intros [= <-].
    split; [done..|]. exists (l ++ [cmd]). split; [done|]. apply Forall_app. by split; [|constructor].
  - rewrite (emplace_full _ queue_pos _ l cmd Q) by (destruct Q as (_ & ? & _); lia). rewrite bind_Ret. intros [= <-].
    split; [done..|]. by exists l.
Qed.

Lemma handle_login_typed id mem g g' :
  gateway_typed g -> Forall is_byte mem -> handle_login now id mem g = Ret g' -> gateway_typed g'.
Proof.
  intros T F. unfold handle_login. intros (p & Ep & E)%bind_Ret_inv. apply packet_at_ok in Ep; [|done].
  apply bind_Ret_inv in E as ([ok sm] & E & E'). injection E' as <-. destruct p. packet_ranges Ep. cbn in E.
  apply typed_send. apply (typed_tick (set_sessions sm g)). apply typed_set_sessions; [done|].
  eapply authenticate_typed; [..|exact E]; [|by destruct T..|]; [lia..|by destruct T].
Qed.

Lemma handle_new_order_typed id mem g g' :
  gateway_typed g -> - 2 ^ 31 <= id < 2 ^ 31 -> Forall is_byte mem ->
  handle_new_order now id mem g = Ret g' -> gateway_typed g'.
Proof.
  intros T Hid F. unfold handle_new_order. intros (p & Ep & E)%bind_Ret_inv. apply packet_at_ok in Ep; [|done].
  cbn [next_sequence tick] in E. eapply typed_push; [|..|exact E]; [by apply (typed_tick _ (typed_sequence g T))|].
  destruct T as [S N Q]. destruct p as [h co sy ac pr qt sd ty tf pd]. packet_ranges Ep.
  pose proof (Hnow (g_ticks (set_sequence (u64 (g_sequence g + 1)) g))).
  pose proof (i64_bound pr). pose proof (tif_of_code tf ltac:(lia)) as [? ?].
  command_fields. destruct (sd =? 0), (ty =? 0); split_and!; (done || lia || (cbn; lia)).
Qed.
Lemma handle_cancel_order_typed id mem g g' :
  gateway_typed g -> - 2 ^ 31 <= id < 2 ^ 31 -> Forall is_byte mem ->
  handle_cancel_order now id mem g = Ret g' -> gateway_typed g'.
Proof.
  intros T Hid F. unfold handle_cancel_order. intros (p & Ep & E)%bind_Ret_inv. apply packet_at_ok in Ep; [|done].
  cbn [next_sequence tick] in E. eapply typed_push; [|..|exact E]; [by apply (typed_tick _ (typed_sequence g T))|].
  destruct T as [S N Q]. destruct p. packet_ranges Ep.
  pose proof (Hnow (g_ticks (set_sequence (u64 (g_sequence g + 1)) g))).
  command_fields. split_and!; (done || lia || (cbn; lia)).
Qed.
Lemma handle_replace_order_typed id mem g g' :
  gateway_typed g -> - 2 ^ 31 <= id < 2 ^ 31 -> Forall is_byte mem ->
  handle_replace_order now id mem g = Ret g' -> gateway_typed g'.
Proof.
  intros T Hid F. unfold handle_replace_order. intros (p & Ep & E)%bind_Ret_inv. apply packet_at_ok in Ep; [|done].
  cbn [next_sequence tick] in E. eapply typed_push; [|..|exact E]; [by apply (typed_tick _ (typed_sequence g T))|].
  destruct T as [S N Q]. destruct p as [h co oc sy ac pr qt]. packet_ranges Ep.
  pose proof (Hnow (g_ticks (set_sequence (u64 (g_sequence g + 1)) g))). pose proof (i64_bound pr).
  command_fields. split_and!; (done || lia || (cbn; lia)).
Qed.

Lemma handle_packet_typed id h mem g g' :
  gateway_typed g -> - 2 ^ 31 <= id < 2 ^ 31 -> Forall is_byte mem ->
  handle_packet now stack_tail id h mem g = Ret g' -> gateway_typed g'.
Proof.
  intros T Hid F. unfold handle_packet. intros ([slot|] & _ & E)%bind_Ret_inv; [|by injection E as <-].
  destruct (MessageType_of_code (mh_type h)); try (by eapply handle_login_typed);
    apply bind_Ret_inv in E as (c & _ & E);
    (destruct (negb _); [injection E as <-; unfold reject_unauthenticated; apply typed_send, (typed_tick g T)|]);
    try (by injection E as <-);
    [|..|by eapply handle_new_order_typed|by eapply handle_cancel_order_typed|by eapply handle_replace_order_typed].
  - unfold handle_heartbeat in E. cbn [tick] in E. apply bind_Ret_inv in E as (sm & E & [= <-]).
    assert (sessions_typed sm) as S.
    { eapply update_typed; [|destruct T as [S _ _]; exact S|exact E]. intros d (? & ? & ? & ? & ? & ? & ?).
      unfold connection_typed. cbn -[Z.pow]. split_and!; (done || apply Hnow || lia). }
    destruct T as [_ N Q]. apply typed_send. by split.
  - apply bind_Ret_inv in E as (sm & E & [= <-]). apply typed_set_sessions; [done|].
    eapply update_typed; [|destruct T as [S _ _]; exact S|exact E]. by intros d (? & ? & ? & ? & ? & ? & ?).
Qed.

Lemma typed_buffer i g c :
  gateway_typed g -> arr_get (connections (g_sessions g)) i = Ret c -> connection_typed c.
Proof. intros [S _ _] [_ Hc]%arr_get_inv. exact (Forall_lookup_1 _ _ _ _ S Hc). Qed.

Lemma parse_frames_typed fuel id slot : forall p g r g',
  gateway_typed g -> - 2 ^ 31 <= id < 2 ^ 31 ->
  parse_frames now stack_tail fuel id slot p g = Ret (r, g') -> gateway_typed g'.
Proof.
  induction fuel as [|fuel IH]; intros p g r g' T Hid; cbn [parse_frames]; [done|].
  intros (c & Hc & E)%bind_Ret_inv. pose proof (typed_buffer _ _ _ T Hc) as [F _].
  destruct (p <? cc_buffer_len c); [|by injection E as _ <-].
  apply bind_Ret_inv in E as ([[h n]|] & _ & E); [|by injection E as _ <-].
  apply bind_Ret_inv in E as (g1 & E1 & E). eapply IH; [|done|exact E].
  eapply handle_packet_typed; [done|done| |exact E1]. by apply Forall_drop.
Qed.

Lemma mem_write_bytes b dst data b' :
  Forall is_byte b -> Forall is_byte data -> mem_write b dst data = Ret b' -> Forall is_byte b'.
Proof.
  intros Fb Fd. unfold mem_write. destruct (_ <? _); [done|]. intros [= <-].
  apply Forall_app. split; [by apply Forall_take|]. apply Forall_app. split; [done|by apply Forall_drop].
Qed.
Lemma set_input_typed slot b n g sm :
  gateway_typed g -> Forall is_byte b ->
  update_connection slot (with_input b n) (g_sessions g) = Ret sm -> gateway_typed (set_sessions sm g).
Proof.
  intros T F E. apply typed_set_sessions; [done|]. eapply update_typed; [|destruct T as [S _ _]; exact S|exact E].
  by intros d (? & ? & ? & ? & ? & ? & ?).
Qed.
Lemma shift_residue_typed slot p g g' : gateway_typed g -> shift_residue slot p g = Ret g' -> gateway_typed g'.
Proof.
  intros T. unfold shift_residue. destruct (0 <? p); [|by intros [= <-]].
  intros (c & Hc & E)%bind_Ret_inv. pose proof (typed_buffer _ _ _ T Hc) as [F _].
  destruct (p <? cc_buffer_len c).
  - apply bind_Ret_inv in E as (b & Eb & E). apply bind_Ret_inv in E as (sm & E & [= <-]).
    eapply set_input_typed; [done| |exact E]. eapply mem_write_bytes; [done| |exact Eb].
    by apply Forall_take, Forall_drop.
  - apply bind_Ret_inv in E as (sm & E & [= <-]). by eapply set_input_typed.
Qed.

Lemma on_disconnect_typed id g g' : gateway_typed g -> on_disconnect id g = Ret g' -> gateway_typed g'.
Proof.
  intros T. unfold on_disconnect. intros (sm & E & [= <-])%bind_Ret_inv. apply typed_set_sessions; [done|].
  eapply remove_typed; [|exact E]. by destruct T.
Qed.
Lemma disconnect_all_typed ids : forall g g', gateway_typed g -> disconnect_all ids g = Ret g' -> gateway_typed g'.
Proof.
  induction ids as [|id ids IH]; intros g g' T; cbn [disconnect_all]; [by intros [= <-]|].
  intros (g1 & E1 & E)%bind_Ret_inv. eapply IH; [|exact E]. by eapply on_disconnect_typed.
Qed.

Lemma on_read_typed fuel id data g g' :
  gateway_typed g -> event_typed (OnRead id data) -> on_read now stack_tail fuel id data g = Ret g' -> gateway_typed g'.
Proof.
  intros T [Hid F]. unfold on_read. intros ([slot|] & _ & E)%bind_Ret_inv; [|by injection E as <-].
  apply bind_Ret_inv in E as (c & Hc & E). pose proof (typed_buffer _ _ _ T Hc) as [Fb _].
  destruct (BUFFER_SIZE <? _).
  - destruct (g_transport g); [|done]. destruct (t_disconnect x id).
    eapply disconnect_all_typed; [|exact E]. by apply typed_transport.
  - apply bind_Ret_inv in E as (b & Eb & E). apply bind_Ret_inv in E as (sm & Es & E).
    apply bind_Ret_inv in E as ([r g1] & E1 & E). eapply shift_residue_typed; [|exact E].
    eapply parse_frames_typed; [|exact Hid|exact E1]. eapply set_input_typed; [done| |exact Es].
    eapply mem_write_bytes; [exact Fb|exact F|exact Eb].
Qed.

Lemma deliver_all_typed fuel es : forall g g',
  gateway_typed g -> Forall event_typed es -> deliver_all now stack_tail fuel es g = Ret g' -> gateway_typed g'.
Proof.
  induction es as [|e es IH]; intros g g' T F; cbn [deliver_all]; [by intros [= <-]|].
  apply Forall_cons in F as [He F]. intros (g1 & E1 & E)%bind_Ret_inv. eapply IH; [|done|exact E].
  destruct e as [id|id|id data]; cbn [deliver] in E1.
  - unfold on_connect in E1. apply bind_Ret_inv in E1 as ([r sm] & E1 & [= <-]).
    apply typed_set_sessions; [done|]. apply (create_typed _ _ _ _ He (ty_sessions _ T) E1).
  - exact (on_disconnect_typed _ _ _ T E1).
  - exact (on_read_typed _ _ _ _ _ T He E1).
Qed.

(** A transport hands over bytes and 32-bit connection ids. *)
Class TransportTyped : Prop := { poll_typed (x : X) : Forall event_typed (t_poll x).2 }.
Lemma gateway_poll_typed `{!TransportTyped} fuel g g' :
  gateway_typed g -> gateway_poll now stack_tail fuel g = Ret g' -> gateway_typed g'.
Proof.
  intros T. unfold gateway_poll. destruct (g_transport g) as [x|]; [|by intros [= <-]].
  pose proof (poll_typed x) as P. destruct (t_poll x) as [x' es]. apply deliver_all_typed; [|exact P]. by apply typed_transport.
Qed.
Lemma gateway_start_typed g : gateway_typed g -> gateway_typed (gateway_start g).2.
Proof.
  intros T. unfold gateway_start. destruct (g_transport g) as [x|]; [|done]. destruct (t_start x).
  by apply typed_transport.
Qed.
Lemma gateway_stop_typed g : gateway_typed g -> gateway_typed (gateway_stop g).
Proof.
  intros T. unfold gateway_stop. apply typed_set_sessions; [|apply sessions_reset_typed].
  destruct (g_transport g); [by apply typed_transport|done].
Qed.
Lemma gateway_init_typed transport : gateway_typed (gateway_init transport (queue_init INBOUND_CAPACITY default_command)).
Proof.
  split; [apply sessions_reset_typed|cbn; lia|]. exists []. split; [apply queue_init_rep, queue_pos|constructor].
Qed.
End Typed.

(** ** The theorem *)
(** C26: whatever bytes the clients send and however the transport delivers
    them, callbacks that return leave every value in its type: the framing
    buffers hold bytes, the ids, sequence numbers and timestamps of the table are
    in range, and every command on the inbound queue has each field in the range
    of its C++ type and only enumerators that a byte can hold. *)
Theorem gateway_well_typed {X} `{Transport X} now stack_tail fuel es (g g' : Gateway X) :
  (forall n, 0 <= now n < 2 ^ 64) -> gateway_typed g -> Forall event_typed es ->
  deliver_all now stack_tail fuel es g = Ret g' -> gateway_typed g'.
Proof. intros Hn T F E. by eapply deliver_all_typed. Qed.

Lemma one_client_typed : gateway_typed (one_client true).
Proof.
  split; [|cbn; lia|exists []; split; [apply one_client_queue|constructor]].
  apply Forall_cons. split; [|apply Forall_replicate, (typed_new (-1)); lia].
  destruct (typed_new 7 ltac:(lia)) as (? & ? & ? & ? & ? & ? & ?). unfold connection_typed. cbn -[Z.pow]. split_and!; (done || lia).
Qed.
Lemma gateway_well_typed_witness : exists g',
  deliver_all (fun _ => 5) tail4 2 [OnRead 7 (take 64 (encode (replicate 64 0) 64 NewOrder 1 1 sample_order).2)]
    (one_client true) = Ret g' /\ gateway_typed g'.
Proof.
  destruct (one_client_live true) as (c & Hi & Hid & Ha & H0).
  destruct (new_order_queued (fun _ => 5) tail4 2 0 7 c sample_order (replicate 64 0) 1 1 [] (one_client true))
    as (g' & E & _); [reflexivity|apply one_client_ok|lia|apply one_client_queue|reflexivity|exact Hi|exact Hid|exact Ha|exact H0
    |exact sample_order_ok|vm_compute; congruence|lia|lia|reflexivity|].
  assert (deliver_all (fun _ => 5) tail4 2 [OnRead 7 (take 64 (encode (replicate 64 0) 64 NewOrder 1 1 sample_order).2)]
    (one_client true) = Ret g') as D.
  { cbn [deliver_all deliver]. change (Z.to_nat _) with 64%nat in E. change (Z.of_nat (length (replicate 64 0))) with 64 in E.
    rewrite E. reflexivity. }
  exists g'. split; [exact D|].
  refine (gateway_well_typed (fun _ => 5) tail4 2 _ (one_client true) g' _ one_client_typed _ D); [lia|].
  apply Forall_singleton. split; [lia|]. apply Forall_forall. intros b Hb. unfold is_byte.
  assert (Forall (fun b => (0 <=? b) && (b <? 256) = true)
    (take 64 (encode (replicate 64 0) 64 NewOrder 1 1 sample_order).2)) as F by (vm_compute; repeat constructor).
  rewrite Forall_forall in F. specialize (F b Hb). lia.
Defined.
