(* ===== verification/JournalProperties.v ===== *)
(** * FluxTrade: what the journal guarantees

    Checksums detect damaged bytes; what was journaled is replayed, up to a torn
    tail; the journal thread drains its queue before it stops. *)
From S2P Require Import Prelude Domain RingBuffer Wire Gateway Checksum ObjectPool OrderBook Journal JournalRefine.
Local Open Scope Z_scope.

(** A command used by the instances. *)
Definition sample_command : OrderCommand :=
  {| oc_type := CmdNewOrder; oc_sequence := 5; oc_timestamp := 6; oc_client_order_id := 7;
     oc_orig_client_order_id := 0; oc_symbol_id := 1; oc_account_id := 10; oc_price := 10000000000;
     oc_qty := 5000000; oc_side := Buy; oc_order_type := Limit; oc_tif := GTC; oc_conn_id := 7 |}.
Lemma sample_command_ok : command_ok sample_command.
Proof. unfold command_ok. cbn. repeat split; try lia; reflexivity. Qed.
Definition sample_entry : LogEntry := command_entry (replicate 256 0) 0 sample_command.
Lemma sample_entry_ok : entry_ok sample_entry.
Proof. apply command_entry_ok; [exact sample_command_ok|unfold is_byte; lia]. Qed.

(** Replaying a journal file made of the header and the records of the
    commands [cs], in order, followed by nothing or by the beginning of one
    more record (a torn write), applies exactly those commands to the book, in
    order, skipping those at or below the last sequence number applied: new
    orders are inserted, cancels cancelled; the torn record is ignored. *)
Lemma replay_recovers_commands stack gap seq now cs tail book cur :
  0 <= seq < 2 ^ 64 -> 0 <= now < 2 ^ 64 -> Forall command_ok cs -> is_byte gap -> tail = [] \/ torn tail ->
  let file := fields_bytes (wal_header_fields (wal_header seq now)) ++
    concat ((fun c => record_bytes (command_entry stack gap c)) <$> cs) ++ tail in
  replay_journal file book cur = (r ← apply_commands cs book cur; Ret (true, r.1, r.2)).
Proof.
  intros Hs Hn F Hg HT file.
  assert (Forall2 field_ok wal_header_layout (wal_header_fields (wal_header seq now))) as Hh.
  { unfold wal_header_layout, wal_header_fields. cbn. unfold WAL_MAGIC, WAL_VERSION. repeat constructor; lia. }
  pose proof (fields_bytes_length _ _ Hh) as L32. change (layout_bytes wal_header_layout) with 32%nat in L32.
  unfold replay_journal. subst file. rewrite length_app, L32.
  destruct (Z.ltb_spec (Z.of_nat (32 + length (concat ((fun c => record_bytes (command_entry stack gap c)) <$> cs) ++ tail))) 32); [lia|].
  rewrite (fields_at_bytes _ _ _ Hh), bind_Ret.
  change (wal_header_make (wal_header_fields (wal_header seq now))) with (Ret (wal_header seq now)).
  rewrite bind_Ret. cbn [wh_magic wh_version wal_header]. rewrite !Z.eqb_refl. cbn [negb orb].
  rewrite <- L32 at 2. rewrite drop_app_length. apply replay_commands; [done..|].
  rewrite length_app. enough (length cs <= length (concat ((fun c => record_bytes (command_entry stack gap c)) <$> cs)))%nat by lia.
  clear -F Hg. induction F as [|c cs Hc _ IH]; [done|]. rewrite fmap_cons. cbn [concat length].
  rewrite length_app, record_bytes_length by (by apply command_entry_ok). lia.
Qed.

Lemma replay_recovers_commands_witness :
  replay_journal (fields_bytes (wal_header_fields (wal_header 5 0)) ++
    concat ((fun c => record_bytes (command_entry (replicate 256 0) 0 c)) <$> []) ++ take 30 (record_bytes sample_entry))
    (LimitOrderBook_init false) 3 = Ret (true, LimitOrderBook_init false, 3).
Proof.
  apply (replay_recovers_commands (replicate 256 0) 0 5 0 [] (take 30 (record_bytes sample_entry))).
  - lia.
  - lia.
  - constructor.
  - unfold is_byte. lia.
  - right. exists sample_entry, (drop 30 (record_bytes sample_entry)).
    split; [exact sample_entry_ok|]. split; [vm_compute; discriminate|]. symmetry. apply take_drop.
Defined.

(** A changed byte shows in the checksum, in the header or in the payload. *)
Lemma damage_visible p x y s :
  crc32c (covered (p ++ x :: s)) CRC_INIT = carried (p ++ x :: s) ->
  length (p ++ y :: s) = length (p ++ x :: s) -> Forall is_byte (p ++ x :: s) -> is_byte y -> x <> y ->
  length p <> 18%nat -> length p <> 19%nat ->
  crc32c (covered (p ++ y :: s)) CRC_INIT <> carried (p ++ y :: s).
Proof.
  intros Hok LE F Hy N N18 N19 D. unfold covered, carried in *.
  destruct (decide (length p < 20)%nat) as [Hp|Hp].
  - rewrite (drop_other p s y x 20), (drop_other p s y x 24) in D by lia. rewrite <- Hok in D.
    rewrite !(take_mid p s _ 20) in D by lia. rewrite <- !app_assoc in D. cbn [app] in D. symmetry in D. revert D.
    apply crc32c_differs; [apply init_u32| |done|done].
    apply Forall_app in F as [Fp [Fx Fs]%Forall_cons]. apply Forall_app. split; [done|]. constructor; [done|].
    apply Forall_app. split; [by apply Forall_take|]. apply Forall_drop, Forall_app. split; [done|]. by constructor.
  - rewrite (take_other p s y x 20) in D by lia. rewrite !(drop_mid p s _ 20) in * by lia.
    destruct (decide (length p < 24)%nat) as [Hp'|Hp'].
    + rewrite (drop_other p s y x 24) in D by lia. rewrite Hok in D.
      assert (length (drop 20 p) < 4)%nat as L4 by (rewrite length_drop; lia).
      rewrite !(take_mid (drop 20 p) s _ 4) in D by done.
      apply le_value_inj in D; [|..|by rewrite !length_app].
      * apply app_inv_head in D. by injection D.
      * apply Forall_app in F as [Fp [Fx Fs]%Forall_cons]. apply Forall_app. split; [by apply Forall_drop|].
         constructor; [done|]. by apply Forall_take.
      * apply Forall_app in F as [Fp [Fx Fs]%Forall_cons]. apply Forall_app. split; [by apply Forall_drop|].
         constructor; [done|]. by apply Forall_take.
    + rewrite !(drop_mid p s _ 24) in * by lia.
      rewrite (take_other (drop 20 p) s y x 4) in D by (rewrite length_drop; lia). rewrite <- Hok in D.
      rewrite !app_assoc in D. symmetry in D. revert D.
      apply crc32c_differs; [apply init_u32| |done|done].
      apply Forall_app in F as [Fp [Fx Fs]%Forall_cons]. apply Forall_app. split; [|by constructor].
      apply Forall_app. split; [|by apply Forall_drop].
      apply Forall_take, Forall_app. split; [done|]. by constructor.
Qed.

(** C33: any change of a single byte of a record, the two bytes of its length
    field apart, makes the replay stop there and report failure, without
    touching the book. *)
Theorem journal_damage_detected fuel e p x y s rest book cur :
  entry_ok e -> Forall is_byte (record_bytes e) -> record_bytes e = p ++ x :: s ->
  is_byte y -> x <> y -> length p <> 18%nat -> length p <> 19%nat ->
  replay_records (S fuel) ((p ++ y :: s) ++ rest) book cur = Ret (false, book, cur).
Proof.
  intros I F E Hy N N18 N19. pose proof (record_bytes_length e I) as L.
  destruct I as (H & HL & HC). pose proof (payload_range _ H) as HR. rewrite E in F, L.
  destruct (record_cut (p ++ x :: s) ltac:(lia) F) as (h & Eh & Ep & Ec & Ex).
  assert (h = le_header e) as ->.
  { rewrite <- E in Eh. unfold record_bytes in Eh. rewrite fields_at_bytes in Eh by exact H.
    rewrite bind_Ret, record_make_fields in Eh. by injection Eh. }
  set (n := Z.to_nat (rh_payload_length (le_header e))) in *.
  assert (Forall is_byte (p ++ y :: s)) as F'.
  { apply Forall_app in F as [Fp [_ Fs]%Forall_cons]. apply Forall_app. split; [done|]. by constructor. }
  assert (crc32c (covered (p ++ x :: s)) CRC_INIT = carried (p ++ x :: s)) as Hok.
  { rewrite <- Ec, HC, Ex, crc32c_app. unfold covered. do 2 f_equal. rewrite <- E. unfold record_bytes.
    rewrite drop_app_ge, record_header_bytes by (rewrite ?record_header_bytes; done || lia). done. }
  assert (length (p ++ y :: s) = length (p ++ x :: s)) as LE by (by rewrite !length_app).
  apply (replay_damaged fuel (p ++ y :: s) rest n).
  - lia.
  - done.
  - rewrite <- (Z2Nat.id (rh_payload_length (le_header e))) in Ep by lia. fold n in Ep. rewrite Ep.
    destruct (decide (length p < 18)%nat) as [Hp|Hp]; [by rewrite (drop_other p s y x) by done|].
    rewrite !drop_mid by lia. rewrite (take_other (drop 18 p) s y x) by (rewrite length_drop; lia). done.
  - by apply (damage_visible p x y s).
Qed.

Lemma entry_bytes stack sq ts ty data :
  Forall is_byte data -> Forall is_byte stack -> Forall is_byte (record_bytes (make_entry stack sq ts ty data)).
Proof.
  intros Hd Hs. unfold record_bytes. apply Forall_app. split.
  - unfold fields_bytes. cbn [record_fields fmap list_fmap concat field_bytes].
    repeat (apply Forall_app; split); try apply le_bytes_bytes. constructor.
  - apply Forall_take, Forall_app. split; [done|]. by apply Forall_drop.
Qed.
Lemma sample_entry_bytes : Forall is_byte (record_bytes sample_entry).
Proof.
  apply entry_bytes; [apply command_bytes_bytes; unfold is_byte; lia|].
  apply (Forall_replicate is_byte 256 0). unfold is_byte. lia.
Qed.

Lemma journal_damage_detected_witness :
  replay_records 1 (([] ++ 4 :: drop 1 (record_bytes sample_entry)) ++ []) (LimitOrderBook_init false) 0 =
  Ret (false, LimitOrderBook_init false, 0).
Proof.
  apply (journal_damage_detected 0 sample_entry [] 5 4 (drop 1 (record_bytes sample_entry)) []);
    [exact sample_entry_ok|exact sample_entry_bytes|vm_compute; reflexivity|unfold is_byte; lia|lia|cbn; lia|cbn; lia].
Defined.

(** ** Metadata *)
Definition metadata_ok (i : MetadataInfo) : Prop := Forall2 field_ok metadata_layout (metadata_fields i).
Definition sample_metadata : MetadataInfo := mkMetadata 0 0 0 11 12 1 0 0.
Lemma sample_metadata_ok : metadata_ok sample_metadata.
Proof. unfold metadata_ok, metadata_layout. cbn. repeat constructor; cbn; lia. Qed.

(** What [save] writes: the caller's values under the right magic, version and
    checksum. *)
Definition saved (i : MetadataInfo) : MetadataInfo :=
  let out := mkMetadata METADATA_MAGIC METADATA_VERSION (md_flags i) (md_latest_snapshot_sequence i)
    (md_last_journal_sequence i) (md_current_journal_index i) (md_checksum i) (md_padding i) in
  mkMetadata METADATA_MAGIC METADATA_VERSION (md_flags i) (md_latest_snapshot_sequence i)
    (md_last_journal_sequence i) (md_current_journal_index i) (metadata_crc out) (md_padding i).
Lemma saved_crc i : metadata_crc (saved i) = md_checksum (saved i).
Proof. reflexivity. Qed.
Lemma metadata_prefix_bytes i : Forall is_byte (fields_bytes (metadata_fields i)).
Proof.
  unfold fields_bytes. cbn [metadata_fields fmap list_fmap concat field_bytes].
  repeat (apply Forall_app; split); try apply le_bytes_bytes. constructor.
Qed.
Lemma saved_ok i : metadata_ok i -> metadata_ok (saved i).
Proof.
  assert (is_u32 (md_checksum (saved i))) as Hc.
  { apply crc32c_u32; [apply init_u32|]. apply Forall_take, metadata_prefix_bytes. }
  revert Hc. unfold metadata_ok, metadata_layout, metadata_fields, saved.
  cbn [md_magic md_version md_flags md_latest_snapshot_sequence md_last_journal_sequence md_current_journal_index
    md_checksum md_padding].
  generalize (metadata_crc (mkMetadata METADATA_MAGIC METADATA_VERSION (md_flags i) (md_latest_snapshot_sequence i)
    (md_last_journal_sequence i) (md_current_journal_index i) (md_checksum i) (md_padding i))).
  intros crc Hc F. repeat (apply Forall2_cons in F as [? F]).
  repeat (apply Forall2_cons; split); try done; try (split; [done|]; unfold METADATA_MAGIC, METADATA_VERSION; lia).
Qed.
Lemma metadata_cut bytes :
  (40 <= length bytes)%nat -> Forall is_byte bytes ->
  exists i, (fields_at metadata_layout bytes ≫= metadata_make) = Ret i /\
    md_checksum i = le_value (take 4 (drop 32 bytes)) /\ metadata_crc i = crc32c (take 32 bytes) CRC_INIT.
Proof.
  intros L F. rewrite fields_at_cut by exact L. rewrite bind_Ret. pose proof (cut_bytes metadata_layout bytes L F) as C.
  cbn [cut metadata_layout layout_size field_of] in *. rewrite !drop_drop in *. cbn [Nat.add] in *.
  eexists. split; [reflexivity|]. split; [done|]. unfold metadata_crc. f_equal.
  etransitivity; [exact (f_equal (take 32) C)|]. by rewrite take_take.
Qed.

Lemma metadata_load_saved (i : MetadataInfo) :
  metadata_ok i -> metadata_load (Some (metadata_save i)) = Ret (Some (saved i)).
Proof.
  intros I. pose proof (saved_ok i I) as S. change (metadata_save i) with (fields_bytes (metadata_fields (saved i))).
  pose proof (fields_bytes_length _ _ S) as L. change (layout_bytes metadata_layout) with 40%nat in L.
  unfold metadata_load. rewrite L. change (Z.of_nat 40 <? 40) with false. cbn iota.
  rewrite <- (app_nil_r (fields_bytes _)), fields_at_bytes by exact S. rewrite bind_Ret.
  change (metadata_make (metadata_fields (saved i))) with (Ret (saved i)). rewrite bind_Ret.
  change (md_magic (saved i)) with METADATA_MAGIC. change (md_version (saved i)) with METADATA_VERSION.
  by rewrite saved_crc, !Z.eqb_refl.
Qed.

(** The metadata file that [save] writes loads as the values saved, and
    after a change of any one of its first 36 bytes (all but the padding)
    [load] refuses it. *)
Theorem metadata_save_load (i : MetadataInfo) :
  metadata_ok i ->
  metadata_load (Some (metadata_save i)) = Ret (Some (saved i)) /\
  forall p x y s, metadata_save i = p ++ x :: s -> (length p < 36)%nat -> is_byte y -> x <> y ->
    metadata_load (Some (p ++ y :: s)) = Ret None.
Proof.
  intros I. pose proof (saved_ok i I) as S. change (metadata_save i) with (fields_bytes (metadata_fields (saved i))).
  pose proof (fields_bytes_length _ _ S) as L. change (layout_bytes metadata_layout) with 40%nat in L.
  pose proof (metadata_prefix_bytes (saved i)) as F. split.
  - by apply metadata_load_saved.
  - intros p x y s E Hp Hy N. rewrite E in F, L.
    assert (Forall is_byte (p ++ y :: s)) as F'.
    { apply Forall_app in F as [Fp [_ Fs]%Forall_cons]. apply Forall_app. split; [done|]. by constructor. }
    assert (length (p ++ y :: s) = 40%nat) as L' by (rewrite length_app in *; exact L).
    destruct (metadata_cut (p ++ x :: s) ltac:(lia) F) as (i0 & E0 & C0 & R0).
    assert (i0 = saved i) as ->.
    { rewrite <- E, <- (app_nil_r (fields_bytes _)), fields_at_bytes in E0 by exact S. rewrite bind_Ret in E0.
      change (metadata_make (metadata_fields (saved i))) with (Ret (saved i)) in E0. by injection E0. }
    rewrite saved_crc in R0. rewrite R0 in C0.
    destruct (metadata_cut (p ++ y :: s) ltac:(lia) F') as (i1 & E1 & C1 & R1).
    unfold metadata_load. rewrite L'. change (Z.of_nat 40 <? 40) with false. cbn iota.
    rewrite fields_at_cut by (cbn; lia). rewrite fields_at_cut in E1 by (cbn; lia).
    rewrite bind_Ret in E1. rewrite bind_Ret, E1, bind_Ret.
    destruct (_ || _); [done|]. rewrite C1, R1.
    assert (le_value (take 4 (drop 32 (p ++ y :: s))) <> crc32c (take 32 (p ++ y :: s)) CRC_INIT) as D.
    { destruct (decide (length p < 32)%nat) as [Hq|Hq].
      - rewrite (drop_other p s y x 32) by lia. rewrite <- C0. rewrite !(take_mid p s _ 32) by lia.
        apply crc32c_differs; [apply init_u32| |done|done].
        apply Forall_app in F as [Fp [Fx Fs]%Forall_cons]. apply Forall_app. split; [done|].
        constructor; [done|]. by apply Forall_take.
      - rewrite (take_other p s y x 32) by lia. rewrite C0. rewrite !(drop_mid p s _ 32) by lia.
        assert (length (drop 32 p) < 4)%nat by (rewrite length_drop; lia). rewrite !(take_mid (drop 32 p) s _ 4) by done.
        apply Forall_app in F as [Fp [Fx Fs]%Forall_cons].
        intros D. apply le_value_inj in D; [apply app_inv_head in D; by injection D|..|by rewrite !length_app];
          (apply Forall_app; split; [by apply Forall_drop|]; constructor; [done|]; by apply Forall_take). }
    apply Z.eqb_neq in D. rewrite D. reflexivity.
Qed.
Lemma metadata_save_load_witness :
  metadata_load (Some (metadata_save sample_metadata)) = Ret (Some (saved sample_metadata)).
Proof. exact (proj1 (metadata_save_load sample_metadata sample_metadata_ok)). Defined.

(** ** The journal thread *)
Definition unflushed (d : DiskJournal) : DiskJournal :=
  mkDisk (dj_policy d) (dj_max_file_size d) (dj_open d) (dj_current_bytes d) (dj_file_index d) (dj_files d) 0.
Lemma write_entry_unflushed now e d d' :
  unflushed d = unflushed d' -> unflushed (write_entry now e d) = unflushed (write_entry now e d').
Proof.
  destruct d as [pol mx op by_ ix fs fl], d' as [pol' mx' op' by' ix' fs' fl']. intros [= <- <- <- <- <- <-].
  unfold write_entry. cbn [dj_open dj_max_file_size dj_current_bytes].
  by destruct (negb op || (mx <=? by_)), op.
Qed.
Lemma flush_unflushed d : unflushed (journal_flush d) = unflushed d.
Proof. unfold journal_flush. by destruct (dj_open d && _). Qed.
Lemma write_entries_unflushed now l d d' :
  unflushed d = unflushed d' ->
  unflushed (foldl (fun d e => write_entry now e d) d l) = unflushed (foldl (fun d e => write_entry now e d) d' l).
Proof.
  revert d d'. induction l as [|e l IH]; intros d d' E; [done|]. cbn. apply IH. by apply write_entry_unflushed.
Qed.

Lemma drain_spec fuel now steady l t :
  queue_rep JOURNAL_CAPACITY (jt_queue t) l -> read_idx (jt_queue t) + Z.of_nat (length l) < 2 ^ 64 ->
  (length l < fuel)%nat ->
  exists d, journal_drain fuel now steady t = Ret (journal_flush d) /\
    unflushed d = unflushed (foldl (fun d e => write_entry now e d) (jt_disk t) l).
Proof.
  assert (0 < JOURNAL_CAPACITY < 2 ^ 64) as Hpos by (unfold JOURNAL_CAPACITY; lia).
  assert (Z.land JOURNAL_CAPACITY (JOURNAL_CAPACITY - 1) = 0) as Hpow by reflexivity.
  revert fuel t. induction l as [|e l IH]; intros fuel t Q HR Hf; (destruct fuel as [|fuel]; [cbn in Hf; lia|]);
    cbn [journal_drain foldl]; unfold journal_turn; cbn [orb]; unfold queue_empty.
  - destruct (size_rep JOURNAL_CAPACITY Hpos _ _ Q) as [E|[E _]]; [|cbn in *; lia].
    rewrite E. cbn. eauto.
  - destruct (size_rep JOURNAL_CAPACITY Hpos _ _ Q) as [E|[E _]]; [|cbn in *; lia].
    rewrite E. cbn [length] in *. destruct (Z.eqb_spec (Z.of_nat (S (length l))) 0); [lia|]. cbn [negb].
    destruct (pop_cons JOURNAL_CAPACITY Hpos Hpow _ _ _ Q) as (q' & Ep & Q').
    assert (read_idx q' + Z.of_nat (length l) < 2 ^ 64) as HR'.
    { revert Ep. unfold pop. destruct (read_idx (jt_queue t) =? write_idx (jt_queue t)); [done|].
      destruct (arr_get _ _); try done. rewrite bind_Ret. intros [= _ <-]. cbn [read_idx].
      destruct Q as (_ & _ & R & ER & _). pose proof (u64_bound R). rewrite <- ER in *.
      rewrite u64_small by lia. lia. }
    rewrite Ep, bind_Ret. cbn [fst snd].
    assert (forall d n, unflushed d = unflushed (write_entry now e (jt_disk t)) ->
      exists d', journal_drain fuel now steady (mkJournalThread d q' n (jt_last_flush t)) = Ret (journal_flush d') /\
        unflushed d' = unflushed (foldl (fun d e => write_entry now e d) (write_entry now e (jt_disk t)) l)) as K.
    { intros d k Ed. destruct (IH fuel (mkJournalThread d q' k (jt_last_flush t)) Q' HR' ltac:(lia)) as (d' & E1 & E2).
      exists d'. split; [done|]. rewrite E2. by apply write_entries_unflushed. }
    destruct (decide _); [rewrite bind_Ret; apply K, flush_unflushed|].
    destruct (bool_decide _ && _); rewrite bind_Ret; apply K; [apply flush_unflushed|done].
Qed.

(** C35: once told to stop, the journal thread writes every record still in its
    queue, in order, flushes and returns, as long as the queue's indices have
    not wrapped. *)
Theorem journal_drains_on_stop fuel now steady l t :
  queue_rep JOURNAL_CAPACITY (jt_queue t) l -> read_idx (jt_queue t) + Z.of_nat (length l) < 2 ^ 64 ->
  (length l < fuel)%nat ->
  exists d, journal_drain fuel now steady t = Ret d /\
    dj_files d = dj_files (foldl (fun d e => write_entry now e d) (jt_disk t) l) /\
    (dj_open d = true -> dj_policy d <> FlushNever ->
     dj_flushed d = Z.of_nat (length (default [] (dj_files d !! dj_file_index d)))).
Proof.
  intros Q HR Hf. destruct (drain_spec fuel now steady l t Q HR Hf) as (d & E & Ed). exists (journal_flush d).
  split; [done|]. split.
  - pose proof (f_equal dj_files Ed) as Ef. cbn in Ef. rewrite <- Ef.
    exact (f_equal dj_files (flush_unflushed d)).
  - unfold journal_flush. destruct (dj_open d) eqn:Ho; cbn [andb]; [|by rewrite Ho].
    destruct (bool_decide (dj_policy d = FlushNever)) eqn:Hp; cbn [negb]; [|done].
    apply bool_decide_eq_true in Hp. by rewrite Hp.
Qed.
Lemma journal_drains_on_stop_witness : exists q d,
  emplace JOURNAL_CAPACITY (queue_init JOURNAL_CAPACITY sample_entry) sample_entry = Ret (true, q) /\
  journal_drain 2 0 0 (mkJournalThread (DiskJournal_init FlushBatch 1000 ∅) q 0 0) = Ret d /\
  dj_files d = dj_files (write_entry 0 sample_entry (DiskJournal_init FlushBatch 1000 ∅)).
Proof.
  assert (0 < JOURNAL_CAPACITY < 2 ^ 64 /\ Z.land JOURNAL_CAPACITY (JOURNAL_CAPACITY - 1) = 0) as [Hp Hl]
    by (unfold JOURNAL_CAPACITY; split; [lia|reflexivity]).
  destruct (emplace_room JOURNAL_CAPACITY Hp Hl _ [] sample_entry (queue_init_rep JOURNAL_CAPACITY Hp sample_entry)) as (q & E & Q);
    [unfold JOURNAL_CAPACITY; cbn; lia|].
  assert (read_idx q = 0) as Eq.
  { revert E. unfold emplace. destruct (_ <=? _); [done|]. by intros (bs & _ & [= <-])%bind_Ret_inv. }
  destruct (journal_drains_on_stop 2 0 0 [sample_entry] (mkJournalThread (DiskJournal_init FlushBatch 1000 ∅) q 0 0))
    as (d & Ed & F & _); [exact Q|cbn [jt_queue]; rewrite Eq; cbn; lia|cbn; lia|].
  exists q, d. split; [exact E|]. split; [exact Ed|exact F].
Defined.

(** The file index starts over in a new process: the first record it writes
    truncates [journal_000001.wal], whatever that file held. *)
Lemma restart_truncates_journal policy max_file_size files old now e :
  files !! 1 = Some old ->
  dj_files (write_entry now e (DiskJournal_init policy max_file_size files)) !! 1 =
  Some (fields_bytes (wal_header_fields (wal_header (rh_sequence (le_header e)) now)) ++ record_bytes e).
Proof.
  intros _. unfold write_entry. cbn [dj_open DiskJournal_init negb orb]. unfold rotate_file.
  cbn [dj_open DiskJournal_init dj_file_index]. change (u64 (0 + 1)) with 1.
  unfold file_write, with_bytes. cbn [dj_files dj_file_index].
  repeat (rewrite !lookup_insert_eq; cbn [default from_option]). unfold id, record_bytes. cbn [app].
  by rewrite <- app_assoc.
Qed.
Lemma restart_truncates_journal_witness :
  dj_files (write_entry 0 sample_entry (DiskJournal_init FlushBatch 1000 {[1 := [1; 2; 3]]})) !! 1 =
  Some (fields_bytes (wal_header_fields (wal_header 5 0)) ++ record_bytes sample_entry).
Proof. apply (restart_truncates_journal FlushBatch 1000 {[1 := [1; 2; 3]]} [1; 2; 3] 0 sample_entry). reflexivity. Defined.
