(* ===== verification/JournalDisk.v ===== *)
(** * FluxTrade: the files of a journal

    What [DiskJournal::write_entry] and [rotate_file]
    (src/persistence/include/persistence/disk_journal.hpp) leave in a directory:
    files numbered from 1, each a header and the records of consecutive commands,
    in place of the files that had these numbers. *)
From S2P Require Import Prelude Domain RingBuffer Wire Gateway Checksum Journal JournalRefine JournalProperties.
Local Open Scope Z_scope.

(** The files [fs] under the numbers from 1 *)
Definition numbered (fs : list (list Z)) (k : Z) : option (list Z) := if decide (1 <= k) then fs !! Z.to_nat (k - 1) else None.
Lemma numbered_at fs i : numbered fs (1 + Z.of_nat i) = fs !! i.
Proof. unfold numbered. rewrite decide_True by lia. f_equal. lia. Qed.
Lemma numbered_end fs f : numbered (fs ++ [f]) (1 + Z.of_nat (length fs)) = Some f.
Proof. by rewrite numbered_at, lookup_app_r, Nat.sub_diag by lia. Qed.
Lemma numbered_before fs f k : k <> 1 + Z.of_nat (length fs) -> numbered (fs ++ [f]) k = numbered fs k.
Proof.
  intros N. unfold numbered. destruct (decide (1 <= k)); [|done].
  destruct (decide (k < 1 + Z.of_nat (length fs))); [by rewrite lookup_app_l by lia|].
  rewrite !lookup_ge_None_2; [done|lia|rewrite length_app; simpl; lia].
Qed.

(** The directory holds the files [fs] in place of those of the same number in
    [old], and the others of [old]. *)
Definition holds_files (old files : gmap Z (list Z)) (fs : list (list Z)) : Prop :=
  forall k, files !! k = match numbered fs k with Some f => Some f | None => old !! k end.

Lemma holds_files_at old files fs i f : holds_files old files fs -> fs !! i = Some f -> files !! (1 + Z.of_nat i) = Some f.
Proof. intros H E. by rewrite H, numbered_at, E. Qed.
Lemma holds_files_end files fs : holds_files ∅ files fs -> files !! (1 + Z.of_nat (length fs)) = None.
Proof. intros H. by rewrite H, numbered_at, lookup_ge_None_2 by lia. Qed.
Lemma holds_files_none old : holds_files old old [].
Proof. intros k. unfold numbered. by destruct (decide _). Qed.
Lemma holds_files_new old files fs f :
  holds_files old files fs -> holds_files old (<[1 + Z.of_nat (length fs) := f]> files) (fs ++ [f]).
Proof.
  intros H k. destruct (decide (k = 1 + Z.of_nat (length fs))) as [->|N].
  - by rewrite lookup_insert_eq, numbered_end.
  - by rewrite lookup_insert_ne, H, numbered_before.
Qed.
Lemma holds_files_change old files fs f g :
  holds_files old files (fs ++ [f]) -> holds_files old (<[1 + Z.of_nat (length fs) := g]> files) (fs ++ [g]).
Proof.
  intros H k. destruct (decide (k = 1 + Z.of_nat (length fs))) as [->|N].
  - by rewrite lookup_insert_eq, numbered_end.
  - by rewrite lookup_insert_ne, H, !numbered_before.
Qed.

Section disk.
Context (stack : list Z) (gap : Z) (old : gmap Z (list Z)).

(** A file: a header, then the records of its commands and nothing else. *)
Definition journal_full (file : list Z) (cs : list OrderCommand) : Prop :=
  exists seq now, 0 <= seq < 2 ^ 64 /\ 0 <= now < 2 ^ 64 /\ Forall command_ok cs /\
    file = fields_bytes (wal_header_fields (wal_header seq now)) ++
           concat ((fun c => record_bytes (command_entry stack gap c)) <$> cs).

(** The disk journal has written the records of [cs], in order.  A file has at
    least one record: it is opened to write one. *)
Definition disk_holds (d : DiskJournal) (cs : list OrderCommand) : Prop :=
  exists fs css, Forall2 journal_full fs css /\ Forall (fun cs => cs <> []) css /\ concat css = cs /\
    holds_files old (dj_files d) fs /\ dj_file_index d = Z.of_nat (length fs) /\ (dj_open d = true -> fs <> []).

Lemma disk_holds_init policy size : disk_holds (DiskJournal_init policy size old) [].
Proof.
  exists [], []. split_and!; try done. apply holds_files_none.
Qed.
Lemma disk_holds_ext d d' cs :
  dj_files d' = dj_files d -> dj_file_index d' = dj_file_index d -> (dj_open d' = true -> dj_open d = true) ->
  disk_holds d cs -> disk_holds d' cs.
Proof.
  intros Ef Ei Eo (fs & css & F & N & E & H & I & O). exists fs, css. rewrite Ef, Ei. split_and!; try done.
  intros Ho. by apply O, Eo.
Qed.
Lemma disk_holds_flush d cs : disk_holds d cs -> disk_holds (journal_flush d) cs.
Proof. apply disk_holds_ext; unfold journal_flush; by destruct (dj_open d && _). Qed.

Lemma nonempty_concat {A} (css : list (list A)) : Forall (fun cs => cs <> []) css -> (length css <= length (concat css))%nat.
Proof.
  induction 1 as [|cs css N _ IH]; [done|]. cbn. rewrite length_app. destruct cs; [done|]. cbn. lia.
Qed.
Lemma disk_holds_count d cs : disk_holds d cs -> 0 <= dj_file_index d <= Z.of_nat (length cs).
Proof.
  intros (fs & css & F & N & <- & _ & -> & _). pose proof (nonempty_concat _ N). apply Forall2_length in F. lia.
Qed.

(** The files past the current one are untouched. *)
Lemma disk_holds_beyond d cs k : disk_holds d cs -> dj_file_index d < k -> dj_files d !! k = old !! k.
Proof.
  intros (fs & css & _ & _ & _ & H & I & _) Hk. rewrite H. unfold numbered. rewrite decide_True by lia.
  by rewrite lookup_ge_None_2 by lia.
Qed.

(** Writing to the last file *)
Lemma write_last fs css f cs d c e :
  Forall2 journal_full fs css -> Forall (fun cs => cs <> []) css -> journal_full f cs -> command_ok c ->
  holds_files old (dj_files d) (fs ++ [f]) -> dj_file_index d = Z.of_nat (length (fs ++ [f])) ->
  dj_files e = <[dj_file_index d := default [] (dj_files d !! dj_file_index d) ++ record_bytes (command_entry stack gap c)]> (dj_files d) ->
  dj_file_index e = dj_file_index d ->
  disk_holds e (concat css ++ cs ++ [c]).
Proof.
  intros F N (seq & now & Hs & Hn & Fc & Ef) Hc H I Ee Ei. rewrite length_app in I. simpl in I.
  replace (dj_file_index d) with (1 + Z.of_nat (length fs)) in * by lia.
  assert (dj_files d !! (1 + Z.of_nat (length fs)) = Some f) as El.
  { eapply holds_files_at; [exact H|]. by rewrite lookup_app_r, Nat.sub_diag by lia. }
  rewrite El in Ee. simpl default in Ee.
  exists (fs ++ [f ++ record_bytes (command_entry stack gap c)]), (css ++ [cs ++ [c]]). split_and!.
  - apply Forall2_app; [done|]. constructor; [|constructor]. exists seq, now. do 2 (split; [done|]). split.
    + apply Forall_app. by split; [|constructor].
    + rewrite fmap_app, concat_app, app_assoc, Ef. cbn [fmap list_fmap concat]. by rewrite app_nil_r.
  - apply Forall_app. split; [done|]. constructor; [by destruct cs|constructor].
  - rewrite concat_app. cbn [concat]. by rewrite app_nil_r.
  - rewrite Ee. by eapply holds_files_change.
  - rewrite Ei, length_app. simpl. lia.
  - intros _. by destruct fs.
Qed.

(** One record more *)
Lemma disk_holds_write now d cs c :
  disk_holds d cs -> command_ok c -> 0 <= now < 2 ^ 64 -> Z.of_nat (length cs) + 1 < 2 ^ 64 ->
  disk_holds (write_entry now (command_entry stack gap c) d) (cs ++ [c]).
Proof.
  intros D Hc Hn HB. pose proof (disk_holds_count d cs D) as Ic. destruct D as (fs & css & F & N & <- & H & I & O).
  unfold write_entry. set (e := command_entry stack gap c). cbv zeta.
  destruct (negb (dj_open d) || (dj_max_file_size d <=? dj_current_bytes d)) eqn:R.
  - set (d1 := rotate_file _ _ d). set (h := fields_bytes (wal_header_fields (wal_header (rh_sequence (le_header e)) now))).
    assert (dj_files d1 = <[1 + Z.of_nat (length fs) := h]> (dj_files d) /\ dj_file_index d1 = 1 + Z.of_nat (length fs)) as [E1 E2].
    { unfold d1, rotate_file. assert (u64 (dj_file_index d + 1) = 1 + Z.of_nat (length fs)) as Eu by (rewrite u64_small by lia; lia).
      destruct (dj_open d); cbn; rewrite Eu, lookup_insert_eq; simpl default; by rewrite insert_insert_eq. }
    rewrite <-(app_nil_l [c]). eapply (write_last fs css h [] d1 c); try done.
    + exists (rh_sequence (le_header e)), now. split; [apply Hc|]. split; [done|]. split; [constructor|]. cbn [fmap list_fmap concat]. by rewrite app_nil_r.
    + rewrite E1. by apply holds_files_new.
    + rewrite E2, length_app. simpl. lia.
    + cbn. rewrite lookup_insert_eq. simpl default. rewrite insert_insert_eq, <-app_assoc. done.
  - apply orb_false_iff in R as [R _]. apply negb_false_iff in R. specialize (O R).
    destruct fs as [|f fs _] using rev_ind; [done|]. apply Forall2_app_inv_l in F as (css' & l & F & F1 & ->).
    apply Forall2_cons_inv_l in F1 as (cs1 & l' & Ff & F1 & ->). apply Forall2_nil_inv_l in F1 as ->.
    apply Forall_app in N as [N _]. rewrite concat_app. cbn [concat]. rewrite app_nil_r, <-app_assoc.
    eapply (write_last fs css' f cs1 d c); try done.
    cbn. rewrite lookup_insert_eq. simpl default. rewrite insert_insert_eq, <-app_assoc. done.
Qed.
End disk.
