(* ===== verification/Snapshot.v ===== *)
(** * FluxTrade: snapshots of the book and recovery

    [SnapshotWriter] and [SnapshotReader] (src/persistence/include/persistence:
    snapshot_writer.hpp, snapshot_reader.hpp) and [ReplayEngine::recover]
    (replay_engine.hpp), which combines metadata, snapshot and journal.

    [write_levels] names a member [head_order] of [PriceLevelNode] that does not
    exist; the first order of the level's queue, [orders.front()], is what is
    meant and what is modelled.  Every struct is copied to the file as it lies in
    memory; the four bytes between the two members of an [OrderKey] belong to
    neither, and [gap p] is what they hold in the copy of the order at [p].

    As for the journal, a file is the list of its bytes and opening one for
    writing succeeds. *)
From S2P Require Import Prelude Domain Wire Checksum ObjectPool OrderList SideBook OrderBook Journal.
Local Open Scope Z_scope.

(** ** Formats *)
Definition SNAPSHOT_MAGIC : Z := 0x534E4150.
Definition SNAPSHOT_VERSION : Z := 1.

Record SnapshotHeader : Type := mkSnapshotHeader {
  sh_magic : Z; sh_version : Z; sh_flags : Z; sh_sequence : Z; sh_timestamp : Z;
  sh_bid_level_count : Z; sh_ask_level_count : Z; sh_checksum : Z; sh_padding : Z }.
Definition snapshot_header_layout : list layout :=
  [TInt 4; TInt 2; TInt 2; TInt 8; TInt 8; TInt 4; TInt 4; TInt 4; TInt 4].
Definition snapshot_header_fields (h : SnapshotHeader) : list field :=
  [FInt 4 (sh_magic h); FInt 2 (sh_version h); FInt 2 (sh_flags h); FInt 8 (sh_sequence h);
   FInt 8 (sh_timestamp h); FInt 4 (sh_bid_level_count h); FInt 4 (sh_ask_level_count h);
   FInt 4 (sh_checksum h); FInt 4 (sh_padding h)].
Definition snapshot_header_make (fs : list field) : outcome SnapshotHeader :=
  match fs with
  | [FInt _ m; FInt _ v; FInt _ f; FInt _ s; FInt _ t; FInt _ b; FInt _ a; FInt _ c; FInt _ p] =>
      Ret (mkSnapshotHeader m v f s t b a c p)
  | _ => Undefined
  end.

Record LevelSnapshot : Type := mkLevelSnapshot {
  ls_price : Z; ls_total_qty : Z; ls_order_count : Z; ls_padding : Z }.
Definition level_layout : list layout := [TInt 8; TInt 8; TInt 4; TInt 4].
Definition level_fields (l : LevelSnapshot) : list field :=
  [FInt 8 (u64 (ls_price l)); FInt 8 (ls_total_qty l); FInt 4 (ls_order_count l); FInt 4 (ls_padding l)].
Definition level_make (fs : list field) : outcome LevelSnapshot :=
  match fs with
  | [FInt _ p; FInt _ q; FInt _ n; FInt _ z] => Ret (mkLevelSnapshot (i64 p) q n z)
  | _ => Undefined
  end.

Record OrderSnapshot : Type := mkOrderSnapshot {
  os_key : OrderKey; os_remaining_qty : Z; os_priority_seq : Z }.
Definition order_layout : list layout := [TInt 4; TRaw 4; TInt 8; TInt 8; TInt 8].
Definition order_fields (gap : list Z) (o : OrderSnapshot) : list field :=
  [FInt 4 (key_symbol_id (os_key o)); FRaw gap; FInt 8 (key_order_id (os_key o));
   FInt 8 (os_remaining_qty o); FInt 8 (os_priority_seq o)].
Definition order_make (fs : list field) : outcome OrderSnapshot :=
  match fs with
  | [FInt _ s; FRaw _; FInt _ i; FInt _ q; FInt _ p] => Ret (mkOrderSnapshot (MkOrderKey s i) q p)
  | _ => Undefined
  end.

(** [crc = Checksum::crc32c(&x, sizeof(x), ~crc)] *)
Definition crc_next (crc : Z) (bytes : list Z) : Z := crc32c bytes (not32 crc).

(** ** The writer *)
Section writer.
Variable gap : Z -> list Z.

Fixpoint count_levels (fuel : nat) (ls : gmap Z PriceLevelNode) (curr : ptr) (count : Z) : outcome Z :=
  match curr with
  | None => Ret count
  | Some _ =>
      match fuel with
      | O => Diverge
      | S fuel => n ← rd ls curr; count_levels fuel ls (nd_next n) (u32 (count + 1))
      end
  end.
Fixpoint count_orders (fuel : nat) (os : gmap Z LiveOrder) (curr : ptr) (count : Z) : outcome Z :=
  match curr with
  | None => Ret count
  | Some _ =>
      match fuel with
      | O => Diverge
      | S fuel => o ← rd os curr; count_orders fuel os (lo_next o) (u32 (count + 1))
      end
  end.

(** The loops return the bytes they write and the running checksum. *)
Fixpoint write_orders (fuel : nat) (os : gmap Z LiveOrder) (order : ptr) (crc : Z) : outcome (list Z * Z) :=
  match order with
  | None => Ret ([], crc)
  | Some a =>
      match fuel with
      | O => Diverge
      | S fuel =>
          o ← rd os order;
          let osnap := mkOrderSnapshot (lo_key o) (lo_remaining_qty o) (lo_priority_seq o) in
          let bytes := fields_bytes (order_fields (gap a) osnap) in
          r ← write_orders fuel os (lo_next o) (crc_next crc bytes);
          Ret (bytes ++ r.1, r.2)
      end
  end.
Fixpoint write_levels (fuel ofuel : nat) (ls : gmap Z PriceLevelNode) (os : gmap Z LiveOrder)
    (curr : ptr) (crc : Z) : outcome (list Z * Z) :=
  match curr with
  | None => Ret ([], crc)
  | Some _ =>
      match fuel with
      | O => Diverge
      | S fuel =>
          n ← rd ls curr;
          count ← count_orders ofuel os (head_ (nd_orders n)) 0;
          let lsnap := mkLevelSnapshot (nd_price n) (nd_total_qty n) count 0 in
          let bytes := fields_bytes (level_fields lsnap) in
          ro ← write_orders ofuel os (head_ (nd_orders n)) (crc_next crc bytes);
          r ← write_levels fuel ofuel ls os (nd_next n) ro.2;
          Ret (bytes ++ ro.1 ++ r.1, r.2)
      end
  end.

(** [save]: what the file holds when it returns [true]. *)
Definition snapshot_save (book : LimitOrderBook) (sequence timestamp : Z) : outcome (list Z) :=
  let fuel := S (size (levels book)) in
  let ofuel := S (size (orders book)) in
  bid_level_count ← count_levels fuel (levels book) (best_bid_level book) 0;
  ask_level_count ← count_levels fuel (levels book) (best_ask_level book) 0;
  bids ← write_levels fuel ofuel (levels book) (orders book) (best_bid_level book) CRC_INIT;
  asks ← write_levels fuel ofuel (levels book) (orders book) (best_ask_level book) bids.2;
  let header := mkSnapshotHeader SNAPSHOT_MAGIC SNAPSHOT_VERSION 0 sequence timestamp
                  bid_level_count ask_level_count (not32 asks.2) 0 in
  Ret (fields_bytes (snapshot_header_fields header) ++ bids.1 ++ asks.1).
End writer.

(** ** The reader

    [bytes] is what is left of the file.  The loops return whether they reached
    their end, what is left, the book and the running checksum. *)
Definition snapshot_order (s : Side) (price : Z) (o : OrderSnapshot) : Order :=
  MkOrder (key_order_id (os_key o)) price (os_remaining_qty o) 0 0 0 0 0 (key_symbol_id (os_key o))
    s Limit GTC FlagNone.

Fixpoint read_orders (n : nat) (s : Side) (price : Z) (bytes : list Z) (book : LimitOrderBook) (crc : Z)
    : outcome (bool * list Z * LimitOrderBook * Z) :=
  match n with
  | O => Ret (true, bytes, book, crc)
  | S n =>
      if (length bytes <? 32)%nat then Ret (false, [], book, crc)
      else
        fs ← fields_at order_layout bytes;
        osnap ← order_make fs;
        let crc := crc_next crc (take 32 bytes) in
        r ← insert (snapshot_order s price osnap) (os_priority_seq osnap) book;
        read_orders n s price (drop 32 bytes) r.2 crc
  end.
Fixpoint read_levels (n : nat) (s : Side) (bytes : list Z) (book : LimitOrderBook) (crc : Z)
    : outcome (bool * list Z * LimitOrderBook * Z) :=
  match n with
  | O => Ret (true, bytes, book, crc)
  | S n =>
      if (length bytes <? 24)%nat then Ret (false, [], book, crc)
      else
        fs ← fields_at level_layout bytes;
        lsnap ← level_make fs;
        let crc := crc_next crc (take 24 bytes) in
        r ← read_orders (Z.to_nat (ls_order_count lsnap)) s (ls_price lsnap) (drop 24 bytes) book crc;
        let '(ok, bytes, book, crc) := r in
        if (ok : bool) then read_levels n s bytes book crc else Ret (false, bytes, book, crc)
  end.

(** [load]; the sequence number and the time are the two reference arguments. *)
Definition snapshot_load (file : option (list Z)) (book : LimitOrderBook) (out_sequence out_timestamp : Z)
    : outcome (bool * LimitOrderBook * Z * Z) :=
  match file with
  | None => Ret (false, book, out_sequence, out_timestamp)
  | Some bytes =>
      if (length bytes <? 40)%nat then Ret (false, book, out_sequence, out_timestamp)
      else
        fs ← fields_at snapshot_header_layout bytes;
        h ← snapshot_header_make fs;
        if negb (sh_magic h =? SNAPSHOT_MAGIC) || negb (sh_version h =? SNAPSHOT_VERSION)
        then Ret (false, book, out_sequence, out_timestamp)
        else
          let sq := sh_sequence h in
          let ts := sh_timestamp h in
          book ← clear book;
          r ← read_levels (Z.to_nat (sh_bid_level_count h)) Buy (drop 40 bytes) book CRC_INIT;
          let '(ok, bytes, book, crc) := r in
          if negb ok then Ret (false, book, sq, ts)
          else
            r ← read_levels (Z.to_nat (sh_ask_level_count h)) Sell bytes book crc;
            let '(ok, bytes, book, crc) := r in
            if negb ok then Ret (false, book, sq, ts)
            else if negb (sh_checksum h =? not32 crc) then Ret (false, book, sq, ts)
            else _ ← verify_invariants book; Ret (true, book, sq, ts)
  end.

(** ** Recovery

    [meta] is the metadata file, [snapshots] maps the sequence number in a
    snapshot's name to the file, [journals] the index of a journal file to it. *)
Definition recover (fuel : nat) (meta : option (list Z)) (snapshots journals : gmap Z (list Z))
    (book : LimitOrderBook) : outcome (bool * LimitOrderBook) :=
  info ← metadata_load meta;
  r ← match info with
      | Some i =>
          match snapshots !! md_latest_snapshot_sequence i with
          | Some file =>
              '(ok, book, last_seq, _) ← snapshot_load (Some file) book 0 0;
              Ret ((ok : bool), book, last_seq, md_current_journal_index i)
          | None => Ret (true, book, 0, 1)
          end
      | None => Ret (true, book, 0, 1)
      end;
  let '(ok, book, last_seq, start_journal) := r in
  if negb ok then Ret (false, book)
  else
    r ← replay_files fuel start_journal journals book last_seq;
    Ret (r.1.1, r.1.2).
