(* ===== verification/SnapshotRefine.v ===== *)
(** * FluxTrade: lemmas about snapshots

    The writer's walk over a represented book yields the chunks of its levels
    and orders; reading those chunks back rebuilds the book order by order. *)
From S2P Require Import Prelude Domain Wire Checksum ObjectPool DList BookSpec OrderList SideBook OrderBook BookRefine BookOps BookClear Journal JournalRefine Snapshot.
Local Open Scope Z_scope.

(** ** A book's occupancy is bounded by its pools *)
Lemma book_bounds b B :
  abs b B -> Z.of_nat (length (book_orders B)) <= ORDERS /\
    Z.of_nat (length (bk_bids B) + length (bk_asks B)) <= LEVELS.
Proof.
  intros (Ab & Aa & R). pose proof (rep_orders_length _ _ _ _ _ R) as EL. destruct R as [[S O P C _] _ PO CO _].
  pose proof (pool_occupancy ORDERS (order_pool_ b) _ ltac:(done) PO (proj1 CO) (proj2 CO)).
  pose proof (pool_occupancy LEVELS (level_pool_ b) _ ltac:(done) P (proj1 C) (proj2 C)) as E.
  rewrite length_app in E. unfold level_ptrs in E. rewrite !length_map in E.
  pose proof (side_rep_length _ _ _ _ _ S). pose proof (side_rep_length _ _ _ _ _ O). simpl in *. lia.
Qed.

(** ** Chunks *)
Definition crc_all : Z -> list (list Z) -> Z := foldl crc_next.

Section chunks.
Variable gap : Z -> list Z.
Definition order_snap (r : Resting) : OrderSnapshot := mkOrderSnapshot (r_key r) (r_qty r) (r_seq r).
Definition level_snap (L : Level) : LevelSnapshot :=
  mkLevelSnapshot (lv_price L) (u64 (level_qty L)) (Z.of_nat (length (lv_orders L))) 0.
Definition order_chunk (p : Z) (r : Resting) : list Z := fields_bytes (order_fields (gap p) (order_snap r)).
Definition level_chunks (ps : list Z) (L : Level) : list (list Z) :=
  fields_bytes (level_fields (level_snap L)) :: zip_with order_chunk ps (lv_orders L).
Definition side_chunks (A : shape) (Ls : list Level) : list (list Z) :=
  concat (zip_with (fun x L => level_chunks x.2 L) A Ls).

Lemma write_orders_spec os ps rs : forall fuel pv crc,
  dlseg os pv ps None -> orders_rep os ps rs -> (length ps <= fuel)%nat ->
  write_orders gap fuel os (head ps) crc =
    Ret (concat (zip_with order_chunk ps rs), crc_all crc (zip_with order_chunk ps rs)).
Proof.
  intros fuel pv crc D R. revert fuel pv crc D.
  induction R as [|p r ps rs Hr _ IH]; intros fuel pv crc D Fu; [by destruct fuel|].
  destruct fuel as [|fuel]; simpl in Fu; [lia|]. destruct D as [(o & E & _ & N) D].
  rewrite E in Hr. injection Hr as <-.
  cbn [head write_orders]. rewrite (rd_Some _ _ _ E), bind_Ret. simpl in N. rewrite N, hd_or_None.
  rewrite (IH fuel (Some p)) by (done || lia). by rewrite bind_Ret.
Qed.

Lemma count_orders_spec os ps : forall fuel pv n,
  dlseg os pv ps None -> (length ps <= fuel)%nat -> 0 <= n -> n + Z.of_nat (length ps) < 2 ^ 32 ->
  count_orders fuel os (head ps) n = Ret (n + Z.of_nat (length ps)).
Proof.
  induction ps as [|p ps IH]; intros fuel pv n D Fu Hn HB; simpl in *.
  - destruct fuel; simpl; f_equal; lia.
  - destruct fuel as [|fuel]; [lia|]. destruct D as [(o & E & _ & N) D]. simpl.
    rewrite (rd_Some _ _ _ E), bind_Ret. simpl in N. rewrite N, hd_or_None, u32_small by lia.
    rewrite (IH fuel (Some p)) by (done || lia). f_equal. lia.
Qed.

Lemma count_levels_spec ls ps : forall fuel pv n,
  dlseg ls pv ps None -> (length ps <= fuel)%nat -> 0 <= n -> n + Z.of_nat (length ps) < 2 ^ 32 ->
  count_levels fuel ls (head ps) n = Ret (n + Z.of_nat (length ps)).
Proof.
  induction ps as [|p ps IH]; intros fuel pv n D Fu Hn HB; simpl in *.
  - destruct fuel; simpl; f_equal; lia.
  - destruct fuel as [|fuel]; [lia|]. destruct D as [(o & E & _ & N) D]. simpl.
    rewrite (rd_Some _ _ _ E), bind_Ret. simpl in N. rewrite N, hd_or_None, u32_small by lia.
    rewrite (IH fuel (Some p)) by (done || lia). f_equal. lia.
Qed.

Lemma write_levels_spec ls os A Ls : forall fuel ofuel pv crc,
  dlseg ls pv (level_ptrs A) None -> Forall2 (level_rep ls os) A Ls -> (length A <= fuel)%nat ->
  (length (order_ptrs A) <= ofuel)%nat -> Z.of_nat (length (order_ptrs A)) < 2 ^ 32 ->
  write_levels gap fuel ofuel ls os (head (level_ptrs A)) crc =
    Ret (concat (side_chunks A Ls), crc_all crc (side_chunks A Ls)).
Proof.
  intros fuel ofuel pv crc D F. revert fuel pv crc D.
  induction F as [|[a ps] L A Ls (l & V & (Hh & _ & _ & Dl) & R) F IH]; intros fuel pv crc D Fu Ou HB;
    [by destruct fuel|].
  destruct fuel as [|fuel]; simpl in Fu; [lia|]. autorewrite with shape in *. simpl in D, Ou, HB, V, R, Hh, Dl.
  rewrite length_app in Ou, HB. destruct D as [(n & E & _ & N) D]. rewrite E in V. injection V as Ep Eq Ec El.
  pose proof (Forall2_length _ _ _ R) as EL.
  cbn [fst head write_levels]. rewrite (rd_Some _ _ _ E), bind_Ret, El, Hh.
  rewrite (count_orders_spec os ps _ None) by (done || lia). rewrite bind_Ret, Ep, Eq.
  rewrite (write_orders_spec os ps (lv_orders L) _ None) by (done || lia). rewrite bind_Ret.
  cbn [fst snd]. simpl in N. rewrite N, hd_or_None. rewrite (IH fuel (Some a)) by (done || lia). rewrite bind_Ret.
  unfold side_chunks. cbn [zip_with concat level_chunks snd].
  unfold level_snap. rewrite EL. rewrite Z.add_0_l. cbn [app concat]. rewrite concat_app. cbn [fst snd].
  do 2 f_equal. unfold crc_all. cbn [foldl]. by rewrite foldl_app.
Qed.
End chunks.

(** ** Rebuilding a book in the order of the snapshot

    [so_far s B L1 L q]: the book rebuilt when side [s] is read up to the orders
    [q] of the level [L] that follows [L1]. *)
Definition side_base (s : bool) (B : Book) : Book := if s then empty_book else MkBook (bk_bids B) [].
Definition so_far (s : bool) (B : Book) (L1 : list Level) (q : list Resting) (L : Level) : Book :=
  set_spec s (L1 ++ keep_level q L) (side_base s B).

Lemma place_next before `{!LevelOrder before} L1 L L2 q r :
  sorted_by before (L1 ++ L :: L2) -> r_price r = lv_price L ->
  place before r (L1 ++ keep_level q L) = L1 ++ keep_level (q ++ [r]) L.
Proof.
  intros S E. induction L1 as [|K L1 IH]; cbn [app].
  - destruct q as [|x q]; simpl; [by unfold with_orders; rewrite E|].
    by rewrite E, Z.eqb_refl.
  - apply (sorted_by_app _ [K]) in S as (_ & S & C).
    assert (before (lv_price K) (r_price r) = true) as B by (rewrite E; apply C; set_solver).
    cbn [place]. destruct (Z.eqb_spec (lv_price K) (r_price r)) as [e|_].
    { rewrite e, before_irrefl in B. done. }
    by rewrite (before_asym _ _ _ B), IH.
Qed.

Lemma snapshot_order_side s p o : order_side (snapshot_order (side_name s) p o) = s.
Proof. by destruct s. Qed.
Lemma snapshot_order_resting s r L :
  r_price r = lv_price L -> resting_of (snapshot_order (side_name s) (lv_price L) (order_snap r)) (r_seq r) = r.
Proof. destruct r as [[sy i] p q sq]. simpl. by intros ->. Qed.

Section rebuild.
Context (s : bool) (B : Book) (L1 : list Level) (L : Level) (L2 : list Level).
Context (W : book_wf B) (E : spec_at s B = L1 ++ L :: L2).

Lemma so_far_orders q1 r q2 :
  lv_orders L = q1 ++ r :: q2 -> exists rest, book_orders B = book_orders (so_far s B L1 q1 L) ++ r :: rest.
Proof.
  intros Eq. unfold so_far. rewrite !book_orders_eq. destruct s; simpl in *; rewrite E;
    rewrite !side_orders_app, side_orders_cons, side_orders_keep, Eq; simpl.
  - eexists. by rewrite app_nil_r, <-!app_assoc.
  - eexists. by rewrite <-!app_assoc.
Qed.

Lemma so_far_next q1 r q2 :
  lv_orders L = q1 ++ r :: q2 ->
  spec_insert (snapshot_order (side_name s) (lv_price L) (order_snap r)) (r_seq r) (so_far s B L1 q1 L) =
    so_far s B L1 (q1 ++ [r]) L /\
  insert_ok (snapshot_order (side_name s) (lv_price L) (order_snap r)) (so_far s B L1 q1 L).
Proof.
  intros Eq. pose proof (spec_at_levels s B W) as OK. rewrite E in OK.
  apply Forall_app in OK as [_ [[_ OK] _]%Forall_cons]. rewrite Eq in OK.
  apply Forall_app in OK as [_ [[Pr Q] _]%Forall_cons]. split.
  - rewrite spec_insert_at, snapshot_order_side, snapshot_order_resting by done. unfold so_far at 1 2.
    rewrite spec_at_set, (place_next _ L1 L L2) by (done || (rewrite <-E; by apply spec_at_sorted)).
    unfold so_far. by destruct s.
  - split; [done| |].
    + destruct (so_far_orders _ _ _ Eq) as [rest EB]. pose proof (wf_ids B W) as ND. rewrite EB, map_app in ND.
      apply NoDup_app in ND as (_ & F & _). intros H. apply (F _ H). simpl. left.
    + rewrite snapshot_order_side. unfold so_far. rewrite spec_at_set_other. pose proof (wf_sides B W (lv_price L)) as WS.
      destruct s; simpl in *; [set_solver|]. intros H. apply (WS H). rewrite E, map_app. set_solver.
Qed.

Lemma so_far_room q1 r q2 :
  lv_orders L = q1 ++ r :: q2 ->
  Z.of_nat (length (book_orders B)) <= ORDERS -> Z.of_nat (length (bk_bids B) + length (bk_asks B)) <= LEVELS ->
  insert_room (snapshot_order (side_name s) (lv_price L) (order_snap r)) (so_far s B L1 q1 L).
Proof.
  intros Eq BO BL. split.
  - destruct (so_far_orders _ _ _ Eq) as [rest EB]. rewrite EB, length_app in BO. simpl in BO. lia.
  - rewrite snapshot_order_side. unfold so_far. rewrite spec_at_set. destruct q1 as [|x q1].
    + right. destruct s; simpl in *; rewrite E, !length_app in BL; simpl in *; rewrite !length_app; simpl; lia.
    + left. rewrite map_app. simpl. set_solver.
Qed.
End rebuild.

(** ** Reading back what was written *)
Definition order_fits (r : Resting) : Prop :=
  0 <= key_symbol_id (r_key r) < 2 ^ 32 /\ 0 <= r_id r < 2 ^ 64 /\ 0 <= r_seq r < 2 ^ 64 /\
  - 2 ^ 63 <= r_price r < 2 ^ 63.
Definition gap_ok (gap : Z -> list Z) : Prop := forall p, length (gap p) = 4%nat /\ Forall is_byte (gap p).

Lemma fields_bytes_bytes ts fs :
  Forall2 field_ok ts fs -> (forall l, FRaw l ∈ fs -> Forall is_byte l) -> Forall is_byte (fields_bytes fs).
Proof.
  unfold fields_bytes. induction 1 as [|t f ts fs Hf _ IH]; intros R; [constructor|]. cbn.
  apply Forall_app. split; [|apply IH; intros; apply R; set_solver].
  destruct f; cbn; [apply le_bytes_bytes|]. apply R. set_solver.
Qed.

Section read.
Context (gap : Z -> list Z) (G : gap_ok gap).

Lemma order_fields_ok p r :
  order_fits r -> 0 <= r_qty r < 2 ^ 64 -> Forall2 field_ok order_layout (order_fields (gap p) (order_snap r)).
Proof.
  intros (H1 & H2 & H3 & _) Q. destruct (G p) as [Gl _]. unfold r_id in H2.
  unfold order_layout, order_fields. cbn. repeat constructor; (done || lia).
Qed.
Lemma order_chunk_bytes p r :
  order_fits r -> 0 <= r_qty r < 2 ^ 64 -> Forall is_byte (order_chunk gap p r).
Proof.
  intros F Q. eapply fields_bytes_bytes; [by apply order_fields_ok|]. intros l Hl.
  assert (l = gap p) as ->; [|apply G]. unfold order_fields in Hl. set_solver.
Qed.
Lemma order_chunks_bytes rs :
  Forall (fun r => order_fits r /\ 0 <= r_qty r < 2 ^ 64) rs ->
  forall ps, Forall (Forall is_byte) (zip_with (order_chunk gap) ps rs).
Proof.
  induction 1 as [|r rs [Fr Q] _ IH]; intros [|p ps]; try by constructor.
  constructor; [by apply order_chunk_bytes|apply IH].
Qed.
Lemma level_fields_ok L :
  Z.of_nat (length (lv_orders L)) < 2 ^ 32 -> Forall2 field_ok level_layout (level_fields (level_snap L)).
Proof.
  intros H. pose proof (u64_bound (lv_price L)). pose proof (u64_bound (level_qty L)).
  unfold level_layout, level_fields. cbn. repeat constructor; (done || lia).
Qed.

(** One order of the file. *)
Lemma read_order_chunk n s pr p r rest b crc :
  order_fits r -> 0 <= r_qty r < 2 ^ 64 ->
  read_orders (S n) s pr (order_chunk gap p r ++ rest) b crc =
    (x ← insert (snapshot_order s pr (order_snap r)) (r_seq r) b;
     read_orders n s pr rest x.2 (crc_next crc (order_chunk gap p r))).
Proof.
  intros F Q. pose proof (order_fields_ok p r F Q) as OK. pose proof (fields_bytes_length _ _ OK) as L.
  change (layout_bytes order_layout) with 32%nat in L. fold (order_chunk gap p r) in L.
  cbn [read_orders]. destruct (Nat.ltb_spec (length (order_chunk gap p r ++ rest)) 32) as [H|_];
    [rewrite length_app in H; lia|].
  unfold order_chunk at 1. rewrite (fields_at_bytes _ _ _ OK), bind_Ret. 
  rewrite take_app_length', drop_app_length' by done.
  change (order_make (order_fields (gap p) (order_snap r))) with
    (Ret (mkOrderSnapshot (MkOrderKey (key_symbol_id (r_key r)) (key_order_id (r_key r))) (r_qty r) (r_seq r))).
  rewrite bind_Ret. assert (MkOrderKey (key_symbol_id (r_key r)) (key_order_id (r_key r)) = r_key r) as -> by (by destruct (r_key r)).
  reflexivity.
Qed.

(** The fields of a level. *)
Lemma read_level_chunk n s L rest b crc :
  Z.of_nat (length (lv_orders L)) < 2 ^ 32 -> - 2 ^ 63 <= lv_price L < 2 ^ 63 ->
  read_levels (S n) s (fields_bytes (level_fields (level_snap L)) ++ rest) b crc =
    (r ← read_orders (length (lv_orders L)) s (lv_price L) rest b (crc_next crc (fields_bytes (level_fields (level_snap L))));
     let '(ok, bytes, book, crc) := r in
     if (ok : bool) then read_levels n s bytes book crc else Ret (false, bytes, book, crc)).
Proof.
  intros Hc Hp. pose proof (level_fields_ok L Hc) as OK. pose proof (fields_bytes_length _ _ OK) as Ln.
  change (layout_bytes level_layout) with 24%nat in Ln.
  cbn [read_levels]. destruct (Nat.ltb_spec (length (fields_bytes (level_fields (level_snap L)) ++ rest)) 24) as [H|_];
    [rewrite length_app in H; lia|].
  rewrite (fields_at_bytes _ _ _ OK), bind_Ret.
  change (level_make (level_fields (level_snap L))) with
    (Ret (mkLevelSnapshot (i64 (u64 (lv_price L))) (u64 (level_qty L)) (Z.of_nat (length (lv_orders L))) 0)).
  rewrite bind_Ret, i64_u64 by done. cbn [ls_order_count ls_price].
  by rewrite Nat2Z.id, take_app_length', drop_app_length' by done.
Qed.

Context (B : Book) (W : book_wf B) (F : Forall order_fits (book_orders B)).
Context (BO : Z.of_nat (length (book_orders B)) <= ORDERS)
        (BL : Z.of_nat (length (bk_bids B) + length (bk_asks B)) <= LEVELS).

Lemma side_fits s L r : L ∈ spec_at s B -> r ∈ lv_orders L -> order_fits r /\ 0 <= r_qty r < 2 ^ 64.
Proof.
  intros HL Hr. split.
  - rewrite Forall_forall in F. apply F. rewrite (spec_at_orders s). apply elem_of_app. left.
    apply elem_of_concat. exists (lv_orders L). split; [by apply list_elem_of_fmap_2|done].
  - pose proof (spec_at_levels s B W) as OK. rewrite Forall_forall in OK. destruct (OK L HL) as [_ O].
    rewrite Forall_forall in O. by apply O.
Qed.

Lemma level_fits s L :
  L ∈ spec_at s B ->
  lv_orders L <> [] /\ Z.of_nat (length (lv_orders L)) < 2 ^ 32 /\ - 2 ^ 63 <= lv_price L < 2 ^ 63.
Proof using W F BO.
  clear G gap BL.
  intros HL. pose proof (spec_at_levels s B W) as OK. rewrite Forall_forall in OK. destruct (OK L HL) as [NE O].
  split; [done|]. split.
  - pose proof (spec_at_orders s B) as P%Permutation_length. apply list_elem_of_split in HL as (L1 & L2 & E).
    rewrite E, length_app, side_orders_app, side_orders_cons, !length_app in P. unfold ORDERS in BO. lia.
  - destruct (lv_orders L) as [|r q] eqn:Eq; [done|]. apply Forall_cons in O as [[<- _] _].
    apply (side_fits s L r); [done|rewrite Eq; set_solver].
Qed.

Lemma read_orders_spec s L1 L L2 (E : spec_at s B = L1 ++ L :: L2) q2 : forall q1 ps rest b crc,
  lv_orders L = q1 ++ q2 -> length ps = length q2 -> abs b (so_far s B L1 q1 L) ->
  exists b', read_orders (length q2) (side_name s) (lv_price L) (concat (zip_with (order_chunk gap) ps q2) ++ rest) b crc =
      Ret (true, rest, b', crc_all crc (zip_with (order_chunk gap) ps q2)) /\
    abs b' (so_far s B L1 (lv_orders L) L).
Proof.
  induction q2 as [|r q2 IH]; intros q1 ps rest b crc Eq El R; (destruct ps as [|p ps]; [|]); try done.
  - exists b. rewrite app_nil_r in Eq. by rewrite Eq.
  - cbn [length] in El. injection El as El. cbn [length zip_with concat]. rewrite <-app_assoc.
    destruct (side_fits s L r) as [Fr Qr]; [rewrite E; set_solver|rewrite Eq; set_solver|].
    rewrite read_order_chunk by done.
    destruct (so_far_next s B L1 L L2 W E q1 r q2 Eq) as [Sp OK].
    destruct (insert_abs _ (r_seq r) b _ R OK (so_far_room s B L1 L L2 W E q1 r q2 Eq BO BL)) as (a & b1 & -> & R1 & _).
    rewrite bind_Ret. cbn [snd]. rewrite Sp in R1.
    destruct (IH (q1 ++ [r]) ps rest b1 (crc_next crc (order_chunk gap p r))) as (b' & -> & R'); [by rewrite <-app_assoc|done..|].
    by exists b'.
Qed.

Lemma read_levels_spec s L2 : forall L1 A rest b crc,
  spec_at s B = L1 ++ L2 -> Forall2 (fun x L => length x.2 = length (lv_orders L)) A L2 ->
  abs b (set_spec s L1 (side_base s B)) ->
  exists b', read_levels (length L2) (side_name s) (concat (side_chunks gap A L2) ++ rest) b crc =
      Ret (true, rest, b', crc_all crc (side_chunks gap A L2)) /\
    abs b' (set_spec s (L1 ++ L2) (side_base s B)).
Proof.
  induction L2 as [|L L2 IH]; intros L1 A rest b crc E HA R.
  - apply Forall2_nil_inv_r in HA as ->. exists b. by rewrite app_nil_r.
  - apply Forall2_cons_inv_r in HA as ([a ps] & A' & HL & HA & ->). simpl in HL.
    destruct (level_fits s L) as (NE & Hc & Hp); [rewrite E; set_solver|].
    unfold side_chunks. cbn [zip_with concat level_chunks snd app length]. rewrite concat_app, <-!app_assoc.
    rewrite read_level_chunk by done.
    destruct (read_orders_spec s L1 L L2 E (lv_orders L) [] ps
      (concat (concat (zip_with (fun x L => level_chunks gap x.2 L) A' L2)) ++ rest) b
      (crc_next crc (fields_bytes (level_fields (level_snap L))))) as (b1 & E1 & R1).
    { done. } { done. } { unfold so_far. simpl. by rewrite app_nil_r. }
    rewrite E1, bind_Ret.
    destruct (IH (L1 ++ [L]) A' rest b1 (crc_all (crc_next crc (fields_bytes (level_fields (level_snap L))))
      (zip_with (order_chunk gap) ps (lv_orders L)))) as (b' & E' & R').
    { by rewrite <-app_assoc. } { done. }
    { unfold so_far in R1. destruct (lv_orders L) eqn:Eq; [done|]. simpl in R1. by rewrite <-Eq, with_orders_id in R1. }
    exists b'. rewrite <-app_assoc in R'. split; [|exact R']. unfold side_chunks in E'. rewrite E'.
    do 2 f_equal. unfold crc_all. cbn [foldl]. by rewrite foldl_app.
Qed.
End read.

(** ** The whole file *)
Lemma crc_all_u32 cs : forall crc, is_u32 crc -> Forall (Forall is_byte) cs -> is_u32 (crc_all crc cs).
Proof.
  induction cs as [|c cs IH]; intros crc Hc F; [done|]. apply Forall_cons in F as [Fc F].
  apply (IH (crc_next crc c)); [|done]. unfold crc_next. apply crc32c_u32; [by apply not32_u32|done].
Qed.

Section file.
Context (gap : Z -> list Z) (G : gap_ok gap) (B : Book) (W : book_wf B) (F : Forall order_fits (book_orders B)).
Context (BO : Z.of_nat (length (book_orders B)) <= ORDERS).

Lemma side_chunks_bytes s A Ls :
  (forall L, L ∈ Ls -> L ∈ spec_at s B) -> Forall (Forall is_byte) (side_chunks gap A Ls).
Proof.
  intros I. apply Forall_concat. revert A I. induction Ls as [|L Ls IH]; intros [|[a ps] A] I; try by constructor.
  constructor; [|apply IH; intros; apply I; set_solver].
  destruct (level_fits B W F BO s L) as (_ & Hc & _); [apply I; set_solver|].
  constructor.
  - eapply fields_bytes_bytes; [by apply level_fields_ok|]. intros l Hl. unfold level_fields in Hl. set_solver.
  - apply (order_chunks_bytes gap G). apply Forall_forall. intros r. apply (side_fits B W F s). apply I. set_solver.
Qed.
End file.

Definition snapshot_header (sequence timestamp nb na crc : Z) : SnapshotHeader :=
  mkSnapshotHeader SNAPSHOT_MAGIC SNAPSHOT_VERSION 0 sequence timestamp nb na (not32 crc) 0.

(** What [save] writes for a represented book. *)
Lemma snapshot_save_spec gap b B sq ts :
  abs b B ->
  exists Ab Aa,
    Forall2 (fun x L => length x.2 = length (lv_orders L)) Ab (bk_bids B) /\
    Forall2 (fun x L => length x.2 = length (lv_orders L)) Aa (bk_asks B) /\
    snapshot_save gap b sq ts = Ret (
      fields_bytes (snapshot_header_fields (snapshot_header sq ts (Z.of_nat (length (bk_bids B)))
        (Z.of_nat (length (bk_asks B)))
        (crc_all (crc_all CRC_INIT (side_chunks gap Ab (bk_bids B))) (side_chunks gap Aa (bk_asks B))))) ++
      concat (side_chunks gap Ab (bk_bids B)) ++ concat (side_chunks gap Aa (bk_asks B))).
Proof.
  intros R. destruct (book_bounds _ _ R) as [HO HL]. destruct R as (Ab & Aa & R).
  pose proof (rep_orders_length _ _ _ _ _ R) as EL. pose proof R as [[S O _ C _] _ _ CO _]. simpl in S, O.
  pose proof (covers_size _ _ C) as ZL. pose proof (covers_size _ _ CO) as ZO. rewrite length_app in ZL, ZO, EL.
  pose proof (side_rep_length _ _ _ _ _ S) as Eb. pose proof (side_rep_length _ _ _ _ _ O) as Ea.
  destruct S as [Bb Db Fb _], O as [Ba Da Fa _]. unfold ORDERS, LEVELS in *.
  assert (forall A Ls, Forall2 (level_rep (levels b) (orders b)) A Ls ->
    Forall2 (fun x L => length x.2 = length (lv_orders L)) A Ls) as Len.
  { intros A Ls H. eapply Forall2_impl; [exact H|]. intros x L (l & _ & _ & HR). by eapply Forall2_length. }
  exists Ab, Aa. split; [by apply Len|]. split; [by apply Len|].
  unfold level_ptrs in ZL. rewrite !length_map in ZL.
  unfold snapshot_save, best_bid_level, best_ask_level. rewrite Bb, Ba. simpl in Eb, Ea.
  rewrite (count_levels_spec _ (level_ptrs Ab) _ None), bind_Ret by (done || (unfold level_ptrs; rewrite length_map; lia)).
  rewrite (count_levels_spec _ (level_ptrs Aa) _ None), bind_Ret by (done || (unfold level_ptrs; rewrite length_map; lia)).
  rewrite (write_levels_spec gap _ _ Ab (bk_bids B) _ _ None), bind_Ret by (done || lia). cbn [fst snd].
  rewrite (write_levels_spec gap _ _ Aa (bk_asks B) _ _ None), bind_Ret by (done || lia). cbn [fst snd].
  unfold level_ptrs. rewrite !length_map, Eb, Ea. done.
Qed.

(** Past a good header, [load] clears the book and reads the two sides. *)
Lemma snapshot_load_header h body b0 b1 s0 t0 :
  Forall2 field_ok snapshot_header_layout (snapshot_header_fields h) ->
  sh_magic h = SNAPSHOT_MAGIC -> sh_version h = SNAPSHOT_VERSION -> clear b0 = Ret b1 ->
  snapshot_load (Some (fields_bytes (snapshot_header_fields h) ++ body)) b0 s0 t0 =
    (r ← read_levels (Z.to_nat (sh_bid_level_count h)) Buy body b1 CRC_INIT;
     let '(ok, bytes, book, crc) := r in
     if negb ok then Ret (false, book, sh_sequence h, sh_timestamp h)
     else
       r ← read_levels (Z.to_nat (sh_ask_level_count h)) Sell bytes book crc;
       let '(ok, bytes, book, crc) := r in
       if negb ok then Ret (false, book, sh_sequence h, sh_timestamp h)
       else if negb (sh_checksum h =? not32 crc) then Ret (false, book, sh_sequence h, sh_timestamp h)
       else _ ← verify_invariants book; Ret (true, book, sh_sequence h, sh_timestamp h)).
Proof.
  intros OK Em Ev Ec. pose proof (fields_bytes_length _ _ OK) as Ln. change (layout_bytes snapshot_header_layout) with 40%nat in Ln.
  cbn [snapshot_load]. destruct (Nat.ltb_spec (length (fields_bytes (snapshot_header_fields h) ++ body)) 40)
    as [H|_]; [rewrite length_app in H; lia|].
  rewrite (fields_at_bytes _ _ _ OK), bind_Ret.
  assert (snapshot_header_make (snapshot_header_fields h) = Ret h) as -> by (by destruct h).
  by rewrite bind_Ret, Em, Ev, !Z.eqb_refl, Ec, bind_Ret, drop_app_length' by done.
Qed.

Lemma snapshot_header_ok gap sq ts B Ab Aa :
  gap_ok gap -> book_wf B -> Forall order_fits (book_orders B) -> Z.of_nat (length (book_orders B)) <= ORDERS ->
  Z.of_nat (length (bk_bids B) + length (bk_asks B)) <= LEVELS -> 0 <= sq < 2 ^ 64 -> 0 <= ts < 2 ^ 64 ->
  Forall2 field_ok snapshot_header_layout (snapshot_header_fields
    (snapshot_header sq ts (Z.of_nat (length (bk_bids B))) (Z.of_nat (length (bk_asks B)))
      (crc_all (crc_all CRC_INIT (side_chunks gap Ab (bk_bids B))) (side_chunks gap Aa (bk_asks B))))).
Proof.
  intros G W F BO BL Hs Ht. set (crc := crc_all _ _). assert (is_u32 crc) as U.
  { apply crc_all_u32; [apply crc_all_u32; [apply init_u32|]|].
    - by apply (side_chunks_bytes gap G B W F BO true).
    - by apply (side_chunks_bytes gap G B W F BO false). }
  apply not32_u32 in U. unfold is_u32 in U. unfold LEVELS in BL.
  unfold snapshot_header_layout, snapshot_header_fields. cbn.
  unfold SNAPSHOT_MAGIC, SNAPSHOT_VERSION. repeat constructor; lia.
Qed.

(** Loading it gives the book back. *)
Lemma snapshot_load_spec gap b B sq ts b0 B0 s0 t0 :
  gap_ok gap -> abs b B -> Forall order_fits (book_orders B) -> 0 <= sq < 2 ^ 64 -> 0 <= ts < 2 ^ 64 -> abs b0 B0 ->
  exists file b', snapshot_save gap b sq ts = Ret file /\
    snapshot_load (Some file) b0 s0 t0 = Ret (true, b', sq, ts) /\ abs b' B.
Proof.
  intros G R F Hs Ht R0. destruct (book_bounds _ _ R) as [BO BL].
  destruct (snapshot_save_spec gap b B sq ts R) as (Ab & Aa & Lb & La & ->).
  assert (book_wf B) as W by (destruct R as (? & ? & [_ W _ _ _]); exact W).
  eexists. destruct (clear_abs b0 B0 R0) as (b1 & Ec & R1 & _).
  destruct (read_levels_spec gap G B W F BO BL true (bk_bids B) [] Ab (concat (side_chunks gap Aa (bk_asks B))) b1 CRC_INIT)
    as (b2 & E2 & R2); [done..|].
  destruct (read_levels_spec gap G B W F BO BL false (bk_asks B) [] Aa [] b2 (crc_all CRC_INIT (side_chunks gap Ab (bk_bids B))))
    as (b3 & E3 & R3); [done..|].
  simpl in R3. exists b3. split; [done|]. split; [|by destruct B].
  rewrite (snapshot_load_header _ _ b0 b1) by (done || by apply snapshot_header_ok).
  cbn [sh_bid_level_count sh_ask_level_count snapshot_header sh_checksum sh_sequence sh_timestamp]. rewrite !Nat2Z.id.
  simpl in E2, E3. rewrite app_nil_r in E3. rewrite E2, bind_Ret. cbn [negb]. rewrite E3, bind_Ret.
  rewrite Z.eqb_refl. cbn [negb]. by rewrite (verify_spec _ _ R3), bind_Ret.
Qed.
