(* ===== verification/SnapshotDamage.v ===== *)
(** * FluxTrade: snapshots cut short

    A snapshot file whose end is missing runs the reader out of bytes before the
    checksum is compared.  What the reader leaves behind is followed order by
    order: a represented book that holds the first orders of the snapshot. *)
From S2P Require Import Prelude Domain Wire Checksum DList BookSpec SideBook OrderBook BookRefine BookOps BookClear Journal Snapshot SnapshotRefine.
Local Open Scope Z_scope.

(** Bytes that continue to [x ++ y] start with [x] or stop inside it. *)
Lemma cut_at {A} (bytes tail x y : list A) :
  bytes ++ tail = x ++ y ->
  (exists rest, bytes = x ++ rest /\ rest ++ tail = y) \/ exists c cut, x = bytes ++ c :: cut.
Proof.
  intros [(k & -> & ->)|(k & -> & ->)]%app_eq_inv; [left; by exists k|].
  destruct k as [|c k]; [left; exists []; by rewrite !app_nil_r|right; eauto].
Qed.
Lemma cut_short {A} (bytes x cut : list A) (c : A) : x = bytes ++ c :: cut -> (length bytes < length x)%nat.
Proof. intros ->. rewrite length_app. simpl. lia. Qed.

Section cut.
Context (gap : Z -> list Z) (G : gap_ok gap).
Context (B : Book) (W : book_wf B) (F : Forall order_fits (book_orders B)).
Context (BO : Z.of_nat (length (book_orders B)) <= ORDERS)
        (BL : Z.of_nat (length (bk_bids B) + length (bk_asks B)) <= LEVELS).

(** The book left by a reader that stopped inside side [s]. *)
Definition partial (s : bool) (B' : Book) : Prop :=
  exists L1 q L L2, spec_at s B = L1 ++ L :: L2 /\ q `prefix_of` lv_orders L /\ B' = so_far s B L1 q L.

Lemma partial_prefix s B' : partial s B' -> book_orders B' `prefix_of` book_orders B.
Proof using W.
  intros (L1 & q & L & L2 & E & [q2 Eq] & ->). destruct q2 as [|r q2].
  - rewrite app_nil_r in Eq. subst q. unfold so_far. rewrite !book_orders_eq.
    destruct s; simpl in *; rewrite E, !side_orders_app, side_orders_cons, side_orders_keep; simpl.
    + rewrite app_nil_r. eexists. by rewrite <-!app_assoc.
    + eexists. by rewrite <-!app_assoc.
  - destruct (so_far_orders s B L1 L L2 E q r q2 Eq) as [rest ->]. by eexists.
Qed.

Lemma read_orders_cut s L1 L L2 (E : spec_at s B = L1 ++ L :: L2) q2 : forall q1 ps bytes tail b crc,
  lv_orders L = q1 ++ q2 -> length ps = length q2 -> abs b (so_far s B L1 q1 L) ->
  bytes ++ tail = concat (zip_with (order_chunk gap) ps q2) -> tail <> [] ->
  exists rest b' crc' B', read_orders (length q2) (side_name s) (lv_price L) bytes b crc = Ret (false, rest, b', crc') /\
    abs b' B' /\ partial s B'.
Proof using G W F BO BL.
  induction q2 as [|r q2 IH]; intros q1 ps bytes tail b crc Eq El R Eb NE; (destruct ps as [|p ps]); try done.
  - by apply app_nil in Eb as [_ ->].
  - cbn [length] in El. injection El as El. cbn [length zip_with concat] in *.
    destruct (side_fits B W F s L r) as [Fr Qr]; [rewrite E; set_solver|rewrite Eq; set_solver|].
    apply cut_at in Eb as [(rest & -> & Eb)|(c & cut & Sh%cut_short)]; cycle 1.
    + unfold order_chunk in Sh. rewrite (fields_bytes_length _ _ (order_fields_ok gap G p r Fr Qr)) in Sh.
      change (layout_bytes order_layout) with 32%nat in Sh.
      cbn [read_orders]. destruct (Nat.ltb_spec (length bytes) 32); [|lia].
      do 4 eexists. split; [done|]. split; [exact R|]. exists L1, q1, L, L2. rewrite Eq. split; [done|]. by split; [eexists|].
    + rewrite (read_order_chunk gap G) by done.
      destruct (so_far_next s B L1 L L2 W E q1 r q2 Eq) as [Sp OK].
      destruct (insert_abs _ (r_seq r) b _ R OK (so_far_room s B L1 L L2 W E q1 r q2 Eq BO BL)) as (a & b1 & -> & R1 & _).
      rewrite bind_Ret. cbn [snd]. rewrite Sp in R1.
      apply (IH (q1 ++ [r]) ps rest tail b1); try done. by rewrite <-app_assoc.
Qed.

Lemma read_levels_cut s L2 : forall L1 A bytes tail b crc,
  spec_at s B = L1 ++ L2 -> Forall2 (fun x L => length x.2 = length (lv_orders L)) A L2 ->
  abs b (set_spec s L1 (side_base s B)) -> bytes ++ tail = concat (side_chunks gap A L2) -> tail <> [] ->
  exists rest b' crc' B', read_levels (length L2) (side_name s) bytes b crc = Ret (false, rest, b', crc') /\
    abs b' B' /\ partial s B'.
Proof using G W F BO BL.
  induction L2 as [|L L2 IH]; intros L1 A bytes tail b crc E HA R Eb NE.
  { apply Forall2_nil_inv_r in HA as ->. by apply app_nil in Eb as [_ ->]. }
  apply Forall2_cons_inv_r in HA as ([a ps] & A' & HL & HA & ->). simpl in HL.
  destruct (level_fits B W F BO s L) as (NEo & Hc & Hp); [rewrite E; set_solver|].
  assert (abs b (so_far s B L1 [] L)) as R0 by (unfold so_far; simpl; by rewrite app_nil_r).
  unfold side_chunks in Eb. cbn [zip_with concat level_chunks snd app length] in *. rewrite concat_app in Eb.
  apply cut_at in Eb as [(bytes1 & -> & Eb)|(c & cut & Sh%cut_short)]; cycle 1.
  { rewrite (fields_bytes_length _ _ (level_fields_ok L Hc)) in Sh. change (layout_bytes level_layout) with 24%nat in Sh.
    cbn [read_levels]. destruct (Nat.ltb_spec (length bytes) 24); [|lia].
    do 4 eexists. split; [done|]. split; [exact R0|]. exists L1, [], L, L2. split; [done|]. split; [apply prefix_nil|done]. }
  rewrite read_level_chunk by done.
  apply cut_at in Eb as [(bytes2 & -> & Eb)|(c & cut & Eb)].
  - destruct (read_orders_spec gap G B W F BO BL s L1 L L2 E (lv_orders L) [] ps bytes2 b
      (crc_next crc (fields_bytes (level_fields (level_snap L))))) as (b1 & -> & R1); [done..|].
    rewrite bind_Ret. apply (IH (L1 ++ [L]) A' bytes2 tail b1); try done; [by rewrite <-app_assoc|].
    unfold so_far in R1. destruct (lv_orders L) eqn:Eq; [done|]. simpl in R1. by rewrite <-Eq, with_orders_id in R1.
  - destruct (read_orders_cut s L1 L L2 E (lv_orders L) [] ps bytes1 (c :: cut) b
      (crc_next crc (fields_bytes (level_fields (level_snap L))))) as (rest & b' & crc' & B' & -> & R' & P); try done.
    rewrite bind_Ret. by exists rest, b', crc', B'.
Qed.
End cut.

(** What [load] makes of a file with its end missing. *)
Lemma snapshot_load_cut gap b B sq ts file bytes c cut b0 B0 s0 t0 :
  gap_ok gap -> abs b B -> Forall order_fits (book_orders B) -> 0 <= sq < 2 ^ 64 -> 0 <= ts < 2 ^ 64 -> abs b0 B0 ->
  snapshot_save gap b sq ts = Ret file -> file = bytes ++ c :: cut ->
  exists b' B' s t, snapshot_load (Some bytes) b0 s0 t0 = Ret (false, b', s, t) /\ abs b' B' /\
    ((length bytes < 40)%nat /\ b' = b0 /\ B' = B0 \/
     (40 <= length bytes)%nat /\ book_orders B' `prefix_of` book_orders B).
Proof.
  intros G R F Hs Ht R0 Es Ef. destruct (book_bounds _ _ R) as [BO BL].
  destruct (snapshot_save_spec gap b B sq ts R) as (Ab & Aa & Lb & La & Es').
  rewrite Es in Es'. assert (forall x y : list Z, Ret x = Ret y -> x = y) as inj by congruence. apply inj in Es' as ->.
  assert (book_wf B) as W by (destruct R as (? & ? & [_ W _ _ _]); exact W).
  pose proof (snapshot_header_ok gap sq ts B Ab Aa G W F BO BL Hs Ht) as OK.
  pose proof (fields_bytes_length _ _ OK) as Ln. change (layout_bytes snapshot_header_layout) with 40%nat in Ln.
  symmetry in Ef. apply cut_at in Ef as [(rest & -> & Ef)|(x & y & Sh%cut_short)]; cycle 1.
  { rewrite Ln in Sh. exists b0, B0, s0, t0. unfold snapshot_load. destruct (Nat.ltb_spec (length bytes) 40); [|lia].
    split; [done|]. split; [exact R0|by left]. }
  destruct (clear_abs b0 B0 R0) as (b1 & Ec & R1 & _). rewrite (snapshot_load_header _ _ b0 b1) by done.
  cbn [sh_bid_level_count sh_ask_level_count snapshot_header sh_checksum sh_sequence sh_timestamp]. rewrite !Nat2Z.id.
  rewrite length_app, Ln. apply cut_at in Ef as [(rest' & -> & Ef)|(x & y & Ef)].
  - destruct (read_levels_spec gap G B W F BO BL true (bk_bids B) [] Ab rest' b1 CRC_INIT) as (b2 & E2 & R2); [done..|].
    destruct (read_levels_cut gap G B W F BO BL false (bk_asks B) [] Aa rest' (c :: cut) b2
      (crc_all CRC_INIT (side_chunks gap Ab (bk_bids B)))) as (r3 & b3 & crc3 & B3 & E3 & R3 & P); [done..|].
    simpl in E2, E3. rewrite E2, bind_Ret. cbn [negb]. rewrite E3, bind_Ret. cbn [negb].
    exists b3, B3, sq, ts. split; [done|]. split; [done|]. right. split; [lia|]. by eapply partial_prefix.
  - destruct (read_levels_cut gap G B W F BO BL true (bk_bids B) [] Ab rest (x :: y) b1 CRC_INIT)
      as (r3 & b3 & crc3 & B3 & E3 & R3 & P); [done..|].
    simpl in E3. rewrite E3, bind_Ret. cbn [negb].
    exists b3, B3, sq, ts. split; [done|]. split; [done|]. right. split; [lia|]. by eapply partial_prefix.
Qed.
