(* ===== verification/DependencyResolver.v ===== *)
(** * FluxTrade: module identities and the dependency resolver

    [ModuleId] (src/kernel/include/kernel/module.hpp) and
    [DependencyResolver::resolve] (src/kernel/src/dependency_resolver.cpp): Kahn's
    algorithm.  A hash map is iterated in an unspecified order: the modules are
    given as a list in that order, and the order in which the map of in-degrees
    is iterated is an argument too. *)
From S2P Require Import Prelude.
From stdpp Require Import strings pretty.
Local Open Scope Z_scope.

Inductive ModuleId : Set :=
| ModKernel | ModConfig | ModClock | ModLogger | ModEventBus | ModScheduler | ModThreadManager
| ModHealthMonitor | ModRisk | ModOrderBook | ModMatching | ModRouter | ModNetwork | ModStorage
| ModSimulator | ModReplay | ModUnnamed (code : Z).
#[export] Instance ModuleId_eq_dec : EqDecision ModuleId.
Proof. solve_decision. Defined.
(** [static_cast<uint16_t>] *)
Definition ModuleId_code (m : ModuleId) : Z :=
  match m with
  | ModKernel => 0 | ModConfig => 1 | ModClock => 2 | ModLogger => 3 | ModEventBus => 4
  | ModScheduler => 5 | ModThreadManager => 6 | ModHealthMonitor => 7 | ModRisk => 8
  | ModOrderBook => 9 | ModMatching => 10 | ModRouter => 11 | ModNetwork => 12 | ModStorage => 13
  | ModSimulator => 14 | ModReplay => 15 | ModUnnamed c => c
  end.
#[export] Instance ModuleId_countable : Countable ModuleId.
Proof.
  refine (inj_countable'
    (fun m => match m with ModUnnamed c => inl c | m => inr (Z.to_nat (ModuleId_code m)) end)
    (fun x => match x with
     | inl c => ModUnnamed c
     | inr n => nth n [ModKernel; ModConfig; ModClock; ModLogger; ModEventBus; ModScheduler; ModThreadManager;
                       ModHealthMonitor; ModRisk; ModOrderBook; ModMatching; ModRouter; ModNetwork; ModStorage;
                       ModSimulator; ModReplay] ModKernel
     end) _).
  by intros [].
Defined.

(** ** Errors, and the messages they are returned as *)
Inductive ResolveError : Set :=
| NullModule
| SelfDependency (id : ModuleId)
| MissingDependency (id dep : ModuleId)
| CyclicDependency.
#[export] Instance ResolveError_eq_dec : EqDecision ResolveError.
Proof. solve_decision. Defined.
Definition error_message (e : ResolveError) : string :=
  match e with
  | NullModule => "Registered module pointer is null"
  | SelfDependency id => "Self-dependency detected for module ID " +:+ pretty (ModuleId_code id)
  | MissingDependency id dep =>
      "Missing dependency: module ID " +:+ pretty (ModuleId_code id) +:+
      " depends on missing module ID " +:+ pretty (ModuleId_code dep)
  | CyclicDependency => "Cyclic dependency detected in module graph"
  end.

(** ** The graph *)
(** The modules in the order of iteration; [None]: a null pointer, [Some]: the
    module's dependencies. *)
Abbreviation Modules := (list (ModuleId * option (list ModuleId))).
(** In-degrees count vector elements, so they cannot wrap. *)
Record Graph : Type := mkGraph {
  adj : gmap ModuleId (list ModuleId);
  in_degree : gmap ModuleId Z;
}.
Definition init_degrees (ms : Modules) : gmap ModuleId Z := list_to_map (map (fun m => (m.1, 0)) ms).

Definition add_edge (id dep : ModuleId) (g : Graph) : Graph :=
  mkGraph (<[dep := default [] (adj g !! dep) ++ [id]]> (adj g))
    (<[id := default 0 (in_degree g !! id) + 1]> (in_degree g)).
Fixpoint add_dependencies (known : list ModuleId) (id : ModuleId) (deps : list ModuleId) (g : Graph)
    : Graph + ResolveError :=
  match deps with
  | [] => inl g
  | dep :: deps =>
      if decide (dep = id) then inr (SelfDependency id)
      else if negb (bool_decide (dep ∈ known)) then inr (MissingDependency id dep)
      else add_dependencies known id deps (add_edge id dep g)
  end.
Fixpoint build_graph (known : list ModuleId) (ms : Modules) (g : Graph) : Graph + ResolveError :=
  match ms with
  | [] => inl g
  | (id, m) :: ms =>
      match m with
      | None => inr NullModule
      | Some deps =>
          match add_dependencies known id deps g with
          | inr e => inr e
          | inl g => build_graph known ms g
          end
      end
  end.

(** ** Kahn's algorithm *)
(** The loop over the neighbours of the module just taken *)
Fixpoint relax (ns : list ModuleId) (deg : gmap ModuleId Z) (q : list ModuleId) : gmap ModuleId Z * list ModuleId :=
  match ns with
  | [] => (deg, q)
  | n :: ns =>
      let d := default 0 (deg !! n) - 1 in
      relax ns (<[n := d]> deg) (if d =? 0 then q ++ [n] else q)
  end.
Fixpoint kahn (fuel : nat) (adj : gmap ModuleId (list ModuleId)) (deg : gmap ModuleId Z)
    (q order : list ModuleId) : outcome (list ModuleId) :=
  match q with
  | [] => Ret order
  | curr :: q =>
      match fuel with
      | O => Diverge
      | S fuel =>
          let '(deg, q) := relax (default [] (adj !! curr)) deg q in
          kahn fuel adj deg q (order ++ [curr])
      end
  end.

Definition resolve (ms : Modules) (deg_order : list ModuleId) : outcome (list ModuleId + ResolveError) :=
  match build_graph (map fst ms) ms (mkGraph ∅ (init_degrees ms)) with
  | inr e => Ret (inr e)
  | inl g =>
      let q := filter (fun id => default 0 (in_degree g !! id) = 0) deg_order in
      order ← kahn (length ms) (adj g) (in_degree g) q [];
      if (length order =? length ms)%nat then Ret (inl order) else Ret (inr CyclicDependency)
  end.
