(* ===== verification/ResolverRefine.v ===== *)
(** * FluxTrade: lemmas about the dependency resolver

    The graph as a list of edges (dependency, dependent); Kahn's loop keeps the
    in-degree of a module equal to the number of its dependencies that are not in
    the order yet. *)
From S2P Require Import Prelude DependencyResolver.
Local Open Scope Z_scope.

(** ** Edges *)
Definition module_edges (m : ModuleId * option (list ModuleId)) : list (ModuleId * ModuleId) :=
  match m.2 with None => [] | Some deps => map (fun d => (d, m.1)) deps end.
Definition edges (ms : Modules) : list (ModuleId * ModuleId) := mjoin (map module_edges ms).
Definition targets (d : ModuleId) (E : list (ModuleId * ModuleId)) : list ModuleId := map snd (filter (fun e => e.1 = d) E).
Definition sources (x : ModuleId) (E : list (ModuleId * ModuleId)) : list ModuleId := map fst (filter (fun e => e.2 = x) E).

Lemma elem_of_sources d x E : d ∈ sources x E <-> (d, x) ∈ E.
Proof.
  unfold sources. rewrite list_elem_of_fmap. split.
  - intros ([d' x'] & -> & [H1 H2]%list_elem_of_filter). simpl in *. by subst.
  - intros H. exists (d, x). split; [done|]. by apply list_elem_of_filter.
Qed.
Lemma elem_of_targets d x E : x ∈ targets d E <-> (d, x) ∈ E.
Proof.
  unfold targets. rewrite list_elem_of_fmap. split.
  - intros ([d' x'] & -> & [H1 H2]%list_elem_of_filter). simpl in *. by subst.
  - intros H. exists (d, x). split; [done|]. by apply list_elem_of_filter.
Qed.
Lemma elem_of_edges d x ms : (d, x) ∈ edges ms <-> exists deps, (x, Some deps) ∈ ms /\ d ∈ deps.
Proof.
  unfold edges. rewrite list_elem_of_join. split.
  - intros (es & Hd & ([y m] & -> & Hm)%list_elem_of_fmap). unfold module_edges in Hd. simpl in Hd.
    destruct m as [deps|]; [|by apply elem_of_nil in Hd]. apply list_elem_of_fmap in Hd as (d' & [= -> ->] & Hd).
    by exists deps.
  - intros (deps & Hm & Hd). exists (module_edges (x, Some deps)). split; [|by apply list_elem_of_fmap_2].
    apply list_elem_of_fmap. by exists d.
Qed.

(** ** Building the graph *)
Definition degree (deg : gmap ModuleId Z) (x : ModuleId) : Z := default 0 (deg !! x).
Definition neighbours (a : gmap ModuleId (list ModuleId)) (d : ModuleId) : list ModuleId := default [] (a !! d).
(** The graph has the edges [E]. *)
Definition graph_rep (g : Graph) (E : list (ModuleId * ModuleId)) : Prop :=
  (forall d, neighbours (adj g) d = targets d E) /\
  (forall x, degree (in_degree g) x = Z.of_nat (length (sources x E))).

Lemma add_edge_rep id dep g E : graph_rep g E -> graph_rep (add_edge id dep g) (E ++ [(dep, id)]).
Proof.
  intros [A D]. unfold graph_rep, neighbours, degree, targets, sources in *. split; intros y; cbn [adj in_degree add_edge].
  - rewrite filter_app, map_app, <- A. destruct (decide (y = dep)) as [->|N].
    + by rewrite lookup_insert_eq, filter_cons_True.
    + rewrite lookup_insert_ne, filter_cons_False by (simpl; congruence). by rewrite app_nil_r.
  - rewrite filter_app, map_app, length_app, Nat2Z.inj_add, <- D. destruct (decide (y = id)) as [->|N].
    + by rewrite lookup_insert_eq, filter_cons_True.
    + rewrite lookup_insert_ne, filter_cons_False by (simpl; congruence). simpl. lia.
Qed.

Lemma add_dependencies_spec known id deps : forall g E,
  graph_rep g E ->
  match add_dependencies known id deps g with
  | inl g' => graph_rep g' (E ++ map (fun d => (d, id)) deps) /\ id ∉ deps /\ Forall (fun d => d ∈ known) deps
  | inr (SelfDependency x) => x = id /\ id ∈ deps
  | inr (MissingDependency x d) => x = id /\ d ∈ deps /\ d ∉ known
  | inr _ => False
  end.
Proof.
  induction deps as [|d deps IH]; intros g E R; cbn [add_dependencies map].
  { rewrite app_nil_r. split; [done|]. split; [apply not_elem_of_nil|done]. }
  destruct (decide (d = id)) as [->|N]; [split; [done|by left]|].
  destruct (bool_decide_reflect (d ∈ known)) as [K|K]; cbn [negb]; [|split; [done|]; split; [by left|done]].
  specialize (IH _ _ (add_edge_rep id d g E R)).
  destruct (add_dependencies known id deps (add_edge id d g)) as [g'|[| |x y|]]; [|done|..|done].
  - rewrite <- app_assoc in IH. destruct IH as (G & H1 & H2). split; [exact G|]. split; [|by constructor].
    intros [->|H]%elem_of_cons; [by apply N|by apply H1].
  - destruct IH as [-> H]. split; [done|by right].
  - destruct IH as (-> & H & H'). split; [done|]. split; [by right|done].
Qed.

Definition module_ok (known : list ModuleId) (m : ModuleId * option (list ModuleId)) : Prop :=
  exists deps, m.2 = Some deps /\ m.1 ∉ deps /\ Forall (fun d => d ∈ known) deps.
Lemma build_graph_spec known ms : forall g E,
  graph_rep g E ->
  match build_graph known ms g with
  | inl g' => graph_rep g' (E ++ edges ms) /\ Forall (module_ok known) ms
  | inr NullModule => exists id, (id, None) ∈ ms
  | inr (SelfDependency id) => exists deps, (id, Some deps) ∈ ms /\ id ∈ deps
  | inr (MissingDependency id d) => exists deps, (id, Some deps) ∈ ms /\ d ∈ deps /\ d ∉ known
  | inr CyclicDependency => False
  end.
Proof.
  induction ms as [|[id m] ms IH]; intros g E R; cbn [build_graph].
  { unfold edges. cbn. rewrite app_nil_r. by split. }
  destruct m as [deps|]; [|exists id; by left].
  pose proof (add_dependencies_spec known id deps g E R) as S.
  destruct (add_dependencies known id deps g) as [g1|[|x|x d|]].
  - destruct S as (R1 & N & K). specialize (IH _ _ R1).
    destruct (build_graph known ms g1) as [g'|[|x|x d|]]; [..|done].
    + rewrite <- app_assoc in IH. destruct IH as [G F]. split; [exact G|]. constructor; [by exists deps|done].
    + destruct IH as [x H]. exists x. by right.
    + destruct IH as (ds & H & ?). exists ds. split; [by right|done].
    + destruct IH as (ds & H & ?). exists ds. split; [by right|done].
  - done.
  - destruct S as [-> H]. exists deps. split; [by left|done].
  - destruct S as (-> & H). exists deps. split; [by left|done].
  - done.
Qed.

Lemma init_graph_rep ms : graph_rep (mkGraph ∅ (init_degrees ms)) [].
Proof.
  split; [done|]. intros x. unfold degree, init_degrees. cbn [in_degree sources filter]. simpl.
  destruct (list_to_map (map (fun m => (m.1, 0)) ms) !! x) as [z|] eqn:E; [|done].
  apply elem_of_list_to_map_2 in E. by apply list_elem_of_fmap in E as (m & [= -> ->] & _).
Qed.

(** ** The loop over the neighbours *)
Definition occ (x : ModuleId) (l : list ModuleId) : Z := Z.of_nat (length (filter (fun y => y = x) l)).
Lemma occ_cons x y l : occ x (y :: l) = (if decide (y = x) then 1 else 0) + occ x l.
Proof.
  unfold occ. destruct (decide (y = x)) as [->|N]; [rewrite filter_cons_True by done; simpl length; lia|].
  by rewrite filter_cons_False.
Qed.
Lemma occ_nonneg x l : 0 <= occ x l.
Proof. unfold occ. lia. Qed.
Lemma occ_pos x l : x ∈ l <-> 0 < occ x l.
Proof.
  induction l as [|y l IH]; [split; [intros []%elem_of_nil|done]|]. rewrite occ_cons, elem_of_cons, IH.
  pose proof (occ_nonneg x l). destruct (decide (y = x)) as [->|N]; [split; [lia|by left]|].
  split; [intros [->|?]; [done|lia]|right; lia].
Qed.

Lemma degree_insert n d deg x : degree (<[n := d]> deg) x = if decide (n = x) then d else degree deg x.
Proof. unfold degree. destruct (decide (n = x)) as [->|N]; [by rewrite lookup_insert_eq|by rewrite lookup_insert_ne]. Qed.

Lemma relax_spec ns : forall deg q,
  (forall x, occ x ns <= degree deg x) ->
  exists new, (relax ns deg q).2 = q ++ new /\ NoDup new /\
    (forall x, x ∈ new <-> x ∈ ns /\ degree deg x = occ x ns) /\
    (forall x, degree (relax ns deg q).1 x = degree deg x - occ x ns).
Proof.
  induction ns as [|n ns IH]; intros deg q H; cbn [relax].
  { exists []. split_and!; [by rewrite app_nil_r|constructor| |intros x; unfold occ; simpl; lia].
    intros x. split; [by intros ?%elem_of_nil|by intros [?%elem_of_nil _]]. }
  fold (degree deg n). set (d := degree deg n - 1).
  assert (forall x, occ x (n :: ns) = degree deg x - degree (<[n := d]> deg) x + occ x ns) as O.
  { intros x. rewrite occ_cons, degree_insert. destruct (decide (n = x)) as [->|N]; unfold d; lia. }
  destruct (IH (<[n := d]> deg) (if d =? 0 then q ++ [n] else q)) as (new & E & ND & M & D).
  { intros x. specialize (H x). rewrite O in H. lia. }
  assert (degree (<[n := d]> deg) n = d) as Dn by (rewrite degree_insert; by rewrite decide_True).
  pose proof (H n) as Hn. rewrite O, Dn in Hn. pose proof (occ_nonneg n ns).
  assert (forall x, x ∈ new <-> x ∈ ns /\ degree deg x = occ x (n :: ns)) as M'.
  { intros x. rewrite M, O. split; intros [? ?]; split; try done; lia. }
  destruct (Z.eqb_spec d 0) as [Z0|NZ].
  - assert (n ∉ ns) as Nn by (rewrite occ_pos; lia).
    exists (n :: new). split_and!.
    + rewrite E, <- app_assoc. done.
    + constructor; [|done]. intros [Hx _]%M. done.
    + intros x. rewrite !elem_of_cons, M'. destruct (decide (x = n)) as [->|N]; [|naive_solver].
      split; [|by left]. intros _. split; [by left|]. rewrite O, Dn. unfold d in *. lia.
    + intros x. rewrite D, O. lia.
  - exists new. split_and!; [exact E|done| |].
    + intros x. rewrite M', elem_of_cons. split; [naive_solver|]. intros [[->|Hx] Ex]; [|done].
      split; [|done]. apply occ_pos. rewrite O, Dn in Ex. lia.
    + intros x. rewrite D, O. lia.
Qed.

(** ** The loop over the queue *)
(** [L] lists every dependency of its elements before them. *)
Definition ordered (E : list (ModuleId * ModuleId)) (L : list ModuleId) : Prop :=
  forall l1 x l2 d, L = l1 ++ x :: l2 -> (d, x) ∈ E -> d ∈ l1.
(** How many dependencies of [x] are not in [done]. *)
Definition pending (E : list (ModuleId * ModuleId)) (done : list ModuleId) (x : ModuleId) : Z :=
  Z.of_nat (length (filter (fun d => d ∉ done) (sources x E))).

Lemma pending_zero E done x : pending E done x = 0 <-> forall d, (d, x) ∈ E -> d ∈ done.
Proof.
  unfold pending. transitivity (filter (fun d => d ∉ done) (sources x E) = []).
  { split; [|by intros ->]. intros H. apply nil_length_inv. lia. }
  split.
  - intros F d Hd%elem_of_sources. destruct (decide (d ∈ done)) as [|N]; [done|].
    assert (d ∈ filter (fun d => d ∉ done) (sources x E)) as C by (by apply list_elem_of_filter).
    rewrite F in C. by apply elem_of_nil in C.
  - intros H. apply elem_of_nil_inv. intros d [N Hd%elem_of_sources]%list_elem_of_filter. by apply N, H.
Qed.
Lemma pending_snoc E done c x :
  c ∉ done -> pending E (done ++ [c]) x = pending E done x - occ x (targets c E).
Proof.
  intros Nc. unfold pending, occ, sources, targets.
  induction E as [|[d y] E IH]; [done|].
  destruct (decide (y = x)) as [->|Ny].
  - rewrite (filter_cons_True (fun e => e.2 = x)) by done. cbn [map fst].
    destruct (decide (d = c)) as [->|Nd].
    + rewrite (filter_cons_True (fun e => e.1 = c)) by done. cbn [map snd].
      rewrite (filter_cons_False (fun d => d ∉ done ++ [c])) by set_solver.
      rewrite (filter_cons_True (fun d => d ∉ done)), (filter_cons_True (fun y => y = x)) by done. cbn [length]. lia.
    + rewrite (filter_cons_False (fun e => e.1 = c)) by done.
      destruct (decide (d ∈ done)) as [Hd|Hd].
      * rewrite !(filter_cons_False (fun d => d ∉ _)) by set_solver. exact IH.
      * rewrite !(filter_cons_True (fun d => d ∉ _)) by set_solver. cbn [length]. lia.
  - rewrite (filter_cons_False (fun e => e.2 = x)) by done.
    destruct (decide (d = c)) as [->|Nd].
    + rewrite (filter_cons_True (fun e => e.1 = c)) by done. cbn [map snd].
      rewrite (filter_cons_False (fun y => y = x)) by done. exact IH.
    + rewrite (filter_cons_False (fun e => e.1 = c)) by done. exact IH.
Qed.

Lemma pending_targets E done c x : c ∉ done -> occ x (targets c E) <= pending E done x.
Proof.
  intros N. assert (0 <= pending E (done ++ [c]) x) as P by (unfold pending; lia).
  rewrite pending_snoc in P by done. lia.
Qed.

Section Kahn.
Context (ids : list ModuleId) (E : list (ModuleId * ModuleId)).
Context (Hids : forall d x, (d, x) ∈ E -> x ∈ ids).

Record kahn_inv (deg : gmap ModuleId Z) (q order : list ModuleId) : Prop := {
  ki_nodup : NoDup (order ++ q);
  ki_ready : forall x, x ∈ order ++ q <-> x ∈ ids /\ degree deg x = 0;
  ki_degree : forall x, degree deg x = pending E order x;
  ki_ordered : ordered E order }.

Lemma ordered_snoc L c : ordered E L -> (forall d, (d, c) ∈ E -> d ∈ L) -> ordered E (L ++ [c]).
Proof.
  intros O H l1 x l2 d Eq Hd. destruct l2 as [|z l2 _] using rev_ind.
  - apply app_inj_tail in Eq as [-> ->]. by apply H.
  - rewrite app_comm_cons, app_assoc in Eq. apply app_inj_tail in Eq as [-> _]. by eapply O.
Qed.

Lemma kahn_step a deg c q order :
  (forall d, neighbours a d = targets d E) -> kahn_inv deg (c :: q) order ->
  let r := relax (default [] (a !! c)) deg q in kahn_inv r.1 r.2 (order ++ [c]).
Proof.
  intros Ha [ND Re De Or]. fold (neighbours a c). rewrite Ha.
  assert (c ∉ order) as Nc.
  { apply NoDup_app in ND as (_ & D & _). intros H. apply (D c H). by left. }
  destruct (relax_spec (targets c E) deg q) as (new & Eq & NDn & Mn & Dn).
  { intros x. rewrite De. by apply pending_targets. }
  cbn zeta. rewrite Eq.
  assert (forall x, x ∈ new -> x ∉ order ++ c :: q) as Fresh.
  { intros x [Hx%occ_pos Ex]%Mn [_ Z]%Re. lia. }
  split.
  - rewrite <- app_assoc, (app_assoc [c]). change ([c] ++ q) with (c :: q). rewrite app_assoc.
    apply NoDup_app. split; [done|]. split; [|done]. intros x Ho Hn. by apply (Fresh x).
  - intros x. rewrite <- app_assoc, (app_assoc [c]). change ([c] ++ q) with (c :: q).
    rewrite app_assoc, elem_of_app, Re, Mn, Dn. pose proof (occ_nonneg x (targets c E)).
    destruct (decide (x ∈ targets c E)) as [Ht|Ht].
    + assert (x ∈ ids) as Hx by (by apply Hids with c, elem_of_targets).
      pose proof (proj1 (occ_pos x _) Ht). rewrite De in *. pose proof (pending_targets E order c x Nc).
      split; [intros [[_ ?]|[_ ?]]; [lia|split; [done|lia]]|intros [_ ?]; right; split; [done|lia]].
    + assert (occ x (targets c E) = 0) as -> by (rewrite occ_pos in Ht; lia). rewrite Z.sub_0_r. naive_solver.
  - intros x. by rewrite Dn, De, pending_snoc.
  - apply ordered_snoc; [done|]. apply pending_zero. rewrite <- De.
    apply Re. apply elem_of_app. right. by left.
Qed.

Lemma kahn_spec a : (forall d, neighbours a d = targets d E) ->
  forall fuel deg q order, kahn_inv deg q order -> (length ids <= fuel + length order)%nat ->
  exists L, kahn fuel a deg q order = Ret L /\ NoDup L /\ ordered E L /\
    forall x, x ∈ L <-> x ∈ ids /\ forall d, (d, x) ∈ E -> d ∈ L.
Proof.
  intros Ha. induction fuel as [|fuel IH]; intros deg q order I F; destruct q as [|c q]; cbn [kahn].
  1, 3: exists order; pose proof I as [ND Re De Or]; rewrite app_nil_r in *; split_and!; try done;
    intros x; by rewrite Re, De, pending_zero.
  - exfalso. pose proof I as [ND Re _ _].
    assert (length (order ++ c :: q) <= length ids)%nat as L.
    { apply submseteq_length, NoDup_submseteq; [done|]. intros x Hx. by apply Re in Hx as [? _]. }
    rewrite length_app in L. cbn [length] in L. lia.
  - pose proof (kahn_step a deg c q order Ha I) as I'. destruct (relax _ _ _) as [deg' q'] eqn:Er.
    apply (IH _ _ _ I'). rewrite length_app. cbn [length]. lia.
Qed.
End Kahn.
