(* ===== verification/Kernel.v ===== *)
(** * FluxTrade: the kernel

    [IModule] (src/kernel/include/kernel/module.hpp), [HealthMonitor],
    [ServiceRegistry] and [Kernel] (src/kernel): modules are registered,
    initialised, configured and started in the resolved order, and stopped and
    shut down in the reverse order, with their health on record. *)
From S2P Require Import Prelude DependencyResolver.
From stdpp Require Import strings pretty.
Local Open Scope Z_scope.

(** ** Modules *)
Inductive ModuleState : Set :=
| MsCreated | MsInitializing | MsConfigured | MsStarting | MsRunning | MsPaused | MsStopping | MsStopped
| MsShutdown | MsFailed.
#[export] Instance ModuleState_eq_dec : EqDecision ModuleState.
Proof. solve_decision. Defined.
Inductive HealthStatus : Set := Healthy | Degraded | Unhealthy.
#[export] Instance HealthStatus_eq_dec : EqDecision HealthStatus.
Proof. solve_decision. Defined.

(** [expected<void, std::string>]: [None] for success *)
Abbreviation status := (option string).
(** [ILifecycle], [IHealthCheck] and [IModule]: every virtual call may change the module. *)
Class IModule (M : Type) : Type := {
  m_initialize : M -> status * M;
  m_configure : M -> status * M;
  m_start : M -> status * M;
  m_pause : M -> status * M;
  m_resume : M -> status * M;
  m_stop : M -> status * M;
  m_shutdown : M -> status * M;
  m_check_health : M -> HealthStatus * M;
  m_id : M -> ModuleId;
  m_name : M -> string;
  m_dependencies : M -> list ModuleId;
  m_state : M -> ModuleState;
}.

(** ** Health *)
Record ModuleHealthInfo : Type := mkHealth {
  hi_id : ModuleId;
  hi_name : string;
  hi_state : ModuleState;
  hi_health : HealthStatus;
  hi_last_heartbeat_time : Z;
}.
Abbreviation HealthMonitor := (gmap ModuleId ModuleHealthInfo).
(** [stats_[id]] value-initialises a new entry; nothing ever writes the name. *)
Definition default_health : ModuleHealthInfo := mkHealth ModKernel "" MsCreated Healthy 0.
Definition record_heartbeat (now : Z) (id : ModuleId) (h : HealthMonitor) : HealthMonitor :=
  let i := default default_health (h !! id) in
  <[id := mkHealth id (hi_name i) (hi_state i) (hi_health i) now]> h.
Definition update_status (id : ModuleId) (s : ModuleState) (health : HealthStatus) (h : HealthMonitor) : HealthMonitor :=
  let i := default default_health (h !! id) in
  <[id := mkHealth id (hi_name i) s health (hi_last_heartbeat_time i)]> h.
Definition critical (i : ModuleHealthInfo) : bool :=
  bool_decide (hi_state i = MsFailed) || bool_decide (hi_health i = Unhealthy).
Definition has_critical_failures (h : HealthMonitor) : bool := existsb (fun e => critical e.2) (map_to_list h).
Definition get_health_report (h : HealthMonitor) : list ModuleHealthInfo := map snd (map_to_list h).

(** ** The service registry: type indices to pointers *)
Abbreviation ServiceRegistry := (gmap Z Z).
Definition register_service (type service : Z) (r : ServiceRegistry) : ServiceRegistry := <[type := service]> r.
Definition get_service (type : Z) (r : ServiceRegistry) : option Z := r !! type.

(** ** The event bus: one list of callbacks per type of event *)
Section EventBus.
Context {Event State : Type}.
Abbreviation Callback := (Event -> State -> outcome State).
Definition subscribe (cb : Callback) (subscribers : list Callback) : list Callback := subscribers ++ [cb].
(** Delivery is synchronous, in the order of subscription. *)
Fixpoint publish (event : Event) (subscribers : list Callback) (s : State) : outcome State :=
  match subscribers with
  | [] => Ret s
  | cb :: subscribers => s ← cb event s; publish event subscribers s
  end.
End EventBus.

(** ** The thread manager *)
Record WorkerStats : Type := mkWorker {
  ws_name : string; ws_thread_id : Z; ws_core_id : Z; ws_is_active : bool }.
Record ThreadManager : Type := mkThreads {
  tm_threads : list Z;
  tm_workers : gmap string WorkerStats;
}.
Definition ThreadManager_init : ThreadManager := mkThreads [] ∅.
(** [tid]: the identity of the thread the system starts. *)
Definition spawn_worker (name : string) (core_id tid : Z) (t : ThreadManager) : (Z + string) * ThreadManager :=
  match tm_workers t !! name with
  | Some _ => (inr ("Worker with name '" +:+ name +:+ "' already exists")%string, t)
  | None => (inl tid, mkThreads (tm_threads t ++ [tid]) (<[name := mkWorker name tid core_id true]> (tm_workers t)))
  end.
Definition deactivate (w : WorkerStats) : WorkerStats := mkWorker (ws_name w) (ws_thread_id w) (ws_core_id w) false.
Definition join_all (t : ThreadManager) : ThreadManager := mkThreads [] (deactivate <$> tm_workers t).
Definition get_stats (t : ThreadManager) : list WorkerStats := map snd (map_to_list (tm_workers t)).

(** ** The kernel

    The kernel's registry and event bus hold the addresses of its own parts and
    no subscriber; they take no part in the lifecycle and are left out of the
    state. *)
Section Kernel.
Context {M : Type} `{IModule M} (now : nat -> Z).
Record Kernel : Type := mkKernel {
  k_modules : gmap ModuleId M;
  k_startup_order : list ModuleId;
  k_threads : ThreadManager;
  k_health : HealthMonitor;
  k_ticks : nat;
}.
Definition Kernel_init : Kernel := mkKernel ∅ [] ThreadManager_init ∅ O.
Definition k_set_modules (ms : gmap ModuleId M) (k : Kernel) : Kernel :=
  mkKernel ms (k_startup_order k) (k_threads k) (k_health k) (k_ticks k).
Definition k_set_order (l : list ModuleId) (k : Kernel) : Kernel :=
  mkKernel (k_modules k) l (k_threads k) (k_health k) (k_ticks k).
Definition k_update (id : ModuleId) (s : ModuleState) (health : HealthStatus) (k : Kernel) : Kernel :=
  mkKernel (k_modules k) (k_startup_order k) (k_threads k) (update_status id s health (k_health k)) (k_ticks k).
Definition k_heartbeat (id : ModuleId) (k : Kernel) : Kernel :=
  mkKernel (k_modules k) (k_startup_order k) (k_threads k) (record_heartbeat (now (k_ticks k)) id (k_health k)) (S (k_ticks k)).

Definition register_module (m : M) (k : Kernel) : status * Kernel :=
  let id := m_id m in
  match k_modules k !! id with
  | Some _ => (Some ("Module with ID " +:+ pretty (ModuleId_code id) +:+ " already registered")%string, k)
  | None => (None, k_set_modules (<[id := m]> (k_modules k)) k)
  end.

(** The loops over the startup order share their shape: the status before the
    call, the call, and the status after its success; the first failure ends
    the loop.  [modules_[id]] of an unknown module is a null pointer. *)
Fixpoint phase (before : ModuleId -> Kernel -> Kernel) (call : M -> status * M)
    (after : ModuleId -> Kernel -> Kernel) (failed : string) (ids : list ModuleId) (k : Kernel)
    : outcome (status * Kernel) :=
  match ids with
  | [] => Ret (None, k)
  | id :: ids =>
      let k := before id k in
      match k_modules k !! id with
      | None => Undefined
      | Some m =>
          let (res, m') := call m in
          let k := k_set_modules (<[id := m']> (k_modules k)) k in
          match res with
          | Some e =>
              Ret (Some ("Module '" +:+ m_name m' +:+ "' failed to " +:+ failed +:+ ": " +:+ e)%string,
                   k_update id MsFailed Unhealthy k)
          | None => phase before call after failed ids (after id k)
          end
      end
  end.

(** [ms_order], [deg_order]: the orders in which the hash maps are iterated. *)
Definition initialize (ms_order deg_order : list ModuleId) (k : Kernel) : outcome (status * Kernel) :=
  res ← resolve (map (fun id => (id, m_dependencies <$> k_modules k !! id)) ms_order) deg_order;
  match res with
  | inr e => Ret (Some ("Dependency resolution failed: " +:+ error_message e)%string, k)
  | inl order =>
      let k := k_set_order order k in
      phase (fun id => k_update id MsInitializing Healthy) m_initialize
        (fun id => k_update id MsConfigured Healthy) "initialize" order k
  end.
Definition configure (k : Kernel) : outcome (status * Kernel) :=
  phase (fun _ k => k) m_configure (fun id => k_update id MsConfigured Healthy) "configure" (k_startup_order k) k.
Definition start (k : Kernel) : outcome (status * Kernel) :=
  phase (fun id => k_update id MsStarting Healthy) m_start
    (fun id k => k_heartbeat id (k_update id MsRunning Healthy k)) "start" (k_startup_order k) k.

(** [stop] and [shutdown] ignore what the modules answer. *)
Fixpoint stop_all (ids : list ModuleId) (k : Kernel) : outcome Kernel :=
  match ids with
  | [] => Ret k
  | id :: ids =>
      match k_modules k !! id with
      | None => Undefined
      | Some m =>
          if decide (m_state m = MsRunning) then
            let k := k_update id MsStopping Healthy k in
            let k := k_set_modules (<[id := (m_stop m).2]> (k_modules k)) k in
            stop_all ids (k_update id MsStopped Healthy k)
          else stop_all ids k
      end
  end.
Definition stop (k : Kernel) : outcome Kernel := stop_all (rev (k_startup_order k)) k.
Fixpoint shutdown_all (ids : list ModuleId) (k : Kernel) : outcome Kernel :=
  match ids with
  | [] => Ret k
  | id :: ids =>
      match k_modules k !! id with
      | None => Undefined
      | Some m =>
          let k := k_set_modules (<[id := (m_shutdown m).2]> (k_modules k)) k in
          shutdown_all ids (k_update id MsShutdown Healthy k)
      end
  end.
Definition shutdown (k : Kernel) : outcome Kernel :=
  k ← shutdown_all (rev (k_startup_order k)) k;
  Ret (mkKernel (k_modules k) (k_startup_order k) (join_all (k_threads k)) (k_health k) (k_ticks k)).

(** The signal handler's flag, and the condition on which [wait] returns *)
Definition SIGINT : Z := 2.
Definition SIGTERM : Z := 15.
Definition handle_signal (signal : Z) (requested : bool) : bool :=
  if (signal =? SIGINT) || (signal =? SIGTERM) then true else requested.
Definition wait_returns (requested : bool) (k : Kernel) : bool :=
  negb (negb requested && negb (has_critical_failures (k_health k))).
(** [wait] looks again every 50 ms: [requested i] and [seen i] are the flag and
    the kernel at its [i]-th look.  It returns the number of looks that sent it
    back to sleep. *)
Fixpoint wait (fuel : nat) (requested : nat -> bool) (seen : nat -> Kernel) (looks : nat) : outcome nat :=
  match fuel with
  | O => Diverge
  | S fuel => if wait_returns (requested looks) (seen looks) then Ret looks else wait fuel requested seen (S looks)
  end.

(** The destructor *)
Definition Kernel_destroy (k : Kernel) : outcome Kernel := k ← stop k; shutdown k.
End Kernel.
Arguments Kernel : clear implicits.
