(* ===== verification/KernelProperties.v ===== *)
(** * FluxTrade: what the kernel guarantees

    The resolver returns an order exactly when there is one; modules are brought
    up in that order, each after its dependencies, up to the first failure. *)
From S2P Require Import Prelude DependencyResolver ResolverRefine Kernel.
From stdpp Require Import strings pretty.
Local Open Scope Z_scope.

(** ** Startup orders *)
(** [L] lists each module once, after all its dependencies. *)
Definition startup_order (ms : Modules) (L : list ModuleId) : Prop :=
  L ≡ₚ map fst ms /\
  forall id deps d, (id, Some deps) ∈ ms -> d ∈ deps -> exists l1 l2, L = l1 ++ id :: l2 /\ d ∈ l1.

Lemma ordered_before E L x d : ordered E L -> x ∈ L -> (d, x) ∈ E -> exists l1 l2, L = l1 ++ x :: l2 /\ d ∈ l1.
Proof. intros O (l1 & l2 & ->)%list_elem_of_split Hd. exists l1, l2. split; [done|]. by eapply O. Qed.

(** In any startup order, what has all its dependencies in [L] is in [L]. *)
Lemma closed_covers ms (L T : list ModuleId) :
  NoDup (map fst ms) -> startup_order ms T ->
  (forall x, x ∈ map fst ms -> (forall d, (d, x) ∈ edges ms -> d ∈ L) -> x ∈ L) -> forall x, x ∈ T -> x ∈ L.
Proof.
  intros ND [P B] C. assert (forall l1 l2, T = l1 ++ l2 -> forall x, x ∈ l1 -> x ∈ L) as H.
  { induction l1 as [|y l1 IH] using rev_ind; intros l2 Eq x Hx; [by apply elem_of_nil in Hx|].
    rewrite <- app_assoc in Eq. apply elem_of_app in Hx as [Hx| ->%list_elem_of_singleton]; [by eapply IH|].
    apply C; [rewrite <- P, Eq; set_solver|]. intros d (deps & Hm & Hd)%elem_of_edges.
    destruct (B y deps d Hm Hd) as (k1 & k2 & Eq' & Hk). apply (IH _ Eq).
    assert (NoDup T) as NT by (by rewrite P). rewrite Eq in NT, Eq'.
    destruct (decide (k1 = l1)) as [->|N]; [done|]. exfalso.
    apply N. clear - NT Eq'. revert k1 Eq'. induction l1 as [|z l1 IH]; intros k1 Eq'.
    - destruct k1 as [|w k1]; [done|]. injection Eq' as -> E. cbn in NT. apply NoDup_cons in NT as [NT _].
      exfalso. apply NT. rewrite E. set_solver.
    - cbn in NT. apply NoDup_cons in NT as [Nz NT]. destruct k1 as [|w k1].
      + injection Eq' as -> _. exfalso. apply Nz. set_solver.
      + injection Eq' as -> E. f_equal. by apply IH. }
  intros x Hx. apply (H T []); [by rewrite app_nil_r|done].
Qed.

Lemma no_self_or_missing ms T id deps d :
  NoDup (map fst ms) -> startup_order ms T -> (id, Some deps) ∈ ms -> d ∈ deps -> d <> id /\ d ∈ map fst ms.
Proof.
  intros ND [P B] Hm Hd. destruct (B id deps d Hm Hd) as (l1 & l2 & E & Hl).
  assert (NoDup T) as NT by (by rewrite P). split.
  - intros ->. rewrite E in NT. apply NoDup_app in NT as (_ & D & _). apply (D id Hl). by left.
  - rewrite <- P, E. set_solver.
Qed.

(** Kahn's loop on the graph of the modules *)
Lemma kahn_start ms deg_order g :
  NoDup (map fst ms) -> deg_order ≡ₚ map fst ms -> graph_rep g (edges ms) ->
  kahn_inv (map fst ms) (edges ms) (in_degree g)
    (filter (fun id => default 0 (in_degree g !! id) = 0) deg_order) [].
Proof.
  intros ND P [_ D]. split.
  - cbn [app]. apply NoDup_filter. by rewrite P.
  - intros x. cbn [app]. rewrite list_elem_of_filter, P. unfold degree. naive_solver.
  - intros x. rewrite D. unfold pending. f_equal. f_equal.
    symmetry. induction (sources x (edges ms)) as [|y l IH]; [done|].
    rewrite filter_cons_True by apply not_elem_of_nil. by rewrite IH.
  - intros l1 x l2 d E. by destruct l1.
Qed.

Lemma resolve_spec ms deg_order :
  NoDup (map fst ms) -> deg_order ≡ₚ map fst ms ->
  exists r, resolve ms deg_order = Ret r /\
    match r with
    | inl L => startup_order ms L
    | inr NullModule => exists id, (id, None) ∈ ms
    | inr (SelfDependency id) => exists deps, (id, Some deps) ∈ ms /\ id ∈ deps
    | inr (MissingDependency id d) => exists deps, (id, Some deps) ∈ ms /\ d ∈ deps /\ d ∉ map fst ms
    | inr CyclicDependency => forall T, ~ startup_order ms T
    end.
Proof.
  intros ND P. unfold resolve. pose proof (build_graph_spec (map fst ms) ms _ [] (init_graph_rep ms)) as S.
  destruct (build_graph _ _ _) as [g|e]; [|exists (inr e); split; [done|by destruct e]].
  destruct S as [R F]. cbn [app] in R. pose proof R as [A _].
  assert (forall d x, (d, x) ∈ edges ms -> x ∈ map fst ms) as Hids.
  { intros d x (deps & Hm & _)%elem_of_edges. apply list_elem_of_fmap. by exists (x, Some deps). }
  destruct (kahn_spec (map fst ms) (edges ms) Hids (adj g) A (length ms) _ _ _ (kahn_start ms deg_order g ND P R))
    as (L & -> & NL & OL & ML); [rewrite length_map; lia|]. rewrite bind_Ret.
  destruct (Nat.eqb_spec (length L) (length ms)) as [E|N]; eexists; (split; [done|]).
  - assert (L ≡ₚ map fst ms) as PL.
    { apply submseteq_length_Permutation; [|rewrite length_map; lia].
      apply NoDup_submseteq; [done|]. intros x Hx. by apply ML in Hx as [? _]. }
    split; [done|]. intros id deps d Hm Hd. apply (ordered_before (edges ms)); [done| |].
    + rewrite PL. apply list_elem_of_fmap. by exists (id, Some deps).
    + apply elem_of_edges. by exists deps.
  - intros T HT. apply N. pose proof HT as [PT _].
    assert (forall x, x ∈ T -> x ∈ L) as C.
    { apply (closed_covers ms L T ND HT). intros x Hx Hd. by apply ML. }
    rewrite <- (length_map fst ms), <- PT. apply Permutation_length, NoDup_Permutation; [done|by rewrite PT|].
    intros x. split; [|apply C]. intros Hx. rewrite PT. by apply ML in Hx as [? _].
Qed.

(** ** The loops over the startup order *)
Section Lifecycle.
Context {M : Type} `{IModule M}.

Lemma failed_is_critical id s health h :
  s = MsFailed \/ health = Unhealthy -> has_critical_failures (update_status id s health h) = true.
Proof.
  intros F. unfold has_critical_failures. apply existsb_exists.
  eexists (id, _). split; [apply list_elem_of_In, elem_of_map_to_list, lookup_insert_eq|].
  unfold critical. cbn. destruct F as [->| ->]; [by rewrite bool_decide_eq_true_2|].
  by rewrite (bool_decide_eq_true_2 (Unhealthy = Unhealthy)), orb_true_r.
Qed.

Definition keeps_modules (f : ModuleId -> Kernel M -> Kernel M) : Prop :=
  forall id k, k_modules (f id k) = k_modules k /\ k_startup_order (f id k) = k_startup_order k.

(** What a phase over [ids] makes of the modules [ms] *)
Definition phase_done (call : M -> status * M) (ids : list ModuleId) (ms ms' : gmap ModuleId M) : Prop :=
  forall id m, ms !! id = Some m ->
    if decide (id ∈ ids) then (call m).1 = None /\ ms' !! id = Some (call m).2 else ms' !! id = Some m.
Definition phase_failed (call : M -> status * M) (failed : string) (ids : list ModuleId)
    (ms ms' : gmap ModuleId M) (msg : string) : Prop :=
  exists l1 id l2 m e, ids = l1 ++ id :: l2 /\ ms !! id = Some m /\ (call m).1 = Some e /\
    msg = ("Module '" +:+ m_name (call m).2 +:+ "' failed to " +:+ failed +:+ ": " +:+ e)%string /\
    phase_done call (l1 ++ [id]) (delete id ms) (delete id ms') /\ ms' !! id = Some (call m).2.

Lemma phase_done_cons call id ids m ms ms' :
  ms !! id = Some m -> (call m).1 = None -> id ∉ ids ->
  phase_done call ids (<[id := (call m).2]> ms) ms' -> phase_done call (id :: ids) ms ms'.
Proof.
  intros Hm Hc Hid D x mx Hx. destruct (decide (x = id)) as [->|N].
  - rewrite decide_True by (by left). assert (mx = m) as -> by congruence. split; [done|].
    specialize (D id (call m).2 (lookup_insert_eq _ _ _)). by rewrite decide_False in D.
  - specialize (D x mx). rewrite lookup_insert_ne in D by done. specialize (D Hx).
    destruct (decide (x ∈ ids)); [rewrite decide_True by (by right)|rewrite decide_False by set_solver]; done.
Qed.

Lemma phase_spec before call after failed :
  keeps_modules before -> keeps_modules after ->
  forall ids (k : Kernel M), NoDup ids -> (forall id, id ∈ ids -> is_Some (k_modules k !! id)) ->
  exists res k', phase before call after failed ids k = Ret (res, k') /\ k_startup_order k' = k_startup_order k /\
    match res with
    | None => phase_done call ids (k_modules k) (k_modules k')
    | Some msg => phase_failed call failed ids (k_modules k) (k_modules k') msg /\
                  has_critical_failures (k_health k') = true
    end.
Proof.
  intros Kb Ka. induction ids as [|id ids IH]; intros k ND Hk; cbn [phase].
  { exists None, k. split_and!; try done. intros x m Hx. by rewrite decide_False by apply not_elem_of_nil. }
  apply NoDup_cons in ND as [Nid ND]. destruct (Hk id) as [m Hm]; [by left|].
  rewrite (proj1 (Kb id k)), Hm. destruct (call m) as [res m'] eqn:Ec.
  set (k1 := k_set_modules (<[id := m']> (k_modules k)) (before id k)).
  assert (k_startup_order k1 = k_startup_order k) as E1 by apply Kb.
  destruct res as [e|].
  - eexists (Some _), _. split; [done|]. split; [exact E1|].
    split; [|by apply failed_is_critical; left]. exists [], id, ids, m, e. rewrite Ec. cbn.
    split_and!; try done; [|by rewrite lookup_insert_eq].
    intros x mx Hx. destruct (decide (x = id)) as [->|N]; [by rewrite lookup_delete_eq in Hx|].
    rewrite decide_False by set_solver. rewrite lookup_delete_ne in * by done. by rewrite lookup_insert_ne.
  - destruct (IH (after id k1) ND) as (res & k' & E & Eo & R).
    { intros x Hx. rewrite (proj1 (Ka id k1)). cbn. destruct (decide (x = id)) as [->|N].
      - rewrite lookup_insert_eq. by eexists.
      - rewrite lookup_insert_ne by done. apply Hk. by right. }
    exists res, k'. split; [exact E|]. split; [by rewrite Eo, (proj2 (Ka id k1))|].
    rewrite (proj1 (Ka id k1)) in R. cbn in R. assert ((call m).1 = None /\ (call m).2 = m') as [C1 C2] by (by rewrite Ec).
    destruct res as [msg|]; [|apply (phase_done_cons call id ids m); [done..|by rewrite C2]].
    destruct R as ((l1 & y & l2 & my & e & -> & Hy & He & Em & D & Hy') & Cr). split; [|done].
    assert (y <> id) as N by set_solver. rewrite lookup_insert_ne in Hy by done.
    exists (id :: l1), y, l2, my, e. split_and!; try done.
    apply (phase_done_cons call id _ m); [by rewrite lookup_delete_ne|done|set_solver|].
    rewrite C2, <- delete_insert_ne by done. done.
Qed.

(** The modules as the resolver sees them *)
Definition resolver_input (order : list ModuleId) (k : Kernel M) : Modules :=
  map (fun id => (id, m_dependencies <$> k_modules k !! id)) order.
Lemma resolver_ids order k : map fst (resolver_input order k) = order.
Proof. unfold resolver_input. rewrite map_map. simpl. by rewrite map_id. Qed.
End Lifecycle.

(** ** The theorems *)
(** C39: the resolver always answers, whatever the iteration orders of its hash
    maps: either an order in which every module comes once, after all its
    dependencies, or an error that names the actual problem; and it answers an
    order whenever there is one.  The modules are not null pointers, which
    [register_module] never stores. *)
Theorem resolve_correct (ms : Modules) (deg_order : list ModuleId) :
  NoDup (map fst ms) -> deg_order ≡ₚ map fst ms -> Forall (fun m => is_Some m.2) ms ->
  exists r, resolve ms deg_order = Ret r /\
    match r with
    | inl L => startup_order ms L
    | inr NullModule => False
    | inr (SelfDependency id) => exists deps, (id, Some deps) ∈ ms /\ id ∈ deps
    | inr (MissingDependency id d) => exists deps, (id, Some deps) ∈ ms /\ d ∈ deps /\ d ∉ map fst ms
    | inr CyclicDependency => forall T, ~ startup_order ms T
    end /\
    ((exists T, startup_order ms T) -> exists L, r = inl L).
Proof.
  intros ND P F. destruct (resolve_spec ms deg_order ND P) as (r & E & R). exists r. split; [done|].
  assert (forall id, (id, None) ∉ ms) as NN.
  { intros id Hid. rewrite Forall_forall in F. by destruct (F _ Hid). }
  split.
  - destruct r as [L|[| | |]]; try done. destruct R as [id Hid]. by apply (NN id).
  - intros [T HT]. destruct r as [L|[|id|id d|]]; [by exists L| | | |].
    + destruct R as [id Hid]. exfalso. by apply (NN id).
    + destruct R as (deps & Hm & Hd). exfalso. by apply (proj1 (no_self_or_missing ms T id deps id ND HT Hm Hd)).
    + destruct R as (deps & Hm & Hd & N). exfalso. apply N. by apply (no_self_or_missing ms T id deps d ND HT Hm Hd).
    + exfalso. by apply (R T).
Qed.
(** Risk and matching depend on the book, the router on both. *)
Definition sample_modules : Modules :=
  [(ModRouter, Some [ModRisk; ModMatching]); (ModRisk, Some [ModOrderBook]);
   (ModMatching, Some [ModOrderBook]); (ModOrderBook, Some [])].
Lemma resolve_correct_witness :
  resolve sample_modules (map fst sample_modules) = Ret (inl [ModOrderBook; ModRisk; ModMatching; ModRouter]) /\
  startup_order sample_modules [ModOrderBook; ModRisk; ModMatching; ModRouter].
Proof.
  assert (resolve sample_modules (map fst sample_modules) = Ret (inl [ModOrderBook; ModRisk; ModMatching; ModRouter])) as E
    by (vm_compute; reflexivity).
  split; [exact E|].
  destruct (resolve_correct sample_modules (map fst sample_modules)) as (r & Er & R & _).
  - apply (bool_decide_unpack (NoDup (map fst sample_modules))). vm_compute. exact I.
  - reflexivity.
  - repeat (apply Forall_cons; split; [eexists; reflexivity|]). apply Forall_nil_2.
  - rewrite E in Er. injection Er as <-. exact R.
Defined.

(** [initialize] initialises the modules in a startup order, so every module
    after its dependencies.  Success means that each was initialised once; a
    failure stops at the first module that fails: those before it are
    initialised, those after it untouched, the message names it, and the health
    monitor reports a critical failure.  When no order can be resolved, nothing
    is touched. *)
Theorem initialize_in_order {M} `{IModule M} (ms_order deg_order : list ModuleId) (k : Kernel M) :
  NoDup ms_order -> deg_order ≡ₚ ms_order -> (forall id, id ∈ ms_order <-> is_Some (k_modules k !! id)) ->
  exists res k', initialize ms_order deg_order k = Ret (res, k') /\
    (k' = k /\ (exists e, res = Some ("Dependency resolution failed: " +:+ error_message e)%string /\
                  forall T, ~ startup_order (resolver_input ms_order k) T) \/
     startup_order (resolver_input ms_order k) (k_startup_order k') /\
     match res with
     | None => phase_done m_initialize (k_startup_order k') (k_modules k) (k_modules k')
     | Some msg => phase_failed m_initialize "initialize" (k_startup_order k') (k_modules k) (k_modules k') msg /\
                   has_critical_failures (k_health k') = true
     end).
Proof.
  intros ND P K. unfold initialize. fold (resolver_input ms_order k).
  pose proof (resolver_ids ms_order k) as Ei.
  destruct (resolve_spec (resolver_input ms_order k) deg_order) as (r & E & R); [by rewrite Ei..|].
  rewrite E, bind_Ret. destruct r as [L|e].
  - pose proof R as [PL _]. rewrite Ei in PL.
    destruct (phase_spec (fun id => k_update id MsInitializing Healthy) m_initialize
      (fun id => k_update id MsConfigured Healthy) "initialize" ltac:(by split) ltac:(by split) L (k_set_order L k))
      as (res & k' & Ep & Eo & Rp); [by rewrite PL|intros id Hid; apply K; by rewrite <- PL|].
    exists res, k'. split; [exact Ep|]. right. rewrite Eo. split; [exact R|exact Rp].
  - eexists _, k. split; [done|]. left. split; [done|]. exists e. split; [done|]. intros T HT.
    assert (NoDup (map fst (resolver_input ms_order k))) as ND' by (by rewrite Ei).
    destruct e as [|id|id d|].
    + destruct R as [id (x & [= -> Ex] & Hx)%list_elem_of_fmap]. apply K in Hx as [m Hm]. by rewrite Hm in Ex.
    + destruct R as (deps & Hm & Hd). by apply (proj1 (no_self_or_missing _ T id deps id ND' HT Hm Hd)).
    + destruct R as (deps & Hm & Hd & N). apply N. by apply (no_self_or_missing _ T id deps d ND' HT Hm Hd).
    + by apply (R T).
Qed.

(** Modules that only remember whether they are up; the second may refuse. *)
Record sample_module : Type := mkSample { sm_deps : list ModuleId; sm_refuses : bool; sm_up : bool }.
#[export] Instance sample_imodule : IModule sample_module := {
  m_initialize := fun m => if sm_refuses m then (Some "no memory"%string, m) else (None, mkSample (sm_deps m) false true);
  m_configure := fun m => (None, m);
  m_start := fun m => (None, m);
  m_pause := fun m => (None, m);
  m_resume := fun m => (None, m);
  m_stop := fun m => (None, mkSample (sm_deps m) (sm_refuses m) false);
  m_shutdown := fun m => (None, m);
  m_check_health := fun m => (Healthy, m);
  m_id := fun m => if sm_deps m then ModOrderBook else ModRisk;
  m_name := fun _ => "sample"%string;
  m_dependencies := sm_deps;
  m_state := fun m => if sm_up m then MsRunning else MsCreated;
}.
Definition sample_kernel (refuses : bool) : Kernel sample_module :=
  mkKernel (<[ModRisk := mkSample [ModOrderBook] refuses false]> (<[ModOrderBook := mkSample [] false false]> ∅)) []
    ThreadManager_init ∅ O.
Lemma initialize_in_order_witness :
  (exists k', initialize [ModRisk; ModOrderBook] [ModOrderBook; ModRisk] (sample_kernel false) = Ret (None, k') /\
    k_startup_order k' = [ModOrderBook; ModRisk] /\
    phase_done m_initialize [ModOrderBook; ModRisk] (k_modules (sample_kernel false)) (k_modules k')) /\
  (exists k', initialize [ModRisk; ModOrderBook] [ModOrderBook; ModRisk] (sample_kernel true) =
    Ret (Some "Module 'sample' failed to initialize: no memory"%string, k') /\ has_critical_failures (k_health k') = true).
Proof.
  assert (forall b id, id ∈ [ModRisk; ModOrderBook] <-> is_Some (k_modules (sample_kernel b) !! id)) as K.
  { intros b id. cbn [k_modules sample_kernel]. destruct (decide (id = ModRisk)) as [->|N1].
    { rewrite lookup_insert_eq. split; [by eexists|by left]. }
    rewrite lookup_insert_ne by done. destruct (decide (id = ModOrderBook)) as [->|N2].
    { rewrite lookup_insert_eq. split; [by eexists|by right; left]. }
    rewrite lookup_insert_ne, lookup_empty by done. split; [set_solver|by intros []]. }
  assert (NoDup [ModRisk; ModOrderBook]) as ND by (apply NoDup_cons; split; [set_solver|apply NoDup_singleton]).
  assert ([ModOrderBook; ModRisk] ≡ₚ [ModRisk; ModOrderBook]) as P by apply perm_swap.
  split.
  - destruct (initialize_in_order [ModRisk; ModOrderBook] [ModOrderBook; ModRisk] (sample_kernel false) ND P (K false))
      as (res & k' & E & [[-> (e & -> & _)]|[_ D]]); [exfalso; vm_compute in E; discriminate E|].
    exists k'. assert (res = None /\ k_startup_order k' = [ModOrderBook; ModRisk]) as [-> Eo].
    { vm_compute in E. injection E as <- <-. split; reflexivity. }
    split; [exact E|]. split; [exact Eo|]. rewrite Eo in D. exact D.
  - destruct (initialize_in_order [ModRisk; ModOrderBook] [ModOrderBook; ModRisk] (sample_kernel true) ND P (K true))
      as (res & k' & E & [[-> (e & -> & _)]|[_ D]]); [exfalso; vm_compute in E; discriminate E|].
    assert (res = Some "Module 'sample' failed to initialize: no memory"%string) as ->.
    { vm_compute in E. injection E as <- _. reflexivity. }
    exists k'. split; [exact E|]. exact (proj2 D).
Defined.

(** ** Taking the kernel down *)
Section down.
Context {M : Type} `{IModule M}.
Definition module_stopped (m : M) : M := if decide (m_state m = MsRunning) then (m_stop m).2 else m.
Definition module_down (m : M) : M := (m_shutdown (module_stopped m)).2.

(** [f] is applied to the modules of [ids], once to each. *)
Definition applied (f : M -> M) (ids : list ModuleId) (ms ms' : gmap ModuleId M) : Prop :=
  forall id, ms' !! id = if decide (id ∈ ids) then f <$> ms !! id else ms !! id.
Lemma applied_cons f id ids (ms ms' : gmap ModuleId M) m :
  id ∉ ids -> ms !! id = Some m -> applied f ids (<[id := f m]> ms) ms' -> applied f (id :: ids) ms ms'.
Proof.
  intros N E A i. rewrite A. destruct (decide (i = id)) as [->|Ni].
  - rewrite decide_False, decide_True by set_solver. by rewrite lookup_insert_eq, E.
  - rewrite lookup_insert_ne by done. destruct (decide (i ∈ ids)); [rewrite decide_True by set_solver|rewrite decide_False by set_solver]; done.
Qed.

Lemma stop_all_spec ids : forall k : Kernel M, NoDup ids -> (forall id, id ∈ ids -> is_Some (k_modules k !! id)) ->
  exists k', stop_all ids k = Ret k' /\ k_startup_order k' = k_startup_order k /\ k_threads k' = k_threads k /\
    applied module_stopped ids (k_modules k) (k_modules k').
Proof.
  induction ids as [|id ids IH]; intros k ND S; [by exists k|]. apply NoDup_cons in ND as [N ND].
  destruct (S id) as [m E]; [set_solver|]. cbn [stop_all]. rewrite E.
  set (k1 := if decide (m_state m = MsRunning)
             then k_update id MsStopped Healthy (k_set_modules (<[id := (m_stop m).2]> (k_modules k)) (k_update id MsStopping Healthy k))
             else k).
  assert (k_modules k1 = <[id := module_stopped m]> (k_modules k) /\ k_startup_order k1 = k_startup_order k /\
    k_threads k1 = k_threads k) as (E1 & E2 & E3).
  { unfold k1, module_stopped. destruct (decide _); [done|]. by rewrite insert_id. }
  destruct (IH k1) as (k' & Ek & Eo & Et & A); [done|intros i Hi; rewrite E1, lookup_insert_ne by set_solver; apply S; set_solver|].
  exists k'. rewrite Eo, Et, E2, E3. split_and!; [|done..|].
  - unfold k1 in Ek. by destruct (decide _).
  - rewrite E1 in A. by eapply applied_cons.
Qed.
Lemma shutdown_all_spec ids : forall k : Kernel M, NoDup ids -> (forall id, id ∈ ids -> is_Some (k_modules k !! id)) ->
  exists k', shutdown_all ids k = Ret k' /\ k_startup_order k' = k_startup_order k /\ k_threads k' = k_threads k /\
    applied (fun m => (m_shutdown m).2) ids (k_modules k) (k_modules k').
Proof.
  induction ids as [|id ids IH]; intros k ND S; [by exists k|]. apply NoDup_cons in ND as [N ND].
  destruct (S id) as [m E]; [set_solver|]. cbn [shutdown_all]. rewrite E.
  destruct (IH (k_update id MsShutdown Healthy (k_set_modules (<[id := (m_shutdown m).2]> (k_modules k)) k)))
    as (k' & Ek & Eo & Et & A); [done|intros i Hi; cbn; rewrite lookup_insert_ne by set_solver; apply S; set_solver|].
  exists k'. split_and!; [done..|]. by eapply applied_cons.
Qed.

(** The destructor takes down every module of the startup order, stopping those
    that run, leaves the others alone and joins every worker. *)
Lemma kernel_taken_down (k : Kernel M) :
  NoDup (k_startup_order k) -> (forall id, id ∈ k_startup_order k -> is_Some (k_modules k !! id)) ->
  exists k2, Kernel_destroy k = Ret k2 /\
    applied module_down (k_startup_order k) (k_modules k) (k_modules k2) /\
    tm_threads (k_threads k2) = [] /\ map_Forall (fun _ w => ws_is_active w = false) (tm_workers (k_threads k2)).
Proof.
  intros ND S. assert (forall id, id ∈ rev (k_startup_order k) <-> id ∈ k_startup_order k) as R by (intros; by rewrite <- (Permutation_rev (k_startup_order k))).
  destruct (stop_all_spec (rev (k_startup_order k)) k) as (k1 & E1 & O1 & T1 & A1);
    [by rewrite <- (Permutation_rev (k_startup_order k))|intros id Hid; by apply S, R|].
  destruct (shutdown_all_spec (rev (k_startup_order k)) k1) as (k2 & E2 & O2 & T2 & A2);
    [by rewrite <- (Permutation_rev (k_startup_order k))|intros id Hid; rewrite A1, decide_True by done; apply fmap_is_Some, S, R, Hid|].
  eexists. split; [unfold Kernel_destroy, stop, shutdown; rewrite E1, bind_Ret, O1, E2, bind_Ret; done|].
  split; [|split; [done|]].
  - intros id. cbn [k_modules]. rewrite A2, A1. destruct (decide (id ∈ rev _)) as [I|I]; rewrite R in I.
    + rewrite decide_True by done. by rewrite <- option_fmap_compose.
    + by rewrite decide_False by done.
  - intros n w. cbn. rewrite lookup_fmap. intros (w' & _ & ->)%fmap_Some. done.
Qed.

(** [wait] returns at the first look that finds a signal or a critical failure. *)
Lemma wait_first requested (seen : nat -> Kernel M) n : forall fuel i,
  wait_returns (requested (i + n)%nat) (seen (i + n)%nat) = true ->
  (forall j, (j < n)%nat -> wait_returns (requested (i + j)%nat) (seen (i + j)%nat) = false) ->
  (n < fuel)%nat -> wait fuel requested seen i = Ret (i + n)%nat.
Proof.
  induction n as [|n IH]; intros fuel i T F Hf; (destruct fuel as [|fuel]; [lia|]); cbn [wait].
  - rewrite Nat.add_0_r in *. by rewrite T.
  - pose proof (F 0%nat ltac:(lia)) as E. rewrite Nat.add_0_r in E. rewrite E.
    rewrite <- Nat.add_succ_comm in *. apply IH; [done| |lia].
    intros j Hj. rewrite Nat.add_succ_comm. apply F. lia.
Qed.
Lemma signal_ends_wait signal requested (k : Kernel M) :
  signal = SIGINT \/ signal = SIGTERM -> wait_returns (handle_signal signal requested) k = true.
Proof. by intros [-> | ->]. Qed.
End down.
