(* ===== verification/EventBus.v ===== *)
(** * FluxTrade: the event bus between threads

    [EventBus] (src/kernel/include/kernel/event_bus.hpp) cut at the operations on
    its [std::shared_mutex] and at the delivery to each callback: a list of
    callbacks for every type of event, any number of threads that subscribe and
    publish.  [Kernel] has the two calls as nobody interrupts them. *)
From S2P Require Import Prelude.
From stdpp Require Import functions.

(** ** The mutex *)
Record SharedMutex : Type := mkSharedMutex { sm_owner : option nat; sm_readers : gset nat }.
Definition mutex_init : SharedMutex := mkSharedMutex None ∅.
(** [std::unique_lock] and [std::shared_lock]; [None]: the thread waits. *)
Definition lock_unique (t : nat) (m : SharedMutex) : option SharedMutex :=
  if decide (sm_owner m = None /\ sm_readers m = ∅) then Some (mkSharedMutex (Some t) ∅) else None.
Definition unlock_unique (m : SharedMutex) : SharedMutex := mkSharedMutex None (sm_readers m).
Definition lock_shared (t : nat) (m : SharedMutex) : option SharedMutex :=
  if decide (sm_owner m = None) then Some (mkSharedMutex None ({[t]} ∪ sm_readers m)) else None.
Definition unlock_shared (t : nat) (m : SharedMutex) : SharedMutex := mkSharedMutex (sm_owner m) (sm_readers m ∖ {[t]}).
(** A thread that owns the mutex and locks it again has undefined behaviour. *)
Definition owns (t : nat) (m : SharedMutex) : Prop := sm_owner m = Some t \/ t ∈ sm_readers m.

(** ** The events of the kernel *)
Inductive KernelEventType : Type := SystemHeartbeatEvent | SystemShutdownEvent.
#[export] Instance KernelEventType_eq_dec : EqDecision KernelEventType.
Proof. solve_decision. Defined.
Record KernelEvent : Type := mkKernelEvent { ke_type : KernelEventType; ke_timestamp : Z }.

Section Bus.
(** [calls_bus]: the callback itself subscribes or publishes on this bus. *)
Context {T E Callback : Type} `{EqDecision T} (type_of : E -> T) (calls_bus : Callback -> bool).

(** [Publishing e i n d]: iterating over the list the lock was taken on, at
    position [i] of [n]; the callbacks [d] have had the event. *)
Inductive BusThread : Type :=
| BusIdle
| Subscribing (ty : T) (cb : Callback)
| Subscribed
| Publishing (e : E) (i n : nat) (d : list Callback).
Record Bus : Type := mkBus {
  bus_mutex : SharedMutex;
  bus_subscribers : T -> list Callback;
  bus_threads : nat -> BusThread;
}.
Definition bus_init : Bus := mkBus mutex_init (fun _ => []) (fun _ => BusIdle).

(** What is seen of the bus: a callback added, an event delivered. *)
Inductive BusEvent : Type :=
| Added (ty : T) (cb : Callback)
| Delivered (t : nat) (e : E) (cbs : list Callback).

Inductive bus_step : Bus -> list BusEvent -> Bus -> Prop :=
| subscribe_locks m m' subs ths t ty cb :
    ths t = BusIdle -> lock_unique t m = Some m' ->
    bus_step (mkBus m subs ths) [] (mkBus m' subs (<[t := Subscribing ty cb]> ths))
| subscribe_pushes m subs ths t ty cb :
    ths t = Subscribing ty cb ->
    bus_step (mkBus m subs ths) [Added ty cb] (mkBus m (<[ty := subs ty ++ [cb]]> subs) (<[t := Subscribed]> ths))
| subscribe_unlocks m subs ths t :
    ths t = Subscribed ->
    bus_step (mkBus m subs ths) [] (mkBus (unlock_unique m) subs (<[t := BusIdle]> ths))
| publish_locks m m' subs ths t e :
    ths t = BusIdle -> lock_shared t m = Some m' ->
    bus_step (mkBus m subs ths) [] (mkBus m' subs (<[t := Publishing e 0 (length (subs (type_of e))) []]> ths))
| publish_delivers m subs ths t e i n d cb :
    ths t = Publishing e i n d -> (i < n)%nat -> subs (type_of e) !! i = Some cb -> calls_bus cb = false ->
    bus_step (mkBus m subs ths) [] (mkBus m subs (<[t := Publishing e (S i) n (d ++ [cb])]> ths))
| publish_unlocks m subs ths t e n d :
    ths t = Publishing e n n d ->
    bus_step (mkBus m subs ths) [Delivered t e d] (mkBus (unlock_shared t m) subs (<[t := BusIdle]> ths)).

(** The callback reached next locks the mutex its own thread owns. *)
Definition bus_undefined (b : Bus) : Prop :=
  exists t e i n d cb, bus_threads b t = Publishing e i n d /\ (i < n)%nat /\
    bus_subscribers b (type_of e) !! i = Some cb /\ calls_bus cb = true /\ owns t (bus_mutex b).

Inductive bus_reachable : Bus -> list BusEvent -> Prop :=
| bus_begin : bus_reachable bus_init []
| bus_more b h ev b' : bus_reachable b h -> bus_step b ev b' -> bus_reachable b' (h ++ ev).

(** ** The bus as one would like it: every call happens at once *)
Definition spec_added (subs : T -> list Callback) (ev : BusEvent) : T -> list Callback :=
  match ev with Added ty cb => <[ty := subs ty ++ [cb]]> subs | Delivered _ _ _ => subs end.
Fixpoint spec_history (subs : T -> list Callback) (h : list BusEvent) : Prop :=
  match h with
  | [] => True
  | ev :: h => match ev with Added _ _ => True | Delivered _ e cbs => cbs = subs (type_of e) end /\
               spec_history (spec_added subs ev) h
  end.
Definition spec_subscribers (h : list BusEvent) : T -> list Callback := fold_left spec_added h (fun _ => []).

Lemma spec_history_app h1 : forall subs h2,
  spec_history subs (h1 ++ h2) <-> spec_history subs h1 /\ spec_history (fold_left spec_added h1 subs) h2.
Proof. induction h1 as [|ev h1 IH]; intros subs h2; cbn; [tauto|]. rewrite IH. tauto. Qed.
Lemma spec_subscribers_app h1 h2 : spec_subscribers (h1 ++ h2) = fold_left spec_added h2 (spec_subscribers h1).
Proof. apply fold_left_app. Qed.

(** ** The invariant *)
Definition thread_sound (m : SharedMutex) (subs : T -> list Callback) (t : nat) (th : BusThread) : Prop :=
  match th with
  | BusIdle => ~ owns t m
  | Subscribing _ _ | Subscribed => sm_owner m = Some t
  | Publishing e i n d => t ∈ sm_readers m /\ n = length (subs (type_of e)) /\ (i <= n)%nat /\ d = take i (subs (type_of e))
  end.
Record bus_inv (b : Bus) (h : list BusEvent) : Prop := mkBusInv {
  bi_exclusive : sm_owner (bus_mutex b) <> None -> sm_readers (bus_mutex b) = ∅;
  bi_threads t : thread_sound (bus_mutex b) (bus_subscribers b) t (bus_threads b t);
  bi_subscribers : bus_subscribers b = spec_subscribers h;
  bi_history : spec_history (fun _ => []) h;
}.

Lemma bus_init_inv : bus_inv bus_init [].
Proof. split; try done. intros t [?|Ht]; [done|]. by apply elem_of_empty in Ht. Qed.

(** A thread other than [t] sees what it saw before. *)
Lemma threads_update m m' subs subs' ths t th :
  (forall u, thread_sound m subs u (ths u)) -> thread_sound m' subs' t th ->
  (forall u, u <> t -> thread_sound m subs u (ths u) -> thread_sound m' subs' u (ths u)) ->
  forall u, thread_sound m' subs' u ((<[t := th]> ths : nat -> BusThread) u).
Proof.
  intros S St So u. destruct (decide (u = t)) as [->|N]; [by rewrite fn_lookup_insert|].
  rewrite fn_lookup_insert_ne by done. by apply So.
Qed.

Lemma bus_step_inv b h ev b' : bus_inv b h -> bus_step b ev b' -> bus_inv b' (h ++ ev).
Proof.
  intros [X S Es Hh] St.
  destruct St as [m m' subs ths t ty cb Et L|m subs ths t ty cb Et|m subs ths t Et|m m' subs ths t e Et L
    |m subs ths t e i n d cb Et Hi Hcb _|m subs ths t e n d Et]; cbn in *; pose proof (S t) as St; rewrite Et in St; cbn in St;
    rewrite ?app_nil_r.
  - unfold lock_unique in L. destruct (decide _) as [[Eo Er]|]; [|done]. injection L as <-. split; cbn; try done.
    apply (threads_update m _ subs); [exact S|done|]. intros u N Su. destruct (ths u); cbn in *; try congruence.
    intros [?|Hu]; [cbn in *; congruence|cbn in Hu; set_solver].
  - assert (sm_readers m = ∅) as Er by (apply X; congruence). split; cbn; try done.
    + apply (threads_update m _ subs); [exact S|done|]. intros u N Su. destruct (ths u); cbn in *; try done.
      set_solver.
    + by rewrite spec_subscribers_app, <-Es.
    + apply spec_history_app. by split.
  - assert (sm_readers m = ∅) as Er by (apply X; congruence). split; cbn; try done.
    apply (threads_update m _ subs); [exact S| |].
    + intros [?|Ht]; [done|]. cbn in Ht. rewrite Er in Ht. by apply elem_of_empty in Ht.
    + intros u N Su. destruct (ths u); cbn in *; try congruence. intros [?|Hu]; [done|]. apply Su. by right.
  - unfold lock_shared in L. destruct (decide _) as [Eo|]; [|done]. injection L as <-. split; cbn; try done.
    apply (threads_update m _ subs); [exact S|cbn; split_and!; [set_solver|done|lia|done]|]. intros u N Su.
    destruct (ths u); cbn in *; try congruence.
    + intros [?|Hu]; [done|]. cbn in Hu. apply Su. right. set_solver.
    + destruct Su as (Hu & Su). split; [set_solver|done].
  - destruct St as (Ht & En & Hn & Ed). split; cbn; try done.
    apply (threads_update m _ subs); [exact S| |done]. cbn. split_and!; [done|done|lia|]. by rewrite Ed, (take_S_r _ _ cb).
  - destruct St as (Ht & En & Hn & Ed). split; cbn.
    + intros Ho. apply X in Ho. set_solver.
    + apply (threads_update m _ subs); [exact S| |].
      * intros [Ho|Hu]; [|cbn in Hu; set_solver]. cbn in Ho. rewrite X in Ht by congruence. by apply elem_of_empty in Ht.
      * intros u N Su. destruct (ths u); cbn in *; try done.
        -- intros [?|Hu]; [apply Su; by left|]. cbn in Hu. apply Su. right. set_solver.
        -- destruct Su as (Hu & Su). split; [set_solver|done].
    + by rewrite spec_subscribers_app, <-Es.
    + apply spec_history_app. split; [done|]. cbn. split; [|done]. fold (spec_subscribers h). rewrite <-Es, Ed, En. apply firstn_all.
Qed.

Lemma bus_reachable_inv b h : bus_reachable b h -> bus_inv b h.
Proof. induction 1 as [|b h ev b' _ IH S]; [apply bus_init_inv|by eapply bus_step_inv]. Qed.
End Bus.
Arguments bus_more {T E Callback _ type_of calls_bus b h ev b'} _ _.

(** C40: the event bus is linearizable.  However subscriptions and publications of
    any number of threads interleave, an event is delivered to exactly the
    callbacks its type had at one moment, each once and in the order of
    subscription; no callback is added to a list while a thread iterates over one;
    and a callback that itself uses the bus always runs with the mutex owned by its
    own thread, which the standard leaves undefined. *)
Theorem bus_linearizable {T E Callback} `{EqDecision T} (type_of : E -> T) (calls_bus : Callback -> bool) b h :
  bus_reachable type_of calls_bus b h ->
  spec_history type_of (fun _ => []) h /\ bus_subscribers b = spec_subscribers h /\
  (forall t u ty cb e i n d, bus_threads b t = Subscribing ty cb -> bus_threads b u <> Publishing e i n d) /\
  (forall t e i n d cb, bus_threads b t = Publishing e i n d -> (i < n)%nat ->
     bus_subscribers b (type_of e) !! i = Some cb -> calls_bus cb = true -> bus_undefined type_of calls_bus b).
Proof.
  intros R. destruct (bus_reachable_inv _ _ _ _ R) as [X S Es Hh]. split_and!; [done|done| |].
  - intros t u ty cb e i n d Et Eu. pose proof (S t) as St. pose proof (S u) as Su. rewrite Et in St. rewrite Eu in Su.
    cbn in St, Su. destruct Su as [Hu _]. rewrite X in Hu by congruence. by apply elem_of_empty in Hu.
  - intros t e i n d cb Et Hi Hcb Hc. exists t, e, i, n, d, cb. split_and!; try done. right. pose proof (S t) as St. rewrite Et in St. apply St.
Qed.

(** On the kernel's bus: one thread subscribes to the heartbeat, and two heartbeats
    are published at the same time, the callback taking part in both. *)
Definition heartbeat (ts : Z) : KernelEvent := mkKernelEvent SystemHeartbeatEvent ts.
(** One more step of a run, its conditions evaluated *)
Ltac bus_turn R S :=
  pose proof S as X; repeat (first [specialize (X eq_refl) | specialize (X ltac:(lia))]); clear R; rename X into R.
Lemma heartbeat_run (calls_bus : nat -> bool) : calls_bus 7%nat = false -> exists b,
  bus_reachable ke_type calls_bus b
    [Added SystemHeartbeatEvent 7%nat; Delivered 2 (heartbeat 6) [7%nat]; Delivered 1 (heartbeat 5) [7%nat]].
Proof.
  intros Hc. eexists.
  pose proof (bus_begin ke_type calls_bus) as R.
  bus_turn R (fun H1 H2 => bus_more R (subscribe_locks ke_type calls_bus _ (mkSharedMutex (Some 0%nat) ∅) _ _ 0 SystemHeartbeatEvent 7%nat H1 H2)).
  bus_turn R (fun H => bus_more R (subscribe_pushes ke_type calls_bus _ _ _ 0 SystemHeartbeatEvent 7%nat H)).
  bus_turn R (fun H => bus_more R (subscribe_unlocks ke_type calls_bus _ _ _ 0 H)).
  bus_turn R (fun H1 H2 => bus_more R (publish_locks ke_type calls_bus _ (mkSharedMutex None ({[1%nat]} ∪ ∅)) _ _ 1 (heartbeat 5) H1 H2)).
  bus_turn R (fun H1 H2 => bus_more R (publish_locks ke_type calls_bus _ (mkSharedMutex None ({[2%nat]} ∪ ({[1%nat]} ∪ ∅))) _ _ 2 (heartbeat 6) H1 H2)).
  bus_turn R (fun H1 H2 H3 => bus_more R (publish_delivers ke_type calls_bus _ _ _ 2 (heartbeat 6) 0 1 [] 7%nat H1 H2 H3 Hc)).
  bus_turn R (fun H1 H2 H3 => bus_more R (publish_delivers ke_type calls_bus _ _ _ 1 (heartbeat 5) 0 1 [] 7%nat H1 H2 H3 Hc)).
  bus_turn R (fun H => bus_more R (publish_unlocks ke_type calls_bus _ _ _ 2 (heartbeat 6) 1 [7%nat] H)).
  bus_turn R (fun H => bus_more R (publish_unlocks ke_type calls_bus _ _ _ 1 (heartbeat 5) 1 [7%nat] H)).
  exact R.
Qed.
Lemma bus_linearizable_witness : exists b,
  bus_reachable ke_type (fun _ => false) b
    [Added SystemHeartbeatEvent 7%nat; Delivered 2 (heartbeat 6) [7%nat]; Delivered 1 (heartbeat 5) [7%nat]] /\
  bus_subscribers b SystemHeartbeatEvent = [7%nat].
Proof.
  destruct (heartbeat_run (fun _ => false) eq_refl) as (b & R). exists b. split; [exact R|].
  destruct (bus_linearizable ke_type (fun _ => false) b _ R) as (_ & E & _). rewrite E. reflexivity.
Defined.
