(* ===== verification/EngineManager.v ===== *)
(** * FluxTrade: one symbol's engine

    [OutboundReport] and [EngineManager] (src/exchange): the thread that takes
    commands from its inbound queue, validates them, journals the accepted ones,
    runs the matching engine and sends a report per execution.  The two queues
    are references to the exchange's; they are passed along.  The n-th reading of
    the steady clock by the engine's thread is [now n]. *)
From S2P Require Import Prelude Domain RingBuffer Wire Gateway Journal OrderBook TradeBuilder MatchingEngine RiskState RiskEngine.
Local Open Scope Z_scope.

(** ** Reports to the clients *)
Inductive OutboundType : Type := OutExecutionReport | OutReject.
(** The union, by the member last written; [DataZero] is the zeroed storage. *)
Inductive OutboundData : Type :=
| DataZero
| DataExecution (p : ExecutionReportPacket)
| DataReject (p : RejectPacket).
Record OutboundReport : Type := mkOutbound {
  or_type : OutboundType;
  or_conn_id : Z;
  or_data : OutboundData;
}.
Definition default_outbound : OutboundReport := mkOutbound OutReject (-1) DataZero.
Definition OUTBOUND_CAPACITY : Z := 4096.

(** ** The engine *)
Record EngineManager : Type := mkEngineManager {
  em_symbol_id : Z;
  em_core_id : Z;
  em_running : bool;
  em_journal_queue : SPSCQueue LogEntry;
  em_disk_journal : DiskJournal;
  em_matching : MatchingEngine;
  em_risk : RiskEngine;
  em_exec_ctx : ExecutionContext;
  em_ticks : nat;
}.
Definition default_entry : LogEntry := mkEntry (mkRecordHeader 0 0 0 0 0) (replicate 256 0).
(** The constructor; [files]: what the directory of the journal already holds. *)
Definition DEFAULT_MAX_FILE_SIZE : Z := 512 * 1024 * 1024.
Definition EngineManager_init (symbol_id core_id : Z) (files : gmap Z (list Z)) : EngineManager :=
  {| em_symbol_id := symbol_id; em_core_id := core_id; em_running := false;
     em_journal_queue := queue_init JOURNAL_CAPACITY default_entry;
     em_disk_journal := DiskJournal_init FlushBatch DEFAULT_MAX_FILE_SIZE files;
     em_matching := MatchingEngine_init false; em_risk := risk_reset;
     em_exec_ctx := ExecutionContext_init; em_ticks := O |}.

Definition em_set_running (b : bool) (em : EngineManager) : EngineManager :=
  mkEngineManager (em_symbol_id em) (em_core_id em) b (em_journal_queue em) (em_disk_journal em)
    (em_matching em) (em_risk em) (em_exec_ctx em) (em_ticks em).
Definition em_set_journal (q : SPSCQueue LogEntry) (em : EngineManager) : EngineManager :=
  mkEngineManager (em_symbol_id em) (em_core_id em) (em_running em) q (em_disk_journal em)
    (em_matching em) (em_risk em) (em_exec_ctx em) (em_ticks em).
Definition em_set_matching (m : MatchingEngine) (c : ExecutionContext) (em : EngineManager) : EngineManager :=
  mkEngineManager (em_symbol_id em) (em_core_id em) (em_running em) (em_journal_queue em) (em_disk_journal em)
    m (em_risk em) c (em_ticks em).
Definition em_set_risk (r : RiskEngine) (em : EngineManager) : EngineManager :=
  mkEngineManager (em_symbol_id em) (em_core_id em) (em_running em) (em_journal_queue em) (em_disk_journal em)
    (em_matching em) r (em_exec_ctx em) (em_ticks em).
(** [n] readings of the clock *)
Definition em_advance (n : nat) (em : EngineManager) : EngineManager :=
  mkEngineManager (em_symbol_id em) (em_core_id em) (em_running em) (em_journal_queue em) (em_disk_journal em)
    (em_matching em) (em_risk em) (em_exec_ctx em) (em_ticks em + n)%nat.

(** [start] and [stop], up to the threads they start and join *)
Definition em_start (em : EngineManager) : EngineManager :=
  if em_running em then em else em_set_running true em.
Definition em_stop (em : EngineManager) : EngineManager :=
  if negb (em_running em) then em else em_set_running false em.

(** ** Reports of an execution *)
Definition execution_packet (side : Side) (r : TradeBuilder.ExecutionReport) : ExecutionReportPacket :=
  mkExecutionReport
    (mkHeader (packet_size ExecutionReportPacket) (MessageType_code Wire.ExecutionReport) 0
       (rp_exec_id r) (rp_timestamp r))
    (rp_order_id r) (rp_order_id r) (rp_symbol_id r) (rp_account_id r)
    (u64 (rp_price r)) (u64 (rp_last_qty r + rp_remaining_qty r)) (rp_last_qty r) (rp_remaining_qty r)
    (if decide (side = Buy) then 0 else 1) (ExecutionType_code (rp_exec_type r)) (replicate 6 0).
Definition execution_outbound (conn_id : Z) (side : Side) (r : TradeBuilder.ExecutionReport) : OutboundReport :=
  mkOutbound OutExecutionReport conn_id (DataExecution (execution_packet side r)).

(** What an execution tells the risk engine *)
Definition report_risk (side : Side) (r : TradeBuilder.ExecutionReport) (risk : RiskEngine) : outcome RiskEngine :=
  if decide (rp_exec_type r = ExecTrade) then
    RiskEngine.update_on_fill (rp_account_id r) (rp_symbol_id r) side (rp_last_qty r) (u64 (rp_price r)) risk
  else if decide (rp_exec_type r = ExecCancel) then
    RiskEngine.update_on_cancel (rp_account_id r) (order_cost (rp_price r) (rp_last_qty r)) risk
  else Ret risk.

(** The loop of [dispatch_reports], from index [i], [n] reports to go *)
Fixpoint dispatch_loop (n : nat) (i conn_id : Z) (side : Side) (em : EngineManager)
    (outbound : SPSCQueue OutboundReport) : outcome (EngineManager * SPSCQueue OutboundReport) :=
  match n with
  | O => Ret (em, outbound)
  | S n =>
      r ← arr_get (reports (em_exec_ctx em)) i;
      pushed ← push OUTBOUND_CAPACITY outbound (execution_outbound conn_id side r);
      risk ← report_risk side r (em_risk em);
      dispatch_loop n (i + 1) conn_id side (em_set_risk risk em) pushed.2
  end.
Definition dispatch_reports (conn_id : Z) (side : Side) (em : EngineManager)
    (outbound : SPSCQueue OutboundReport) : outcome (EngineManager * SPSCQueue OutboundReport) :=
  dispatch_loop (report_count (em_exec_ctx em)) 0 conn_id side em outbound.

(** ** Commands *)
Definition risk_context (reference_price : Z) (cmd : OrderCommand) : RiskContext :=
  {| rc_order_id := oc_client_order_id cmd; rc_price := oc_price cmd; rc_qty := oc_qty cmd;
     rc_timestamp := oc_timestamp cmd; rc_reference_price := reference_price;
     rc_client_order_id := oc_client_order_id cmd; rc_symbol_id := oc_symbol_id cmd; rc_client_id := 1;
     rc_account_id := oc_account_id cmd; rc_side := oc_side cmd; rc_type := oc_order_type cmd |}.
Definition new_order (cmd : OrderCommand) (exchange_timestamp : Z) : Order :=
  MkOrder (oc_client_order_id cmd) (oc_price cmd) (oc_qty cmd) (oc_sequence cmd) (oc_timestamp cmd)
    exchange_timestamp 1 (oc_account_id cmd) (oc_symbol_id cmd) (oc_side cmd) (oc_order_type cmd)
    (oc_tif cmd) FlagNone.
Definition reject_outbound (timestamp : Z) (cmd : OrderCommand) (reason : RejectReason) : OutboundReport :=
  mkOutbound OutReject (oc_conn_id cmd) (DataReject
    (mkReject (mkHeader (packet_size RejectPacket) (MessageType_code Reject) 0 (oc_sequence cmd) timestamp)
       (oc_client_order_id cmd) (oc_account_id cmd) (RejectReason_code reason) (replicate 6 0) (replicate 4 0))).

Section Engine.
(** The readings of the clock; what the payload array of a journal entry and
    the gap of a command's representation hold before they are written. *)
Context (now : nat -> Z) (stack : list Z) (gap : Z).
Definition em_reading (em : EngineManager) (k : nat) : Z := now (em_ticks em + k)%nat.

(** The part of [process_command] after the command passed the checks *)
Definition execute_command (cmd : OrderCommand) (em : EngineManager) (outbound : SPSCQueue OutboundReport)
    : outcome (EngineManager * SPSCQueue OutboundReport) :=
  appended ← journal_append stack (em_journal_queue em) (oc_sequence cmd) (oc_timestamp cmd)
               (u16 (CommandType_code (oc_type cmd))) (command_bytes gap cmd);
  let em := em_set_journal appended.2 em in
  match oc_type cmd with
  | CmdNewOrder =>
      let order := new_order cmd (em_reading em 0) in
      let em := em_advance 1 em in
      '(_, ctx, matching) ← submit_order (em_reading em 0) (em_reading em 1) (em_reading em 2) order
                              (ctx_reset (em_exec_ctx em)) (em_matching em);
      dispatch_reports (oc_conn_id cmd) (oc_side cmd) (em_advance 3 (em_set_matching matching ctx em)) outbound
  | CmdCancelOrder =>
      '(found, ctx, matching) ← cancel_order (em_reading em 0) (em_reading em 1) (em_reading em 2)
                                  (oc_orig_client_order_id cmd) 1 (oc_account_id cmd) (oc_symbol_id cmd)
                                  (ctx_reset (em_exec_ctx em)) (em_matching em);
      dispatch_reports (oc_conn_id cmd) Buy
        (em_advance (if (found : bool) then 3 else 2) (em_set_matching matching ctx em)) outbound
  | _ => Ret (em, outbound)
  end.

Definition process_command (cmd : OrderCommand) (em : EngineManager) (outbound : SPSCQueue OutboundReport)
    : outcome (EngineManager * SPSCQueue OutboundReport) :=
  reference ← Price.from_double (Double.of_int 100);
  '(res, risk, _) ← RiskEngine.validate (em_reading em 0) (em_reading em 1) (em_reading em 2) (em_reading em 3)
                      (risk_context reference cmd) (em_risk em) [];
  let em := em_advance 4 (em_set_risk risk em) in
  match res with
  | inl _ => execute_command cmd em outbound
  | inr reason =>
      let report := reject_outbound (em_reading em 0) cmd reason in
      pushed ← push OUTBOUND_CAPACITY outbound report;
      Ret (em_advance 1 em, pushed.2)
  end.

(** One turn of [run]'s loop; [None]: the loop is left. *)
Definition engine_turn (em : EngineManager) (inbound : SPSCQueue OrderCommand) (outbound : SPSCQueue OutboundReport)
    : outcome (option (EngineManager * SPSCQueue OrderCommand * SPSCQueue OutboundReport)) :=
  if em_running em then
    r ← pop INBOUND_CAPACITY inbound;
    match r.1 with
    | Some cmd =>
        '(em, outbound) ← process_command cmd em outbound;
        Ret (Some (em, r.2, outbound))
    | None => Ret (Some (em, r.2, outbound))
    end
  else Ret None.
End Engine.
