(* ===== verification/EngineRefine.v ===== *)
(** * FluxTrade: lemmas about one symbol's engine

    The outbound queue receives the image of the reports; the risk engine takes
    every report as long as the positions have room for the quantities traded;
    one command refines [spec_process] on the abstract view of the engine. *)
From S2P Require Import Prelude Domain ObjectPool DList BookSpec OrderList SideBook OrderBook BookRefine BookOps BookClear MatchSpec RingBuffer Wire Gateway Checksum Journal JournalRefine TradeBuilder MatchingEngine MatchRefine RiskState RiskEngine RiskRefine RiskProperties EngineManager.
Local Open Scope Z_scope.

(** ** Bounded queues as lists *)
Definition bounded {A} (capacity : Z) (l : list A) : list A := take (Z.to_nat capacity) l.

Lemma bounded_app {A} capacity (l k : list A) : bounded capacity (bounded capacity l ++ k) = bounded capacity (l ++ k).
Proof. apply take_app_take. Qed.
Lemma bounded_fits {A} capacity (l : list A) : Z.of_nat (length l) <= capacity -> bounded capacity l = l.
Proof. intros H. apply take_ge. lia. Qed.

Lemma push_bounded {A} capacity (q : SPSCQueue A) l v :
  0 < capacity < 2 ^ 64 -> Z.land capacity (capacity - 1) = 0 -> queue_rep capacity q l ->
  exists b q', push capacity q v = Ret (b, q') /\ queue_rep capacity q' (bounded capacity (l ++ [v])).
Proof.
  intros Hp Hl R. unfold push. pose proof R as (_ & L & _).
  destruct (decide (Z.of_nat (length l) < capacity)) as [Hr|Hr].
  - destruct (emplace_room capacity Hp Hl q l v R Hr) as (q' & E & R'). exists true, q'. split; [exact E|].
    rewrite bounded_fits; [exact R'|]. rewrite length_app. simpl. lia.
  - exists false, q. split; [apply (emplace_full capacity Hp q l v R); lia|].
    unfold bounded. rewrite take_app_le by lia. rewrite take_ge by lia. exact R.
Qed.

(** ** Positions have room for what is traded *)
Definition margin_all (P : PositionState -> Prop) (m : MarginManager) : Prop :=
  length m = 128%nat /\ Forall (fun row => length row = 32%nat /\ Forall P row) m.
Definition position_room (n : Z) (p : PositionState) : Prop :=
  0 <= long_qty p /\ 0 <= short_qty p /\ net_qty p = long_qty p - short_qty p /\
  long_qty p + short_qty p + n <= 2 ^ 62 /\ 0 <= max_long_limit p < 2 ^ 64 /\ 0 <= max_short_limit p < 2 ^ 64.

Lemma margin_all_impl (P Q : PositionState -> Prop) m :
  (forall p, P p -> Q p) -> margin_all P m -> margin_all Q m.
Proof.
  intros PQ [L F]. split; [done|]. eapply Forall_impl; [exact F|]. simpl. intros row [Lr Fr].
  split; [done|]. eapply Forall_impl; [exact Fr|]. exact PQ.
Qed.
Lemma position_room_ok n p : 0 <= n -> position_room n p -> position_ok p.
Proof. unfold position_room, position_ok. lia. Qed.
Lemma position_room_le n k p : k <= n -> position_room n p -> position_room k p.
Proof. unfold position_room. lia. Qed.

Lemma position_update_all (P Q : PositionState -> Prop) f account symbol m :
  (forall p, P p -> Q p) -> (forall p, P p -> exists p', f (adopt_position account symbol p) = Ret p' /\ Q p') ->
  margin_all P m -> exists p m', position_update f account symbol m = Ret (p, m') /\ margin_all Q m'.
Proof.
  intros PQ Hf [L F]. pose proof (mod_index account MAX_MARGIN_ACCOUNTS ltac:(done)) as Ba.
  pose proof (mod_index symbol MAX_MARGIN_SYMBOLS ltac:(done)) as Bs.
  unfold position_update, MAX_MARGIN_ACCOUNTS, MAX_MARGIN_SYMBOLS in *.
  destruct (arr_get_live m (account mod 128)) as (row & E & ->); [rewrite L; lia|].
  pose proof (Forall_lookup_1 _ _ _ _ F E) as [Lr Fr].
  destruct (arr_get_live row (symbol mod 32)) as (p & E2 & G2); [rewrite Lr; lia|].
  destruct (Hf p (Forall_lookup_1 _ _ _ _ Fr E2)) as (p' & Ef & Hp').
  rewrite !bind_Ret, G2, bind_Ret, Ef, bind_Ret, arr_set_Ret, bind_Ret, arr_set_Ret, bind_Ret by lia.
  eexists _, _. split; [done|].
  destruct (margin_all_impl P Q m PQ (conj L F)) as [L' F']. split; [by rewrite length_insert|].
  apply Forall_insert; [done|]. split; [by rewrite length_insert|]. apply Forall_insert; [|done].
  eapply Forall_impl; [exact Fr|exact PQ].
Qed.

Lemma adopt_position_room n a s p : position_room n p -> position_room n (adopt_position a s p).
Proof. unfold adopt_position. by destruct (_ && _). Qed.

Lemma position_fill_room n side q p :
  0 <= q <= n -> position_room n p -> exists p', position_fill side q p = Ret p' /\ position_room (n - q) p'.
Proof.
  intros Q (HL & HS & HN & HR & HM). unfold position_fill.
  assert (forall x, 0 <= x <= 2 ^ 62 -> i64 x = x) as SM by (intros; apply i64_small; lia).
  destruct (decide (side = Buy)).
  - rewrite (u64_small (long_qty p + q)), !SM, signed64_Ret, bind_Ret by lia.
    eexists. split; [done|]. unfold position_room. simpl. lia.
  - rewrite (u64_small (short_qty p + q)), !SM, signed64_Ret, bind_Ret by lia.
    eexists. split; [done|]. unfold position_room. simpl. lia.
Qed.

(** The risk engine of an [EngineManager] with room for [n] more units on every position *)
Definition risk_room (n : Z) (e : RiskEngine) : Prop := risk_ok e /\ margin_all (position_room n) (re_margin e).

Lemma risk_room_le n k e : k <= n -> risk_room n e -> risk_room k e.
Proof. intros H [W M]. split; [done|]. eapply margin_all_impl; [|exact M]. intros p. by apply position_room_le. Qed.
Lemma risk_reset_room : risk_room (2 ^ 62) risk_reset.
Proof.
  split; [apply risk_reset_ok|]. split; [done|]. simpl. unfold margin_reset. apply Forall_fmap, Forall_forall.
  intros a _. split; [done|]. apply Forall_fmap, Forall_forall. intros s _. unfold position_room. simpl. lia.
Qed.

(** ** Reports and the risk engine *)
(** The quantity a report adds to a position *)
Definition report_qty (r : ExecutionReport) : Z := if decide (rp_exec_type r = ExecTrade) then rp_last_qty r else 0.
Fixpoint report_risks (side : Side) (rs : list ExecutionReport) (risk : RiskEngine) : outcome RiskEngine :=
  match rs with
  | [] => Ret risk
  | r :: rs => risk ← report_risk side r risk; report_risks side rs risk
  end.

Lemma report_risk_total n side r e :
  risk_room n e -> 0 <= rp_last_qty r -> report_qty r <= n ->
  exists e', report_risk side r e = Ret e' /\ risk_room (n - report_qty r) e'.
Proof.
  intros [W M] Hq Hn. unfold report_risk, report_qty in *.
  destruct (decide (rp_exec_type r = ExecTrade)) as [T|T].
  - unfold RiskEngine.update_on_fill, margin_update_on_fill.
    destruct (position_update_all (position_room n) (position_room (n - rp_last_qty r))
      (position_fill side (rp_last_qty r)) (rp_account_id r) (rp_symbol_id r) (re_margin e)) as (p & m' & -> & M').
    { intros p. apply position_room_le. lia. }
    { intros p Hp. apply position_fill_room; [lia|]. by apply adopt_position_room. }
    { done. }
    rewrite !bind_Ret. unfold credit_update_on_fill.
    destruct (credit_update_Ret (account_fill (u64 (rp_last_qty r * u64 (rp_price r)))) (rp_account_id r) _ (ok_credit _ W))
      as (a & Ea & Oa & ->). rewrite bind_Ret. eexists. split; [done|]. destruct W. split; [split; try done; simpl|done].
    + apply credit_insert_ok; [done|]. apply account_fill_ok; [by apply adopt_account_ok|apply u64_bound].
    + apply (margin_all_impl (position_room (n - rp_last_qty r)) position_ok); [|done].
      intros q. apply position_room_ok. lia.
  - rewrite Z.sub_0_r. destruct (decide (rp_exec_type r = ExecCancel)); [|by exists e].
    unfold RiskEngine.update_on_cancel, credit_update_on_cancel.
    destruct (credit_update_Ret (account_cancel (order_cost (rp_price r) (rp_last_qty r))) (rp_account_id r) _ (ok_credit _ W))
      as (a & Ea & Oa & ->). rewrite bind_Ret. eexists. split; [done|]. destruct W. split; [split; try done; simpl|done].
    apply credit_insert_ok; [done|]. apply account_cancel_ok; [by apply adopt_account_ok|apply order_cost_nonneg].
Qed.

Lemma report_risks_total side rs : forall n e,
  risk_room n e -> Forall (fun r => 0 <= rp_last_qty r) rs -> sumZ (map report_qty rs) <= n ->
  exists e', report_risks side rs e = Ret e' /\ risk_room (n - sumZ (map report_qty rs)) e'.
Proof.
  induction rs as [|r rs IH]; intros n e R F S; cbn [report_risks map] in *.
  { rewrite sumZ_nil, Z.sub_0_r. by exists e. }
  apply Forall_cons in F as [Hr F]. rewrite sumZ_cons in S.
  assert (0 <= sumZ (map report_qty rs)) as NN.
  { apply sumZ_nonneg, Forall_fmap. eapply Forall_impl; [exact F|]. simpl. intros x Hx. unfold report_qty.
    by destruct (decide _). }
  destruct (report_risk_total n side r e R Hr ltac:(lia)) as (e1 & -> & R1). rewrite bind_Ret.
  destruct (IH _ _ R1 F ltac:(lia)) as (e2 & -> & R2). exists e2. split; [done|].
  rewrite sumZ_cons. by replace (n - (report_qty r + sumZ (map report_qty rs))) with
    (n - report_qty r - sumZ (map report_qty rs)) by lia.
Qed.

(** ** Validation keeps the room *)
Lemma policy_room n p ctx e ok e' :
  p ∈ PreTradeRiskPipeline -> policy_validate p ctx e = Ret (ok, e') ->
  margin_all (position_room n) (re_margin e) -> margin_all (position_room n) (re_margin e').
Proof.
  intros Hp E M. unfold PreTradeRiskPipeline in Hp.
  repeat (apply elem_of_cons in Hp as [->|Hp]); [..|by apply elem_of_nil in Hp]; simpl in E;
    first [by injection E as _ <-
          |by apply bind_Ret_inv in E as (x & _ & [= _ <-])
          |by apply bind_Ret_inv in E as ([x y] & _ & [= _ <-])
          |idtac].
  destruct (position_update_all (position_room n) (position_room n) Ret (rc_account_id ctx) (rc_symbol_id ctx) (re_margin e))
    as (q & m' & Eq & M').
  { done. }
  { intros q Hq. eexists. split; [done|]. by apply adopt_position_room. }
  { done. }
  unfold get_position_state in E. rewrite Eq, bind_Ret in E. apply bind_Ret_inv in E as (x & _ & [= _ <-]). exact M'.
Qed.
Lemma run_policies_room n ps ctx : forall e t r e' t',
  ps ⊆ PreTradeRiskPipeline -> run_policies ps ctx e t = Ret (r, e', t') ->
  margin_all (position_room n) (re_margin e) -> margin_all (position_room n) (re_margin e').
Proof.
  induction ps as [|p ps IH]; intros e t r e' t' S; simpl; [by intros [= _ <- _]|].
  intros E M. apply bind_Ret_inv in E as ([ok e1] & E1 & E).
  apply (policy_room n) in E1; [|apply S; left|done]. destruct ok; [|by injection E as _ <- _].
  eapply IH; [|exact E|done]. intros x Hx. apply S. by right.
Qed.

Lemma validate_room n t0 t1 t2 t3 ctx e trace :
  risk_room n e -> 0 <= rc_qty ctx < 2 ^ 62 ->
  exists res e' tr, RiskEngine.validate t0 t1 t2 t3 ctx e trace = Ret (res, e', tr) /\ risk_room n e'.
Proof.
  intros [W M] Q. destruct (validate_unfold t0 t1 t2 t3 ctx e trace W Q) as (r & e1 & tr & E & W1 & _ & ->).
  apply (run_policies_room n) in E; [|done|done].
  destruct r as [r|]; [eexists _, _, _; split; [done|]; split; [by destruct W1|done]|].
  destruct (credit_update_Ret (account_accept (order_cost (rc_price ctx) (rc_qty ctx))) (rc_account_id ctx) _ (ok_credit _ W1))
    as (a & Ea & Oa & Eu). unfold update_on_accept. rewrite Eu, bind_Ret.
  eexists _, _, _. split; [done|]. split; [|done]. destruct W1. split; try done. simpl. apply credit_insert_ok; [done|].
  apply account_accept_ok; [by apply adopt_account_ok|apply order_cost_nonneg].
Qed.

(** ** [dispatch_reports] *)
Lemma outbound_capacity : 0 < OUTBOUND_CAPACITY < 2 ^ 64 /\ Z.land OUTBOUND_CAPACITY (OUTBOUND_CAPACITY - 1) = 0.
Proof. unfold OUTBOUND_CAPACITY. split; [lia|reflexivity]. Qed.

Lemma em_set_risk_twice r1 r2 em : em_set_risk r2 (em_set_risk r1 em) = em_set_risk r2 em.
Proof. reflexivity. Qed.
Lemma em_set_risk_same em : em_set_risk (em_risk em) em = em.
Proof. by destruct em. Qed.

Lemma dispatch_loop_spec conn side rs : forall i em out l risk,
  (forall k r, rs !! k = Some r -> reports (em_exec_ctx em) !! (i + k)%nat = Some r) ->
  queue_rep OUTBOUND_CAPACITY out l -> report_risks side rs (em_risk em) = Ret risk ->
  exists out', dispatch_loop (length rs) (Z.of_nat i) conn side em out = Ret (em_set_risk risk em, out') /\
    queue_rep OUTBOUND_CAPACITY out' (bounded OUTBOUND_CAPACITY (l ++ map (execution_outbound conn side) rs)).
Proof.
  induction rs as [|r rs IH]; intros i em out l risk Hr R E; cbn [length dispatch_loop map report_risks] in *.
  { injection E as <-. exists out. rewrite em_set_risk_same. split; [done|]. rewrite app_nil_r.
    rewrite bounded_fits; [done|]. apply R. }
  apply bind_Ret_inv in E as (risk1 & E1 & E).
  rewrite (arr_get_Ret _ _ r), bind_Ret; [|lia|rewrite Nat2Z.id, <- (Nat.add_0_r i); by apply Hr].
  destruct (push_bounded OUTBOUND_CAPACITY out l (execution_outbound conn side r)) as (b & out1 & -> & R1);
    [apply outbound_capacity|apply outbound_capacity|done|].
  rewrite !bind_Ret, E1, bind_Ret. cbn [snd].
  destruct (IH (S i) (em_set_risk risk1 em) out1 _ risk ltac:(intros k x Hk; rewrite Nat.add_succ_comm; by apply Hr) R1 E)
    as (out' & Eo & R').
  exists out'. replace (Z.of_nat i + 1) with (Z.of_nat (S i)) by lia. split; [exact Eo|].
  rewrite bounded_app, <- app_assoc in R'. exact R'.
Qed.

Lemma dispatch_reports_spec conn side em out l risk :
  ctx_wf (em_exec_ctx em) -> queue_rep OUTBOUND_CAPACITY out l ->
  report_risks side (ctx_reports (em_exec_ctx em)) (em_risk em) = Ret risk ->
  exists out', dispatch_reports conn side em out = Ret (em_set_risk risk em, out') /\
    queue_rep OUTBOUND_CAPACITY out'
      (bounded OUTBOUND_CAPACITY (l ++ map (execution_outbound conn side) (ctx_reports (em_exec_ctx em)))).
Proof.
  intros [LT LR CT CR] R E. unfold dispatch_reports.
  replace (report_count (em_exec_ctx em)) with (length (ctx_reports (em_exec_ctx em)))
    by (unfold ctx_reports; rewrite length_take; lia).
  apply (dispatch_loop_spec conn side _ 0); [|done|done].
  intros k r Hk. unfold ctx_reports in Hk. by apply lookup_take_Some in Hk as [Hk _].
Qed.

(** ** The abstract engine *)
Record EngineView : Type := mkView {
  v_book : Book;
  v_exec_seq : Z;
  v_journal : list LogEntry;
  v_out : list OutboundReport;
}.
Definition v_report (rs : list OutboundReport) (v : EngineView) : EngineView :=
  mkView (v_book v) (v_exec_seq v) (v_journal v) (bounded OUTBOUND_CAPACITY (v_out v ++ rs)).
Definition v_log (e : LogEntry) (v : EngineView) : EngineView :=
  mkView (v_book v) (v_exec_seq v) (bounded JOURNAL_CAPACITY (v_journal v ++ [e])) (v_out v).
Definition v_set_book (B : Book) (seq : Z) (v : EngineView) : EngineView :=
  mkView B seq (v_journal v) (v_out v).

Definition executions (cmd : OrderCommand) (side : Side) (rs : list ExecutionReport) : list OutboundReport :=
  map (execution_outbound (oc_conn_id cmd) side) (take MAX_REPORTS rs).
(** The number of execution ids a submission uses *)
Definition spec_ids (o : Order) (B : Book) : nat := length (spec_reports o 0 0 B).

(** What a command that passed the checks does; [t0]: when it is processed,
    [t2]: the time of its reports. *)
Definition spec_execute (stack : list Z) (gap t0 t1 t2 : Z) (cmd : OrderCommand) (v : EngineView) : EngineView :=
  let v := v_log (command_entry stack gap cmd) v in
  match oc_type cmd with
  | CmdNewOrder =>
      let o := new_order cmd t0 in
      v_report (executions cmd (oc_side cmd) (spec_reports o t2 (v_exec_seq v) (v_book v)))
        (v_set_book (spec_submit o (v_book v)) (Nat.iter (spec_ids o (v_book v)) next64 (v_exec_seq v)) v)
  | CmdCancelOrder =>
      match list_find (fun r => r_id r = oc_orig_client_order_id cmd) (book_orders (v_book v)) with
      | Some (_, r) =>
          v_report (executions cmd Buy
            [MkReport (v_exec_seq v) (r_id r) (r_price r) 0 0 t1 1 (oc_account_id cmd) (oc_symbol_id cmd) RR_None ExecCancel])
            (v_set_book (spec_cancel (oc_orig_client_order_id cmd) (v_book v)) (next64 (v_exec_seq v)) v)
      | None => v
      end
  | _ => v
  end.
(** A command the checks turn down is answered and changes nothing else. *)
Definition spec_process (stack : list Z) (gap t0 t1 t2 : Z) (verdict : option RejectReason) (cmd : OrderCommand)
    (v : EngineView) : EngineView :=
  match verdict with
  | Some reason => v_report [reject_outbound t0 cmd reason] v
  | None => spec_execute stack gap t0 t1 t2 cmd v
  end.

(** The engine and its outbound queue stand for a view, with room for [n] more
    units on every position. *)
Record engine_rep (n : Z) (em : EngineManager) (out : SPSCQueue OutboundReport) (v : EngineView) : Prop := {
  er_book : abs (book_ (em_matching em)) (v_book v);
  er_seq : exec_seq_ (em_matching em) = v_exec_seq v;
  er_ctx : ctx_wf (em_exec_ctx em);
  er_risk : risk_room n (em_risk em);
  er_journal : queue_rep JOURNAL_CAPACITY (em_journal_queue em) (v_journal v);
  er_out : queue_rep OUTBOUND_CAPACITY out (v_out v) }.

(** ** What a submission reports *)
Lemma match_queue_nonneg p q : forall rem fs rem' k,
  match_queue p rem q = (fs, rem', k) -> Forall (fun r => 0 <= r_qty r) q -> Forall (fun f => 0 <= mf_qty f) fs.
Proof.
  induction q as [|r q IH]; intros rem fs rem' k; simpl; [by intros [= <- _ _]|]. intros E [Q F]%Forall_cons.
  destruct (Z.gtb_spec rem 0) as [G|G]; [|by injection E as <- _ _]. destruct (_ =? 0).
  - destruct (match_queue p _ q) as [[fs1 rem1] k1] eqn:E1. injection E as <- _ _. constructor; [simpl; lia|eauto].
  - injection E as <- _ _. constructor; [simpl; lia|done].
Qed.
Lemma match_side_nonneg crs Ls : forall rem fs rem' Ls',
  match_side crs rem Ls = (fs, rem', Ls') -> Forall level_ok Ls -> Forall (fun f => 0 <= mf_qty f) fs.
Proof.
  induction Ls as [|L Ls IH]; intros rem fs rem' Ls'; simpl; [by intros [= <- _ _]|]. intros E [OK F]%Forall_cons.
  destruct (_ && _); [|by injection E as <- _ _].
  destruct (match_queue _ _ _) as [[fs1 rem1] k] eqn:E1. apply match_queue_nonneg in E1; [|by apply level_ok_qty].
  destruct k as [|r k]; [|by injection E as <- _ _].
  destruct (match_side crs rem1 Ls) as [[fs2 rem2] Ls2] eqn:E2. injection E as <- _ _. apply Forall_app. eauto.
Qed.

Lemma fill_reports_qty o t fs : forall es rem,
  Forall (fun f => 0 <= mf_qty f) fs ->
  Forall (fun r => 0 <= rp_last_qty r) (fill_reports o t es rem fs) /\
  sumZ (map report_qty (fill_reports o t es rem fs)) = 2 * traded fs.
Proof.
  unfold traded. induction fs as [|f fs IH]; intros es rem F; cbn [fill_reports map].
  { rewrite !sumZ_nil. split; [constructor|lia]. }
  apply Forall_cons in F as [P F]. destruct (IH (next64 (next64 es)) (rem - mf_qty f) F) as [G S]. split.
  - constructor; [done|]. by constructor.
  - rewrite !sumZ_cons, S. unfold report_qty, fill_taker, taker_report, fill_maker. simpl. lia.
Qed.
Lemma fill_reports_length o t fs : forall es rem, length (fill_reports o t es rem fs) = (2 * length fs)%nat.
Proof. induction fs as [|f fs IH]; intros es rem; [done|]. cbn [fill_reports length]. rewrite IH. lia. Qed.

Lemma spec_reports_qty o t es B :
  book_wf B -> 0 <= qty o < 2 ^ 64 ->
  Forall (fun r => 0 <= rp_last_qty r) (spec_reports o t es B) /\
  sumZ (map report_qty (spec_reports o t es B)) <= 2 * qty o.
Proof.
  intros W Q. pose proof (match_side_nonneg _ _ _ _ _ _ (submit_match o B) (spec_at_levels _ B W)) as NN.
  destruct (spec_remaining_bound o B W Q) as (Rb & Tr & _).
  destruct (fill_reports_qty o t _ (next64 es) (qty o) NN) as [F S].
  unfold spec_reports. rewrite map_cons, map_app, sumZ_cons, sumZ_app, S. split.
  - constructor; [done|]. apply Forall_app. split; [done|]. destruct (_ && _); by repeat constructor.
  - assert (sumZ (map report_qty (if (spec_remaining o B >? 0) && bool_decide (type o = Market)
      then [expiration_report (Nat.iter (2 * length (spec_fills o B)) next64 (next64 es)) o t] else [])) = 0) as ->
      by (by destruct (_ && _)).
    unfold report_qty, ack_report. simpl. lia.
Qed.

Lemma take_qty n rs :
  Forall (fun r => 0 <= rp_last_qty r) rs ->
  Forall (fun r => 0 <= rp_last_qty r) (take n rs) /\ sumZ (map report_qty (take n rs)) <= sumZ (map report_qty rs).
Proof.
  intros F. split; [by apply Forall_take|]. rewrite <- (take_drop n rs) at 2. rewrite map_app, sumZ_app.
  enough (0 <= sumZ (map report_qty (drop n rs))) by lia. apply sumZ_nonneg, Forall_fmap.
  eapply Forall_impl; [by apply Forall_drop|]. simpl. intros r Hr. unfold report_qty. by destruct (decide _).
Qed.

(** ** The counter of execution ids *)
Lemma finish_order_seq o t st s e c :
  finish_order o t st = Ret (s, e, c) ->
  exec_seq_ e = if (ms_remaining st >? 0) && bool_decide (type o = Market)
                then next64 (exec_seq_ (ms_engine st)) else exec_seq_ (ms_engine st).
Proof.
  unfold finish_order. destruct (ms_remaining st >? 0); [|by intros [= _ <- _]].
  destruct (decide (type o = Limit)) as [L|L]; simpl.
  - intros E. apply bind_Ret_inv in E as ([x b] & _ & [= _ <- _]). by rewrite L.
  - destruct (decide (type o = Market)) as [M|M].
    + rewrite bool_decide_eq_true_2 by done. by intros [= _ <- _].
    + rewrite bool_decide_eq_false_2 by done. by intros [= _ <- _].
Qed.
Lemma spec_ids_eq o t es B : length (spec_reports o t es B) = spec_ids o B.
Proof. unfold spec_ids, spec_reports. cbn [length]. rewrite !length_app, !fill_reports_length. by destruct (_ && _). Qed.

Lemma submit_seq t0 t1 t2 o ctx e B res ctx' e' :
  abs (book_ e) B -> ctx_wf ctx -> 0 <= qty o < 2 ^ 64 ->
  submit_order t0 t1 t2 o ctx e = Ret (res, ctx', e') ->
  exec_seq_ e' = Nat.iter (spec_ids o B) next64 (exec_seq_ e).
Proof.
  intros R W Q. rewrite submit_match_loop.
  destruct (submit_matching o ctx e B t1 R W Q) as (st & -> & M & Rm & Rb). rewrite bind_Ret. intros E.
  apply bind_Ret_inv in E as ([[s e1] c] & E & [= _ _ <-]). apply finish_order_seq in E.
  cbn [with_stats exec_seq_]. rewrite E, Rm, (mt_eseq _ _ _ _ _ M).
  change (exec_seq_ (ms_engine (submit_start t1 o ctx e))) with (next64 (exec_seq_ e)).
  unfold spec_ids, spec_reports. cbn [length]. rewrite length_app, fill_reports_length.
  assert (forall n, Nat.iter (S n) next64 (exec_seq_ e) = Nat.iter n next64 (next64 (exec_seq_ e))) as IS.
  { intros n. apply Nat.iter_succ_r. }
  rewrite IS. clear E. destruct (_ && _); cbn [length]; [by rewrite Nat.add_1_r|by rewrite Nat.add_0_r].
Qed.

(** ** One command *)
Lemma journal_capacity : 0 < JOURNAL_CAPACITY < 2 ^ 64 /\ Z.land JOURNAL_CAPACITY (JOURNAL_CAPACITY - 1) = 0.
Proof. unfold JOURNAL_CAPACITY. split; [lia|reflexivity]. Qed.

Lemma append_command stack gap q l cmd :
  command_ok cmd -> queue_rep JOURNAL_CAPACITY q l ->
  exists b q', journal_append stack q (oc_sequence cmd) (oc_timestamp cmd) (u16 (CommandType_code (oc_type cmd)))
                 (command_bytes gap cmd) = Ret (b, q') /\
    queue_rep JOURNAL_CAPACITY q' (bounded JOURNAL_CAPACITY (l ++ [command_entry stack gap cmd])).
Proof.
  intros C R. unfold journal_append. rewrite (command_bytes_length gap cmd C). cbn [Z.of_nat Z.ltb Z.compare Pos.compare Pos.compare_cont].
  exact (push_bounded JOURNAL_CAPACITY q l (command_entry stack gap cmd) (proj1 journal_capacity) (proj2 journal_capacity) R).
Qed.

Lemma em_reading_advance now n em k : em_reading now (em_advance n em) k = em_reading now em (n + k).
Proof. unfold em_reading, em_advance. simpl. f_equal. lia. Qed.

(** Sending the reports of a command *)
Lemma dispatch_refine n m cmd side rs em out v :
  engine_rep n em out v -> ctx_reports (em_exec_ctx em) = take MAX_REPORTS rs ->
  Forall (fun r => 0 <= rp_last_qty r) rs -> sumZ (map report_qty rs) <= n - m -> 0 <= m ->
  exists em' out', dispatch_reports (oc_conn_id cmd) side em out = Ret (em', out') /\
    engine_rep m em' out' (v_report (executions cmd side rs) v).
Proof.
  intros [Eb Es Ec Er Ej Eo] Er' F S P. destruct (take_qty MAX_REPORTS rs F) as [Ft St].
  destruct (report_risks_total side (take MAX_REPORTS rs) n (em_risk em) Er Ft ltac:(lia)) as (risk & E & R).
  rewrite <- Er' in E. destruct (dispatch_reports_spec (oc_conn_id cmd) side em out _ risk Ec Eo E) as (out' & Ed & Ro).
  exists (em_set_risk risk em), out'. split; [exact Ed|]. split; [exact Eb|exact Es|exact Ec| |exact Ej|].
  - apply (risk_room_le (n - sumZ (map report_qty (take MAX_REPORTS rs)))); [lia|exact R].
  - rewrite Er' in Ro. exact Ro.
Qed.

Lemma ctx_reset_wf c : ctx_wf c -> ctx_wf (ctx_reset c) /\ ctx_reports (ctx_reset c) = [].
Proof. intros [LT LR CT CR]. split; [|done]. split; [exact LT|exact LR|simpl; lia..]. Qed.

Lemma em_after_submit n em out v matching ctx j (k : nat) B seq l :
  engine_rep n em out v -> abs (book_ matching) B -> exec_seq_ matching = seq -> ctx_wf ctx ->
  queue_rep JOURNAL_CAPACITY j l ->
  engine_rep n (em_advance k (em_set_matching matching ctx (em_set_journal j em))) out
    (mkView B seq l (v_out v)).
Proof. intros [Eb Es Ec Er Ej Eo] Rb Rs Rc Rj. by split. Qed.

Lemma new_order_refine n now stack gap cmd em out v :
  engine_rep n em out v -> command_ok cmd -> 2 * oc_qty cmd <= n -> oc_type cmd = CmdNewOrder ->
  rest_ok (new_order cmd (em_reading now em 0)) (v_book v) ->
  exists em' out', execute_command now stack gap cmd em out = Ret (em', out') /\
    engine_rep (n - 2 * oc_qty cmd) em' out'
      (spec_execute stack gap (em_reading now em 0) (em_reading now em 1) (em_reading now em 2) cmd v).
Proof.
  intros R C Hn T OK. pose proof R as [Eb Es Ec Er Ej Eo]. unfold execute_command, spec_execute.
  destruct (append_command stack gap _ _ cmd C Ej) as (b & j & -> & Rj). rewrite bind_Ret, T. cbn [snd].
  assert (0 <= oc_qty cmd < 2 ^ 64) as Q by apply C.
  destruct (ctx_reset_wf _ Ec) as [Wr R0]. set (o := new_order cmd (em_reading now em 0)) in *.
  set (t1 := em_reading now em 1). set (t2 := em_reading now em 2). set (t3 := em_reading now em 3).
  destruct (submit_refine t1 t2 t3 o (ctx_reset (em_exec_ctx em)) (em_matching em) (v_book v) Eb Wr Q OK)
    as (res & ctx & m & E & Rb & _ & _ & _ & [Lw _ Lr]).
  rewrite R0 in Lr. cbn [app] in Lr. rewrite Es in Lr.
  pose proof (submit_seq t1 t2 t3 o _ _ _ res ctx m Eb Wr Q E) as Sq. rewrite Es in Sq.
  pose proof (em_after_submit n em out v m ctx j (1 + 3) _ _ _ R Rb Sq Lw Rj) as R1.
  pose proof Eb as (? & ? & [_ WB _ _ _]). destruct (spec_reports_qty o t2 (v_exec_seq v) (v_book v) WB Q) as [F S].
  change (qty o) with (oc_qty cmd) in S.
  destruct (dispatch_refine n (n - 2 * oc_qty cmd) cmd (oc_side cmd) (spec_reports o t2 (v_exec_seq v) (v_book v)) _ out _ R1 Lr F ltac:(lia) ltac:(lia)) as (em' & out' & Ed & R2).
  exists em', out'. split; [|exact R2].
  unfold t1, t2, t3, em_reading in E. unfold em_reading. cbn [em_ticks em_advance em_set_journal em_exec_ctx em_matching].
  rewrite <- !Nat.add_assoc. cbn [Nat.add]. unfold o, em_reading in E. rewrite E, bind_Ret.
  unfold em_set_matching, em_advance, em_set_journal in Ed |- *. cbn in Ed |- *. rewrite <- Nat.add_assoc. exact Ed.
Qed.

Lemma find_resting id B r :
  book_wf B -> r ∈ book_orders B -> r_id r = id ->
  exists i, list_find (fun r => r_id r = id) (book_orders B) = Some (i, r).
Proof.
  intros W Hr Hid. destruct (list_find_elem_of (fun r => r_id r = id) _ _ Hr Hid) as [[i x] E].
  exists i. pose proof E as (Hx & Px & _)%list_find_Some. rewrite E. do 2 f_equal.
  pose proof (wf_ids B W) as N. apply list_elem_of_lookup_1 in Hr as [k Hk].
  assert (k = i) as ->; [|congruence].
  apply (NoDup_lookup _ k i id N); rewrite list_lookup_fmap; [by rewrite Hk, <- Hid|by rewrite Hx, <- Px].
Qed.

Lemma cancel_command_refine n now stack gap cmd em out v :
  engine_rep n em out v -> command_ok cmd -> 0 <= n -> oc_type cmd = CmdCancelOrder ->
  exists em' out', execute_command now stack gap cmd em out = Ret (em', out') /\
    engine_rep n em' out'
      (spec_execute stack gap (em_reading now em 0) (em_reading now em 1) (em_reading now em 2) cmd v).
Proof.
  intros R C Hn T. pose proof R as [Eb Es Ec Er Ej Eo]. unfold execute_command, spec_execute.
  destruct (append_command stack gap _ _ cmd C Ej) as (b & j & -> & Rj). rewrite bind_Ret, T. cbn [snd].
  destruct (ctx_reset_wf _ Ec) as [Wr R0].
  set (t0 := em_reading now em 0). set (t1 := em_reading now em 1). set (t2 := em_reading now em 2).
  destruct (cancel_refine t0 t1 t2 (oc_orig_client_order_id cmd) 1 (oc_account_id cmd) (oc_symbol_id cmd)
    (ctx_reset (em_exec_ctx em)) (em_matching em) (v_book v) Eb Wr) as (ctx & m & E & Rb & Cases).
  change (em_reading now (em_set_journal j em)) with (em_reading now em).
  change (em_exec_ctx (em_set_journal j em)) with (em_exec_ctx em).
  change (em_matching (em_set_journal j em)) with (em_matching em). fold t0 t1 t2. rewrite E, bind_Ret.
  destruct Cases as [(N & -> & Sq)|(r & Hr & Hid & Sq & [Lw _ Lr])].
  - assert (list_find (fun r => r_id r = oc_orig_client_order_id cmd) (book_orders (v_book v)) = None) as F.
    { apply list_find_None, Forall_forall. intros r Hr Hid. apply N. rewrite <- Hid. by apply list_elem_of_fmap_2. }
    cbn [v_log v_book]. rewrite F. rewrite Es in Sq. pose proof Eb as (? & ? & [_ WB _ _ _]).
    rewrite (spec_cancel_absent _ _ _ Eb N) in Rb.
    pose proof (em_after_submit n em out v m _ j (if bool_decide (oc_orig_client_order_id cmd ∈ map r_id (book_orders (v_book v))) then 3 else 2)
      _ _ _ R Rb Sq Wr Rj) as R1.
    unfold dispatch_reports. cbn [em_exec_ctx em_advance em_set_matching report_count ctx_reset dispatch_loop].
    eexists _, _. split; [done|exact R1].
  - pose proof Eb as (? & ? & [_ WB _ _ _]). destruct (find_resting _ _ _ WB Hr Hid) as [i F].
    cbn [v_log v_book]. rewrite F, Hid. rewrite Es in Sq, Lr. rewrite R0 in Lr. cbn [app] in Lr.
    pose proof (em_after_submit n em out v m ctx j (if bool_decide (oc_orig_client_order_id cmd ∈ map r_id (book_orders (v_book v))) then 3 else 2)
      _ _ _ R Rb Sq Lw Rj) as R1.
    apply (dispatch_refine n n _ Buy _ _ _ _ R1 Lr); [by repeat constructor| |lia].
    cbn [map]. rewrite sumZ_cons, sumZ_nil. unfold report_qty. simpl. lia.
Qed.

Lemma reference_price : Price.from_double (Double.of_int 100) = Ret 10000000000.
Proof. vm_compute. reflexivity. Qed.

(** Why a command is turned down, [None] when it passes. *)
Definition verdict_of {A} (res : A + RejectReason) : option RejectReason :=
  match res with inl _ => None | inr reason => Some reason end.

(** What a submission needs of the abstract book *)
Definition command_room (t0 : Z) (cmd : OrderCommand) (v : EngineView) : Prop :=
  oc_type cmd = CmdNewOrder -> rest_ok (new_order cmd t0) (v_book v).

Lemma engine_rep_le n m em out v : m <= n -> engine_rep n em out v -> engine_rep m em out v.
Proof. intros H [Eb Es Ec Er Ej Eo]. split; try done. by apply (risk_room_le n). Qed.

Lemma execute_refine n now stack gap cmd em out v :
  engine_rep n em out v -> command_ok cmd -> 2 * oc_qty cmd <= n -> command_room (em_reading now em 0) cmd v ->
  exists em' out', execute_command now stack gap cmd em out = Ret (em', out') /\
    engine_rep (n - 2 * oc_qty cmd) em' out'
      (spec_execute stack gap (em_reading now em 0) (em_reading now em 1) (em_reading now em 2) cmd v).
Proof.
  intros R C Hn OK. assert (0 <= oc_qty cmd) as Q by apply C.
  destruct (oc_type cmd) eqn:T; [by apply new_order_refine; auto| | |].
  { destruct (cancel_command_refine n now stack gap cmd em out v R C ltac:(lia) T) as (em' & out' & E & R').
    exists em', out'. split; [exact E|]. eapply engine_rep_le; [|exact R']. lia. }
  all: unfold execute_command, spec_execute; pose proof R as [Eb Es Ec Er Ej Eo];
    destruct (append_command stack gap _ _ cmd C Ej) as (b & j & Ea & Rj); rewrite T in *; rewrite Ea, bind_Ret; cbn [snd];
    eexists _, _; (split; [done|]); (split; [exact Eb|exact Es|exact Ec| |exact Rj|exact Eo]);
    apply (risk_room_le n); [lia|exact Er].
Qed.

Lemma process_refine n now stack gap cmd em out v :
  engine_rep n em out v -> command_ok cmd -> 2 * oc_qty cmd <= n -> oc_qty cmd < 2 ^ 62 ->
  command_room (em_reading now em 4) cmd v ->
  exists res risk tr em' out',
    RiskEngine.validate (em_reading now em 0) (em_reading now em 1) (em_reading now em 2) (em_reading now em 3)
      (risk_context 10000000000 cmd) (em_risk em) [] = Ret (res, risk, tr) /\
    process_command now stack gap cmd em out = Ret (em', out') /\
    engine_rep (n - 2 * oc_qty cmd) em' out'
      (spec_process stack gap (em_reading now em 4) (em_reading now em 5) (em_reading now em 6) (verdict_of res) cmd v).
Proof.
  intros R C Hn Hq OK. pose proof R as [Eb Es Ec Er Ej Eo]. assert (0 <= oc_qty cmd) as Q by apply C.
  destruct (validate_room n (em_reading now em 0) (em_reading now em 1) (em_reading now em 2) (em_reading now em 3)
    (risk_context 10000000000 cmd) (em_risk em) [] Er ltac:(simpl; lia)) as (res & risk & tr & E & R1).
  exists res, risk, tr. unfold process_command. rewrite reference_price, bind_Ret, E, bind_Ret.
  assert (engine_rep n (em_advance 4 (em_set_risk risk em)) out v) as R2 by (by split).
  assert (forall k, em_reading now (em_advance 4 (em_set_risk risk em)) k = em_reading now em (4 + k)) as A
    by (intros k; apply (em_reading_advance now 4 (em_set_risk risk em))).
  destruct res as [res|reason]; cbn [verdict_of spec_process].
  - destruct (execute_refine n now stack gap cmd _ out v R2 C Hn) as (em' & out' & Ex & R3).
    { rewrite A. exact OK. }
    exists em', out'. split; [done|]. split; [exact Ex|]. rewrite !A in R3. exact R3.
  - rewrite A. cbn [Nat.add].
    destruct (push_bounded OUTBOUND_CAPACITY out _ (reject_outbound (em_reading now em 4) cmd reason)
      (proj1 outbound_capacity) (proj2 outbound_capacity) Eo) as (b & out' & -> & Ro).
    rewrite bind_Ret. eexists _, _. split; [done|]. split; [done|]. split; [exact Eb|exact Es|exact Ec| |exact Ej|exact Ro].
    apply (risk_room_le n); [lia|exact R1].
Qed.
