(* ===== verification/EngineProperties.v ===== *)
(** * FluxTrade: properties of one symbol's engine *)
From S2P Require Import Prelude Domain ObjectPool DList BookSpec OrderList SideBook OrderBook BookRefine BookOps BookClear MatchSpec RingBuffer Wire Gateway Checksum Journal JournalRefine TradeBuilder MatchingEngine MatchRefine MatchProperties RiskState RiskEngine RiskRefine RiskProperties EngineManager EngineRefine.
Local Open Scope Z_scope.

(** ** A fresh engine *)
Definition empty_view : EngineView := mkView empty_book 1 [] [].
Lemma fresh_engine symbol core files :
  engine_rep (2 ^ 62) (EngineManager_init symbol core files) (queue_init OUTBOUND_CAPACITY default_outbound) empty_view.
Proof.
  split.
  - exact (init_abs false).
  - reflexivity.
  - exact ctx_init_wf.
  - exact risk_reset_room.
  - exact (queue_init_rep JOURNAL_CAPACITY (proj1 journal_capacity) default_entry).
  - exact (queue_init_rep OUTBOUND_CAPACITY (proj1 outbound_capacity) default_outbound).
Qed.
(** A limit order to buy ten units at a hundred dollars. *)
Definition buy_command : OrderCommand :=
  {| oc_type := CmdNewOrder; oc_sequence := 1; oc_timestamp := 5; oc_client_order_id := 42;
     oc_orig_client_order_id := 0; oc_symbol_id := 7; oc_account_id := 3; oc_price := 10000000000; oc_qty := 10000000;
     oc_side := Buy; oc_order_type := Limit; oc_tif := GTC; oc_conn_id := 9 |}.
Definition cancel_command : OrderCommand :=
  {| oc_type := CmdCancelOrder; oc_sequence := 2; oc_timestamp := 6; oc_client_order_id := 43;
     oc_orig_client_order_id := 42; oc_symbol_id := 7; oc_account_id := 3; oc_price := 0; oc_qty := 0;
     oc_side := Buy; oc_order_type := Limit; oc_tif := GTC; oc_conn_id := 9 |}.
Lemma buy_command_ok : command_ok buy_command.
Proof. unfold command_ok, buy_command. cbn. split_and!; (lia || reflexivity). Qed.
Lemma cancel_command_ok : command_ok cancel_command.
Proof. unfold command_ok, cancel_command. cbn. split_and!; (lia || reflexivity). Qed.
Lemma buy_command_room t : command_room t buy_command empty_view.
Proof. intros _ _. split; [apply not_elem_of_nil|]. split; [done|by right]. Qed.

(** C9: processing a command refines the abstract engine: given room in the
    positions and in the book, [process_command] returns; a command that the
    checks turn down is answered by one reject with the reason and changes
    neither book nor journal; one that passes is journaled; a new order is then
    submitted to the book and a cancel cancels, and the reports of exactly these
    executions, in order, as many as fit, are on the outbound queue.  A replace is
    journaled and nothing else. *)
Theorem process_command_refines (n : Z) now stack gap cmd em out v :
  engine_rep n em out v -> command_ok cmd -> 2 * oc_qty cmd <= n -> oc_qty cmd < 2 ^ 62 ->
  command_room (em_reading now em 4) cmd v ->
  exists res risk tr em' out',
    RiskEngine.validate (em_reading now em 0) (em_reading now em 1) (em_reading now em 2) (em_reading now em 3)
      (risk_context 10000000000 cmd) (em_risk em) [] = Ret (res, risk, tr) /\
    process_command now stack gap cmd em out = Ret (em', out') /\
    engine_rep (n - 2 * oc_qty cmd) em' out'
      (spec_process stack gap (em_reading now em 4) (em_reading now em 5) (em_reading now em 6) (verdict_of res) cmd v).
Proof. exact (process_refine n now stack gap cmd em out v). Qed.
Lemma process_command_refines_witness : exists em' out',
  process_command Z.of_nat [] 0 buy_command (EngineManager_init 7 0 ∅) (queue_init OUTBOUND_CAPACITY default_outbound) = Ret (em', out').
Proof.
  destruct (process_command_refines (2 ^ 62) Z.of_nat [] 0 buy_command (EngineManager_init 7 0 ∅)
    (queue_init OUTBOUND_CAPACITY default_outbound) empty_view (fresh_engine 7 0 ∅) buy_command_ok
    ltac:(cbn; lia) ltac:(cbn; lia) (buy_command_room _)) as (res & risk & tr & em' & out' & _ & E & _).
  exists em', out'. exact E.
Defined.

(** ** Cancels *)
Lemma accepts_app ctx ps qs : forall e e',
  accepts ctx (ps ++ qs) e e' -> exists e1, accepts ctx ps e e1 /\ accepts ctx qs e1 e'.
Proof.
  induction ps as [|p ps IH]; intros e e' A; [exists e; split; [constructor|done]|].
  inversion A; subst. destruct (IH _ _ ltac:(eassumption)) as (e2 & ? & ?). exists e2. split; [by econstructor|done].
Qed.

Lemma unpriced_outside_band ctx limits :
  rc_price ctx = 0 -> rc_reference_price ctx = 10000000000 -> price_band_tolerance limits = Double.tenth ->
  price_band_validate ctx limits = false.
Proof. intros E1 E2 E3. unfold price_band_validate. rewrite E1, E2, E3. vm_compute. reflexivity. Qed.

Lemma unpriced_rejected t0 t1 t2 t3 ctx e res e' tr :
  risk_ok e -> rc_price ctx = 0 -> rc_qty ctx = 0 -> rc_reference_price ctx = 10000000000 ->
  price_band_tolerance (re_limits e) = Double.tenth ->
  RiskEngine.validate t0 t1 t2 t3 ctx e [] = Ret (res, e', tr) -> exists reason, res = inr reason.
Proof.
  intros W P Q F T E. destruct (validate_unfold t0 t1 t2 t3 ctx e [] W ltac:(lia)) as (r & e1 & tr1 & Er & _ & _ & Ev).
  rewrite Ev in E. destruct r as [r|]; [injection E as <- _ _; by exists r|]. exfalso.
  apply run_policies_accept in Er.
  apply (accepts_app ctx [KillSwitchPolicy; CircuitBreakerPolicy; DuplicatePolicy; RateLimitPolicy; FatFingerPolicy]
    [PriceBandPolicy; STPPolicy; PositionPolicy; CreditPolicy]) in Er as (e0 & A & B).
  destruct (accepts_total _ _ _ _ A) as [W0 M0]; [|done|lia|].
  { intros x Hx. unfold PreTradeRiskPipeline. set_solver. }
  inversion B as [|p ps ? e2 e3 V]; subst. cbn [policy_validate PriceBandPolicy] in V. injection V as V _.
  rewrite unpriced_outside_band in V; [discriminate V|exact P|exact F|].
  by rewrite (sm_limits _ _ M0).
Qed.

(** C21: with the limits the engine starts with, a cancel, which carries no
    price, never passes the price band: whatever it names, the book and the
    journal stay as they are and the client gets a reject. *)
Theorem cancel_never_reaches_book (n : Z) now stack gap cmd em out v :
  engine_rep n em out v -> oc_price cmd = 0 -> oc_qty cmd = 0 ->
  price_band_tolerance (re_limits (em_risk em)) = price_band_tolerance default_limits ->
  exists reason em' out',
    process_command now stack gap cmd em out = Ret (em', out') /\
    em_matching em' = em_matching em /\ em_journal_queue em' = em_journal_queue em /\
    queue_rep OUTBOUND_CAPACITY out'
      (bounded OUTBOUND_CAPACITY (v_out v ++ [reject_outbound (em_reading now em 4) cmd reason])).
Proof.
  intros [Eb Es Ec Er Ej Eo] P Q T.
  destruct (validate_room n (em_reading now em 0) (em_reading now em 1) (em_reading now em 2) (em_reading now em 3)
    (risk_context 10000000000 cmd) (em_risk em) [] Er ltac:(simpl; lia)) as (res & risk & tr & E & _).
  destruct (unpriced_rejected _ _ _ _ (risk_context 10000000000 cmd) _ _ _ _ (proj1 Er) P Q eq_refl T E) as [reason ->]. exists reason.
  unfold process_command. rewrite reference_price, bind_Ret, E, bind_Ret.
  rewrite (em_reading_advance now 4 (em_set_risk risk em)). cbn [Nat.add].
  change (em_reading now (em_set_risk risk em) 4) with (em_reading now em 4).
  destruct (push_bounded OUTBOUND_CAPACITY out _ (reject_outbound (em_reading now em 4) cmd reason)
    (proj1 outbound_capacity) (proj2 outbound_capacity) Eo) as (b & out' & -> & Ro).
  rewrite bind_Ret. eexists _, _. split; [done|]. split; [done|]. by split.
Qed.
Lemma cancel_never_reaches_book_witness : exists reason em' out',
  process_command Z.of_nat [] 0 cancel_command (EngineManager_init 7 0 ∅) (queue_init OUTBOUND_CAPACITY default_outbound) = Ret (em', out') /\
  em_matching em' = MatchingEngine_init false /\
  queue_rep OUTBOUND_CAPACITY out' [reject_outbound 4 cancel_command reason].
Proof.
  destruct (cancel_never_reaches_book (2 ^ 62) Z.of_nat [] 0 cancel_command (EngineManager_init 7 0 ∅)
    (queue_init OUTBOUND_CAPACITY default_outbound) empty_view (fresh_engine 7 0 ∅) eq_refl eq_refl eq_refl)
    as (reason & em' & out' & E & M & _ & Q).
  exists reason, em', out'. split; [exact E|]. split; [exact M|exact Q].
Defined.
