(* ===== verification/Recovery.v ===== *)
(** * FluxTrade: crash recovery

    What [ReplayEngine::recover] (src/persistence/include/persistence/replay_engine.hpp)
    rebuilds from the files of a directory: the book of the snapshot, then the
    journaled commands that came after it, each applied to the resting orders
    only. *)
From S2P Require Import Prelude Domain Wire Gateway Checksum ObjectPool BookSpec SideBook OrderBook BookRefine BookOps BookClear TradeBuilder MatchSpec MatchingEngine MatchRefine EngineManager Journal JournalRefine JournalProperties Snapshot SnapshotRefine SnapshotDamage BookProperties.
Local Open Scope Z_scope.

(** ** What replaying commands means on the abstract book *)
Definition spec_command (c : OrderCommand) (B : Book) : Book :=
  match oc_type c with
  | CmdNewOrder => spec_insert (order_of_command c (oc_timestamp c)) (oc_sequence c) B
  | CmdCancelOrder => spec_cancel (oc_orig_client_order_id c) B
  | _ => B
  end.
(** A command can be replayed: an order is new, its price is free on the other
    side and the pools have room. *)
Definition command_fits (c : OrderCommand) (B : Book) : Prop :=
  oc_type c = CmdNewOrder ->
  insert_ok (order_of_command c (oc_timestamp c)) B /\ insert_room (order_of_command c (oc_timestamp c)) B.
Fixpoint spec_commands (cs : list OrderCommand) (B : Book) (current_seq : Z) : Book * Z :=
  match cs with
  | [] => (B, current_seq)
  | c :: cs =>
      if oc_sequence c <=? current_seq then spec_commands cs B current_seq
      else spec_commands cs (spec_command c B) (oc_sequence c)
  end.
Fixpoint commands_fit (cs : list OrderCommand) (B : Book) (current_seq : Z) : Prop :=
  match cs with
  | [] => True
  | c :: cs =>
      if oc_sequence c <=? current_seq then commands_fit cs B current_seq
      else command_fits c B /\ commands_fit cs (spec_command c B) (oc_sequence c)
  end.

Lemma apply_command_abs c b B :
  abs b B -> command_fits c B -> exists b', apply_command c b = Ret b' /\ abs b' (spec_command c B).
Proof.
  intros R H. unfold apply_command, spec_command, command_fits in *. destruct (oc_type c); [| |by exists b..].
  - destruct (H eq_refl) as [OK Room].
    destruct (insert_abs _ (oc_sequence c) b B R OK Room) as (p & b' & -> & R' & _). rewrite bind_Ret. by exists b'.
  - destruct (cancel_abs b B (oc_orig_client_order_id c) R) as (b' & -> & R'). rewrite bind_Ret. by exists b'.
Qed.
Lemma apply_commands_abs cs : forall b B cur,
  abs b B -> commands_fit cs B cur ->
  exists b', apply_commands cs b cur = Ret (b', (spec_commands cs B cur).2) /\ abs b' (spec_commands cs B cur).1.
Proof.
  induction cs as [|c cs IH]; intros b B cur R H; [by exists b|]. cbn in *.
  destruct (oc_sequence c <=? cur); [by apply IH|]. destruct H as [Hc H].
  destruct (apply_command_abs c b B R Hc) as (b1 & -> & R1). rewrite bind_Ret. by apply IH.
Qed.
Lemma apply_commands_app cs ds : forall b cur,
  apply_commands (cs ++ ds) b cur = (r ← apply_commands cs b cur; apply_commands ds r.1 r.2).
Proof.
  induction cs as [|c cs IH]; intros b cur; [done|]. cbn. destruct (oc_sequence c <=? cur); [apply IH|].
  destruct (apply_command c b); try done. by rewrite !bind_Ret.
Qed.

(** ** The journal files *)
(** The file holds the records of the commands, in order, and possibly the
    beginning of one more. *)
Definition journal_holds (stack : list Z) (gap : Z) (file : list Z) (cs : list OrderCommand) : Prop :=
  exists seq now tail, 0 <= seq < 2 ^ 64 /\ 0 <= now < 2 ^ 64 /\ Forall command_ok cs /\ (tail = [] \/ torn tail) /\
    file = fields_bytes (wal_header_fields (wal_header seq now)) ++
           concat ((fun c => record_bytes (command_entry stack gap c)) <$> cs) ++ tail.
(** The files [fs] are those from index [start] on. *)
Definition journals_from (journals : gmap Z (list Z)) (start : Z) (fs : list (list Z)) : Prop :=
  (forall k f, fs !! k = Some f -> journals !! (start + Z.of_nat k) = Some f) /\
  journals !! (start + Z.of_nat (length fs)) = None.

Lemma replay_files_holds stack gap journals fs css : is_byte gap -> Forall2 (journal_holds stack gap) fs css ->
  forall start fuel book cur, journals_from journals start fs -> 0 <= start ->
  start + Z.of_nat (length fs) < 2 ^ 64 -> (length fs < fuel)%nat ->
  replay_files fuel start journals book cur = (r ← apply_commands (concat css) book cur; Ret (true, r.1, r.2)).
Proof.
  intros Hg F. induction F as [|f cs fs css Hf _ IH]; intros start fuel book cur [J N] Hs HB Hfu.
  - cbn in N. rewrite Z.add_0_r in N. destruct fuel; cbn; by rewrite N.
  - destruct fuel as [|fuel]; [cbn in Hfu; lia|]. pose proof (J 0%nat f eq_refl) as E. rewrite Z.add_0_r in E.
    cbn [replay_files]. rewrite E. destruct Hf as (sq & now & tail & Hsq & Hn & Fc & HT & ->).
    rewrite (replay_recovers_commands stack gap sq now cs tail book cur Hsq Hn Fc Hg HT), bind_assoc.
    cbn [concat]. rewrite apply_commands_app, bind_assoc. destruct (apply_commands cs book cur) as [[b1 c1]| | | |]; try done.
    rewrite !bind_Ret. cbn [length fst snd] in *. rewrite u64_small by lia. apply IH; try lia. split.
    + intros k f Ek. rewrite <- (J (S k) f Ek). f_equal. lia.
    + rewrite <- N. f_equal. lia.
Qed.

(** ** Snapshots *)
(** What [save] writes for a book, [load] reads back: whatever the target
    held, it ends up standing for the same book, every level and every order in
    its place with its quantity and priority, and the sequence number and time
    are those that were saved. *)
Theorem snapshot_restores_book gap b B sq ts b0 B0 s0 t0 :
  gap_ok gap -> abs b B -> Forall order_fits (book_orders B) -> 0 <= sq < 2 ^ 64 -> 0 <= ts < 2 ^ 64 -> abs b0 B0 ->
  exists file b', snapshot_save gap b sq ts = Ret file /\
    snapshot_load (Some file) b0 s0 t0 = Ret (true, b', sq, ts) /\ abs b' B.
Proof. apply snapshot_load_spec. Qed.
Lemma zero_gap : gap_ok (fun _ => replicate 4 0).
Proof. intros q. split; [done|]. apply Forall_replicate. unfold is_byte. lia. Qed.
Lemma one_bid_fits : Forall order_fits (book_orders one_bid).
Proof. repeat constructor; cbn; lia. Qed.
Lemma snapshot_restores_book_witness : exists p b file b',
  insert (sample_order 1 100 10 Buy) 1 (LimitOrderBook_init false) = Ret (p, b) /\
  snapshot_save (fun _ => replicate 4 0) b 3 9 = Ret file /\
  snapshot_load (Some file) (LimitOrderBook_init true) 0 0 = Ret (true, b', 3, 9) /\ abs b' one_bid.
Proof.
  destruct one_bid_abs as (p & b & E & R & _).
  destruct (snapshot_restores_book (fun _ => replicate 4 0) b one_bid 3 9 (LimitOrderBook_init true) empty_book 0 0
    zero_gap R one_bid_fits ltac:(lia) ltac:(lia) (init_abs true)) as (file & b' & Es & El & R').
  exists p, b, file, b'. auto.
Defined.

(** C16: a snapshot that lost its end, wherever the cut falls, is refused: [load]
    returns [false] and so does the recovery whose metadata names the snapshot.
    The book is then not the one that was saved and, past the header, not the
    one it was before either: it is a well-formed book of the first orders of the
    snapshot, in their order. *)
Theorem cut_snapshot_refused gap b B sq ts file k i snapshots journals fuel b0 B0 :
  gap_ok gap -> abs b B -> Forall order_fits (book_orders B) -> 0 <= sq < 2 ^ 64 -> 0 <= ts < 2 ^ 64 -> abs b0 B0 ->
  snapshot_save gap b sq ts = Ret file -> (k < length file)%nat ->
  metadata_ok i -> md_latest_snapshot_sequence i = sq -> snapshots !! sq = Some (take k file) ->
  exists b' B' s t, snapshot_load (Some (take k file)) b0 0 0 = Ret (false, b', s, t) /\
    recover fuel (Some (metadata_save i)) snapshots journals b0 = Ret (false, b') /\ abs b' B' /\
    ((k < 40)%nat /\ b' = b0 \/ (40 <= k)%nat /\ book_orders B' `prefix_of` book_orders B).
Proof.
  intros G R F Hs Ht R0 Es Hk Hi El Em.
  destruct (drop k file) as [|c cut] eqn:Ed; [apply (f_equal length) in Ed; rewrite length_drop in Ed; simpl in Ed; lia|].
  assert (file = take k file ++ c :: cut) as Ef by (by rewrite <-Ed, take_drop).
  destruct (snapshot_load_cut gap b B sq ts file (take k file) c cut b0 B0 0 0 G R F Hs Ht R0 Es Ef)
    as (b' & B' & s & t & Ec & R' & C).
  exists b', B', s, t. split; [done|]. split.
  { unfold recover. rewrite (metadata_load_saved i Hi), bind_Ret.
    change (md_latest_snapshot_sequence (saved i)) with (md_latest_snapshot_sequence i). by rewrite El, Em, Ec, !bind_Ret. }
  split; [done|]. rewrite length_take_le in C by lia. destruct C as [(? & ? & _)|]; auto.
Qed.
Lemma one_bid_file p b :
  insert (sample_order 1 100 10 Buy) 1 (LimitOrderBook_init false) = Ret (p, b) -> abs b one_bid ->
  exists file, snapshot_save (fun _ => replicate 4 0) b 3 9 = Ret file /\ (40 < length file)%nat.
Proof.
  intros _ R. destruct (snapshot_save_spec (fun _ => replicate 4 0) b one_bid 3 9 R) as (Ab & Aa & Lb & _ & E).
  eexists. split; [exact E|]. apply Forall2_cons_inv_r in Lb as ([a ps] & A' & _ & _ & ->).
  rewrite !length_app. unfold side_chunks. cbn [bk_bids one_bid zip_with concat level_chunks app snd].
  rewrite (length_app (fields_bytes (level_fields _))). 
  change (length (fields_bytes (level_fields _))) with 24%nat. 
  change (length (fields_bytes (snapshot_header_fields _))) with 40%nat. lia.
Qed.
Definition sample_metadata3 : MetadataInfo := mkMetadata 0 0 0 3 3 1 0 0.
Lemma sample_metadata3_ok : metadata_ok sample_metadata3.
Proof. unfold metadata_ok, metadata_layout. cbn. repeat constructor; cbn; lia. Qed.
Lemma cut_snapshot_refused_witness : exists p b file b' B' s t,
  insert (sample_order 1 100 10 Buy) 1 (LimitOrderBook_init false) = Ret (p, b) /\
  snapshot_save (fun _ => replicate 4 0) b 3 9 = Ret file /\ (40 < length file)%nat /\
  snapshot_load (Some (take 40 file)) (LimitOrderBook_init false) 0 0 = Ret (false, b', s, t) /\
  recover 2 (Some (metadata_save sample_metadata3)) {[3 := take 40 file]} ∅ (LimitOrderBook_init false) = Ret (false, b') /\
  abs b' B'.
Proof.
  destruct one_bid_abs as (p & b & E & R & _). destruct (one_bid_file p b E R) as (file & Ef & Hk).
  destruct (cut_snapshot_refused (fun _ => replicate 4 0) b one_bid 3 9 file 40 sample_metadata3
    {[3 := take 40 file]} ∅ 2 (LimitOrderBook_init false) empty_book zero_gap R one_bid_fits ltac:(lia) ltac:(lia)
    (init_abs false) Ef Hk sample_metadata3_ok eq_refl (lookup_singleton_eq _ _)) as (b' & B' & s & t & E1 & E2 & R' & _).
  exists p, b, file, b', B', s, t. auto 10.
Defined.

(** ** Recovery *)
Lemma metadata_index_nonneg i : metadata_ok i -> 0 <= md_current_journal_index i.
Proof.
  unfold metadata_ok, metadata_layout, metadata_fields. intros Hi.
  do 6 (apply Forall2_cons in Hi as [? Hi]). cbn in *. lia.
Qed.

(** C10: crash recovery.  From a directory with a metadata file, the snapshot it
    names and the journal files from the index it names on, [recover] rebuilds
    the snapshot's book and applies to it, in order, exactly the journaled
    commands after the snapshot's sequence number, whatever the book held before
    and whether or not the last write of a journal file was torn.  The condition
    is that every new order fits when its turn comes ([commands_fit]): its id does
    not rest already, its price has no level on the other side, and the pools
    have room.  A journal of orders that traded at the price of the resting order
    breaks it, since replay inserts and does not match;
    [replayed_cancel_takes_other_level] shows what a cancel does then. *)
Theorem recover_restores ogap stack gap i b B sq ts file journals fs css snapshots fuel b0 B0 :
  gap_ok ogap -> is_byte gap -> metadata_ok i -> abs b B -> Forall order_fits (book_orders B) ->
  0 <= sq < 2 ^ 64 -> 0 <= ts < 2 ^ 64 -> abs b0 B0 ->
  md_latest_snapshot_sequence i = sq -> snapshot_save ogap b sq ts = Ret file -> snapshots !! sq = Some file ->
  Forall2 (journal_holds stack gap) fs css -> journals_from journals (md_current_journal_index i) fs ->
  md_current_journal_index i + Z.of_nat (length fs) < 2 ^ 64 -> (length fs < fuel)%nat ->
  commands_fit (concat css) B sq ->
  exists b', recover fuel (Some (metadata_save i)) snapshots journals b0 = Ret (true, b') /\
    abs b' (spec_commands (concat css) B sq).1.
Proof.
  intros G Hg Hi R Fo Hsq Hts R0 Ei Ef Es Fj J HB Hfu Fit.
  destruct (snapshot_load_spec ogap b B sq ts b0 B0 0 0 G R Fo Hsq Hts R0) as (f & b1 & Ef' & El & R1).
  assert (f = file) as -> by congruence.
  destruct (apply_commands_abs (concat css) b1 B sq R1 Fit) as (b' & Ea & R').
  exists b'. split; [|exact R']. unfold recover. rewrite (metadata_load_saved i Hi), bind_Ret.
  change (md_latest_snapshot_sequence (saved i)) with (md_latest_snapshot_sequence i). rewrite Ei, Es, El, !bind_Ret.
  cbn [negb]. change (md_current_journal_index (saved i)) with (md_current_journal_index i).
  rewrite (replay_files_holds stack gap journals fs css Hg Fj) by (done || by apply metadata_index_nonneg).
  by rewrite Ea, !bind_Ret.
Qed.

Definition sample_cancel : OrderCommand :=
  {| oc_type := CmdCancelOrder; oc_sequence := 4; oc_timestamp := 6; oc_client_order_id := 43;
     oc_orig_client_order_id := 1; oc_symbol_id := 7; oc_account_id := 3; oc_price := 0; oc_qty := 0;
     oc_side := Buy; oc_order_type := Limit; oc_tif := GTC; oc_conn_id := 9 |}.
Definition sample_journal (cs : list OrderCommand) : list Z :=
  fields_bytes (wal_header_fields (wal_header 0 0)) ++
  concat ((fun c => record_bytes (command_entry (replicate 256 0) 0 c)) <$> cs) ++ [].
Lemma sample_journal_holds cs :
  Forall command_ok cs -> journal_holds (replicate 256 0) 0 (sample_journal cs) cs.
Proof. intros F. exists 0, 0, []. split_and!; try lia; [done|by left|done]. Qed.
Lemma one_journal f : journals_from {[1 := f]} 1 [f].
Proof.
  split; [|done]. intros [|k] g E; [|by destruct k]. injection E as ->. done.
Qed.

Lemma recover_restores_witness : exists p b file b',
  insert (sample_order 1 100 10 Buy) 1 (LimitOrderBook_init false) = Ret (p, b) /\
  snapshot_save (fun _ => replicate 4 0) b 3 9 = Ret file /\
  recover 2 (Some (metadata_save (mkMetadata 0 0 0 3 3 1 0 0))) {[3 := file]}
    {[1 := sample_journal [sample_cancel]]} (LimitOrderBook_init false) = Ret (true, b') /\
  abs b' (MkBook [] []).
Proof.
  destruct one_bid_abs as (p & b & E & R & _).
  assert (exists file, snapshot_save (fun _ => replicate 4 0) b 3 9 = Ret file) as [file Ef].
  { destruct (snapshot_save_spec (fun _ => replicate 4 0) b one_bid 3 9 R) as (Ab & Aa & _ & _ & Ef). eauto. }
  destruct (recover_restores (fun _ => replicate 4 0) (replicate 256 0) 0 (mkMetadata 0 0 0 3 3 1 0 0) b one_bid 3 9
    file {[1 := sample_journal [sample_cancel]]} [sample_journal [sample_cancel]] [[sample_cancel]] {[3 := file]} 2
    (LimitOrderBook_init false) empty_book) as (b' & Er & R'); [exact zero_gap| | |exact R|exact one_bid_fits|lia|lia|apply init_abs|done|exact Ef|
    apply lookup_singleton_eq| |apply one_journal|cbn; lia|cbn; lia| |].
  - unfold is_byte. lia.
  - unfold metadata_ok, metadata_layout. cbn. repeat constructor; cbn; lia.
  - constructor; [|constructor]. apply sample_journal_holds. repeat constructor; cbn; lia || done.
  - cbn. split; [|done]. intros [=].
  - exists p, b, file, b'. split; [exact E|]. split; [exact Ef|]. split; [exact Er|exact R'].
Defined.

(** Recovery without metadata replays the journal from its first file. *)
Lemma recover_journal stack gap journals fs css fuel b0 B0 :
  is_byte gap -> abs b0 B0 -> Forall2 (journal_holds stack gap) fs css -> journals_from journals 1 fs ->
  1 + Z.of_nat (length fs) < 2 ^ 64 -> (length fs < fuel)%nat -> commands_fit (concat css) B0 0 ->
  exists b', recover fuel None ∅ journals b0 = Ret (true, b') /\ abs b' (spec_commands (concat css) B0 0).1.
Proof.
  intros Hg R0 Fj J HB Hfu Fit. destruct (apply_commands_abs (concat css) b0 B0 0 R0 Fit) as (b' & Ea & R').
  exists b'. split; [|exact R']. unfold recover. cbn [metadata_load]. rewrite !bind_Ret. cbn [negb].
  rewrite (replay_files_holds stack gap journals fs css Hg Fj) by (done || lia). by rewrite Ea, !bind_Ret.
Qed.

Section crossing.
Context (c1 c2 : OrderCommand).
Context (T1 : oc_type c1 = CmdNewOrder) (T2 : oc_type c2 = CmdNewOrder).
Context (S1 : oc_side c1 = Sell) (S2 : oc_side c2 = Buy) (Hs : 0 < oc_sequence c1 < oc_sequence c2).
Let r1 := resting_of (order_of_command c1 (oc_timestamp c1)) (oc_sequence c1).
Let r2 := resting_of (order_of_command c2 (oc_timestamp c2)) (oc_sequence c2).

Lemma crossing_first : spec_command c1 empty_book = MkBook [] [MkLevel (oc_price c1) [r1]].
Proof. unfold spec_command. rewrite T1. unfold spec_insert. by rewrite decide_False by (cbn; congruence). Qed.
Lemma crossing_book :
  spec_commands [c1; c2] empty_book 0 =
    (MkBook [MkLevel (oc_price c2) [r2]] [MkLevel (oc_price c1) [r1]], oc_sequence c2).
Proof.
  cbn [spec_commands]. destruct (Z.leb_spec (oc_sequence c1) 0); [lia|]. rewrite crossing_first.
  destruct (Z.leb_spec (oc_sequence c2) (oc_sequence c1)); [lia|]. f_equal.
  unfold spec_command. rewrite T2. unfold spec_insert. by rewrite decide_True by (cbn; congruence).
Qed.
Lemma crossing_fit :
  0 <= oc_qty c1 < 2 ^ 64 -> 0 <= oc_qty c2 < 2 ^ 64 -> oc_client_order_id c1 <> oc_client_order_id c2 ->
  oc_price c1 < oc_price c2 -> commands_fit [c1; c2] empty_book 0.
Proof.
  intros Q1 Q2 Ni Hp. cbn [commands_fit]. destruct (Z.leb_spec (oc_sequence c1) 0); [lia|]. rewrite crossing_first.
  destruct (Z.leb_spec (oc_sequence c2) (oc_sequence c1)); [lia|]. split_and!; [| |done]; intros _.
  - split; [|split; [done|by right]]. split; [done|apply not_elem_of_nil|]. destruct (order_side _); apply not_elem_of_nil.
  - split; [|split; [done|by right]]. split; [done| |].
    + cbn. intros [HX|HX]%elem_of_cons; [congruence|by apply not_elem_of_nil in HX].
    + unfold order_side. rewrite bool_decide_eq_true_2 by (cbn; congruence).
      cbn. intros [HX|HX]%elem_of_cons; [lia|by apply not_elem_of_nil in HX].
Qed.
End crossing.

(** No reachable engine has a crossed book. *)
Lemma crossed_unreachable b L K Ls Ks :
  abs b (MkBook (L :: Ls) (K :: Ks)) -> lv_price K < lv_price L ->
  side_empty (bids_ b) = false /\ side_empty (asks_ b) = false /\
  best_bid b = Ret (lv_price L) /\ best_ask b = Ret (lv_price K) /\
  forall listener e, EngineReachable listener e -> book_ e <> b.
Proof.
  intros R Hp. pose proof R as (Ab & Aa & [RC _ _ _ _]). destruct (side_best _ _ _ _ _ _ RC) as [N1 _].
  destruct (side_best _ _ _ _ _ _ (rep_core_flip _ _ _ _ _ _ RC)) as [N2 _]. simpl in N1, N2.
  pose proof (best_bid_spec _ _ R) as B1. pose proof (best_ask_spec _ _ R) as B2. cbn in B1, B2.
  split_and!; [done..|]. intros l e Hr Eq. destruct (reachable_inv _ _ Hr) as (B & RB & U). rewrite Eq in RB.
  destruct (uncrossed_best _ _ RB U) as (bid & ask & Eb & Ea & Lt). specialize (Lt N1 N2).
  rewrite B1 in Eb. rewrite B2 in Ea. injection Eb as <-. injection Ea as <-. lia.
Qed.

(** C36: recovery does not match.  Where the journal holds a sell order and, after
    it, a buy order at a better price, the recovered book holds both, with the
    best bid above the best ask: no sequence of submissions, cancels and
    modifications leads an engine to this book. *)
Theorem recovered_book_crosses stack gap c1 c2 file :
  is_byte gap -> journal_holds stack gap file [c1; c2] ->
  oc_type c1 = CmdNewOrder -> oc_type c2 = CmdNewOrder -> oc_side c1 = Sell -> oc_side c2 = Buy ->
  oc_client_order_id c1 <> oc_client_order_id c2 -> 0 < oc_sequence c1 < oc_sequence c2 ->
  oc_price c1 < oc_price c2 ->
  exists b', recover 2 None ∅ {[1 := file]} (LimitOrderBook_init false) = Ret (true, b') /\
    side_empty (bids_ b') = false /\ side_empty (asks_ b') = false /\
    best_bid b' = Ret (oc_price c2) /\ best_ask b' = Ret (oc_price c1) /\
    forall listener e, EngineReachable listener e -> book_ e <> b'.
Proof.
  intros Hg Hf T1 T2 S1 S2 Ni Hs Hp.
  assert (0 <= oc_qty c1 < 2 ^ 64 /\ 0 <= oc_qty c2 < 2 ^ 64) as [Q1 Q2].
  { destruct Hf as (? & ? & ? & _ & _ & [K1 [K2 _]%Forall_cons]%Forall_cons & _). split; [apply K1|apply K2]. }
  destruct (recover_journal stack gap {[1 := file]} [file] [[c1; c2]] 2 (LimitOrderBook_init false) empty_book)
    as (b' & Er & R); [done|apply init_abs|by constructor|apply one_journal|cbn; lia|cbn; lia|by apply crossing_fit|].
  change (concat [[c1; c2]]) with [c1; c2] in R. rewrite crossing_book in R by done.
  exists b'. split; [done|]. by apply (crossed_unreachable b' _ _ [] [] R).
Qed.

Definition sample_new (seq id p : Z) (s : Side) : OrderCommand :=
  {| oc_type := CmdNewOrder; oc_sequence := seq; oc_timestamp := 6; oc_client_order_id := id;
     oc_orig_client_order_id := 0; oc_symbol_id := 7; oc_account_id := 3; oc_price := p; oc_qty := 10;
     oc_side := s; oc_order_type := Limit; oc_tif := GTC; oc_conn_id := 9 |}.
Lemma recovered_book_crosses_witness : exists b',
  recover 2 None ∅ {[1 := sample_journal [sample_new 1 1 100 Sell; sample_new 2 2 103 Buy]]}
    (LimitOrderBook_init false) = Ret (true, b') /\ best_bid b' = Ret 103 /\ best_ask b' = Ret 100.
Proof.
  destruct (recovered_book_crosses (replicate 256 0) 0 (sample_new 1 1 100 Sell) (sample_new 2 2 103 Buy)
    (sample_journal [sample_new 1 1 100 Sell; sample_new 2 2 103 Buy])) as (b' & E & _ & _ & Bb & Ba & _);
    [unfold is_byte; lia| |done..|cbn; lia|cbn; lia|].
  - apply sample_journal_holds. repeat constructor; cbn; lia || done.
  - exists b'. auto.
Defined.

(** ** A price on both sides

    The case the condition of [recover_restores] leaves out: a sell order, a buy
    order at the same price (the live engine would trade them), then a cancel of
    the sell order.  [cancel] finds the level of its price among the bids, unlinks
    the order there, and removes the bid level although the buy order is in it. *)
Definition cancel_first : OrderCommand :=
  {| oc_type := CmdCancelOrder; oc_sequence := 3; oc_timestamp := 6; oc_client_order_id := 43;
     oc_orig_client_order_id := 1; oc_symbol_id := 7; oc_account_id := 3; oc_price := 0; oc_qty := 0;
     oc_side := Buy; oc_order_type := Limit; oc_tif := GTC; oc_conn_id := 9 |}.
Definition locked_journal : list OrderCommand := [sample_new 1 1 100 Sell; sample_new 2 2 100 Buy; cancel_first].
Definition ptr_set (p : option Z) : bool := match p with Some _ => true | None => false end.
Lemma locked_replayed : exists b' sq, apply_commands locked_journal (LimitOrderBook_init false) 0 = Ret (b', sq) /\
  side_empty (bids_ b') = true /\ best_ask b' = Ret 100 /\ find_order 1 b' = None /\ is_Some (find_order 2 b').
Proof.
  set (r := apply_commands _ _ _).
  assert (match r with
    | Ret (b', _) => side_empty (bids_ b') && match best_ask b' with Ret p => p =? 100 | _ => false end
                     && negb (ptr_set (find_order 1 b')) && ptr_set (find_order 2 b')
    | _ => false end = true) as E by (vm_compute; reflexivity).
  destruct r as [[b' sq]| | | |]; try discriminate E. apply andb_prop in E as [E E4]. apply andb_prop in E as [E E3].
  apply andb_prop in E as [E1 E2]. exists b', sq. split_and!; [reflexivity|exact E1|..].
  - destruct (best_ask b') as [p| | | |]; try discriminate E2. by apply Z.eqb_eq in E2 as ->.
  - by destruct (find_order 1 b').
  - by destruct (find_order 2 b').
Qed.
Lemma replayed_cancel_takes_other_level : exists b',
  recover 2 None ∅ {[1 := sample_journal locked_journal]} (LimitOrderBook_init false) = Ret (true, b') /\
  side_empty (bids_ b') = true /\ best_ask b' = Ret 100 /\ find_order 1 b' = None /\ is_Some (find_order 2 b').
Proof.
  destruct locked_replayed as (b' & sq & E & F). exists b'. split; [|exact F]. unfold recover. cbn [metadata_load].
  rewrite !bind_Ret. cbn [negb].
  rewrite (replay_files_holds (replicate 256 0) 0 _ [sample_journal locked_journal] [locked_journal]);
    [|unfold is_byte; lia| |apply one_journal|lia|cbn; lia|cbn; lia].
  - cbn [concat]. rewrite app_nil_r, E, !bind_Ret. reflexivity.
  - constructor; [|constructor]. apply sample_journal_holds. repeat constructor; cbn; lia || done.
Qed.
