(* ===== verification/Exchange.v ===== *)
(** * FluxTrade: the exchange

    [Dispatcher] and [Exchange] (src/exchange): commands from the gateway's
    queue are routed to one queue per symbol slot, each symbol's engine consumes
    its slot's queue, and the reports of all the engines go back to the clients
    through the gateway.  A step of the exchange is one turn of one of its
    threads. *)
From S2P Require Import Prelude Domain RingBuffer Wire Sessions Gateway Journal EngineManager.
Local Open Scope Z_scope.

(** ** The dispatcher *)
Definition NUM_SYMBOLS : Z := 32.
Definition QUEUE_CAPACITY : Z := 4096.
Abbreviation Dispatcher := (list (SPSCQueue OrderCommand)).
Definition dispatcher_init : Dispatcher := replicate 32 (queue_init QUEUE_CAPACITY default_command).
Definition get_queue (symbol_idx : Z) (d : Dispatcher) : outcome (SPSCQueue OrderCommand) := arr_get d symbol_idx.
Definition dispatch (cmd : OrderCommand) (d : Dispatcher) : outcome (bool * Dispatcher) :=
  let idx := oc_symbol_id cmd mod NUM_SYMBOLS in
  q ← arr_get d idx;
  r ← push QUEUE_CAPACITY q cmd;
  d ← arr_set d idx r.2;
  Ret (r.1, d).

Section Exchange.
Context {X : Type} `{Transport X}.
(** The clocks of the gateway's thread and of each engine's thread, and what
    uninitialised bytes hold. *)
Context (now : nat -> Z) (engine_now : nat -> nat -> Z) (stack_tail stack : list Z) (gap : Z).

Record Exchange : Type := mkExchange {
  x_gateway : Gateway X;
  x_outbound : SPSCQueue OutboundReport;
  x_dispatcher : Dispatcher;
  x_engines : list EngineManager;
  x_symbol_ids : list Z;
  x_running : bool;
}.
Definition Exchange_init (transport : option X) : Exchange :=
  {| x_gateway := gateway_init transport (queue_init INBOUND_CAPACITY default_command);
     x_outbound := queue_init OUTBOUND_CAPACITY default_outbound; x_dispatcher := dispatcher_init;
     x_engines := []; x_symbol_ids := []; x_running := false |}.
Definition x_set_gateway (g : Gateway X) (x : Exchange) : Exchange :=
  mkExchange g (x_outbound x) (x_dispatcher x) (x_engines x) (x_symbol_ids x) (x_running x).
Definition x_set_outbound (q : SPSCQueue OutboundReport) (x : Exchange) : Exchange :=
  mkExchange (x_gateway x) q (x_dispatcher x) (x_engines x) (x_symbol_ids x) (x_running x).
Definition x_set_dispatcher (d : Dispatcher) (x : Exchange) : Exchange :=
  mkExchange (x_gateway x) (x_outbound x) d (x_engines x) (x_symbol_ids x) (x_running x).
Definition x_set_engines (es : list EngineManager) (x : Exchange) : Exchange :=
  mkExchange (x_gateway x) (x_outbound x) (x_dispatcher x) es (x_symbol_ids x) (x_running x).
Definition x_set_running (b : bool) (x : Exchange) : Exchange :=
  mkExchange (x_gateway x) (x_outbound x) (x_dispatcher x) (x_engines x) (x_symbol_ids x) b.

(** [add_symbol]; [files]: what the directory of the engine's journal holds. *)
Definition add_symbol (symbol_id core_id : Z) (files : gmap Z (list Z)) (x : Exchange) : outcome Exchange :=
  _ ← get_queue (symbol_id mod NUM_SYMBOLS) (x_dispatcher x);
  Ret (mkExchange (x_gateway x) (x_outbound x) (x_dispatcher x)
         (x_engines x ++ [EngineManager_init symbol_id core_id files]) (x_symbol_ids x ++ [symbol_id]) (x_running x)).

Definition submit_command (cmd : OrderCommand) (x : Exchange) : outcome (bool * Exchange) :=
  r ← dispatch cmd (x_dispatcher x);
  Ret (r.1, x_set_dispatcher r.2 x).

(** ** Starting and stopping *)
Definition exchange_stop (x : Exchange) : Exchange :=
  if negb (x_running x) then x
  else
    let x := x_set_running false x in
    let x := x_set_engines (map em_stop (x_engines x)) x in
    x_set_gateway (gateway_stop (x_gateway x)) x.
Definition exchange_start (x : Exchange) : bool * Exchange :=
  if x_running x then (true, x)
  else
    let x := x_set_engines (map em_start (x_engines x)) x in
    let x := x_set_running true x in
    let (ok, g) := gateway_start (x_gateway x) in
    let x := x_set_gateway g x in
    if ok then (true, x) else (false, exchange_stop x).

(** ** The gateway's thread *)
(** [while (inbound_queue_.pop(cmd)) dispatcher_.dispatch(cmd);] *)
Fixpoint drain_inbound (fuel : nat) (q : SPSCQueue OrderCommand) (d : Dispatcher)
    : outcome (SPSCQueue OrderCommand * Dispatcher) :=
  match fuel with
  | O => Diverge
  | S fuel =>
      r ← pop INBOUND_CAPACITY q;
      match r.1 with
      | None => Ret (r.2, d)
      | Some cmd => d ← dispatch cmd d; drain_inbound fuel r.2 d.2
      end
  end.
Definition exchange_poll (fuel : nat) (x : Exchange) : outcome Exchange :=
  g ← gateway_poll now stack_tail fuel (x_gateway x);
  r ← drain_inbound fuel (g_inbound_queue g) (x_dispatcher x);
  Ret (x_set_dispatcher r.2 (x_set_gateway (set_queue r.1 g) x)).

(** ** The response thread *)
Definition send_report (r : OutboundReport) (g : Gateway X) : outcome (Gateway X) :=
  match or_type r, or_data r with
  | OutExecutionReport, DataExecution p =>
      Ret (send_packet (or_conn_id r) ExecutionReport (mh_sequence (er_header p)) (mh_timestamp (er_header p)) p g).2
  | OutReject, DataReject p =>
      Ret (send_packet (or_conn_id r) Reject (mh_sequence (rj_header p)) (mh_timestamp (rj_header p)) p g).2
  | _, _ => Undefined
  end.
(** A turn of [run_response_loop] *)
Definition response_turn (x : Exchange) : outcome Exchange :=
  if x_running x then
    r ← pop OUTBOUND_CAPACITY (x_outbound x);
    let x := x_set_outbound r.2 x in
    match r.1 with
    | None => Ret x
    | Some report => g ← send_report report (x_gateway x); Ret (x_set_gateway g x)
    end
  else Ret x.

(** ** The engines' threads: a turn of the [i]-th *)
Definition engine_step (i : nat) (x : Exchange) : outcome Exchange :=
  em ← arr_get (x_engines x) (Z.of_nat i);
  let slot := em_symbol_id em mod NUM_SYMBOLS in
  q ← get_queue slot (x_dispatcher x);
  r ← engine_turn (engine_now i) stack gap em q (x_outbound x);
  match r with
  | None => Ret x
  | Some (em, q, outbound) =>
      es ← arr_set (x_engines x) (Z.of_nat i) em;
      d ← arr_set (x_dispatcher x) slot q;
      Ret (x_set_dispatcher d (x_set_engines es (x_set_outbound outbound x)))
  end.

(** Any interleaving of whole turns *)
Inductive exchange_step : Exchange -> Exchange -> Prop :=
| StepGateway fuel x x' : x_running x = true -> exchange_poll fuel x = Ret x' -> exchange_step x x'
| StepResponse x x' : response_turn x = Ret x' -> exchange_step x x'
| StepEngine i x x' : engine_step i x = Ret x' -> exchange_step x x'
| StepSubmit cmd ok x x' : submit_command cmd x = Ret (ok, x') -> exchange_step x x'.
End Exchange.
Arguments Exchange : clear implicits.
