(* ===== verification/ExchangeProperties.v ===== *)
(** * FluxTrade: properties of the exchange

    Helper lemmas on the dispatcher and on the response thread, then the
    theorems. *)
From S2P Require Import Prelude Domain ObjectPool DList BookSpec OrderList SideBook OrderBook BookRefine BookOps BookClear MatchSpec RingBuffer Wire Sessions Gateway GatewayRefine GatewayFraming GatewayProperties Checksum Journal JournalRefine TradeBuilder MatchingEngine MatchRefine RiskState RiskEngine RiskRefine RiskProperties EngineManager EngineRefine EngineProperties Exchange.
Local Open Scope Z_scope.

(** ** The dispatcher as a list of lists *)
Definition dispatcher_rep (d : Dispatcher) (ls : list (list OrderCommand)) : Prop :=
  length d = 32%nat /\ Forall2 (queue_rep QUEUE_CAPACITY) d ls.
Definition slot (cmd : OrderCommand) : nat := Z.to_nat (oc_symbol_id cmd mod NUM_SYMBOLS).
Definition route (ls : list (list OrderCommand)) (cmd : OrderCommand) : list (list OrderCommand) :=
  alter (fun k => bounded QUEUE_CAPACITY (k ++ [cmd])) (slot cmd) ls.

Lemma queue_capacity : 0 < QUEUE_CAPACITY < 2 ^ 64 /\ Z.land QUEUE_CAPACITY (QUEUE_CAPACITY - 1) = 0.
Proof. unfold QUEUE_CAPACITY. split; [lia|reflexivity]. Qed.

Lemma dispatcher_init_rep : dispatcher_rep dispatcher_init (replicate 32 []).
Proof.
  split; [apply length_replicate|]. unfold dispatcher_init. apply Forall2_replicate.
  apply queue_init_rep. apply queue_capacity.
Qed.

Lemma symbol_slot_range cmd : 0 <= oc_symbol_id cmd mod NUM_SYMBOLS < 32.
Proof. apply Z.mod_pos_bound. unfold NUM_SYMBOLS. lia. Qed.

Lemma dispatch_spec cmd d ls :
  dispatcher_rep d ls -> exists ok d', dispatch cmd d = Ret (ok, d') /\ dispatcher_rep d' (route ls cmd).
Proof.
  intros [L F]. pose proof (symbol_slot_range cmd) as B. unfold dispatch.
  destruct (arr_get_live d (oc_symbol_id cmd mod NUM_SYMBOLS)) as (q & Eq & ->); [lia|]. rewrite bind_Ret.
  destruct (Forall2_lookup_l _ _ _ _ _ F Eq) as (k & Ek & Rk).
  destruct (push_bounded QUEUE_CAPACITY q k cmd (proj1 queue_capacity) (proj2 queue_capacity) Rk) as (ok & q' & -> & R').
  rewrite bind_Ret. cbn [fst snd]. rewrite arr_set_Ret, bind_Ret by lia. exists ok. eexists. split; [done|].
  split; [by rewrite length_insert|]. unfold route. fold (slot cmd) in *.
  assert (alter (fun k => bounded QUEUE_CAPACITY (k ++ [cmd])) (slot cmd) ls =
    <[slot cmd := bounded QUEUE_CAPACITY (k ++ [cmd])]> ls) as ->.
  { apply list_eq. intros i. destruct (decide (i = slot cmd)) as [->|N].
    - rewrite list_lookup_alter_eq, Ek. symmetry. apply list_lookup_insert_eq. by apply lookup_lt_Some in Ek.
    - by rewrite list_lookup_insert_ne, list_lookup_alter_ne by done. }
  by apply Forall2_insert.
Qed.

Lemma drain_inbound_spec l : forall fuel q d ls,
  queue_rep INBOUND_CAPACITY q l -> dispatcher_rep d ls -> (length l < fuel)%nat ->
  exists q' d', drain_inbound fuel q d = Ret (q', d') /\ queue_rep INBOUND_CAPACITY q' [] /\
    dispatcher_rep d' (foldl route ls l).
Proof.
  induction l as [|c l IH]; intros fuel q d ls R D Hf; (destruct fuel as [|fuel]; [simpl in Hf; lia|]);
    cbn [drain_inbound foldl].
  - rewrite (pop_nil INBOUND_CAPACITY q R), bind_Ret. by exists q, d.
  - destruct (pop_cons INBOUND_CAPACITY queue_pos queue_pow q c l R) as (q1 & -> & R1). rewrite bind_Ret. cbn [fst snd].
    destruct (dispatch_spec c d ls D) as (ok & d1 & -> & D1). rewrite bind_Ret. cbn [snd].
    apply IH; [done|done|]. cbn [length] in Hf. lia.
Qed.

(** A slot receives, in order, the commands of its symbols, as many as fit. *)
Lemma routed l : forall ls i k,
  ls !! i = Some k -> Z.of_nat (length k) <= QUEUE_CAPACITY ->
  foldl route ls l !! i = Some (bounded QUEUE_CAPACITY (k ++ filter (fun c => slot c = i) l)).
Proof.
  induction l as [|c l IH]; intros ls i k E L; cbn [foldl].
  { rewrite filter_nil, app_nil_r, bounded_fits by done. done. }
  destruct (decide (slot c = i)) as [<-|N].
  - rewrite filter_cons_True by done.
    rewrite (IH (route ls c) (slot c) (bounded QUEUE_CAPACITY (k ++ [c]))).
    + f_equal. rewrite bounded_app, <- app_assoc. done.
    + unfold route. by rewrite list_lookup_alter_eq, E.
    + unfold bounded. rewrite length_take. lia.
  - rewrite filter_cons_False by done. apply IH; [|done]. unfold route. by rewrite list_lookup_alter_ne.
Qed.

(** ** The response thread *)
Section Responses.
Context {X : Type} `{Transport X}.

(** The bytes a report is sent as *)
Definition sent_bytes {P} `{Packet P} (type : MessageType) (seq ts : Z) (p : P) : list Z :=
  packet_bytes (pk_set_header {| mh_length := u16 (packet_size P); mh_type := u16 (MessageType_code type);
    mh_padding := mh_padding (pk_header p); mh_sequence := seq; mh_timestamp := ts |} p).
Definition report_bytes (r : OutboundReport) : list Z :=
  match or_data r with
  | DataExecution p => sent_bytes Wire.ExecutionReport (mh_sequence (er_header p)) (mh_timestamp (er_header p)) p
  | DataReject p => sent_bytes Reject (mh_sequence (rj_header p)) (mh_timestamp (rj_header p)) p
  | DataZero => []
  end.
(** The union holds the member its tag names, with arrays of their size. *)
Definition report_wf (r : OutboundReport) : Prop :=
  match or_type r, or_data r with
  | OutExecutionReport, DataExecution p => length (er_padding p) = 6%nat
  | OutReject, DataReject p => length (rj_padding p) = 6%nat /\ length (rj_tail p) = 4%nat
  | _, _ => False
  end.
Definition send_to (t : X) (r : OutboundReport) : X := (t_send t (or_conn_id r) (report_bytes r)).2.

Lemma send_packet_sends {P} `{Packet P} id type seq ts (p : P) t (g : Gateway X) :
  packet_sized p -> 0 < packet_size P <= 8192 -> g_transport g = Some t ->
  exists b, (send_packet id type seq ts p g).2 =
    set_transport (t_send t id (sent_bytes type seq ts p)).2 (set_write_buffer b g).
Proof.
  intros S B T. unfold send_packet, encode. rewrite T.
  destruct (Z.ltb_spec 8192 (packet_size P)); [lia|]. cbn [fst snd].
  destruct (Z.eqb_spec (packet_size P) 0); [lia|].
  set (h := mkHeader _ _ _ _ _). pose proof (S h) as L.
  rewrite take_app_le, take_ge by lia. fold (sent_bytes type seq ts p).
  unfold sent_bytes. fold h. eexists. by destruct (t_send t id _).
Qed.

Lemma execution_sized p : length (er_padding p) = 6%nat -> packet_sized p.
Proof.
  intros L h'. unfold packet_bytes, fields_bytes, packet_size. cbn -[le_bytes].
  rewrite !length_app, !le_bytes_length, L. reflexivity.
Qed.
Lemma reject_packet_sized p : length (rj_padding p) = 6%nat -> length (rj_tail p) = 4%nat -> packet_sized p.
Proof.
  intros L1 L2 h'. unfold packet_bytes, fields_bytes, packet_size. cbn -[le_bytes].
  rewrite !length_app, !le_bytes_length, L1, L2. reflexivity.
Qed.

Lemma send_report_sends r t (g : Gateway X) :
  report_wf r -> g_transport g = Some t ->
  exists b, send_report r g = Ret (set_transport (send_to t r) (set_write_buffer b g)).
Proof.
  unfold report_wf, send_report, send_to, report_bytes. intros W T.
  destruct (or_type r), (or_data r) as [|p|p]; try done.
  - destruct (send_packet_sends (or_conn_id r) Wire.ExecutionReport (mh_sequence (er_header p)) (mh_timestamp (er_header p)) p t g)
      as (b & ->); [by apply execution_sized|done|done|by exists b].
  - destruct (send_packet_sends (or_conn_id r) Reject (mh_sequence (rj_header p)) (mh_timestamp (rj_header p)) p t g)
      as (b & ->); [by apply reject_packet_sized; apply W|done|done|by exists b].
Qed.

(** [n] turns of the response thread *)
Fixpoint response_turns (n : nat) (x : Exchange X) : outcome (Exchange X) :=
  match n with O => Ret x | S n => x ← response_turn x; response_turns n x end.

Lemma response_turns_spec l : forall x t,
  x_running x = true -> queue_rep OUTBOUND_CAPACITY (x_outbound x) l -> Forall report_wf l ->
  g_transport (x_gateway x) = Some t ->
  exists x', response_turns (length l) x = Ret x' /\ queue_rep OUTBOUND_CAPACITY (x_outbound x') [] /\
    g_transport (x_gateway x') = Some (foldl send_to t l) /\
    g_sessions (x_gateway x') = g_sessions (x_gateway x) /\
    g_inbound_queue (x_gateway x') = g_inbound_queue (x_gateway x) /\
    x_dispatcher x' = x_dispatcher x /\ x_engines x' = x_engines x.
Proof.
  induction l as [|r l IH]; intros x t Hr R F T; cbn [length response_turns foldl]; [by exists x|].
  apply Forall_cons in F as [W F]. unfold response_turn. rewrite Hr.
  destruct (pop_cons OUTBOUND_CAPACITY (proj1 outbound_capacity) (proj2 outbound_capacity) _ r l R) as (q & -> & R1).
  rewrite bind_Ret. cbn [fst snd]. destruct (send_report_sends r t (x_gateway x) W T) as (b & E).
  change (x_gateway (x_set_outbound q x)) with (x_gateway x). rewrite E, !bind_Ret.
  destruct (IH (x_set_gateway (set_transport (send_to t r) (set_write_buffer b (x_gateway x))) (x_set_outbound q x))
    (send_to t r) Hr R1 F eq_refl) as (x' & Ex & ? & ? & ? & ? & ? & ?).
  exists x'. split; [exact Ex|]. by split_and!.
Qed.
End Responses.

(** ** What the engine sends is well-formed *)
Lemma spec_process_wf stack gap t0 t1 t2 verdict cmd v :
  Forall report_wf (v_out v) -> Forall report_wf (v_out (spec_process stack gap t0 t1 t2 verdict cmd v)).
Proof.
  intros F. assert (forall rs w, v_out w = v_out v -> Forall report_wf rs -> Forall report_wf (v_out (v_report rs w))) as V.
  { intros rs w Ew Fr. cbn [v_report v_out]. rewrite Ew. unfold bounded. apply Forall_take, Forall_app. by split. }
  assert (forall side rs, Forall report_wf (executions cmd side rs)) as W.
  { intros side rs. unfold executions. apply Forall_fmap, Forall_forall. intros r _. reflexivity. }
  destruct verdict as [reason|]; cbn [spec_process].
  - apply V; [done|]. apply Forall_singleton. split; reflexivity.
  - unfold spec_execute. destruct (oc_type cmd); try done; [by apply V|].
    destruct (list_find _ _) as [[? r]|]; [by apply V|done].
Qed.
Lemma spec_process_out_bound stack gap t0 t1 t2 verdict cmd v :
  v_out v = [] -> (length (v_out (spec_process stack gap t0 t1 t2 verdict cmd v)) <= 4096)%nat.
Proof.
  intros E. assert (forall rs w, (length (v_out (v_report rs w)) <= 4096)%nat) as V.
  { intros rs w. cbn [v_report v_out]. unfold bounded. rewrite length_take. unfold OUTBOUND_CAPACITY. lia. }
  destruct verdict as [reason|]; cbn [spec_process]; [apply V|].
  unfold spec_execute. destruct (oc_type cmd); cbn [v_log v_out]; rewrite ?E; try apply V; try (cbn; lia).
  destruct (list_find _ _) as [[? r]|]; [apply V|]. cbn [v_log v_out]. rewrite E. cbn. lia.
Qed.

(** ** From the client's bytes back to the client *)
Section Serve.
Context {X : Type} `{Transport X}.
Context (now : nat -> Z) (engine_now : nat -> nat -> Z) (stack_tail stack : list Z) (gap : Z).

(** The transport delivers [bytes] to the gateway; the gateway's thread routes
    the command; engine [k] takes its turn; the response thread takes [turns]. *)
Definition serve (fuel k turns : nat) (id : Z) (bytes : list Z) (x : Exchange X) : outcome (Exchange X) :=
  g ← on_read now stack_tail fuel id bytes (x_gateway x);
  x ← exchange_poll now stack_tail fuel (x_set_gateway g x);
  x ← engine_step engine_now stack gap k x;
  response_turns turns x.

(** A running exchange with empty queues whose engine [k] stands for [v]. *)
Record idle (n : Z) (k : nat) (em : EngineManager) (v : EngineView) (t : X) (x : Exchange X) : Prop := {
  id_running : x_running x = true;
  id_gateway : gateway_ok (x_gateway x);
  id_inbound : queue_rep INBOUND_CAPACITY (g_inbound_queue (x_gateway x)) [];
  id_transport : g_transport (x_gateway x) = Some t;
  id_quiet : t_poll t = (t, []);
  id_queues : exists ls, dispatcher_rep (x_dispatcher x) ls /\
                ls !! Z.to_nat (em_symbol_id em mod NUM_SYMBOLS) = Some [];
  id_engine : x_engines x !! k = Some em;
  id_engine_running : em_running em = true;
  id_engine_rep : engine_rep n em (x_outbound x) v;
  id_no_replies : v_out v = [] }.

Lemma poll_spec fuel (x : Exchange X) t l ls :
  g_transport (x_gateway x) = Some t -> t_poll t = (t, []) ->
  queue_rep INBOUND_CAPACITY (g_inbound_queue (x_gateway x)) l -> dispatcher_rep (x_dispatcher x) ls ->
  (length l < fuel)%nat ->
  exists q d, exchange_poll now stack_tail fuel x =
      Ret (x_set_dispatcher d (x_set_gateway (set_queue q (set_transport t (x_gateway x))) x)) /\
    queue_rep INBOUND_CAPACITY q [] /\ dispatcher_rep d (foldl route ls l).
Proof.
  intros T P Q D F. unfold exchange_poll, gateway_poll. rewrite T, P. cbn [deliver_all]. rewrite bind_Ret.
  change (g_inbound_queue (set_transport t (x_gateway x))) with (g_inbound_queue (x_gateway x)).
  destruct (drain_inbound_spec l fuel _ _ ls Q D F) as (q & d & -> & Q' & D'). rewrite bind_Ret. by exists q, d.
Qed.

Lemma engine_step_spec n k em v cmd (x : Exchange X) ls :
  x_engines x !! k = Some em -> em_running em = true -> dispatcher_rep (x_dispatcher x) ls ->
  ls !! Z.to_nat (em_symbol_id em mod NUM_SYMBOLS) = Some [cmd] ->
  engine_rep n em (x_outbound x) v -> command_ok cmd -> 2 * oc_qty cmd <= n -> oc_qty cmd < 2 ^ 62 ->
  command_room (em_reading (engine_now k) em 4) cmd v ->
  exists res risk tr em' out' q d,
    RiskEngine.validate (em_reading (engine_now k) em 0) (em_reading (engine_now k) em 1) (em_reading (engine_now k) em 2)
      (em_reading (engine_now k) em 3) (risk_context 10000000000 cmd) (em_risk em) [] = Ret (res, risk, tr) /\
    engine_step engine_now stack gap k x =
      Ret (x_set_dispatcher d (x_set_engines (<[k := em']> (x_engines x)) (x_set_outbound out' x))) /\
    d = <[Z.to_nat (em_symbol_id em mod NUM_SYMBOLS) := q]> (x_dispatcher x) /\ queue_rep QUEUE_CAPACITY q [] /\
    engine_rep (n - 2 * oc_qty cmd) em' out' (spec_process stack gap (em_reading (engine_now k) em 4)
      (em_reading (engine_now k) em 5) (em_reading (engine_now k) em 6) (verdict_of res) cmd v).
Proof.
  intros He Hr [L F] Hs R C Hn Hq Rm. unfold engine_step, get_queue.
  assert (0 <= em_symbol_id em mod NUM_SYMBOLS < 32) as B by (apply Z.mod_pos_bound; unfold NUM_SYMBOLS; lia).
  rewrite (arr_get_Ret (x_engines x) (Z.of_nat k) em), bind_Ret by (rewrite ?Nat2Z.id; done || lia).
  destruct (Forall2_lookup_r _ _ _ _ _ F Hs) as (q & Eq & Rq).
  rewrite (arr_get_Ret _ _ q), bind_Ret by (done || lia). unfold engine_turn. rewrite Hr.
  destruct (pop_cons INBOUND_CAPACITY queue_pos queue_pow q cmd [] Rq) as (q' & -> & Rq'). rewrite bind_Ret. cbn [fst snd].
  destruct (process_refine n (engine_now k) stack gap cmd em (x_outbound x) v R C Hn Hq Rm)
    as (res & risk & tr & em' & out' & V & -> & R'). rewrite !bind_Ret.
  apply lookup_lt_Some in He as Lk.
  cbn beta iota. rewrite (arr_set_Ret (x_engines x)), bind_Ret by lia.
  rewrite (arr_set_Ret (x_dispatcher x)), bind_Ret by lia. rewrite Nat2Z.id.
  eexists res, risk, tr, em', out', q', _. split; [exact V|]. split; [done|]. split; [done|]. by split.
Qed.
End Serve.

(** ** The theorems *)
(** Polling moves every command the gateway queued to the queue of its
    symbol's slot, in the order of arrival and behind what the slot held, up to
    the slot's capacity, and leaves the gateway's queue empty. *)
Theorem poll_routes {X} `{Transport X} now stack_tail fuel (x : Exchange X) g l ls :
  gateway_poll now stack_tail fuel (x_gateway x) = Ret g ->
  queue_rep INBOUND_CAPACITY (g_inbound_queue g) l -> dispatcher_rep (x_dispatcher x) ls -> (length l < fuel)%nat ->
  exists x', exchange_poll now stack_tail fuel x = Ret x' /\
    queue_rep INBOUND_CAPACITY (g_inbound_queue (x_gateway x')) [] /\
    g_sessions (x_gateway x') = g_sessions g /\ g_transport (x_gateway x') = g_transport g /\
    x_engines x' = x_engines x /\ x_outbound x' = x_outbound x /\
    forall i k, ls !! i = Some k -> exists q, x_dispatcher x' !! i = Some q /\
      queue_rep QUEUE_CAPACITY q (bounded QUEUE_CAPACITY (k ++ filter (fun c => slot c = i) l)).
Proof.
  intros E Q D F. unfold exchange_poll. rewrite E, bind_Ret.
  destruct (drain_inbound_spec l fuel _ _ ls Q D F) as (q & d & -> & Q' & [L' F']). rewrite bind_Ret.
  eexists. split; [done|]. split_and!; [exact Q'|done..|]. intros i k Hk.
  destruct D as [_ D]. destruct (Forall2_lookup_r _ _ _ _ _ D Hk) as (q0 & _ & Rk).
  assert (Z.of_nat (length k) <= QUEUE_CAPACITY) as Lk by apply Rk.
  exact (Forall2_lookup_r _ _ _ _ _ F' (routed l ls i k Hk Lk)).
Qed.

(** The response thread sends every report on the outbound queue exactly
    once, in order, to the connection it names. *)
Theorem responses_in_order {X} `{Transport X} (x : Exchange X) t l :
  x_running x = true -> queue_rep OUTBOUND_CAPACITY (x_outbound x) l -> Forall report_wf l ->
  g_transport (x_gateway x) = Some t ->
  exists x', response_turns (length l) x = Ret x' /\ queue_rep OUTBOUND_CAPACITY (x_outbound x') [] /\
    g_transport (x_gateway x') = Some (foldl send_to t l) /\ x_engines x' = x_engines x.
Proof.
  intros Hr R F T. destruct (response_turns_spec l x t Hr R F T) as (x' & E & Q & T' & _ & _ & _ & En). by exists x'.
Qed.

(** C7: an order's whole way: a logged-in client's order packet, delivered to a
    running exchange with empty queues, is routed to the engine of its symbol,
    processed as [spec_process] says with the verdict [RiskEngine::validate] gives
    it, and exactly the resulting reports (one reject with the reason when the
    checks turn it down, else an acknowledgement and what was traded) are sent
    back to that client, after finitely many turns. *)
Theorem order_answered {X} `{Transport X} now engine_now stack_tail stack gap
    n k i id c (p : NewOrderPacket) dest seq ts em v t fuel (x : Exchange X) :
  length stack_tail = 4%nat -> idle n k em v t x -> (1 < fuel)%nat ->
  live (g_sessions (x_gateway x)) !! i = Some c -> cc_conn_id c = id -> cc_authenticated c = true ->
  cc_buffer_len c = 0 -> packet_ok p -> packet_size NewOrderPacket <= Z.of_nat (length dest) ->
  0 <= seq < 2 ^ 64 -> 0 <= ts < 2 ^ 64 -> mh_padding (no_header p) = 0 ->
  no_symbol_id p mod NUM_SYMBOLS = em_symbol_id em mod NUM_SYMBOLS ->
  let cmd := order_command (g_sequence (x_gateway x)) (now (g_ticks (x_gateway x))) id p in
  let t4 := em_reading (engine_now k) em 4 in
  command_ok cmd -> 2 * oc_qty cmd <= n -> oc_qty cmd < 2 ^ 62 -> command_room t4 cmd v ->
  let r := encode dest (Z.of_nat (length dest)) NewOrder seq ts p in
  exists res risk tr turns x' em',
    RiskEngine.validate (em_reading (engine_now k) em 0) (em_reading (engine_now k) em 1) (em_reading (engine_now k) em 2)
      (em_reading (engine_now k) em 3) (risk_context 10000000000 cmd) (em_risk em) [] = Ret (res, risk, tr) /\
    let v' := spec_process stack gap t4 (em_reading (engine_now k) em 5) (em_reading (engine_now k) em 6) (verdict_of res) cmd v in
    serve now engine_now stack_tail stack gap fuel k turns id (take (Z.to_nat r.1) r.2) x = Ret x' /\
    g_transport (x_gateway x') = Some (foldl send_to t (v_out v')) /\
    x_engines x' !! k = Some em' /\ abs (book_ (em_matching em')) (v_book v').
Proof.
  intros Ht [Hrun Hg Hq HT Hquiet (ls & D & Hs) He Her R V0] Hf Hi Hid Ha H0 Hp HL Hseq Hts Hpad Hsym cmd t4 C Hn Hqty Rm r.
  destruct (new_order_queued now stack_tail fuel i id c p dest seq ts [] (x_gateway x) Ht Hg Hf Hq ltac:(done)
    Hi Hid Ha H0 Hp HL Hseq Hts Hpad) as (g & E1 & _ & Q1 & _ & T1 & _). fold r in E1. fold cmd in Q1.
  rewrite HT in T1.
  destruct (poll_spec now stack_tail fuel (x_set_gateway g x) t [cmd] ls T1 Hquiet Q1 D Hf) as (q2 & d2 & E2 & Q2 & D2).
  cbn [foldl] in D2. set (x2 := x_set_dispatcher d2 _) in E2.
  assert (slot cmd = Z.to_nat (em_symbol_id em mod NUM_SYMBOLS)) as Es by (unfold slot; by rewrite <- Hsym).
  assert (route ls cmd !! Z.to_nat (em_symbol_id em mod NUM_SYMBOLS) = Some [cmd]) as Hs2.
  { unfold route. by rewrite Es, list_lookup_alter_eq, Hs. }
  destruct (engine_step_spec engine_now stack gap n k em v cmd x2 _ He Her D2 Hs2 R C Hn Hqty Rm)
    as (res & risk & tr & em' & out' & q3 & d3 & V & E3 & _ & _ & R3). fold t4 in R3.
  set (v' := spec_process _ _ _ _ _ _ _ _) in R3.
  assert (Forall report_wf (v_out v')) as W by (apply spec_process_wf; by rewrite V0).
  destruct (response_turns_spec (v_out v') (x_set_dispatcher d3 (x_set_engines (<[k:=em']> (x_engines x2)) (x_set_outbound out' x2)))
    t Hrun (er_out _ _ _ _ R3) W eq_refl) as (x4 & E4 & _ & T4 & _ & _ & _ & En).
  exists res, risk, tr, (length (v_out v')), x4, em'. split; [exact V|]. split; [|split; [exact T4|]].
  { unfold serve. rewrite E1, bind_Ret, E2, bind_Ret, E3, bind_Ret. exact E4. }
  split; [|exact (er_book _ _ _ _ R3)]. rewrite En. apply list_lookup_insert_eq. by apply lookup_lt_Some in He.
Qed.

(** ** A running exchange with one client and one symbol, for the witnesses *)
Definition sample_exchange : Exchange SimulationTransport :=
  mkExchange (one_client true) (queue_init OUTBOUND_CAPACITY default_outbound) dispatcher_init
    [em_start (EngineManager_init 1 0 ∅)] [1] true.
Lemma sample_engine :
  engine_rep (2 ^ 62) (em_start (EngineManager_init 1 0 ∅)) (queue_init OUTBOUND_CAPACITY default_outbound) empty_view.
Proof. destruct (fresh_engine 1 0 ∅) as [Eb Es Ec Er Ej Eo]. split; [exact Eb|exact Es|exact Ec|exact Er|exact Ej|exact Eo]. Qed.
Lemma sample_idle :
  idle (2 ^ 62) 0 (em_start (EngineManager_init 1 0 ∅)) empty_view (mkSimulation true []) sample_exchange.
Proof.
  split; try reflexivity.
  - apply one_client_ok.
  - apply one_client_queue.
  - exists (replicate 32 []). split; [exact dispatcher_init_rep|reflexivity].
  - exact sample_engine.
Qed.
Definition sample_command : OrderCommand := order_command 1 0 7 sample_order.
Lemma routed_command_ok : command_ok sample_command.
Proof. unfold command_ok, sample_command, order_command. split_and!; (reflexivity || (vm_compute; congruence)). Qed.
Lemma sample_command_room t : command_room t sample_command empty_view.
Proof. intros _ _. split; [apply not_elem_of_nil|]. split; [done|by right]. Qed.

Lemma one_client_poll q :
  gateway_poll clock tail4 2 (set_queue q (one_client true)) = Ret (set_queue q (one_client true)).
Proof. unfold gateway_poll. cbn [g_transport set_queue one_client t_poll simulation_transport deliver_all]. reflexivity. Qed.

Lemma poll_routes_witness : exists q x' q',
  queue_rep INBOUND_CAPACITY q [buy_command] /\
  exchange_poll clock tail4 2 (x_set_gateway (set_queue q (one_client true)) sample_exchange) = Ret x' /\
  x_dispatcher x' !! 7%nat = Some q' /\ queue_rep QUEUE_CAPACITY q' [buy_command].
Proof.
  destruct (emplace_room INBOUND_CAPACITY queue_pos queue_pow _ [] buy_command (one_client_queue true) ltac:(reflexivity))
    as (q & _ & Q).
  destruct (poll_routes clock tail4 2 (x_set_gateway (set_queue q (one_client true)) sample_exchange)
    (set_queue q (one_client true)) [buy_command] (replicate 32 []) (one_client_poll q) Q dispatcher_init_rep ltac:(cbn; lia))
    as (x' & E & _ & _ & _ & _ & _ & D).
  destruct (D 7%nat [] eq_refl) as (q' & E' & Q'). exists q, x', q'.
  split; [exact Q|]. split; [exact E|]. split; [exact E'|exact Q'].
Defined.

Lemma responses_in_order_witness : exists q x',
  queue_rep OUTBOUND_CAPACITY q [reject_outbound 4 buy_command InvalidPrice] /\
  response_turns 1 (x_set_outbound q sample_exchange) = Ret x' /\
  g_transport (x_gateway x') = Some (mkSimulation true [report_bytes (reject_outbound 4 buy_command InvalidPrice)]).
Proof.
  destruct (emplace_room OUTBOUND_CAPACITY (proj1 outbound_capacity) (proj2 outbound_capacity) _ []
    (reject_outbound 4 buy_command InvalidPrice)
    (queue_init_rep OUTBOUND_CAPACITY (proj1 outbound_capacity) default_outbound) ltac:(reflexivity)) as (q & _ & Q).
  destruct (responses_in_order (x_set_outbound q sample_exchange) (mkSimulation true []) _ eq_refl Q
    ltac:(apply Forall_singleton; split; reflexivity) eq_refl) as (x' & E & _ & T & _).
  exists q, x'. split; [exact Q|]. split; [exact E|exact T].
Defined.

Lemma order_answered_witness : exists res risk tr turns x',
  let em := em_start (EngineManager_init 1 0 ∅) in
  RiskEngine.validate (clock 0) (clock 1) (clock 2) (clock 3) (risk_context 10000000000 sample_command) (em_risk em) [] =
    Ret (res, risk, tr) /\
  serve clock (fun _ => clock) tail4 [] 0 2 0 turns 7
    (take 64 (encode (replicate 64 0) 64 NewOrder 1 1 sample_order).2) sample_exchange = Ret x' /\
  g_transport (x_gateway x') = Some (foldl send_to (mkSimulation true [])
    (v_out (spec_process [] 0 (clock 4) (clock 5) (clock 6) (verdict_of res) sample_command empty_view))).
Proof.
  destruct (one_client_live true) as (c & Hi & Hid & Ha & H0).
  destruct (order_answered clock (fun _ => clock) tail4 [] 0 (2 ^ 62) 0 0 7 c sample_order (replicate 64 0) 1 1
    (em_start (EngineManager_init 1 0 ∅)) empty_view (mkSimulation true []) 2 sample_exchange)
    as (res & risk & tr & turns & x' & em' & V & E & T & _); [reflexivity|exact sample_idle|lia|exact Hi|exact Hid|exact Ha|exact H0
    |exact sample_order_ok|vm_compute; congruence|lia|lia|reflexivity|reflexivity|exact routed_command_ok
    |cbn; lia|cbn; lia|exact (sample_command_room _)|].
  exists res, risk, tr, turns, x'. split; [exact V|]. split; [exact E|exact T].
Defined.
