(* ===== verification/ExchangeInvariant.v ===== *)
(** * FluxTrade: an invariant of the whole exchange

    From its construction, through any interleaving of turns of its threads and
    of the calls of its owner, whatever bytes the clients send: values stay in
    their types, queues stay well-formed, and every engine's book is sound and
    uncrossed, as long as no new order reaches an engine whose book holds an order
    of the same id. *)
From S2P Require Import Prelude Domain ObjectPool DList BookSpec OrderList SideBook OrderBook BookRefine BookOps BookClear MatchSpec RingBuffer Wire Sessions Gateway GatewayRefine GatewayProperties Checksum Journal JournalRefine GatewayTyping TradeBuilder MatchingEngine MatchRefine RiskState RiskEngine EngineManager EngineRefine EngineProperties Exchange ExchangeProperties.
Local Open Scope Z_scope.

(** ** One engine *)
Record engine_sound (em : EngineManager) : Prop := mkSound {
  es_book : exists B, abs (book_ (em_matching em)) B /\ uncrossed B;
  es_ctx : ctx_wf (em_exec_ctx em);
  es_journal : exists l, queue_rep JOURNAL_CAPACITY (em_journal_queue em) l;
}.
Definition outbound_sound (q : SPSCQueue OutboundReport) : Prop := exists l, queue_rep OUTBOUND_CAPACITY q l.
Definition fresh_order (cmd : OrderCommand) (em : EngineManager) : Prop :=
  oc_type cmd = CmdNewOrder -> oc_client_order_id cmd ∉ dom (lookup_ (book_ (em_matching em))).

Lemma push_outbound q r : outbound_sound q -> exists b q', push OUTBOUND_CAPACITY q r = Ret (b, q') /\ outbound_sound q'.
Proof.
  intros [l R]. destruct (push_bounded OUTBOUND_CAPACITY q l r) as (b & q' & E & R'); [apply outbound_capacity..|done|].
  exists b, q'. split; [done|by eexists].
Qed.

Lemma dispatch_loop_sound n conn side : forall i em out em' out',
  outbound_sound out -> dispatch_loop n i conn side em out = Ret (em', out') ->
  outbound_sound out' /\ exists risk, em' = em_set_risk risk em.
Proof.
  induction n as [|n IH]; intros i em out em' out' O; cbn [dispatch_loop].
  { intros [= <- <-]. split; [done|]. exists (em_risk em). by rewrite em_set_risk_same. }
  intros (r & _ & E)%bind_Ret_inv.
  destruct (push_outbound out (execution_outbound conn side r) O) as (b & q & Eq & O1). rewrite Eq, bind_Ret in E.
  apply bind_Ret_inv in E as (risk & _ & E). destruct (IH _ _ _ _ _ O1 E) as (O2 & risk' & ->).
  split; [done|]. by exists risk'.
Qed.

Lemma sound_risk risk em : engine_sound em -> engine_sound (em_set_risk risk em).
Proof. by intros [B C J]. Qed.
Lemma sound_advance n em : engine_sound em -> engine_sound (em_advance n em).
Proof. by intros [B C J]. Qed.
Lemma sound_running b em : engine_sound em -> engine_sound (em_set_running b em).
Proof. by intros [B C J]. Qed.

(** A report loop after the book changed. *)
Lemma reports_sound conn side n m ctx em out em' out' :
  engine_sound em -> (exists B, abs (book_ m) B /\ uncrossed B) -> ctx_wf ctx -> outbound_sound out ->
  dispatch_reports conn side (em_advance n (em_set_matching m ctx em)) out = Ret (em', out') ->
  engine_sound em' /\ outbound_sound out'.
Proof.
  intros [_ _ J] B C O E. unfold dispatch_reports in E. apply dispatch_loop_sound in E as (O' & risk & ->); [|done].
  split; [|done]. apply sound_risk, sound_advance. by split.
Qed.

Section Engine.
Context (now : nat -> Z) (stack : list Z) (gap : Z).

Lemma execute_sound cmd em out em' out' :
  engine_sound em -> outbound_sound out -> command_ok cmd -> fresh_order cmd em ->
  execute_command now stack gap cmd em out = Ret (em', out') -> engine_sound em' /\ outbound_sound out'.
Proof.
  intros S O C Fr. pose proof S as [(B & R & U) Ec (l & Ej)]. unfold execute_command.
  destruct (append_command stack gap _ l cmd C Ej) as (b & j & -> & Rj). rewrite bind_Ret. cbn [snd].
  destruct (ctx_reset_wf _ Ec) as [Wr _].
  assert (engine_sound (em_set_journal j em)) as Sj by (split; [by exists B|done|by eexists]).
  destruct (oc_type cmd) eqn:T.
  - intros ([[res ctx] m] & E & E')%bind_Ret_inv. cbn [em_matching em_exec_ctx em_advance em_set_journal] in E.
    pose proof (lookup_fresh _ _ _ R (Fr T)) as N. assert (0 <= oc_qty cmd < 2 ^ 64) as Q by apply C.
    apply (submit_returned _ _ _ _ _ _ B) in E as [Rm Wc]; [|done..]. pose proof R as (Ab & Aa & RA).
    eapply reports_sound; [| |exact Wc|exact O|exact E']; [by apply sound_advance|].
    eexists. split; [exact Rm|]. apply spec_submit_uncrossed; [apply RA|done|done].
  - intros ([[found ctx] m] & E & E')%bind_Ret_inv. cbn [em_matching em_exec_ctx em_set_journal] in E.
    match type of E with cancel_order ?t0 ?t1 ?t2 ?id ?cl ?ac ?sy ?cx ?e = _ =>
      destruct (cancel_refine t0 t1 t2 id cl ac sy cx e B R Wr) as (c & e2 & E2 & Rm & HW) end.
    rewrite E in E2. injection E2 as _ <- <-.
    eapply reports_sound; [exact Sj| | |exact O|exact E'].
    + eexists. split; [exact Rm|]. by apply spec_cancel_uncrossed.
    + destruct HW as [(_ & -> & _)|(r & _ & _ & _ & Lg)]; [done|apply Lg].
  - intros [= <- <-]. by split.
  - intros [= <- <-]. by split.
Qed.

Lemma process_sound cmd em out em' out' :
  engine_sound em -> outbound_sound out -> command_ok cmd -> fresh_order cmd em ->
  process_command now stack gap cmd em out = Ret (em', out') -> engine_sound em' /\ outbound_sound out'.
Proof.
  intros S O C Fr. unfold process_command. intros (ref & _ & E)%bind_Ret_inv.
  apply bind_Ret_inv in E as ([[res risk] tr] & _ & E). destruct res as [u|reason].
  - eapply execute_sound; [|exact O|exact C| |exact E]; [by apply sound_advance, sound_risk|exact Fr].
  - match type of E with (push _ _ ?r ≫= _) = _ => destruct (push_outbound out r O) as (b & q & Eq & O') end.
    rewrite Eq, bind_Ret in E. injection E as <- <-. split; [|done]. by apply sound_advance, sound_advance, sound_risk.
Qed.
End Engine.

(** ** The dispatcher *)
Definition slot_sound (q : SPSCQueue OrderCommand) : Prop :=
  exists l, queue_rep QUEUE_CAPACITY q l /\ Forall command_ok l.
Definition dispatcher_sound (d : Dispatcher) : Prop := Forall slot_sound d.

Lemma slot_push q cmd ok q' :
  slot_sound q -> command_ok cmd -> push QUEUE_CAPACITY q cmd = Ret (ok, q') -> slot_sound q'.
Proof.
  intros (l & R & F) C E. destruct (push_bounded QUEUE_CAPACITY q l cmd) as (b & k & E' & R'); [apply queue_capacity..|done|].
  rewrite E in E'. injection E' as _ ->. eexists. split; [exact R'|]. apply Forall_take, Forall_app. by split; [|constructor].
Qed.
Lemma slot_pop q x q' :
  slot_sound q -> pop INBOUND_CAPACITY q = Ret (x, q') -> slot_sound q' /\ from_option command_ok True x.
Proof.
  intros (l & R & F) E. destruct l as [|c l].
  - rewrite (pop_nil INBOUND_CAPACITY q R) in E. injection E as <- <-. split; [by exists []|done].
  - destruct (pop_cons INBOUND_CAPACITY queue_pos queue_pow q c l R) as (k & E' & R'). rewrite E in E'.
    injection E' as -> ->. apply Forall_cons in F as [Fc F]. split; [by exists l|done].
Qed.
Lemma dispatch_sound cmd d ok d' :
  dispatcher_sound d -> command_ok cmd -> dispatch cmd d = Ret (ok, d') -> dispatcher_sound d'.
Proof.
  intros D C. unfold dispatch. intros (q & [_ Hq]%arr_get_inv & E)%bind_Ret_inv.
  apply bind_Ret_inv in E as ([b q'] & E & (d1 & [_ ->]%arr_set_inv & [= _ <-])%bind_Ret_inv).
  apply Forall_insert; [done|]. eapply slot_push; [|exact C|exact E]. exact (Forall_lookup_1 _ _ _ _ D Hq).
Qed.
Lemma drain_sound fuel : forall q d q' d',
  slot_sound q -> dispatcher_sound d -> drain_inbound fuel q d = Ret (q', d') -> slot_sound q' /\ dispatcher_sound d'.
Proof.
  induction fuel as [|fuel IH]; intros q d q' d' Q D; cbn [drain_inbound]; [done|].
  intros ([x q1] & E & E')%bind_Ret_inv. destruct (slot_pop _ _ _ Q E) as [Q1 Cx]. cbn [fst snd] in E'.
  destruct x as [cmd|]; [|by injection E' as <- <-].
  apply bind_Ret_inv in E' as ([ok d1] & Ed & E'). eapply IH; [exact Q1| |exact E']. by eapply dispatch_sound.
Qed.

(** ** The exchange *)
Section System.
Context {X : Type} `{Transport X, !TransportTyped (X := X)}.
Context (now : nat -> Z) (engine_now : nat -> nat -> Z) (stack_tail stack : list Z) (gap : Z).
Context (Hnow : forall n, 0 <= now n < 2 ^ 64).

(** The order an engine is about to take from its queue has an id that does
    not rest in its book. *)
Definition fresh_turn (i : nat) (x : Exchange X) : Prop :=
  forall em q cmd q', x_engines x !! i = Some em ->
    x_dispatcher x !! Z.to_nat (em_symbol_id em mod NUM_SYMBOLS) = Some q ->
    pop INBOUND_CAPACITY q = Ret (Some cmd, q') -> fresh_order cmd em.

(** What happens to an exchange: turns of its threads, and calls of its owner. *)
Inductive system_step : Exchange X -> Exchange X -> Prop :=
| sys_gateway fuel x x' : exchange_poll now stack_tail fuel x = Ret x' -> system_step x x'
| sys_response x x' : response_turn x = Ret x' -> system_step x x'
| sys_engine i x x' : fresh_turn i x -> engine_step engine_now stack gap i x = Ret x' -> system_step x x'
| sys_submit cmd ok x x' : command_ok cmd -> submit_command cmd x = Ret (ok, x') -> system_step x x'
| sys_add_symbol symbol core files x x' : add_symbol symbol core files x = Ret x' -> system_step x x'
| sys_start x : system_step x (exchange_start x).2
| sys_stop x : system_step x (exchange_stop x).
Inductive system_reachable (transport : option X) : Exchange X -> Prop :=
| sys_init : system_reachable transport (Exchange_init transport)
| sys_more x x' : system_reachable transport x -> system_step x x' -> system_reachable transport x'.

Record exchange_sound (x : Exchange X) : Prop := mkExchangeSound {
  xs_gateway : gateway_typed (x_gateway x);
  xs_outbound : outbound_sound (x_outbound x);
  xs_dispatcher : dispatcher_sound (x_dispatcher x);
  xs_engines : Forall engine_sound (x_engines x);
}.

Lemma init_sound transport : exchange_sound (Exchange_init transport).
Proof.
  split; [apply gateway_init_typed| | |constructor].
  - exists []. apply queue_init_rep, outbound_capacity.
  - unfold dispatcher_sound. cbn [x_dispatcher Exchange_init]. unfold dispatcher_init. apply Forall_replicate. exists []. split; [apply queue_init_rep, queue_capacity|constructor].
Qed.
Lemma new_engine_sound symbol core files : engine_sound (EngineManager_init symbol core files).
Proof.
  split; cbn; [|apply ctx_init_wf|exists []; apply queue_init_rep, journal_capacity].
  exists empty_book. split; [apply init_abs|]. intros p q. set_solver.
Qed.

Lemma poll_sound fuel x x' : exchange_sound x -> exchange_poll now stack_tail fuel x = Ret x' -> exchange_sound x'.
Proof.
  intros [G O D E]. unfold exchange_poll. intros (g & Eg & (r & Er & [= <-])%bind_Ret_inv)%bind_Ret_inv.
  destruct r as [q d]. pose proof (gateway_poll_typed now stack_tail Hnow fuel _ _ G Eg) as [S N Q].
  apply drain_sound in Er as [Q' D']; [|exact Q|done]. by split; [split|..].
Qed.
Lemma response_sound x x' : exchange_sound x -> response_turn x = Ret x' -> exchange_sound x'.
Proof.
  intros I. pose proof I as [G [l R] D E]. unfold response_turn. destruct (x_running x); [|by intros [= <-]].
  assert (exists r q, pop OUTBOUND_CAPACITY (x_outbound x) = Ret (r, q) /\ outbound_sound q) as (r & q & -> & Q).
  { destruct l as [|y l].
    - rewrite (pop_nil OUTBOUND_CAPACITY _ R). by eexists _, _; split; [|exists []].
    - destruct (pop_cons OUTBOUND_CAPACITY (proj1 outbound_capacity) (proj2 outbound_capacity) _ y l R) as (q & -> & R').
      by eexists _, _; split; [|exists l]. }
  rewrite bind_Ret. cbn [fst snd]. destruct r as [r|]; [|by intros [= <-]].
  intros (g & Eg & [= <-])%bind_Ret_inv. split; cbn; try done. cbn in Eg. unfold send_report in Eg.
  destruct (or_type r), (or_data r); try done; injection Eg as <-; by apply typed_send.
Qed.
Lemma engine_step_sound i x x' :
  exchange_sound x -> fresh_turn i x -> engine_step engine_now stack gap i x = Ret x' -> exchange_sound x'.
Proof.
  intros I Fr. pose proof I as [G O D E]. unfold engine_step, get_queue.
  intros (em & [_ He]%arr_get_inv & E1)%bind_Ret_inv. rewrite Nat2Z.id in He.
  apply bind_Ret_inv in E1 as (q & [_ Hq]%arr_get_inv & E1). apply bind_Ret_inv in E1 as (r & Er & E1).
  pose proof (Forall_lookup_1 _ _ _ _ E He) as Se. pose proof (Forall_lookup_1 _ _ _ _ D Hq) as Sq.
  destruct r as [[[em' q'] out']|]; [|by injection E1 as <-].
  apply bind_Ret_inv in E1 as (es & [_ ->]%arr_set_inv & (d & [_ ->]%arr_set_inv & [= <-])%bind_Ret_inv).
  assert (engine_sound em' /\ slot_sound q' /\ outbound_sound out') as (Se' & Sq' & O').
  { unfold engine_turn in Er. destruct (em_running em); [|done].
    apply bind_Ret_inv in Er as ([c k] & Ec & Er). destruct (slot_pop _ _ _ Sq Ec) as [Sk Cc].
    destruct c as [cmd|]; [|by injection Er as <- <- <-]. cbn [fst snd] in Er.
    apply bind_Ret_inv in Er as ([em1 out1] & Ep & [= <- <- <-]).
    apply process_sound in Ep as [? ?]; [done|done|done|exact Cc|by eapply Fr]. }
  split; cbn; [done|done| |]; by apply Forall_insert.
Qed.

Lemma start_stop_sound x : exchange_sound x -> exchange_sound (exchange_start x).2 /\ exchange_sound (exchange_stop x).
Proof.
  assert (forall y, exchange_sound y -> exchange_sound (exchange_stop y)) as St.
  { intros y [G O D E]. unfold exchange_stop. destruct (negb _); [by split|]. split; cbn; try done.
    - by apply gateway_stop_typed.
    - apply Forall_fmap. eapply Forall_impl; [exact E|]. intros em Se. cbn. unfold em_stop.
      destruct (negb _); [done|by apply sound_running]. }
  intros I. split; [|by apply St]. pose proof I as [G O D E]. unfold exchange_start.
  destruct (x_running x); [done|]. cbn. pose proof (gateway_start_typed _ G) as Gs.
  destruct (gateway_start (x_gateway x)) as [ok g]. cbn in Gs.
  assert (exchange_sound (x_set_gateway g (x_set_running true (x_set_engines (map em_start (x_engines x)) x)))) as I'.
  { split; cbn; try done. apply Forall_fmap. eapply Forall_impl; [exact E|]. intros em Se. cbn. unfold em_start.
    destruct (em_running em); [done|by apply sound_running]. }
  destruct ok; [exact I'|exact (St _ I')].
Qed.

Lemma system_step_sound x x' : exchange_sound x -> system_step x x' -> exchange_sound x'.
Proof.
  intros I S. destruct S as [fuel x x' E|x x' E|i x x' Fr E|cmd ok x x' C E|symbol core files x x' E|x|x].
  - by eapply poll_sound.
  - by eapply response_sound.
  - by eapply engine_step_sound.
  - unfold submit_command in E. apply bind_Ret_inv in E as ([b d] & E & [= _ <-]).
    destruct I as [G O D En]. split; cbn; try done. by eapply dispatch_sound.
  - unfold add_symbol in E. apply bind_Ret_inv in E as (q & _ & [= <-]).
    destruct I as [G O D En]. split; cbn; try done. apply Forall_app. split; [done|]. constructor; [|constructor].
    apply new_engine_sound.
  - by apply start_stop_sound.
  - by apply start_stop_sound.
Qed.
Lemma system_sound transport x : system_reachable transport x -> exchange_sound x.
Proof. induction 1 as [|x x' _ IH S]; [apply init_sound|by eapply system_step_sound]. Qed.
End System.

(** ** The theorem *)
(** C8: through any interleaving of the turns of the gateway's, the response
    and the engines' threads, of direct submissions, of symbols added and of
    starts and stops, from the construction of the exchange and whatever bytes
    the clients send: every engine's book passes its self-checks and has its best
    bid below its best ask, every command waiting in a queue has its fields in the
    range of their types, and none of the dispatcher's, the inbound and the
    outbound queue holds more than its capacity; provided no engine takes a new order whose id rests in its book. *)
Theorem exchange_invariant {X} `{Transport X, !TransportTyped (X := X)} now engine_now stack_tail stack gap
    (transport : option X) (x : Exchange X) :
  (forall n, 0 <= now n < 2 ^ 64) ->
  system_reachable now engine_now stack_tail stack gap transport x ->
  Forall (fun em => verify_invariants (book_ (em_matching em)) = Ret tt /\
    exists bid ask, best_bid (book_ (em_matching em)) = Ret bid /\ best_ask (book_ (em_matching em)) = Ret ask /\
      (side_empty (bids_ (book_ (em_matching em))) = false ->
       side_empty (asks_ (book_ (em_matching em))) = false -> bid < ask)) (x_engines x) /\
  Forall (fun q => exists l, queue_rep QUEUE_CAPACITY q l /\ Forall command_ok l /\ Z.of_nat (length l) <= QUEUE_CAPACITY)
    (x_dispatcher x) /\
  (exists l, queue_rep INBOUND_CAPACITY (g_inbound_queue (x_gateway x)) l /\ Forall command_ok l) /\
  (exists l, queue_rep OUTBOUND_CAPACITY (x_outbound x) l).
Proof.
  intros Hn R. destruct (system_sound now engine_now stack_tail stack gap Hn transport x R) as [[_ _ Q] O D E].
  split_and!; [| |exact Q|exact O].
  - eapply Forall_impl; [exact E|]. intros em [(B & A & U) _ _]. split; [by eapply verify_spec|by eapply uncrossed_best].
  - eapply Forall_impl; [exact D|]. intros q (l & Rl & F). exists l. split_and!; [done|done|apply Rl].
Qed.

#[export] Instance simulation_typed : TransportTyped (X := SimulationTransport).
Proof. split. intros x. constructor. Qed.

(** One symbol, one order submitted directly and executed. *)
Definition started : Exchange SimulationTransport :=
  (exchange_start (mkExchange (gateway_init (Some (mkSimulation true [])) (queue_init INBOUND_CAPACITY default_command))
    (queue_init OUTBOUND_CAPACITY default_outbound) dispatcher_init [EngineManager_init 1 0 ∅] [1] false)).2.
Lemma started_reachable :
  system_reachable (fun _ => 5) (fun _ => clock) tail4 [] 0 (Some (mkSimulation true [])) started.
Proof.
  eapply sys_more; [eapply sys_more; [apply sys_init|]|apply sys_start].
  apply (sys_add_symbol _ _ _ _ _ 1 0 ∅). reflexivity.
Qed.
Lemma exchange_invariant_witness : exists x em' l,
  system_reachable (fun _ => 5) (fun _ => clock) tail4 [] 0 (Some (mkSimulation true [])) x /\
  x_engines x = [em'] /\ verify_invariants (book_ (em_matching em')) = Ret tt /\
  queue_rep OUTBOUND_CAPACITY (x_outbound x) l.
Proof.
  destruct (dispatch_spec sample_command dispatcher_init (replicate 32 []) dispatcher_init_rep) as (ok & d & Ed & Dd).
  assert (system_reachable (fun _ => 5) (fun _ => clock) tail4 [] 0 (Some (mkSimulation true [])) (x_set_dispatcher d started)) as R3.
  { eapply sys_more; [apply started_reachable|]. apply (sys_submit _ _ _ _ _ sample_command ok); [apply routed_command_ok|].
    unfold submit_command. change (x_dispatcher started) with dispatcher_init. rewrite Ed. reflexivity. }
  destruct (engine_step_spec (fun _ => clock) [] 0 (2 ^ 62) 0 (em_start (EngineManager_init 1 0 ∅)) empty_view sample_command
    (x_set_dispatcher d started) _ eq_refl eq_refl Dd eq_refl sample_engine routed_command_ok ltac:(cbn; lia) ltac:(cbn; lia)
    (sample_command_room _)) as (res & risk & tr & em' & out' & q & dd & _ & E & _ & _ & _).
  assert (system_reachable (fun _ => 5) (fun _ => clock) tail4 [] 0 (Some (mkSimulation true []))
    (x_set_dispatcher dd (x_set_engines [em'] (x_set_outbound out' (x_set_dispatcher d started))))) as R4.
  { eapply sys_more; [exact R3|]. apply (sys_engine _ _ _ _ _ 0); [|exact E].
    intros em k cmd k' [= <-] _ _ _. apply not_elem_of_empty. }
  destruct (exchange_invariant (fun _ => 5) (fun _ => clock) tail4 [] 0 (Some (mkSimulation true [])) _ ltac:(lia) R4)
    as (V & _ & _ & l & Q).
  eexists _, em', l. split; [exact R4|]. split; [reflexivity|]. split; [|exact Q].
  apply Forall_cons in V as [[V _] _]. exact V.
Defined.
