(* ===== verification/Shutdown.v ===== *)
(** * FluxTrade: stopping an engine

    [EngineManager::stop] and the loops it ends
    (src/exchange/include/exchange/engine_manager.hpp 48-74,
    src/persistence/include/persistence/disk_journal.hpp 43-84): the owner clears
    the engine's flag, stops and joins the journal's thread, then joins the
    engine's.  The engine's loop is cut between its test of the flag and its body,
    the owner's call at every flag and every join, and the three are interleaved
    freely with commands arriving and reports leaving. *)
From S2P Require Import Prelude Domain RingBuffer Wire Gateway Checksum BookSpec SideBook OrderBook BookRefine BookClear Snapshot Journal JournalRefine JournalProperties JournalDisk Recovery TradeBuilder MatchingEngine RiskState RiskEngine EngineManager EngineRefine EngineProperties Exchange ExchangeProperties ExchangeInvariant.
Local Open Scope Z_scope.

Definition em_set_disk (d : DiskJournal) (em : EngineManager) : EngineManager :=
  mkEngineManager (em_symbol_id em) (em_core_id em) (em_running em) (em_journal_queue em) d
    (em_matching em) (em_risk em) (em_exec_ctx em) (em_ticks em).
(** [current_file_.flush(); current_file_.close();] *)
Definition journal_close (d : DiskJournal) : DiskJournal :=
  if dj_open d
  then let d := file_sync d in
       mkDisk (dj_policy d) (dj_max_file_size d) false (dj_current_bytes d) (dj_file_index d) (dj_files d) (dj_flushed d)
  else d.

Section Shutdown.
Context (now : nat -> Z) (stack : list Z) (gap : Z) (files : gmap Z (list Z)).

(** The body of [run]'s loop *)
Definition engine_body (em : EngineManager) (inbound : SPSCQueue OrderCommand) (outbound : SPSCQueue OutboundReport)
    : outcome (EngineManager * SPSCQueue OrderCommand * SPSCQueue OutboundReport) :=
  r ← pop INBOUND_CAPACITY inbound;
  match r.1 with
  | Some cmd => '(em, outbound) ← process_command now stack gap cmd em outbound; Ret (em, r.2, outbound)
  | None => Ret (em, r.2, outbound)
  end.
Lemma engine_turn_body em inb out :
  engine_turn now stack gap em inb out = if em_running em then x ← engine_body em inb out; Ret (Some x) else Ret None.
Proof.
  unfold engine_turn, engine_body. destruct (em_running em); [|done]. rewrite bind_assoc.
  destruct (pop _ _) as [[[cmd|] q]| | | |]; try done. cbn [fst snd]. rewrite !bind_Ret. cbn [fst snd].
  by destruct (process_command now stack gap cmd em out) as [[? ?]| | | |].
Qed.

(** A command the checks accept is offered to the journal's queue, which may be
    full: the command, and whether it went in. *)
Definition verdict (cmd : OrderCommand) (em : EngineManager) : outcome ((RiskResult + RejectReason) * RiskEngine * RiskTrace) :=
  reference ← Price.from_double (Double.of_int 100);
  RiskEngine.validate (em_reading now em 0) (em_reading now em 1) (em_reading now em 2) (em_reading now em 3)
    (risk_context reference cmd) (em_risk em) [].
Definition journal_event (cmd : OrderCommand) (em : EngineManager) : list (OrderCommand * bool) :=
  match verdict cmd em with
  | Ret ((inl _, _), _) =>
      match journal_append stack (em_journal_queue em) (oc_sequence cmd) (oc_timestamp cmd)
              (u16 (CommandType_code (oc_type cmd))) (command_bytes gap cmd) with
      | Ret (ok, _) => [(cmd, ok)]
      | _ => []
      end
  | _ => []
  end.
Definition body_event (em : EngineManager) (inbound : SPSCQueue OrderCommand) : list (OrderCommand * bool) :=
  match pop INBOUND_CAPACITY inbound with Ret (Some cmd, _) => journal_event cmd em | _ => [] end.
(** The commands whose records reached the queue *)
Definition logged (tr : list (OrderCommand * bool)) : list OrderCommand :=
  omap (fun x : OrderCommand * bool => if x.2 then Some x.1 else None) tr.

(** ** The three threads *)
Inductive EnginePhase : Type := AtCheck | InBody | EngineGone.
(** How far the owner's call of [stop] is *)
Inductive StopPhase : Type := NotStopping | EngineTold | JournalTold | JournalJoined | Stopped.
Record Shop : Type := mkShop {
  sh_em : EngineManager;
  sh_inbound : SPSCQueue OrderCommand;
  sh_outbound : SPSCQueue OutboundReport;
  sh_engine : EnginePhase;
  sh_batch : Z;
  sh_last_flush : Z;
  sh_journal_running : bool;
  sh_journal_gone : bool;
  sh_stop : StopPhase;
}.
Definition journal_thread (em : EngineManager) (batch last : Z) : JournalThread :=
  mkJournalThread (em_disk_journal em) (em_journal_queue em) batch last.

Inductive shop_step : Shop -> list (OrderCommand * bool) -> Shop -> Prop :=
| shop_arrive em inb out ph ba la jr jg st cmd ok inb' :
    command_ok cmd -> push QUEUE_CAPACITY inb cmd = Ret (ok, inb') ->
    shop_step (mkShop em inb out ph ba la jr jg st) [] (mkShop em inb' out ph ba la jr jg st)
| shop_sent em inb out ph ba la jr jg st r out' :
    pop OUTBOUND_CAPACITY out = Ret (r, out') ->
    shop_step (mkShop em inb out ph ba la jr jg st) [] (mkShop em inb out' ph ba la jr jg st)
| shop_check em inb out ba la jr jg st :
    shop_step (mkShop em inb out AtCheck ba la jr jg st) []
      (mkShop em inb out (if em_running em then InBody else EngineGone) ba la jr jg st)
| shop_body em inb out ba la jr jg st em' inb' out' :
    engine_body em inb out = Ret (em', inb', out') ->
    shop_step (mkShop em inb out InBody ba la jr jg st) (body_event em inb)
      (mkShop em' inb' out' AtCheck ba la jr jg st)
| shop_journal em inb out ph ba la jr st sysnow steady t :
    0 <= sysnow < 2 ^ 64 -> journal_turn jr sysnow steady (journal_thread em ba la) = Ret (inl t) ->
    shop_step (mkShop em inb out ph ba la jr false st) []
      (mkShop (em_set_disk (jt_disk t) (em_set_journal (jt_queue t) em)) inb out ph (jt_batch_count t) (jt_last_flush t) jr false st)
| shop_journal_leaves em inb out ph ba la jr st sysnow steady d :
    0 <= sysnow < 2 ^ 64 -> journal_turn jr sysnow steady (journal_thread em ba la) = Ret (inr d) ->
    shop_step (mkShop em inb out ph ba la jr false st) [] (mkShop (em_set_disk d em) inb out ph ba la jr true st)
| shop_stop em inb out ph ba la jr jg :
    em_running em = true ->
    shop_step (mkShop em inb out ph ba la jr jg NotStopping) [] (mkShop (em_set_running false em) inb out ph ba la jr jg EngineTold)
| shop_stop_journal em inb out ph ba la jr jg :
    shop_step (mkShop em inb out ph ba la jr jg EngineTold) [] (mkShop em inb out ph ba la false jg JournalTold)
| shop_join_journal em inb out ph ba la jr :
    shop_step (mkShop em inb out ph ba la jr true JournalTold) []
      (mkShop (em_set_disk (journal_close (em_disk_journal em)) em) inb out ph ba la jr true JournalJoined)
| shop_join_engine em inb out ba la jr jg :
    shop_step (mkShop em inb out EngineGone ba la jr jg JournalJoined) [] (mkShop em inb out EngineGone ba la jr jg Stopped).

(** An engine that was just started; its journal's directory holds [files]. *)
Definition shop_start (symbol_id core_id : Z) : Shop :=
  mkShop (em_start (EngineManager_init symbol_id core_id files)) (queue_init QUEUE_CAPACITY default_command)
    (queue_init OUTBOUND_CAPACITY default_outbound) AtCheck 0 0 true false NotStopping.
Inductive shop_reachable (symbol_id core_id : Z) : Shop -> list (OrderCommand * bool) -> Prop :=
| shop_begin : shop_reachable symbol_id core_id (shop_start symbol_id core_id) []
| shop_more s tr ev s' :
    shop_reachable symbol_id core_id s tr -> shop_step s ev s' -> shop_reachable symbol_id core_id s' (tr ++ ev).

Lemma shop_quiet symbol_id core_id s tr s' :
  shop_reachable symbol_id core_id s tr -> shop_step s [] s' -> shop_reachable symbol_id core_id s' tr.
Proof. intros R S. rewrite <-(app_nil_r tr). exact (shop_more symbol_id core_id s tr [] s' R S). Qed.

(** ** What one command leaves on the journal's queue *)
Lemma dispatch_loop_risk n conn side : forall i em out em' out',
  dispatch_loop n i conn side em out = Ret (em', out') -> exists risk, em' = em_set_risk risk em.
Proof.
  induction n as [|n IH]; intros i em out em' out'; cbn [dispatch_loop].
  { intros [= <- _]. exists (em_risk em). by rewrite em_set_risk_same. }
  intros (r & _ & E)%bind_Ret_inv. apply bind_Ret_inv in E as (pushed & _ & E).
  apply bind_Ret_inv in E as (risk & _ & E). apply IH in E as (risk' & ->). by exists risk'.
Qed.
Lemma execute_journal cmd em out em' out' :
  execute_command now stack gap cmd em out = Ret (em', out') ->
  exists ok, journal_append stack (em_journal_queue em) (oc_sequence cmd) (oc_timestamp cmd)
              (u16 (CommandType_code (oc_type cmd))) (command_bytes gap cmd) = Ret (ok, em_journal_queue em') /\
    em_disk_journal em' = em_disk_journal em /\ em_running em' = em_running em.
Proof.
  unfold execute_command. intros ([ok q] & -> & E)%bind_Ret_inv. exists ok. cbn [snd] in E. destruct (oc_type cmd).
  - apply bind_Ret_inv in E as ([[res ctx] m] & _ & E). apply dispatch_loop_risk in E as (risk & ->). done.
  - apply bind_Ret_inv in E as ([[found ctx] m] & _ & E). apply dispatch_loop_risk in E as (risk & ->). done.
  - by injection E as <- _.
  - by injection E as <- _.
Qed.
Lemma process_journal cmd em out em' out' :
  process_command now stack gap cmd em out = Ret (em', out') ->
  em_disk_journal em' = em_disk_journal em /\ em_running em' = em_running em /\
  (journal_event cmd em = [] /\ em_journal_queue em' = em_journal_queue em \/
   exists ok, journal_event cmd em = [(cmd, ok)] /\
     journal_append stack (em_journal_queue em) (oc_sequence cmd) (oc_timestamp cmd)
       (u16 (CommandType_code (oc_type cmd))) (command_bytes gap cmd) = Ret (ok, em_journal_queue em')).
Proof.
  unfold process_command, journal_event, verdict. intros (ref & Eref & E)%bind_Ret_inv. rewrite Eref, bind_Ret.
  apply bind_Ret_inv in E as ([[res risk] tr] & -> & E). destruct res as [u|reason].
  - apply execute_journal in E as (ok & Ea & Ed & Er). cbn [em_journal_queue em_advance em_set_risk] in Ea.
    rewrite Ea. split_and!; [exact Ed|exact Er|]. right. exists ok. split; reflexivity.
  - apply bind_Ret_inv in E as (pushed & _ & [= <- _]). split_and!; [reflexivity..|]. left. split; reflexivity.
Qed.

(** The queue takes the record or is left as it is. *)
Lemma append_cases q l cmd ok q' :
  command_ok cmd -> queue_rep JOURNAL_CAPACITY q l ->
  journal_append stack q (oc_sequence cmd) (oc_timestamp cmd) (u16 (CommandType_code (oc_type cmd))) (command_bytes gap cmd) =
    Ret (ok, q') ->
  read_idx q' = read_idx q /\
  queue_rep JOURNAL_CAPACITY q' (l ++ if ok then [command_entry stack gap cmd] else []).
Proof.
  intros C R. unfold journal_append. rewrite (command_bytes_length gap cmd C).
  change (256 <? Z.of_nat 72) with false. cbv iota. intros E. split.
  { revert E. unfold push, emplace. destruct (_ <=? _); [by intros [= _ <-]|]. by intros (b & _ & [= _ <-])%bind_Ret_inv. }
  destruct journal_capacity as [Hp Hl]. fold (command_entry stack gap cmd) in E. unfold push in E. pose proof R as (_ & L & _).
  destruct (decide (Z.of_nat (length l) < JOURNAL_CAPACITY)) as [Hr|Hr].
  - destruct (emplace_room JOURNAL_CAPACITY Hp Hl q l (command_entry stack gap cmd) R Hr) as (k & E' & R').
    rewrite E in E'. injection E' as -> ->. exact R'.
  - rewrite (emplace_full JOURNAL_CAPACITY Hp q l (command_entry stack gap cmd) R) in E by lia.
    injection E as <- <-. by rewrite app_nil_r.
Qed.

Lemma logged_app a b : logged (a ++ b) = logged a ++ logged b.
Proof. apply omap_app. Qed.
Lemma logged_length tr : (length (logged tr) <= length tr)%nat.
Proof. induction tr as [|[c []] tr IH]; cbn; unfold logged in *; lia. Qed.

(** A turn of the body: at most one record more. *)
Lemma body_journal em inb out em' inb' out' l :
  slot_sound inb -> queue_rep JOURNAL_CAPACITY (em_journal_queue em) l -> engine_body em inb out = Ret (em', inb', out') ->
  slot_sound inb' /\ em_disk_journal em' = em_disk_journal em /\ em_running em' = em_running em /\
  read_idx (em_journal_queue em') = read_idx (em_journal_queue em) /\
  queue_rep JOURNAL_CAPACITY (em_journal_queue em') (l ++ (command_entry stack gap <$> logged (body_event em inb))) /\
  (length (logged (body_event em inb)) <= 1)%nat /\ Forall command_ok (logged (body_event em inb)).
Proof.
  intros S Q. unfold engine_body, body_event. intros ([x inb1] & Ep & E)%bind_Ret_inv. rewrite Ep. cbn [fst snd] in E.
  destruct (slot_pop _ _ _ S Ep) as [S1 Cx]. destruct x as [cmd|].
  - apply bind_Ret_inv in E as ([em1 out1] & E & [= <- <- <-]).
    destruct (process_journal _ _ _ _ _ E) as (Ed & Er & [[-> Eq]|(ok & -> & Ea)]).
    + rewrite Eq. cbn. rewrite app_nil_r. split_and!; [exact S1|exact Ed|exact Er|reflexivity|exact Q|lia|constructor].
    + destruct (append_cases _ _ _ _ _ Cx Q Ea) as [Ei Q']. destruct ok; cbn; (split_and!; [done|done|done|done|exact Q'|lia|]).
      * by constructor.
      * constructor.
  - injection E as <- <- <-. cbn. rewrite app_nil_r. split_and!; (done || lia).
Qed.

(** ** A turn of the journal's thread *)
Lemma journal_turn_cases running sysnow steady t l :
  queue_rep JOURNAL_CAPACITY (jt_queue t) l -> read_idx (jt_queue t) + Z.of_nat (length l) < 2 ^ 64 ->
  match l with
  | [] => (exists t', journal_turn running sysnow steady t = Ret (inl t') /\ running = true /\ jt_queue t' = jt_queue t /\
             (jt_disk t' = jt_disk t \/ jt_disk t' = journal_flush (jt_disk t))) \/
          running = false /\ journal_turn running sysnow steady t = Ret (inr (journal_flush (jt_disk t)))
  | e :: l => exists t', journal_turn running sysnow steady t = Ret (inl t') /\ queue_rep JOURNAL_CAPACITY (jt_queue t') l /\
                read_idx (jt_queue t') = read_idx (jt_queue t) + 1 /\
                (jt_disk t' = write_entry sysnow e (jt_disk t) \/ jt_disk t' = journal_flush (write_entry sysnow e (jt_disk t)))
  end.
Proof.
  intros Q HR. destruct journal_capacity as [Hp Hl]. unfold journal_turn, queue_empty.
  destruct (size_rep JOURNAL_CAPACITY Hp _ _ Q) as [->|[E _]]; [|lia]. destruct l as [|e l].
  - cbn [length Z.of_nat Z.eqb negb]. destruct running; cbn [orb]; [|right; done]. left.
    rewrite (pop_nil JOURNAL_CAPACITY _ Q), bind_Ret. cbn [fst snd]. destruct (_ && _); eexists; (split; [done|]); cbn; auto.
  - destruct (Z.eqb_spec (Z.of_nat (length (e :: l))) 0); [cbn in *; lia|]. rewrite orb_true_r.
    destruct (pop_cons JOURNAL_CAPACITY Hp Hl _ _ _ Q) as (q' & Ep & Q').
    assert (read_idx q' = read_idx (jt_queue t) + 1) as Ei.
    { revert Ep. unfold pop. destruct (_ =? _); [done|]. intros (x & _ & [= _ <-])%bind_Ret_inv. cbn [read_idx length] in *.
      destruct Q as (_ & _ & R & ER & _). pose proof (u64_bound R). rewrite <- ER in *. apply u64_small. lia. }
    rewrite Ep, bind_Ret. cbn [fst snd].
    destruct (decide _); [|destruct (_ && _)]; eexists; (split; [done|]); cbn; auto.
Qed.

(** ** The invariant

    [W]: the commands whose records are in the files; [L]: those still on the
    journal's queue. *)
Definition told (st : StopPhase) : bool := match st with NotStopping => false | _ => true end.
Definition joined (st : StopPhase) : bool := match st with JournalJoined | Stopped => true | _ => false end.
Record shop_inv (s : Shop) (tr : list (OrderCommand * bool)) (W L : list OrderCommand) : Prop := mkShopInv {
  si_log : logged tr = W ++ L;
  si_ok : Forall command_ok (logged tr);
  si_queue : queue_rep JOURNAL_CAPACITY (em_journal_queue (sh_em s)) (command_entry stack gap <$> L);
  si_read : read_idx (em_journal_queue (sh_em s)) = Z.of_nat (length W);
  si_disk : disk_holds stack gap files (em_disk_journal (sh_em s)) W;
  si_inbound : slot_sound (sh_inbound s);
  si_told : em_running (sh_em s) = negb (told (sh_stop s));
  si_journal : sh_journal_running s = false -> told (sh_stop s) = true;
  si_gone : sh_journal_gone s = true -> sh_journal_running s = false /\ (length L <= 1)%nat /\ (sh_engine s = InBody -> L = []);
  si_joined : joined (sh_stop s) = true -> sh_journal_gone s = true;
  si_stopped : sh_stop s = Stopped -> sh_engine s = EngineGone;
}.

Lemma shop_start_inv symbol core : shop_inv (shop_start symbol core) [] [] [].
Proof.
  split; try done; cbn -[Z.of_nat].
  - apply queue_init_rep, journal_capacity.
  - apply disk_holds_init.
  - exists []. split; [apply queue_init_rep, queue_capacity|constructor].
Qed.

Lemma journal_turn_inv em inb out ph ba la jr st sysnow steady r tr W L :
  shop_inv (mkShop em inb out ph ba la jr false st) tr W L -> Z.of_nat (length tr) < 2 ^ 62 -> 0 <= sysnow < 2 ^ 64 ->
  journal_turn jr sysnow steady (journal_thread em ba la) = Ret r ->
  match r with
  | inl t => exists W' L', shop_inv (mkShop (em_set_disk (jt_disk t) (em_set_journal (jt_queue t) em)) inb out ph
                             (jt_batch_count t) (jt_last_flush t) jr false st) tr W' L'
  | inr d => shop_inv (mkShop (em_set_disk d em) inb out ph ba la jr true st) tr W L
  end.
Proof.
  intros [Lg Ok Q Rd D I T J G Jn St] HB Hn E. cbn in *. pose proof (logged_length tr) as HL.
  rewrite Lg, length_app in HL.
  pose proof (journal_turn_cases jr sysnow steady (journal_thread em ba la) _ Q) as C. cbn [jt_queue jt_disk journal_thread] in C.
  rewrite length_fmap, Rd in C. specialize (C ltac:(lia)). destruct L as [|c L]; cbn [fmap list_fmap] in C.
  - destruct C as [(t & E' & Hr & Eq & Ed)|[Hr E']]; rewrite E in E'; injection E' as ->.
    + exists W, []. split; cbn; rewrite ?Eq; try done. by destruct Ed as [-> | ->]; [|apply disk_holds_flush].
    + split; cbn; try done; [by apply disk_holds_flush|]. intros _. split_and!; (done || lia).
  - destruct C as (t & E' & Q' & Ei & Ed). rewrite E in E'. injection E' as ->.
    rewrite Lg in Ok. assert (command_ok c) as Hc by (apply Forall_app in Ok as [_ [? _]%Forall_cons]; done).
    pose proof (disk_holds_write stack gap files sysnow _ W c D Hc Hn ltac:(cbn in HL; lia)) as D'.
    exists (W ++ [c]), L. split; cbn; try done.
    + by rewrite <-app_assoc.
    + by rewrite Lg.
    + rewrite Ei, length_app. cbn. lia.
    + by destruct Ed as [-> | ->]; [|apply disk_holds_flush].
Qed.

Lemma shop_step_inv s ev s' tr W L :
  shop_inv s tr W L -> Z.of_nat (length tr) < 2 ^ 62 -> shop_step s ev s' -> exists W' L', shop_inv s' (tr ++ ev) W' L'.
Proof.
  intros V HB S. pose proof V as [Lg Ok Q Rd D I T J G Jn St].
  destruct S as [em inb out ph ba la jr jg st cmd ok inb' C E|em inb out ph ba la jr jg st r out' E
    |em inb out ba la jr jg st|em inb out ba la jr jg st em' inb' out' E
    |em inb out ph ba la jr st sysnow steady t Hn E|em inb out ph ba la jr st sysnow steady d Hn E
    |em inb out ph ba la jr jg R|em inb out ph ba la jr jg|em inb out ph ba la jr|em inb out ba la jr jg];
    rewrite ?app_nil_r; cbn [sh_em sh_inbound sh_engine sh_journal_running sh_journal_gone sh_stop] in *.
  - exists W, L. split; try done. eapply slot_push; [exact I|exact C|exact E].
  - exists W, L. by split.
  - exists W, L. split; try done.
    + intros Hg. destruct (G Hg) as (Hj & Hl & _). split_and!; try done. cbn. specialize (J Hj). rewrite J in T. by rewrite T.
    + cbn. intros Hs. by specialize (St Hs).
  - destruct (body_journal _ _ _ _ _ _ _ I Q E) as (I' & Ed & Er & Ei & Q' & Hl & Hok).
    exists W, (L ++ logged (body_event em inb)). split; cbn; rewrite ?Ed, ?Er, ?Ei; try done.
    + by rewrite logged_app, Lg, app_assoc.
    + rewrite logged_app. by apply Forall_app.
    + by rewrite fmap_app.
    + intros Hg. destruct (G Hg) as (Hj & _ & Hb). rewrite (Hb eq_refl). by split_and!.
    + cbn. intros Hs. by specialize (St Hs).
  - by apply (journal_turn_inv _ _ _ _ _ _ _ _ _ _ _ _ _ _ V HB Hn) in E.
  - exists W, L. by apply (journal_turn_inv _ _ _ _ _ _ _ _ _ _ _ _ _ _ V HB Hn) in E.
  - exists W, L. split; try done.
  - exists W, L. split; try done. intros Hg. by destruct (G Hg) as (_ & ? & ?).
  - exists W, L. split; try done. cbn. apply (disk_holds_ext stack gap files (em_disk_journal em)); try done; by destruct (em_disk_journal em) as [? ? []].
  - exists W, L. by split.
Qed.

Lemma shop_reachable_inv symbol core s tr :
  shop_reachable symbol core s tr -> Z.of_nat (length tr) < 2 ^ 62 -> exists W L, shop_inv s tr W L.
Proof.
  induction 1 as [|s tr ev s' _ IH S]; intros HB; [exists [], []; apply shop_start_inv|]. rewrite length_app in HB.
  destruct IH as (W & L & V); [lia|]. by apply (shop_step_inv _ _ _ _ _ _ V ltac:(lia)) in S.
Qed.

(** The directory is one [recover] can replay: the files written, then those of
    the old ones they are too few to overwrite. *)
Lemma disk_replays olds csss d cs :
  Forall2 (journal_holds stack gap) olds csss -> holds_files ∅ files olds -> disk_holds stack gap files d cs ->
  exists n fs css, (n <= length cs)%nat /\ (n = O <-> cs = []) /\ dj_file_index d = Z.of_nat n /\
    Forall2 (journal_holds stack gap) fs css /\ journals_from (dj_files d) 1 fs /\
    concat css = cs ++ concat (drop n csss) /\ (length fs <= n + length olds)%nat.
Proof.
  intros Fo Ho D. pose proof (disk_holds_count stack gap files d cs D) as C. destruct D as (fs & css & F & N & E & H & I & _).
  pose proof (Forall2_length _ _ _ F) as HL. exists (length fs), (fs ++ drop (length fs) olds), (css ++ drop (length fs) csss). split_and!.
  - lia.
  - split; intros X.
    + by destruct fs, css; cbn in *; simplify_eq.
    + destruct fs as [|f fs]; [done|]. destruct css as [|[|c cs'] css]; [done| |by subst].
      by apply Forall_cons in N as [? _].
  - done.
  - apply Forall2_app; [|by apply Forall2_drop]. eapply Forall2_impl; [exact F|]. intros f c (sq & t & Hs & Ht & Ok & ->).
    exists sq, t, []. rewrite app_nil_r. auto 10.
  - split.
    + intros k f Hk. rewrite H, numbered_at. destruct (fs !! k) as [g|] eqn:Ek.
      { rewrite lookup_app_l in Hk by (by eapply lookup_lt_Some). congruence. }
      apply lookup_ge_None in Ek. rewrite lookup_app_r, lookup_drop in Hk by done. rewrite Ho, numbered_at.
      replace (length fs + (k - length fs))%nat with k in Hk by lia. by rewrite Hk.
    + rewrite H, numbered_at, length_app, length_drop, (lookup_ge_None_2 fs) by lia.
      by rewrite Ho, numbered_at, lookup_ge_None_2 by lia.
  - by rewrite concat_app, E.
  - rewrite length_app, length_drop. lia.
Qed.

(** What a stopped engine leaves behind *)
Lemma stopped_recovers symbol core s tr olds csss fuel b0 B0 :
  is_byte gap -> shop_reachable symbol core s tr -> Z.of_nat (length tr + length olds) < 2 ^ 62 -> sh_stop s = Stopped ->
  Forall2 (journal_holds stack gap) olds csss -> holds_files ∅ files olds ->
  abs b0 B0 -> (length tr + length olds < fuel)%nat ->
  exists written lost n, logged tr = written ++ lost /\ (length lost <= 1)%nat /\ disk_holds stack gap files (em_disk_journal (sh_em s)) written /\
    (n = O <-> written = []) /\ dj_file_index (em_disk_journal (sh_em s)) = Z.of_nat n /\
    (forall k, Z.of_nat n < k -> dj_files (em_disk_journal (sh_em s)) !! k = files !! k) /\
    (commands_fit (written ++ concat (drop n csss)) B0 0 ->
     exists b', recover fuel None ∅ (dj_files (em_disk_journal (sh_em s))) b0 = Ret (true, b') /\
       abs b' (spec_commands (written ++ concat (drop n csss)) B0 0).1).
Proof.
  intros Hg R HB St Fo Ho R0 Hf. destruct (shop_reachable_inv _ _ _ _ R ltac:(lia)) as (W & L & V).
  destruct (disk_replays _ _ _ _ Fo Ho (si_disk _ _ _ _ V)) as (n & fs & css & Hn & H0 & Hi & F & J & E & Hl).
  exists W, L, n. split; [apply V|]. split; [apply (si_gone _ _ _ _ V), (si_joined _ _ _ _ V); by rewrite St|].
  split; [exact (si_disk _ _ _ _ V)|]. split; [done|]. split; [done|].
  split; [intros k Hk; apply (disk_holds_beyond stack gap files _ W k (si_disk _ _ _ _ V)); lia|].
  pose proof (logged_length tr) as Hc. rewrite (si_log _ _ _ _ V), length_app in Hc. rewrite <-E. intros Fit.
  apply (recover_journal stack gap _ fs css fuel b0 B0); (done || lia).
Qed.
End Shutdown.
Arguments shop_quiet {now stack gap files symbol_id core_id s tr s'} _ _.
Arguments shop_more {now stack gap files symbol_id core_id s tr ev s'} _ _.

(** ** A run in which one command is lost

    The engine has tested its flag when [stop] is called, and takes the command
    after the journal's thread has left. *)
Lemma idle_journal_leaves q :
  queue_rep JOURNAL_CAPACITY q [] -> read_idx q = 0 ->
  forall d ba la, journal_turn false 0 0 (mkJournalThread d q ba la) = Ret (inr (journal_flush d)).
Proof.
  intros Q R d ba la.
  destruct (journal_turn_cases false 0 0 (mkJournalThread d q ba la) [] Q) as [(t & _ & ? & _)|[_ E]]; [cbn; lia|done|exact E].
Qed.

(** An accepted command whose record fits is appended. *)
Lemma command_accepted now stack gap cmd em risk res trace :
  command_ok cmd -> queue_rep JOURNAL_CAPACITY (em_journal_queue em) [] -> 0 < JOURNAL_CAPACITY ->
  verdict now cmd em = Ret (inl res, risk, trace) ->
  exists j, journal_append stack (em_journal_queue em) (oc_sequence cmd) (oc_timestamp cmd)
              (u16 (CommandType_code (oc_type cmd))) (command_bytes gap cmd) = Ret (true, j) /\
    journal_event now stack gap cmd em = [(cmd, true)].
Proof.
  intros C Q Hr Ev. destruct journal_capacity as [Hp Hl]. unfold journal_event. rewrite Ev. unfold journal_append.
  rewrite (command_bytes_length gap cmd C). change (256 <? Z.of_nat 72) with false. cbv iota. unfold push.
  destruct (emplace_room JOURNAL_CAPACITY Hp Hl _ _ (command_entry stack gap cmd) Q Hr) as (j & E & _).
  exists j. fold (command_entry stack gap cmd). rewrite E. split; reflexivity.
Qed.

(** The engine's loop takes the one command there is. *)
Lemma engine_step_once now stack gap em inb inb' out cmd em' out' :
  pop QUEUE_CAPACITY inb = Ret (Some cmd, inb') -> process_command now stack gap cmd em out = Ret (em', out') ->
  engine_body now stack gap em inb out = Ret (em', inb', out') /\ body_event now stack gap em inb = journal_event now stack gap cmd em.
Proof.
  intros Eo E. unfold engine_body, body_event. change INBOUND_CAPACITY with QUEUE_CAPACITY. rewrite Eo, bind_Ret. cbn [fst snd].
  rewrite E. split; reflexivity.
Qed.

(** The run up to the body of the engine's loop *)
Lemma run_to_body now stack gap symbol core cmd inb :
  command_ok cmd -> push QUEUE_CAPACITY (queue_init QUEUE_CAPACITY default_command) cmd = Ret (true, inb) ->
  shop_reachable now stack gap ∅ symbol core
    (mkShop (EngineManager_init symbol core ∅) inb (queue_init OUTBOUND_CAPACITY default_outbound) InBody 0 0 false true
       JournalJoined) [].
Proof.
  intros C Ep.
  assert (queue_rep JOURNAL_CAPACITY (queue_init JOURNAL_CAPACITY default_entry) []) as Q by apply queue_init_rep, journal_capacity.
  eapply shop_quiet; [|apply (shop_join_journal now stack gap (EngineManager_init symbol core ∅))].
  eapply shop_quiet; [|apply (shop_journal_leaves now stack gap (EngineManager_init symbol core ∅) _ _ _ _ _ _ _ 0 0 _);
    [lia|exact (idle_journal_leaves _ Q eq_refl _ 0 0)]].
  eapply shop_quiet; [|apply (shop_stop_journal now stack gap)].
  eapply shop_quiet; [|apply (shop_stop now stack gap (em_start (EngineManager_init symbol core ∅))); reflexivity].
  eapply shop_quiet; [|apply (shop_check now stack gap (em_start (EngineManager_init symbol core ∅)))].
  eapply shop_quiet; [apply shop_begin|exact (shop_arrive _ _ _ _ _ _ _ _ _ _ _ _ cmd true inb C Ep)].
Qed.

Lemma late_command now stack gap symbol core cmd risk res trace em' out' :
  let em := EngineManager_init symbol core ∅ in
  command_ok cmd -> verdict now cmd em = Ret (inl res, risk, trace) ->
  process_command now stack gap cmd em (queue_init OUTBOUND_CAPACITY default_outbound) = Ret (em', out') ->
  exists s, shop_reachable now stack gap ∅ symbol core s [(cmd, true)] /\ sh_stop s = Stopped /\
    sh_em s = em' /\ sh_outbound s = out' /\ dj_files (em_disk_journal (sh_em s)) = ∅ /\
    queue_rep JOURNAL_CAPACITY (em_journal_queue (sh_em s)) [command_entry stack gap cmd].
Proof.
  intros em C Ev E.
  destruct queue_capacity as [Hp Hl]. destruct (emplace_room QUEUE_CAPACITY Hp Hl _ _ cmd (queue_init_rep QUEUE_CAPACITY Hp default_command))
    as (inb & Ep & Q); [unfold QUEUE_CAPACITY; cbn; lia|]. destruct (pop_cons QUEUE_CAPACITY Hp Hl _ _ _ Q) as (inb' & Eo & _).
  pose proof (command_accepted now stack gap cmd em risk res trace C
    (queue_init_rep JOURNAL_CAPACITY (proj1 journal_capacity) default_entry) ltac:(unfold JOURNAL_CAPACITY; cbn; lia) Ev) as [j [Ea Ej]].
  destruct (process_journal _ _ _ _ _ _ _ _ E) as (Ed & Er & [[Ej' _]|(ok & Ej' & Ea')]); rewrite Ej in Ej'; [discriminate|].
  injection Ej' as <-. rewrite Ea in Ea'. injection Ea' as ->.
  destruct (append_cases stack gap _ _ _ _ _ C (queue_init_rep JOURNAL_CAPACITY (proj1 journal_capacity) default_entry) Ea) as [_ J].
  exists (mkShop em' inb' out' EngineGone 0 0 false true Stopped). split;
    [|cbn [sh_em sh_outbound sh_stop]; rewrite Ed; split_and!; [reflexivity..|exact J]].
  pose proof (run_to_body now stack gap symbol core cmd inb C Ep) as R.
  destruct (engine_step_once now stack gap em inb inb' _ cmd em' out' Eo E) as [EB Eb]. rewrite Ej in Eb.
  pose proof (shop_more R (shop_body now stack gap em inb _ 0 0 false true JournalJoined _ _ _ EB)) as R1.
  rewrite Eb in R1. cbn [app] in R1.
  pose proof (shop_more R1 (shop_check now stack gap em' inb' out' 0 0 false true JournalJoined)) as R2.
  rewrite Er in R2. exact (shop_more R2 (shop_join_engine now stack gap em' inb' out' 0 0 false true)).
Qed.

Lemma close_index d : dj_file_index (journal_close d) = dj_file_index d.
Proof. unfold journal_close. by destruct (dj_open d). Qed.
Lemma flush_index d : dj_file_index (journal_flush d) = dj_file_index d.
Proof. unfold journal_flush. by destruct (dj_open d && _). Qed.

(** A run in which nothing is lost: the engine takes a command and leaves, and
    the journal's thread, told to stop, first writes the record. *)
Lemma tidy_run now stack gap files symbol core cmd em' out' :
  let em := em_start (EngineManager_init symbol core files) in
  command_ok cmd -> journal_event now stack gap cmd em = [(cmd, true)] ->
  process_command now stack gap cmd em (queue_init OUTBOUND_CAPACITY default_outbound) = Ret (em', out') ->
  exists s, shop_reachable now stack gap files symbol core s [(cmd, true)] /\ sh_stop s = Stopped /\
    dj_file_index (em_disk_journal (sh_em s)) = 1.
Proof.
  intros em C Ej E. destruct queue_capacity as [Hp Hl].
  destruct (emplace_room QUEUE_CAPACITY Hp Hl _ _ cmd (queue_init_rep QUEUE_CAPACITY Hp default_command))
    as (inb & Ep & Q); [unfold QUEUE_CAPACITY; cbn; lia|]. destruct (pop_cons QUEUE_CAPACITY Hp Hl _ _ _ Q) as (inb' & Eo & _).
  destruct (engine_step_once now stack gap em inb inb' (queue_init OUTBOUND_CAPACITY default_outbound) cmd em' out' Eo E) as [EB Eb].
  destruct (process_journal _ _ _ _ _ _ _ _ E) as (Ed & Er & [[Ej' _]|(ok & Ej' & Ea)]); rewrite Ej in Ej'; [discriminate|].
  injection Ej' as <-. rewrite Ej in Eb.
  destruct (append_cases stack gap _ _ _ _ _ C (queue_init_rep JOURNAL_CAPACITY (proj1 journal_capacity) default_entry) Ea) as [Ei J].
  assert (read_idx (em_journal_queue em') = 0) as E0 by exact Ei.
  destruct (journal_turn_cases false 0 0 (journal_thread em' 0 0) _ J) as (t & Et & Q' & Ei' & Dt); [cbn [jt_queue journal_thread]; rewrite E0; cbn; lia|].
  cbn [jt_queue jt_disk journal_thread] in *.
  pose proof (journal_turn_cases false 0 0 t [] Q' ltac:(cbn; lia)) as [(t' & _ & ? & _)|[_ El]]; [discriminate|].
  set (out := queue_init OUTBOUND_CAPACITY default_outbound) in *.
  pose proof (shop_quiet (shop_begin now stack gap files symbol core) (shop_arrive now stack gap em _ out _ _ _ _ _ _ cmd true inb C Ep)) as R1.
  pose proof (shop_more (shop_quiet R1 (shop_check now stack gap em inb out 0 0 true false NotStopping))
    (shop_body now stack gap em inb out 0 0 true false NotStopping em' inb' out' EB)) as R2. rewrite Eb in R2. cbn [app] in R2.
  pose proof (shop_quiet R2 (shop_stop now stack gap em' inb' out' AtCheck 0 0 true false Er)) as R3.
  pose proof (shop_quiet (shop_quiet R3 (shop_check now stack gap _ inb' out' 0 0 true false EngineTold))
    (shop_stop_journal now stack gap _ inb' out' _ 0 0 true false)) as R4.
  pose proof (shop_quiet R4 (shop_journal now stack gap (em_set_running false em') inb' out' EngineGone 0 0 false JournalTold 0 0 t ltac:(lia) Et)) as R5.
  pose proof (shop_quiet R5 (shop_journal_leaves now stack gap (em_set_disk (jt_disk t) (em_set_journal (jt_queue t) (em_set_running false em'))) inb' out' EngineGone
    (jt_batch_count t) (jt_last_flush t) false JournalTold 0 0 _ ltac:(lia) El)) as R6.
  pose proof (shop_quiet (shop_quiet R6 (shop_join_journal now stack gap _ inb' out' _ _ _ false))
    (shop_join_engine now stack gap _ inb' out' _ _ false true)) as R7.
  eexists. split; [exact R7|]. split; [reflexivity|].
  change (dj_file_index (journal_close (journal_flush (jt_disk t))) = 1). rewrite close_index, flush_index.
  rewrite Ed in Dt. destruct Dt as [-> | ->]; rewrite ?flush_index; reflexivity.
Qed.

(** A concrete command that passes the checks, on an engine over any directory *)
Lemma buy_accepted running files : exists res risk trace,
  verdict Z.of_nat buy_command (em_set_running running (EngineManager_init 7 0 files)) = Ret (inl res, risk, trace).
Proof.
  set (v := verdict _ _ _).
  assert (match v with Ret (inl _, _, _) => true | _ => false end = true) as E by (vm_compute; reflexivity).
  destruct v as [[[[res|reason] risk] trace]| | | |]; try discriminate E. exists res, risk, trace. reflexivity.
Qed.
Lemma buy_processed stack running files : exists em' out',
  process_command Z.of_nat stack 0 buy_command (em_set_running running (EngineManager_init 7 0 files))
    (queue_init OUTBOUND_CAPACITY default_outbound) = Ret (em', out').
Proof.
  assert (engine_rep (2 ^ 62) (em_set_running running (EngineManager_init 7 0 files))
    (queue_init OUTBOUND_CAPACITY default_outbound) empty_view) as R by (destruct (fresh_engine 7 0 files); split; assumption).
  destruct (process_refine (2 ^ 62) Z.of_nat stack 0 buy_command (em_set_running running (EngineManager_init 7 0 files))
    (queue_init OUTBOUND_CAPACITY default_outbound) empty_view R buy_command_ok
    ltac:(cbn; lia) ltac:(cbn; lia) (buy_command_room _)) as (res & risk & tr & em' & out' & _ & E & _).
  exists em', out'. exact E.
Qed.
Lemma buy_run stack files : exists s, shop_reachable Z.of_nat stack 0 files 7 0 s [(buy_command, true)] /\ sh_stop s = Stopped /\
  dj_file_index (em_disk_journal (sh_em s)) = 1.
Proof.
  destruct (buy_accepted true files) as (res & risk & trace & Ev). destruct (buy_processed stack true files) as (em' & out' & E).
  destruct (command_accepted Z.of_nat stack 0 buy_command (em_start (EngineManager_init 7 0 files)) risk res trace buy_command_ok
    (queue_init_rep JOURNAL_CAPACITY (proj1 journal_capacity) default_entry)) as (j & _ & Ej); [unfold JOURNAL_CAPACITY; lia|exact Ev|].
  exact (tidy_run Z.of_nat stack 0 files 7 0 buy_command em' out' buy_command_ok Ej E).
Qed.

Lemma buy_fits : commands_fit [buy_command] empty_book 0.
Proof.
  cbn [commands_fit]. change (oc_sequence buy_command <=? 0) with false. split; [|done]. intros _.
  split; [|split; [done|by right]]. split; [done|apply not_elem_of_nil|]. destruct (order_side _); apply not_elem_of_nil.
Qed.

(** C12: stopping an engine loses at most one command.  However the engine's
    thread, the journal's thread and the owner's [stop] interleave, once [stop]
    has returned the journal's directory holds ([disk_holds]) the records of
    every command whose record went into the journal's queue, in order and
    nothing else, but at most the last.  Where these commands fit
    ([commands_fit]: each new order's id and price are free when its turn comes,
    and the pools have room), [recover] rebuilds from the files the book they
    lead to. *)
Theorem stop_loses_at_most_one now stack gap symbol core s tr fuel b0 B0 :
  is_byte gap -> shop_reachable now stack gap ∅ symbol core s tr -> Z.of_nat (length tr) < 2 ^ 62 -> sh_stop s = Stopped ->
  abs b0 B0 -> (length tr < fuel)%nat ->
  exists written lost, logged tr = written ++ lost /\ (length lost <= 1)%nat /\
    disk_holds stack gap ∅ (em_disk_journal (sh_em s)) written /\
    (commands_fit written B0 0 ->
     exists b', recover fuel None ∅ (dj_files (em_disk_journal (sh_em s))) b0 = Ret (true, b') /\
       abs b' (spec_commands written B0 0).1).
Proof.
  intros Hg R HB St R0 Hf.
  destruct (stopped_recovers now stack gap ∅ symbol core s tr [] [] fuel b0 B0) as (W & L & n & E & Hl & D & _ & _ & _ & X);
    [done|exact R|cbn; lia|done|apply Forall2_nil_2|apply holds_files_none|done|cbn; lia|].
  exists W, L. split; [done|]. split; [done|]. split; [done|]. by rewrite drop_nil, app_nil_r in X.
Qed.
Lemma stop_loses_at_most_one_witness : exists s b', shop_reachable Z.of_nat [] 0 ∅ 7 0 s [(buy_command, true)] /\
  disk_holds [] 0 ∅ (em_disk_journal (sh_em s)) [buy_command] /\
  recover 2 None ∅ (dj_files (em_disk_journal (sh_em s))) (LimitOrderBook_init false) = Ret (true, b') /\
  abs b' (spec_commands [buy_command] empty_book 0).1.
Proof.
  destruct (buy_run [] ∅) as (s & R & St & I).
  destruct (stop_loses_at_most_one Z.of_nat [] 0 7 0 s [(buy_command, true)] 2 (LimitOrderBook_init false) empty_book
    ltac:(unfold is_byte; lia) R ltac:(cbn; lia) St (init_abs false) ltac:(cbn; lia)) as (w & l & E & _ & D & X).
  pose proof (disk_holds_count _ _ _ _ _ D) as C. rewrite I in C. destruct w as [|c w]; [cbn in C; lia|].
  cbn in E. injection E as <- E. assert (w = []) as -> by (by destruct w). destruct (X buy_fits) as (b' & Er & Ra).
  exists s, b'. split; [exact R|]. split; [exact D|]. split; [exact Er|exact Ra].
Defined.

(** C38: the command [stop] may lose was executed, and its reports sent: a run
    in which the engine is told to stop between the test of its flag and the
    body of its loop, the journal's thread leaves while its queue is empty, and
    the body then takes a command the checks accept.  The command's record stays
    in the journal's queue and no file holds it. *)
Theorem stop_can_lose_a_command now stack gap symbol core cmd risk res trace em' out' :
  let em := EngineManager_init symbol core ∅ in
  command_ok cmd -> verdict now cmd em = Ret (inl res, risk, trace) ->
  process_command now stack gap cmd em (queue_init OUTBOUND_CAPACITY default_outbound) = Ret (em', out') ->
  exists s, shop_reachable now stack gap ∅ symbol core s [(cmd, true)] /\ sh_stop s = Stopped /\
    sh_em s = em' /\ sh_outbound s = out' /\ dj_files (em_disk_journal (sh_em s)) = ∅ /\
    queue_rep JOURNAL_CAPACITY (em_journal_queue (sh_em s)) [command_entry stack gap cmd].
Proof. exact (late_command now stack gap symbol core cmd risk res trace em' out'). Qed.
Lemma stop_can_lose_a_command_witness : exists s, shop_reachable Z.of_nat [] 0 ∅ 7 0 s [(buy_command, true)] /\
  sh_stop s = Stopped /\ dj_files (em_disk_journal (sh_em s)) = ∅.
Proof.
  destruct (buy_accepted false ∅) as (res & risk & trace & Ev). destruct (buy_processed [] false ∅) as (em' & out' & E).
  destruct (stop_can_lose_a_command Z.of_nat [] 0 7 0 buy_command risk res trace em' out' buy_command_ok Ev E)
    as (s & R & St & _ & _ & F & _).
  exists s. split; [exact R|split; [exact St|exact F]].
Defined.

(** C37: a restarted engine destroys the journal of the run before.  With
    journal files left in its directory, an engine that is started and stopped
    again leaves [n] files of its own, at least one as soon as it has written a
    command, in place of the first [n] that were there ([disk_holds]); the later
    files are as they were.  [recover] goes through the new commands and then
    through those of the old files past the [n]th, and rebuilds the book this
    leads to where they all fit ([commands_fit]); the old commands of the first
    [n] files are gone.  Of the new ones, at most the last is missing. *)
Theorem restart_overwrites_journal now stack gap symbol core olds csss files s tr fuel b0 B0 :
  is_byte gap -> Forall2 (journal_holds stack gap) olds csss -> holds_files ∅ files olds ->
  shop_reachable now stack gap files symbol core s tr -> Z.of_nat (length tr + length olds) < 2 ^ 62 -> sh_stop s = Stopped ->
  abs b0 B0 -> (length tr + length olds < fuel)%nat ->
  exists written lost n, logged tr = written ++ lost /\ (length lost <= 1)%nat /\ disk_holds stack gap files (em_disk_journal (sh_em s)) written /\
    (n = O <-> written = []) /\ dj_file_index (em_disk_journal (sh_em s)) = Z.of_nat n /\
    (forall k, Z.of_nat n < k -> dj_files (em_disk_journal (sh_em s)) !! k = files !! k) /\
    (commands_fit (written ++ concat (drop n csss)) B0 0 ->
     exists b', recover fuel None ∅ (dj_files (em_disk_journal (sh_em s))) b0 = Ret (true, b') /\
       abs b' (spec_commands (written ++ concat (drop n csss)) B0 0).1).
Proof. intros Hg Fo Ho R HB St. exact (stopped_recovers now stack gap files symbol core s tr olds csss fuel b0 B0 Hg R HB St Fo Ho). Qed.
Lemma restart_overwrites_journal_witness :
  exists s b', shop_reachable Z.of_nat (replicate 256 0) 0 {[1 := sample_journal [sample_new 1 1 100 Sell]]} 7 0 s [(buy_command, true)] /\
    disk_holds (replicate 256 0) 0 {[1 := sample_journal [sample_new 1 1 100 Sell]]} (em_disk_journal (sh_em s)) [buy_command] /\
    recover 3 None ∅ (dj_files (em_disk_journal (sh_em s))) (LimitOrderBook_init false) = Ret (true, b') /\
    abs b' (spec_commands [buy_command] empty_book 0).1.
Proof.
  destruct (buy_run (replicate 256 0) {[1 := sample_journal [sample_new 1 1 100 Sell]]}) as (s & R & St & I).
  destruct (restart_overwrites_journal Z.of_nat (replicate 256 0) 0 7 0 [sample_journal [sample_new 1 1 100 Sell]]
    [[sample_new 1 1 100 Sell]] _ s _ 3 (LimitOrderBook_init false) empty_book ltac:(unfold is_byte; lia)
    ltac:(constructor; [apply sample_journal_holds; repeat constructor; cbn; lia || done|constructor])
    (holds_files_new ∅ ∅ [] _ (holds_files_none ∅)) R ltac:(cbn; lia) St (init_abs false) ltac:(cbn; lia))
    as (w & l & n & E & Hl & D & H0 & Hn & _ & X).
  rewrite I in Hn. assert (n = 1%nat) as -> by lia. destruct w as [|c w]; [by destruct H0 as [_ H0]; specialize (H0 eq_refl)|].
  cbn in E. injection E as <- E. assert (w = []) as -> by (by destruct w). destruct (X buy_fits) as (b' & Er & Ra).
  exists s, b'. split; [exact R|]. split; [exact D|]. split; [exact Er|exact Ra].
Defined.
