(* ===== verification/Halt.v ===== *)
(** * FluxTrade: trading halts

    The kill switch and the circuit breaker (src/risk kill_switch.hpp,
    circuit_breaker.hpp) are static members, one set of flags for the whole
    process; [RiskEngine] keeps a copy per engine.  Here the flags are the
    process's: setting one sets it in every engine, and so does the constructor of
    a risk engine (src/risk/src/risk_engine.cpp, 5-7 and 92-98), which
    [Exchange::add_symbol] runs for the engine it creates. *)
From S2P Require Import Prelude Domain RingBuffer Wire Sessions Gateway Journal TradeBuilder MatchingEngine RiskState RiskEngine EngineManager EngineRefine Exchange.
Local Open Scope Z_scope.

(** ** The flags of an engine's copy *)
Definition flags (e : RiskEngine) : KillSwitch * MarketStatus := (re_kill e, re_status e).
Definition set_flags (k : KillSwitch) (s : MarketStatus) (e : RiskEngine) : RiskEngine :=
  MkRiskEngine (re_limits e) (re_stats e) k s (re_credit e) (re_margin e) (re_duplicates e) (re_rates e).
Definition em_with_flags (k : KillSwitch) (s : MarketStatus) (em : EngineManager) : EngineManager :=
  em_set_risk (set_flags k s (em_risk em)) em.
(** What the first two policies of the pipeline stop on, whatever the order. *)
Definition halted (f : KillSwitch * MarketStatus) : bool := global_halt_ f.1 || negb (breaker_validate f.2).

Lemma policies_keep_flags ps ctx : (forall p e ok e', p ∈ ps -> policy_validate p ctx e = Ret (ok, e') -> flags e' = flags e) ->
  forall e tr res e' tr', run_policies ps ctx e tr = Ret (res, e', tr') -> flags e' = flags e.
Proof.
  induction ps as [|p ps IH]; intros K e tr res e' tr'; cbn [run_policies]; [by intros [= _ <- _]|].
  intros ([ok e1] & E & E')%bind_Ret_inv. apply K in E as <-; [|set_solver].
  destruct ok; [|by injection E' as _ <- _]. eapply IH; [|exact E']. intros q ? ? ? Hq. apply K. set_solver.
Qed.
Lemma pipeline_keeps_flags p ctx e ok e' :
  p ∈ PreTradeRiskPipeline -> policy_validate p ctx e = Ret (ok, e') -> flags e' = flags e.
Proof.
  unfold PreTradeRiskPipeline. rewrite !elem_of_cons.
  intros [->|[->|[->|[->|[->|[->|[->|[->|[->|[]%elem_of_nil]]]]]]]]]; cbn [policy_validate KillSwitchPolicy
    CircuitBreakerPolicy DuplicatePolicy RateLimitPolicy FatFingerPolicy PriceBandPolicy STPPolicy PositionPolicy CreditPolicy];
    repeat first [ intros ([? ?] & _ & E)%bind_Ret_inv; revert E | intros (? & _ & E)%bind_Ret_inv; revert E ];
    by intros [= _ <-].
Qed.

Lemma validate_flags t0 t1 t2 t3 ctx e tr res e' tr' :
  RiskEngine.validate t0 t1 t2 t3 ctx e tr = Ret (res, e', tr') ->
  flags e' = flags e /\ (halted (flags e) = true -> res = inr RiskLimitExceeded).
Proof.
  unfold RiskEngine.validate, pipeline_validate. intros ([[r e1] tr1] & E & E')%bind_Ret_inv.
  apply bind_Ret_inv in E as ([[f e2] tr2] & Ep & [= <- <- <-]).
  pose proof (policies_keep_flags _ _ (fun p e ok e' => pipeline_keeps_flags p ctx e ok e') _ _ _ _ _ Ep) as Fl.
  assert (halted (flags e) = true -> f = Some RiskLimitExceeded) as Hf.
  { clear E' Fl. cbn [PreTradeRiskPipeline run_policies policy_validate KillSwitchPolicy CircuitBreakerPolicy policy_reason] in Ep.
    unfold halted, flags. cbn [fst snd]. intros Hh. apply bind_Ret_inv in Ep as ([ok e3] & Ek & Ep).
    apply bind_Ret_inv in Ek as (b & Ek & [= -> <-]). destruct ok; [|by injection Ep].
    unfold kill_validate in Ek. destruct (kill_switch_active _ || _) eqn:Hk; [done|]. apply orb_false_iff in Hk as [_ Hk].
    rewrite Hk in Hh. cbn [orb] in Hh. apply negb_true_iff in Hh. rewrite Hh in Ep. cbn in Ep. by injection Ep. }
  cbn [rr_decision rr_reason] in E'. destruct f as [reason|]; cbn in E'.
  - injection E' as <- <- _. split; [exact Fl|]. intros Hh. by injection (Hf Hh) as ->.
  - apply bind_Ret_inv in E' as (c & _ & [= <- <- _]). split; [exact Fl|]. intros Hh. by apply Hf in Hh.
Qed.

Lemma update_on_fill_flags a sy side q p e e' : RiskEngine.update_on_fill a sy side q p e = Ret e' -> flags e' = flags e.
Proof. unfold RiskEngine.update_on_fill. intros (m & _ & E)%bind_Ret_inv. by apply bind_Ret_inv in E as (c & _ & [= <-]). Qed.
Lemma update_on_cancel_flags a c e e' : RiskEngine.update_on_cancel a c e = Ret e' -> flags e' = flags e.
Proof. unfold RiskEngine.update_on_cancel. by intros (? & _ & [= <-])%bind_Ret_inv. Qed.
Lemma report_risk_flags side r e e' : report_risk side r e = Ret e' -> flags e' = flags e.
Proof.
  unfold report_risk. repeat destruct (decide _); [apply update_on_fill_flags|apply update_on_cancel_flags|by intros [= <-]].
Qed.
Lemma dispatch_loop_flags n conn side : forall i em out em' out',
  dispatch_loop n i conn side em out = Ret (em', out') -> flags (em_risk em') = flags (em_risk em).
Proof.
  induction n as [|n IH]; intros i em out em' out'; cbn [dispatch_loop]; [by intros [= <- _]|].
  intros (r & _ & E)%bind_Ret_inv. apply bind_Ret_inv in E as (pushed & _ & E).
  apply bind_Ret_inv in E as (risk & Er & E). apply IH in E as ->. by apply report_risk_flags in Er.
Qed.

(** ** A command *)
Section Engine.
Context (now : nat -> Z) (stack : list Z) (gap : Z).

Lemma execute_flags cmd em out em' out' :
  execute_command now stack gap cmd em out = Ret (em', out') -> flags (em_risk em') = flags (em_risk em).
Proof.
  unfold execute_command. intros (j & _ & E)%bind_Ret_inv. destruct (oc_type cmd).
  - apply bind_Ret_inv in E as ([[res ctx] m] & _ & E). by apply dispatch_loop_flags in E.
  - apply bind_Ret_inv in E as ([[found ctx] m] & _ & E). by apply dispatch_loop_flags in E.
  - by injection E as <- _.
  - by injection E as <- _.
Qed.

(** Under a halt a command is refused: the book, the journal and the execution
    context stay as they are. *)
Definition same_trading (em em' : EngineManager) : Prop :=
  em_matching em' = em_matching em /\ em_journal_queue em' = em_journal_queue em /\ em_exec_ctx em' = em_exec_ctx em.

#[export] Instance same_trading_preorder : PreOrder same_trading.
Proof.
  split; [intros em; by split_and!|]. intros em1 em2 em3 (?&?&?) (?&?&?). unfold same_trading. split_and!; congruence.
Qed.
Lemma process_flags cmd em out em' out' :
  process_command now stack gap cmd em out = Ret (em', out') ->
  flags (em_risk em') = flags (em_risk em) /\ (halted (flags (em_risk em)) = true -> same_trading em em').
Proof.
  unfold process_command. intros (ref & _ & E)%bind_Ret_inv.
  apply bind_Ret_inv in E as ([[res risk] tr] & Ev & E). apply validate_flags in Ev as [Fl Hh]. destruct res as [u|reason].
  - apply execute_flags in E. split; [by rewrite E|]. intros Hx. by apply Hh in Hx.
  - apply bind_Ret_inv in E as (pushed & _ & [= <- _]). split; [exact Fl|]. intros _. by split_and!.
Qed.
End Engine.

(** ** The process *)
Section Process.
Context {X : Type} `{Transport X}.
Context (now : nat -> Z) (engine_now : nat -> nat -> Z) (stack_tail stack : list Z) (gap : Z).

Record Process : Type := mkProcess {
  p_kill : KillSwitch;
  p_status : MarketStatus;
  p_exchange : Exchange X;
}.
Definition install (k : KillSwitch) (s : MarketStatus) (x : Exchange X) : Process :=
  mkProcess k s (x_set_engines (map (em_with_flags k s) (x_engines x)) x).
Definition Process_init (transport : option X) : Process := mkProcess kill_reset MS_Trading (Exchange_init transport).

Definition process_set_global_halt (v : bool) (p : Process) : Process :=
  install (set_global_halt v (p_kill p)) (p_status p) (p_exchange p).
Definition process_set_account_halt (id : Z) (v : bool) (p : Process) : outcome Process :=
  k ← set_account_halt id v (p_kill p); Ret (install k (p_status p) (p_exchange p)).
Definition process_set_symbol_halt (id : Z) (v : bool) (p : Process) : outcome Process :=
  k ← set_symbol_halt id v (p_kill p); Ret (install k (p_status p) (p_exchange p)).
Definition process_set_status (s : MarketStatus) (p : Process) : Process := install (p_kill p) s (p_exchange p).
(** The new engine's constructor resets the flags of the process. *)
Definition process_add_symbol (symbol_id core_id : Z) (files : gmap Z (list Z)) (p : Process) : outcome Process :=
  x ← add_symbol symbol_id core_id files (p_exchange p); Ret (install kill_reset MS_Trading x).

(** Turns of the threads, starts and stops leave the flags alone. *)
Inductive running_step : Process -> Process -> Prop :=
| run_thread k s x x' :
    exchange_step now engine_now stack_tail stack gap x x' -> running_step (mkProcess k s x) (mkProcess k s x')
| run_start k s x : running_step (mkProcess k s x) (mkProcess k s (exchange_start x).2)
| run_stop k s x : running_step (mkProcess k s x) (mkProcess k s (exchange_stop x)).
Inductive control_step : Process -> Process -> Prop :=
| set_halt v p : control_step p (process_set_global_halt v p)
| set_account id v p p' : process_set_account_halt id v p = Ret p' -> control_step p p'
| set_symbol id v p p' : process_set_symbol_halt id v p = Ret p' -> control_step p p'
| set_market s p : control_step p (process_set_status s p)
| new_symbol symbol core files p p' : process_add_symbol symbol core files p = Ret p' -> control_step p p'.
Inductive process_reachable (transport : option X) : Process -> Prop :=
| process_begin : process_reachable transport (Process_init transport)
| process_runs p p' : process_reachable transport p -> running_step p p' -> process_reachable transport p'
| process_controlled p p' : process_reachable transport p -> control_step p p' -> process_reachable transport p'.

(** Every engine's copy is the process's. *)
Definition shares_flags (p : Process) : Prop :=
  Forall (fun em => flags (em_risk em) = (p_kill p, p_status p)) (x_engines (p_exchange p)).
Definition process_halted (p : Process) : bool := halted (p_kill p, p_status p).

Lemma install_shares k s x : shares_flags (install k s x).
Proof. unfold shares_flags. cbn. apply Forall_fmap, Forall_true. done. Qed.
Lemma control_shares p p' : control_step p p' -> shares_flags p'.
Proof.
  intros [v q|id v q q' E|id v q q' E|s q|symbol core files q q' E]; [apply install_shares| | |apply install_shares|].
  - apply bind_Ret_inv in E as (k & _ & [= <-]). apply install_shares.
  - apply bind_Ret_inv in E as (k & _ & [= <-]). apply install_shares.
  - apply bind_Ret_inv in E as (k & _ & [= <-]). apply install_shares.
Qed.

(** What a running step leaves of an engine. *)
Definition engine_kept (em em' : EngineManager) : Prop :=
  flags (em_risk em') = flags (em_risk em) /\ (halted (flags (em_risk em)) = true -> same_trading em em').
#[export] Instance engine_kept_preorder : PreOrder engine_kept.
Proof.
  split; [by split|]. intros em1 em2 em3 [F1 K1] [F2 K2]. split; [by rewrite F2|].
  intros Hh. rewrite F1 in K2. etrans; auto.
Qed.
Lemma engines_kept_refl l : Forall2 engine_kept l l.
Proof. reflexivity. Qed.
Lemma engines_kept_running f l : (forall em, exists b, f em = em_set_running b em \/ f em = em) -> Forall2 engine_kept l (map f l).
Proof.
  intros Hf. induction l as [|em l IH]; [constructor|]. cbn. constructor; [|done]. by destruct (Hf em) as (b & [-> | ->]).
Qed.
Lemma stop_running em : exists b, em_stop em = em_set_running b em \/ em_stop em = em.
Proof. unfold em_stop. exists false. destruct (negb _); auto. Qed.
Lemma start_running em : exists b, em_start em = em_set_running b em \/ em_start em = em.
Proof. unfold em_start. exists true. destruct (em_running em); auto. Qed.
Lemma stop_kept (x : Exchange X) : Forall2 engine_kept (x_engines x) (x_engines (exchange_stop x)).
Proof.
  unfold exchange_stop. destruct (negb _); [apply engines_kept_refl|]. cbn. apply engines_kept_running, stop_running.
Qed.
Lemma start_kept (x : Exchange X) : Forall2 engine_kept (x_engines x) (x_engines (exchange_start x).2).
Proof.
  unfold exchange_start. destruct (x_running x); [apply engines_kept_refl|]. destruct (gateway_start _) as [ok g].
  assert (Forall2 engine_kept (x_engines x) (map em_start (x_engines x))) as S by apply engines_kept_running, start_running.
  destruct ok; [exact S|]. etrans; [exact S|].
  match goal with |- Forall2 _ _ (x_engines (_, exchange_stop ?y).2) => exact (stop_kept y) end.
Qed.
Lemma engine_step_kept i (x x' : Exchange X) :
  engine_step engine_now stack gap i x = Ret x' -> Forall2 engine_kept (x_engines x) (x_engines x').
Proof.
  unfold engine_step. intros (em & [_ Hem]%arr_get_inv & E)%bind_Ret_inv. apply bind_Ret_inv in E as (q & _ & E).
  apply bind_Ret_inv in E as (r & Er & E). destruct r as [[[em' q'] out]|]; [|injection E as <-; apply engines_kept_refl].
  apply bind_Ret_inv in E as (es & [_ ->]%arr_set_inv & E). apply bind_Ret_inv in E as (d & _ & [= <-]). cbn.
  rewrite Nat2Z.id in *. rewrite <- (list_insert_id (x_engines x) i em Hem) at 1.
  apply Forall2_insert; [apply engines_kept_refl|]. unfold engine_turn in Er. destruct (em_running em); [|done].
  apply bind_Ret_inv in Er as ([c q1] & _ & Er). destruct c as [cmd|]; cbn [fst snd] in Er.
  - apply bind_Ret_inv in Er as ([em1 out1] & Ep & [= <- _ _]). by eapply process_flags.
  - by injection Er as <- _ _.
Qed.
Lemma running_kept p p' : running_step p p' ->
  p_kill p' = p_kill p /\ p_status p' = p_status p /\ Forall2 engine_kept (x_engines (p_exchange p)) (x_engines (p_exchange p')).
Proof.
  intros [k s x x' S|k s x|k s x]; cbn [p_kill p_status p_exchange]; (split_and!; [done..|]); [|apply start_kept|apply stop_kept].
  destruct S as [fuel x x' _ E|x x' E|i x x' E|cmd ok x x' E].
  - unfold exchange_poll in E. apply bind_Ret_inv in E as (g & _ & E). apply bind_Ret_inv in E as (r & _ & [= <-]). apply engines_kept_refl.
  - unfold response_turn in E. destruct (x_running x); [|injection E as <-; apply engines_kept_refl].
    apply bind_Ret_inv in E as ([r q] & _ & E). cbn [fst snd] in E. destruct r as [report|]; [|injection E as <-; apply engines_kept_refl].
    apply bind_Ret_inv in E as (g & _ & [= <-]). apply engines_kept_refl.
  - by eapply engine_step_kept.
  - unfold submit_command in E. apply bind_Ret_inv in E as (r & _ & [= _ <-]). apply engines_kept_refl.
Qed.

Lemma reachable_shares transport p : process_reachable transport p -> shares_flags p.
Proof.
  induction 1 as [|p p' _ IH S|p p' _ _ S]; [constructor| |by eapply control_shares].
  apply running_kept in S as (Ek & Es & F). unfold shares_flags in *. rewrite Ek, Es. clear Ek Es.
  induction F as [|em em' l l' [Fl _] _ IHF]; [constructor|]. apply Forall_cons in IH as [E IH]. constructor; [by rewrite Fl|by apply IHF].
Qed.

(** However long the process runs under a halt. *)
Lemma halt_keeps p p' :
  shares_flags p -> process_halted p = true -> rtc running_step p p' ->
  process_halted p' = true /\ Forall2 same_trading (x_engines (p_exchange p)) (x_engines (p_exchange p')).
Proof.
  intros Sh Hh R. revert Sh Hh. induction R as [p|p p1 p' S _ IH]; intros Sh Hh.
  { by split. }
  apply running_kept in S as (Ek & Es & F). unfold process_halted, shares_flags in *. rewrite Ek, Es in IH.
  assert (Forall2 same_trading (x_engines (p_exchange p)) (x_engines (p_exchange p1)) /\
          Forall (fun em => flags (em_risk em) = (p_kill p, p_status p)) (x_engines (p_exchange p1))) as [T Sh1].
  { clear IH. induction F as [|em em' l l' [Fl K] _ IHF]; [by split; constructor|]. apply Forall_cons in Sh as [E Sh].
    rewrite E in Fl, K. destruct (IHF Sh) as [? ?]. split; constructor; auto. }
  destruct (IH Sh1 Hh) as [H1 T1]. split; [done|]. by etrans.
Qed.
End Process.
Arguments Process : clear implicits.

(** C19: a trading halt, by the kill switch or by the circuit breaker, holds
    through any number of turns of the threads, submissions, starts and stops: no
    engine's matching engine, journal queue or execution context changes.  But
    adding a symbol ends it for every symbol: the constructor of the new engine
    resets the flags of the whole process. *)
Theorem halt_holds_until_symbol_added {X} `{Transport X} now engine_now stack_tail stack gap (transport : option X) p :
  process_reachable now engine_now stack_tail stack gap transport p -> process_halted p = true ->
  (forall p', rtc (running_step now engine_now stack_tail stack gap) p p' ->
     process_halted p' = true /\ Forall2 same_trading (x_engines (p_exchange p)) (x_engines (p_exchange p'))) /\
  (forall symbol core files p', process_add_symbol symbol core files p = Ret p' ->
     process_halted p' = false /\ Forall (fun em => halted (flags (em_risk em)) = false) (x_engines (p_exchange p'))).
Proof.
  intros R Hh. split.
  - intros p' S. eapply halt_keeps; [by eapply reachable_shares|done|exact S].
  - intros symbol core files p' (x & _ & [= <-])%bind_Ret_inv. split; [done|].
    eapply Forall_impl; [apply (install_shares kill_reset MS_Trading x)|]. cbn. by intros em ->.
Qed.

Definition with_symbol (symbol : Z) (p : Process SimulationTransport) : Process SimulationTransport :=
  match process_add_symbol symbol 0 ∅ p with Ret p' => p' | _ => p end.
Lemma halt_holds_until_symbol_added_witness :
  let p := process_set_global_halt true (with_symbol 7 (Process_init (Some (mkSimulation true [])))) in
  process_halted p = true /\
  process_halted (mkProcess (p_kill p) (p_status p) (exchange_start (p_exchange p)).2) = true /\
  process_add_symbol 8 0 ∅ p = Ret (with_symbol 8 p) /\ process_halted (with_symbol 8 p) = false.
Proof.
  intros p. set (now := fun _ : nat => 0). set (engine_now := fun _ _ : nat => 0).
  assert (process_reachable now engine_now [] [] 0 (Some (mkSimulation true [])) p) as R.
  { eapply process_controlled; [eapply process_controlled; [apply process_begin|]|apply set_halt].
    apply (new_symbol 7 0 ∅). reflexivity. }
  destruct (halt_holds_until_symbol_added now engine_now [] [] 0 (Some (mkSimulation true [])) p R eq_refl) as [K L].
  split; [done|]. split.
  - apply (K (mkProcess (p_kill p) (p_status p) (exchange_start (p_exchange p)).2)). apply rtc_once. apply run_start.
  - split; [reflexivity|]. by apply (L 8 0 ∅).
Defined.
