(* ===== verification/Events.v ===== *)
(** * FluxTrade: events

    The event structs of src/events/include/events, their traits and their
    binary serialization (serialization.hpp): an event is copied byte for byte
    between its memory and a buffer.  A struct is read and written through the
    list of its fields, as the packets of [Wire] are; the bytes its alignment
    adds at the end are its last field. *)
From S2P Require Import Prelude Domain Wire DependencyResolver.
Local Open Scope Z_scope.

(** ** The header *)
Inductive EventId : Type :=
| OrderReceived | OrderAccepted | OrderRejected | OrderCancelled | OrderModified | TradeExecuted | TradeCancelled
| BookUpdated | SnapshotCreated | RiskRejected | EvHeartbeat | EvStartup | EvShutdown | ReplayStarted | ReplayFinished
| EventUnnamed (code : Z).
Definition EventId_code (i : EventId) : Z :=
  match i with
  | OrderReceived => 1 | OrderAccepted => 2 | OrderRejected => 3 | OrderCancelled => 4 | OrderModified => 5
  | TradeExecuted => 6 | TradeCancelled => 7 | BookUpdated => 8 | SnapshotCreated => 9 | RiskRejected => 10
  | EvHeartbeat => 11 | EvStartup => 12 | EvShutdown => 13 | ReplayStarted => 14 | ReplayFinished => 15
  | EventUnnamed c => c
  end.
Definition named {A} (code : A -> Z) (l : list A) (other : Z -> A) (c : Z) : A :=
  match list_find (fun a => code a = c) l with Some (_, a) => a | None => other c end.
Definition event_ids : list EventId :=
  [OrderReceived; OrderAccepted; OrderRejected; OrderCancelled; OrderModified; TradeExecuted; TradeCancelled;
   BookUpdated; SnapshotCreated; RiskRejected; EvHeartbeat; EvStartup; EvShutdown; ReplayStarted; ReplayFinished].
Definition EventId_of_code : Z -> EventId := named EventId_code event_ids EventUnnamed.
Definition module_ids : list ModuleId :=
  [ModKernel; ModConfig; ModClock; ModLogger; ModEventBus; ModScheduler; ModThreadManager; ModHealthMonitor; ModRisk;
   ModOrderBook; ModMatching; ModRouter; ModNetwork; ModStorage; ModSimulator; ModReplay].
Definition ModuleId_of_code : Z -> ModuleId := named ModuleId_code module_ids ModUnnamed.

Definition PROTOCOL_V1 : Z := 1.
Definition PROTOCOL_CURRENT : Z := PROTOCOL_V1.

Record EventHeader : Type := mkEventHeader {
  eh_timestamp : Z; eh_seq_num : Z; eh_correlation_id : Z; eh_symbol_id : Z; eh_id : EventId;
  eh_source : ModuleId; eh_version : Z; eh_flags : Z; eh_padding : list Z }.
Definition default_event_header : EventHeader :=
  mkEventHeader 0 0 0 0 EvHeartbeat ModKernel PROTOCOL_CURRENT 0 [0; 0; 0].
Definition event_header_layout : list layout :=
  [TInt 8; TInt 8; TInt 8; TInt 4; TInt 4; TInt 2; TInt 2; TInt 1; TRaw 3].
Definition event_header_fields (h : EventHeader) : list field :=
  [FInt 8 (eh_timestamp h); FInt 8 (eh_seq_num h); FInt 8 (eh_correlation_id h); FInt 4 (eh_symbol_id h);
   FInt 4 (EventId_code (eh_id h)); FInt 2 (ModuleId_code (eh_source h)); FInt 2 (eh_version h);
   FInt 1 (eh_flags h); FRaw (eh_padding h)].
Definition event_header_make (fs : list field) : option (EventHeader * list field) :=
  match fs with
  | FInt _ t :: FInt _ q :: FInt _ c :: FInt _ s :: FInt _ i :: FInt _ m :: FInt _ v :: FInt _ f :: FRaw p :: fs =>
      Some (mkEventHeader t q c s (EventId_of_code i) (ModuleId_of_code m) v f p, fs)
  | _ => None
  end.
(** The enumerators are written by their names where they have one. *)
Definition event_header_named (h : EventHeader) : Prop :=
  EventId_of_code (EventId_code (eh_id h)) = eh_id h /\ ModuleId_of_code (ModuleId_code (eh_source h)) = eh_source h.

(** ** What [ExchangeEvent] asks of an event: a header first, and a plain layout *)
Class Event (E : Type) : Type := {
  ev_header : E -> EventHeader;
  ev_layout : list layout;
  ev_body : E -> list field;
  ev_make : EventHeader -> list field -> option E;
  ev_named : E -> Prop;
}.
Definition event_layout (E : Type) `{Event E} : list layout := event_header_layout ++ ev_layout.
Definition event_fields {E} `{Event E} (e : E) : list field := event_header_fields (ev_header e) ++ ev_body e.
Definition event_of {E} `{Event E} (fs : list field) : option E :=
  match event_header_make fs with Some (h, fs) => ev_make h fs | None => None end.
Class EventLaws (E : Type) `{Event E} : Prop := {
  ev_make_body (e : E) : ev_named e -> ev_make (ev_header e) (ev_body e) = Some e;
}.

(** ** Order events *)
(** [OrderReceivedEvent] and [OrderAcceptedEvent] have the same members. *)
Record OrderReceivedEvent : Type := mkOrderReceived {
  orc_header : EventHeader; orc_order_id : Z; orc_price : Z; orc_qty : Z; orc_client_id : Z; orc_side : Side;
  orc_padding : list Z }.
#[export] Instance order_received_event : Event OrderReceivedEvent := {
  ev_header := orc_header;
  ev_layout := [TInt 8; TInt 8; TInt 8; TInt 4; TInt 1; TRaw 3];
  ev_body := fun e => [FInt 8 (orc_order_id e); FInt 8 (orc_price e); FInt 8 (orc_qty e); FInt 4 (orc_client_id e);
                       FInt 1 (Side_code (orc_side e)); FRaw (orc_padding e)];
  ev_make := fun h fs => match fs with
    | [FInt _ i; FInt _ p; FInt _ q; FInt _ c; FInt _ s; FRaw g] => Some (mkOrderReceived h i p q c (Side_of_code s) g)
    | _ => None end;
  ev_named := fun e => Side_of_code (Side_code (orc_side e)) = orc_side e;
}.
Record OrderAcceptedEvent : Type := mkOrderAccepted {
  oac_header : EventHeader; oac_order_id : Z; oac_price : Z; oac_qty : Z; oac_client_id : Z; oac_side : Side;
  oac_padding : list Z }.
#[export] Instance order_accepted_event : Event OrderAcceptedEvent := {
  ev_header := oac_header;
  ev_layout := [TInt 8; TInt 8; TInt 8; TInt 4; TInt 1; TRaw 3];
  ev_body := fun e => [FInt 8 (oac_order_id e); FInt 8 (oac_price e); FInt 8 (oac_qty e); FInt 4 (oac_client_id e);
                       FInt 1 (Side_code (oac_side e)); FRaw (oac_padding e)];
  ev_make := fun h fs => match fs with
    | [FInt _ i; FInt _ p; FInt _ q; FInt _ c; FInt _ s; FRaw g] => Some (mkOrderAccepted h i p q c (Side_of_code s) g)
    | _ => None end;
  ev_named := fun e => Side_of_code (Side_code (oac_side e)) = oac_side e;
}.
Record OrderRejectedEvent : Type := mkOrderRejected {
  orj_header : EventHeader; orj_order_id : Z; orj_client_id : Z; orj_reject_reason_code : Z }.
#[export] Instance order_rejected_event : Event OrderRejectedEvent := {
  ev_header := orj_header;
  ev_layout := [TInt 8; TInt 4; TInt 4];
  ev_body := fun e => [FInt 8 (orj_order_id e); FInt 4 (orj_client_id e); FInt 4 (orj_reject_reason_code e)];
  ev_make := fun h fs => match fs with
    | [FInt _ i; FInt _ c; FInt _ r] => Some (mkOrderRejected h i c r) | _ => None end;
  ev_named := fun _ => True;
}.
Record OrderCancelledEvent : Type := mkOrderCancelled {
  ocn_header : EventHeader; ocn_order_id : Z; ocn_client_id : Z; ocn_tail : list Z }.
#[export] Instance order_cancelled_event : Event OrderCancelledEvent := {
  ev_header := ocn_header;
  ev_layout := [TInt 8; TInt 4; TRaw 4];
  ev_body := fun e => [FInt 8 (ocn_order_id e); FInt 4 (ocn_client_id e); FRaw (ocn_tail e)];
  ev_make := fun h fs => match fs with
    | [FInt _ i; FInt _ c; FRaw t] => Some (mkOrderCancelled h i c t) | _ => None end;
  ev_named := fun _ => True;
}.

(** ** Trade events *)
Record TradeExecutedEvent : Type := mkTradeExecuted {
  tex_header : EventHeader; tex_maker_order_id : Z; tex_taker_order_id : Z; tex_price : Z; tex_qty : Z }.
#[export] Instance trade_executed_event : Event TradeExecutedEvent := {
  ev_header := tex_header;
  ev_layout := [TInt 8; TInt 8; TInt 8; TInt 8];
  ev_body := fun e => [FInt 8 (tex_maker_order_id e); FInt 8 (tex_taker_order_id e); FInt 8 (tex_price e); FInt 8 (tex_qty e)];
  ev_make := fun h fs => match fs with
    | [FInt _ m; FInt _ t; FInt _ p; FInt _ q] => Some (mkTradeExecuted h m t p q) | _ => None end;
  ev_named := fun _ => True;
}.
Record TradeCancelledEvent : Type := mkTradeCancelled {
  tcn_header : EventHeader; tcn_maker_order_id : Z; tcn_taker_order_id : Z }.
#[export] Instance trade_cancelled_event : Event TradeCancelledEvent := {
  ev_header := tcn_header;
  ev_layout := [TInt 8; TInt 8];
  ev_body := fun e => [FInt 8 (tcn_maker_order_id e); FInt 8 (tcn_taker_order_id e)];
  ev_make := fun h fs => match fs with
    | [FInt _ m; FInt _ t] => Some (mkTradeCancelled h m t) | _ => None end;
  ev_named := fun _ => True;
}.

(** ** Market events *)
Record BookUpdatedEvent : Type := mkBookUpdated {
  bup_header : EventHeader; bup_price : Z; bup_qty : Z; bup_side : Side; bup_update_type : Z; bup_padding : list Z }.
#[export] Instance book_updated_event : Event BookUpdatedEvent := {
  ev_header := bup_header;
  ev_layout := [TInt 8; TInt 8; TInt 1; TInt 1; TRaw 6];
  ev_body := fun e => [FInt 8 (bup_price e); FInt 8 (bup_qty e); FInt 1 (Side_code (bup_side e));
                       FInt 1 (bup_update_type e); FRaw (bup_padding e)];
  ev_make := fun h fs => match fs with
    | [FInt _ p; FInt _ q; FInt _ s; FInt _ u; FRaw g] => Some (mkBookUpdated h p q (Side_of_code s) u g)
    | _ => None end;
  ev_named := fun e => Side_of_code (Side_code (bup_side e)) = bup_side e;
}.
Record SnapshotCreatedEvent : Type := mkSnapshotCreated { scr_header : EventHeader; scr_snapshot_id : Z }.
#[export] Instance snapshot_created_event : Event SnapshotCreatedEvent := {
  ev_header := scr_header; ev_layout := [TInt 8]; ev_body := fun e => [FInt 8 (scr_snapshot_id e)];
  ev_make := fun h fs => match fs with [FInt _ i] => Some (mkSnapshotCreated h i) | _ => None end;
  ev_named := fun _ => True;
}.

(** ** Risk, system and replay events *)
Record RiskRejectedEvent : Type := mkRiskRejected {
  rrj_header : EventHeader; rrj_order_id : Z; rrj_client_id : Z; rrj_risk_rule_id : Z }.
#[export] Instance risk_rejected_event : Event RiskRejectedEvent := {
  ev_header := rrj_header;
  ev_layout := [TInt 8; TInt 4; TInt 4];
  ev_body := fun e => [FInt 8 (rrj_order_id e); FInt 4 (rrj_client_id e); FInt 4 (rrj_risk_rule_id e)];
  ev_make := fun h fs => match fs with
    | [FInt _ i; FInt _ c; FInt _ r] => Some (mkRiskRejected h i c r) | _ => None end;
  ev_named := fun _ => True;
}.
Record HeartbeatEvent : Type := mkHeartbeatEvent { hbt_header : EventHeader }.
Record StartupEvent : Type := mkStartupEvent { sup_header : EventHeader }.
Record ShutdownEvent : Type := mkShutdownEvent { sdn_header : EventHeader }.
#[export] Instance heartbeat_event : Event HeartbeatEvent := {
  ev_header := hbt_header; ev_layout := []; ev_body := fun _ => [];
  ev_make := fun h fs => match fs with [] => Some (mkHeartbeatEvent h) | _ => None end; ev_named := fun _ => True }.
#[export] Instance startup_event : Event StartupEvent := {
  ev_header := sup_header; ev_layout := []; ev_body := fun _ => [];
  ev_make := fun h fs => match fs with [] => Some (mkStartupEvent h) | _ => None end; ev_named := fun _ => True }.
#[export] Instance shutdown_event : Event ShutdownEvent := {
  ev_header := sdn_header; ev_layout := []; ev_body := fun _ => [];
  ev_make := fun h fs => match fs with [] => Some (mkShutdownEvent h) | _ => None end; ev_named := fun _ => True }.
Record ReplayStartedEvent : Type := mkReplayStarted { rst_header : EventHeader; rst_start_sequence : Z }.
Record ReplayFinishedEvent : Type := mkReplayFinished { rfn_header : EventHeader; rfn_end_sequence : Z }.
#[export] Instance replay_started_event : Event ReplayStartedEvent := {
  ev_header := rst_header; ev_layout := [TInt 8]; ev_body := fun e => [FInt 8 (rst_start_sequence e)];
  ev_make := fun h fs => match fs with [FInt _ s] => Some (mkReplayStarted h s) | _ => None end; ev_named := fun _ => True }.
#[export] Instance replay_finished_event : Event ReplayFinishedEvent := {
  ev_header := rfn_header; ev_layout := [TInt 8]; ev_body := fun e => [FInt 8 (rfn_end_sequence e)];
  ev_make := fun h fs => match fs with [FInt _ s] => Some (mkReplayFinished h s) | _ => None end; ev_named := fun _ => True }.

(** ** Traits: the categories an event type is specialised for *)
Class EventTraits (E : Type) : Type := {
  is_order_event : bool; is_trade_event : bool; is_market_event : bool;
  is_system_event : bool; is_replay_event : bool; is_risk_event : bool }.
Arguments is_order_event E {_}.
Arguments is_trade_event E {_}.
Arguments is_market_event E {_}.
Arguments is_system_event E {_}.
Arguments is_replay_event E {_}.
Arguments is_risk_event E {_}.
Definition order_traits (E : Type) : EventTraits E := Build_EventTraits E true false false false false false.
Definition trade_traits (E : Type) : EventTraits E := Build_EventTraits E false true false false false false.
Definition market_traits (E : Type) : EventTraits E := Build_EventTraits E false false true false false false.
Definition system_traits (E : Type) : EventTraits E := Build_EventTraits E false false false true false false.
Definition replay_traits (E : Type) : EventTraits E := Build_EventTraits E false false false false true false.
Definition risk_traits (E : Type) : EventTraits E := Build_EventTraits E false false false false false true.
#[export] Instance order_received_traits : EventTraits OrderReceivedEvent := order_traits _.
#[export] Instance order_accepted_traits : EventTraits OrderAcceptedEvent := order_traits _.
#[export] Instance order_rejected_traits : EventTraits OrderRejectedEvent := order_traits _.
#[export] Instance order_cancelled_traits : EventTraits OrderCancelledEvent := order_traits _.
#[export] Instance trade_executed_traits : EventTraits TradeExecutedEvent := trade_traits _.
#[export] Instance trade_cancelled_traits : EventTraits TradeCancelledEvent := trade_traits _.
#[export] Instance book_updated_traits : EventTraits BookUpdatedEvent := market_traits _.
#[export] Instance snapshot_created_traits : EventTraits SnapshotCreatedEvent := market_traits _.
#[export] Instance heartbeat_traits : EventTraits HeartbeatEvent := system_traits _.
#[export] Instance startup_traits : EventTraits StartupEvent := system_traits _.
#[export] Instance shutdown_traits : EventTraits ShutdownEvent := system_traits _.
#[export] Instance replay_started_traits : EventTraits ReplayStartedEvent := replay_traits _.
#[export] Instance replay_finished_traits : EventTraits ReplayFinishedEvent := replay_traits _.
#[export] Instance risk_rejected_traits : EventTraits RiskRejectedEvent := risk_traits _.

(** ** Serialization *)
Definition serialized_size (E : Type) `{Event E} : Z := Z.of_nat (layout_bytes (event_layout E)).
(** [std::memcpy] to the start of an array *)
Definition copy_to (buffer data : list Z) : outcome (list Z) :=
  if (length buffer <? length data)%nat then Undefined else Ret (data ++ drop (length data) buffer).
(** [serialize]: the number of bytes written and the buffer after. *)
Definition serialize {E} `{Event E} (event : E) (buffer : list Z) (size : Z) : outcome (Z * list Z) :=
  let needed := serialized_size E in
  if size <? needed then Ret (0, buffer)
  else b ← copy_to buffer (fields_bytes (event_fields event)); Ret (needed, b).
(** [deserialize]: whether it read the event, and the event after. *)
Definition deserialize {E} `{Event E} (buffer : list Z) (size : Z) (event : E) : outcome (bool * E) :=
  let needed := serialized_size E in
  if size <? needed then Ret (false, event)
  else
    fs ← fields_at (event_layout E) buffer;
    match event_of fs with Some e => Ret (true, e) | None => Undefined end.

(** ** Properties *)
Definition event_ok {E} `{Event E} (e : E) : Prop :=
  Forall2 field_ok (event_layout E) (event_fields e) /\ event_header_named (ev_header e) /\ ev_named e.

Ltac event_laws := split; intros [] HN; cbn in *; rewrite ?HN; reflexivity.
#[export] Instance order_received_laws : EventLaws OrderReceivedEvent. Proof. event_laws. Qed.
#[export] Instance order_accepted_laws : EventLaws OrderAcceptedEvent. Proof. event_laws. Qed.
#[export] Instance order_rejected_laws : EventLaws OrderRejectedEvent. Proof. event_laws. Qed.
#[export] Instance order_cancelled_laws : EventLaws OrderCancelledEvent. Proof. event_laws. Qed.
#[export] Instance trade_executed_laws : EventLaws TradeExecutedEvent. Proof. event_laws. Qed.
#[export] Instance trade_cancelled_laws : EventLaws TradeCancelledEvent. Proof. event_laws. Qed.
#[export] Instance book_updated_laws : EventLaws BookUpdatedEvent. Proof. event_laws. Qed.
#[export] Instance snapshot_created_laws : EventLaws SnapshotCreatedEvent. Proof. event_laws. Qed.
#[export] Instance risk_rejected_laws : EventLaws RiskRejectedEvent. Proof. event_laws. Qed.
#[export] Instance heartbeat_event_laws : EventLaws HeartbeatEvent. Proof. event_laws. Qed.
#[export] Instance startup_laws : EventLaws StartupEvent. Proof. event_laws. Qed.
#[export] Instance shutdown_laws : EventLaws ShutdownEvent. Proof. event_laws. Qed.
#[export] Instance replay_started_laws : EventLaws ReplayStartedEvent. Proof. event_laws. Qed.
#[export] Instance replay_finished_laws : EventLaws ReplayFinishedEvent. Proof. event_laws. Qed.

(** The sizes the code asserts. *)
Lemma event_sizes :
  layout_bytes event_header_layout = 40%nat /\
  serialized_size OrderReceivedEvent = 72 /\ serialized_size OrderAcceptedEvent = 72 /\
  serialized_size OrderRejectedEvent = 56 /\ serialized_size OrderCancelledEvent = 56 /\
  serialized_size TradeExecutedEvent = 72 /\ serialized_size TradeCancelledEvent = 56 /\
  serialized_size BookUpdatedEvent = 64 /\ serialized_size SnapshotCreatedEvent = 48 /\
  serialized_size RiskRejectedEvent = 56 /\ serialized_size HeartbeatEvent = 40 /\
  serialized_size StartupEvent = 40 /\ serialized_size ShutdownEvent = 40 /\
  serialized_size ReplayStartedEvent = 48 /\ serialized_size ReplayFinishedEvent = 48.
Proof. repeat split. Qed.

Lemma event_of_fields {E} `{EventLaws E} (e : E) :
  event_header_named (ev_header e) -> ev_named e -> event_of (event_fields e) = Some e.
Proof.
  intros [H1 H2] N. pose proof (ev_make_body e N) as M. unfold event_of, event_fields.
  set (b := ev_body e) in *. destruct (ev_header e) as [t q c s i m v f p]. cbn in *. by rewrite H1, H2.
Qed.

(** C20: serializing an event into a buffer of any length writes nothing when
    the event does not fit, else exactly the event's size, leaving the rest of
    the buffer alone; reading it back needs at least that size, gives the same
    event, and leaves its target alone otherwise. *)
Theorem event_roundtrip {E} `{EventLaws E} (e target : E) (buffer : list Z) (size : Z) :
  event_ok e ->
  (Z.of_nat (length buffer) < serialized_size E -> serialize e buffer (Z.of_nat (length buffer)) = Ret (0, buffer)) /\
  (serialized_size E <= Z.of_nat (length buffer) ->
   exists data, serialize e buffer (Z.of_nat (length buffer)) = Ret (serialized_size E, data) /\
     length data = length buffer /\
     drop (Z.to_nat (serialized_size E)) data = drop (Z.to_nat (serialized_size E)) buffer /\
     deserialize data size target = Ret (if size <? serialized_size E then (false, target) else (true, e))).
Proof.
  intros (OK & HH & N). pose proof (fields_bytes_length _ _ OK) as L. unfold serialize, deserialize. split; intros HS.
  - by destruct (Z.ltb_spec (Z.of_nat (length buffer)) (serialized_size E)); [|lia].
  - destruct (Z.ltb_spec (Z.of_nat (length buffer)) (serialized_size E)); [lia|]. unfold serialized_size in *.
    unfold copy_to. rewrite L. destruct (Nat.ltb_spec (length buffer) (layout_bytes (event_layout E))); [lia|].
    rewrite bind_Ret. eexists. split; [done|]. rewrite Nat2Z.id. split; [rewrite length_app, length_drop; lia|].
    split; [by rewrite drop_app_length' by done|].
    destruct (_ <? _); [done|]. rewrite (fields_at_bytes _ _ _ OK), bind_Ret. by rewrite event_of_fields.
Qed.
Definition sample_event : OrderReceivedEvent :=
  mkOrderReceived (mkEventHeader 123456789 98765 11111 42 OrderReceived ModNetwork PROTOCOL_CURRENT 0 [0; 0; 0])
    999999 1005000 500 7 Sell [0; 0; 0].
Lemma event_roundtrip_witness : exists data,
  serialize sample_event (replicate 128 0) 128 = Ret (72, data) /\
  deserialize data 72 (mkOrderReceived default_event_header 0 0 0 0 Buy [0; 0; 0]) = Ret (true, sample_event).
Proof.
  destruct (event_roundtrip sample_event (mkOrderReceived default_event_header 0 0 0 0 Buy [0; 0; 0])
    (replicate 128 0) 72) as [_ [data (S & _ & _ & D)]].
  - split; [|split; [by split|done]]. vm_compute; repeat first [discriminate|constructor].
  - vm_compute. discriminate.
  - exists data. split; [exact S|exact D].
Defined.
