(* ===== verification/Expected.v ===== *)
(** * FluxTrade: [expected<T, E>]

    The result type of src/common/include/common/expected.hpp: a value or an
    error, and its specialisation without a value.  Asking for the part that is
    not there throws; from the [noexcept] operators the exception terminates the
    program. *)
From S2P Require Import Prelude.

(** [unexpected<E>] *)
Record unexpected (E : Type) : Type := mkUnexpected { unexpected_error : E }.
Arguments mkUnexpected {E} _.
Arguments unexpected_error {E} _.

(** [expected<T, E>]: [std::variant<T, unexpected<E>>] *)
Inductive expected (T E : Type) : Type :=
| HasValue (value : T)
| HasError (u : unexpected E).
Arguments HasValue {T E} _.
Arguments HasError {T E} _.

Section expected.
Context {T E : Type}.
Definition expected_default (d : T) : expected T E := HasValue d.
Definition has_value (x : expected T E) : bool := match x with HasValue _ => true | HasError _ => false end.
(** [std::get] throws [std::bad_variant_access] on the other alternative. *)
Definition get_value (x : expected T E) : outcome T := match x with HasValue v => Ret v | HasError _ => Throw end.
Definition get_error (x : expected T E) : outcome E :=
  match x with HasValue _ => Throw | HasError u => Ret (unexpected_error u) end.
(** [value()]: throws [std::bad_alloc] itself. *)
Definition expected_value (x : expected T E) : outcome T := if negb (has_value x) then Throw else get_value x.
(** [operator*] and [operator->] *)
Definition expected_deref (x : expected T E) : outcome T := noexcept (get_value x).
Definition expected_error (x : expected T E) : outcome E := get_error x.

(** The value is there exactly when [has_value] says so, the error when it does not. *)
Lemma expected_access x :
  if has_value x
  then exists v, expected_value x = Ret v /\ expected_deref x = Ret v /\ expected_error x = Throw
  else exists e, expected_error x = Ret e /\ expected_value x = Throw /\ expected_deref x = Terminate.
Proof. destruct x as [v|[e]]; simpl; eauto. Qed.
End expected.

(** [expected<void, E>]: the error is stored beside a flag; where there is no
    error, it is the default one. *)
Record expected_void (E : Type) : Type := mkExpectedVoid { ev_data : unexpected E; ev_has_val : bool }.
Arguments mkExpectedVoid {E} _ _.
Arguments ev_data {E} _.
Arguments ev_has_val {E} _.
Section expected_void.
Context {E : Type}.
Definition void_ok (default : E) : expected_void E := mkExpectedVoid (mkUnexpected default) true.
Definition void_unexpected (u : unexpected E) : expected_void E := mkExpectedVoid (mkUnexpected (unexpected_error u)) false.
Definition void_has_value (x : expected_void E) : bool := ev_has_val x.
Definition void_value (x : expected_void E) : outcome unit := if negb (ev_has_val x) then Throw else Ret tt.
Definition void_error (x : expected_void E) : E := unexpected_error (ev_data x).

(** Unlike [expected<T, E>], [error()] answers on success too. *)
Lemma void_access (d e : E) :
  void_value (void_ok d) = Ret tt /\ void_error (void_ok d) = d /\
  void_value (void_unexpected (mkUnexpected e)) = Throw /\ void_error (void_unexpected (mkUnexpected e)) = e.
Proof. done. Qed.
End expected_void.
