(* ===== verification/Platform.v ===== *)
(** * FluxTrade: the platform layer

    [Clock] (src/kernel/include/kernel/clock.hpp) and the thread pinning of
    src/common/include/common/thread_pinning.hpp: which system call each
    function makes on which platform, with which argument, and what it makes of
    the answer.  The calls themselves are a class; the preprocessor's choices
    are arguments. *)
From S2P Require Import Prelude.
Local Open Scope Z_scope.

(** ** Clocks *)
(** A clock of the standard library: its reading in ticks, and its period as a
    ratio of seconds. *)
Record ChronoClock : Type := mkClock { cl_ticks : Z; cl_num : Z; cl_den : Z }.
(** [duration_cast<nanoseconds>]: the reduced ratio of the periods, truncating. *)
Definition duration_cast_ns (c : ChronoClock) : Z :=
  let num := cl_num c * 1000000000 in
  let g := Z.gcd num (cl_den c) in
  Z.quot (cl_ticks c * (num / g)) (cl_den c / g).
(** The signed count becomes an unsigned [Timestamp]. *)
Definition Timestamp_of (c : ChronoClock) : Z := u64 (duration_cast_ns c).

Inductive Architecture : Set := X86_64 | AArch64 | OtherArch.
Class SystemClocks (S : Type) : Type := {
  system_clock : S -> ChronoClock;
  steady_clock : S -> ChronoClock;
  high_resolution_clock : S -> ChronoClock;
  rdtsc : S -> Z;
  cntvct_el0 : S -> Z;
}.
Section Clock.
Context {S : Type} `{SystemClocks S}.
Definition now_system (s : S) : Z := Timestamp_of (system_clock s).
Definition now_steady (s : S) : Z := Timestamp_of (steady_clock s).
Definition now_high_res (s : S) : Z := Timestamp_of (high_resolution_clock s).
Definition now_cycles (arch : Architecture) (s : S) : Z :=
  match arch with
  | X86_64 => rdtsc s
  | AArch64 => cntvct_el0 s
  | OtherArch => now_steady s
  end.
End Clock.

(** A clock that ticks every nanosecond is read as it is. *)
Lemma nanosecond_clock t : 0 <= t < 2 ^ 63 -> Timestamp_of (mkClock t 1 1000000000) = t.
Proof.
  intros Ht. unfold Timestamp_of, duration_cast_ns. cbn [cl_num cl_den cl_ticks].
  change (Z.gcd (1 * 1000000000) 1000000000) with 1000000000.
  rewrite Z.div_same, Z.mul_1_r, Z.quot_1_r by lia. apply u64_small. lia.
Qed.
(** A later reading of a clock gives no smaller timestamp, whatever its period,
    as long as the nanoseconds fit. *)
Lemma timestamps_monotone num den t1 t2 :
  0 < num -> 0 < den -> 0 <= t1 <= t2 -> duration_cast_ns (mkClock t2 num den) < 2 ^ 64 ->
  Timestamp_of (mkClock t1 num den) <= Timestamp_of (mkClock t2 num den).
Proof.
  intros Hn Hd Ht. unfold Timestamp_of, duration_cast_ns. cbn [cl_num cl_den cl_ticks].
  set (g := Z.gcd (num * 1000000000) den).
  assert (0 < g) as Hg by (pose proof (Z.gcd_nonneg (num * 1000000000) den); pose proof (Z.gcd_eq_0_r (num * 1000000000) den); lia).
  destruct (Z.gcd_divide_l (num * 1000000000) den) as [a Ea], (Z.gcd_divide_r (num * 1000000000) den) as [b Eb].
  fold g in Ea, Eb. assert (num * 1000000000 / g = a) as -> by (rewrite Ea; apply Z.div_mul; lia).
  assert (den / g = b) as -> by (rewrite Eb; apply Z.div_mul; lia).
  assert (0 < a) by nia. assert (0 < b) by nia.
  rewrite !Z.quot_div_nonneg by nia. intros HB.
  assert (t1 * a / b <= t2 * a / b) by (apply Z.div_le_mono; nia).
  assert (0 <= t1 * a / b) by (apply Z.div_pos; nia). rewrite !u64_small by lia. done.
Qed.

(** ** Thread pinning *)
Inductive Platform : Set := Apple | Linux | OtherOS.
Definition CPU_SETSIZE : Z := 1024.
Abbreviation cpu_set := (gset Z).
(** glibc's [CPU_SET] ignores a processor the set has no bit for. *)
Definition CPU_SET (cpu : Z) (set : cpu_set) : cpu_set := if cpu <? CPU_SETSIZE then {[cpu]} ∪ set else set.
Definition KERN_SUCCESS : Z := 0.

Class Scheduler (S : Type) : Type := {
  pthread_setaffinity_np : cpu_set -> S -> Z * S;
  thread_policy_set : Z -> S -> Z * S;
  sched_getcpu : S -> Z;
}.
Section Pinning.
Context {S : Type} `{Scheduler S}.
Definition pin_thread (os : Platform) (core_id : Z) (s : S) : bool * S :=
  match os with
  | Apple => let (ret, s) := thread_policy_set (i32 core_id) s in (ret =? KERN_SUCCESS, s)
  | Linux => let (ret, s) := pthread_setaffinity_np (CPU_SET core_id ∅) s in (ret =? 0, s)
  | OtherOS => (false, s)
  end.
Definition all_cpus : cpu_set := foldl (fun set i => CPU_SET i set) ∅ (seqZ 0 CPU_SETSIZE).
Definition unbind (os : Platform) (s : S) : bool * S :=
  match os with
  | Apple => let (ret, s) := thread_policy_set 0 s in (ret =? KERN_SUCCESS, s)
  | Linux => let (ret, s) := pthread_setaffinity_np all_cpus s in (ret =? 0, s)
  | OtherOS => (false, s)
  end.
Definition current_core (os : Platform) (s : S) : Z :=
  match os with Linux => sched_getcpu s | _ => -1 end.
(** [ThreadManager::pin_current_thread_to_core] *)
Definition pin_current_thread_to_core (os : Platform) (core_id : Z) (s : S) : S := (pin_thread os (u32 core_id) s).2.

(** [unbind] asks for exactly the processors a set can hold. *)
Lemma all_cpus_spec i : i ∈ all_cpus <-> 0 <= i < CPU_SETSIZE.
Proof.
  assert (forall l (A : cpu_set), Forall (fun i => i < CPU_SETSIZE) l ->
    (i ∈ foldl (fun set i => CPU_SET i set) A l <-> i ∈ A \/ i ∈ l)) as F.
  { induction l as [|x l IH]; intros A Fl; [set_solver|]. apply Forall_cons in Fl as [Hx Fl]. cbn.
    rewrite IH by done. unfold CPU_SET. destruct (Z.ltb_spec x CPU_SETSIZE); [set_solver|lia]. }
  unfold all_cpus. rewrite F, elem_of_seqZ; [set_solver by lia|].
  apply Forall_forall. intros x. rewrite elem_of_seqZ. lia.
Qed.

(** A core the set cannot hold asks for no processor at all, which Linux refuses. *)
Lemma pin_thread_out_of_range core_id s :
  (forall s, (pthread_setaffinity_np ∅ s).1 <> 0) -> CPU_SETSIZE <= core_id -> (pin_thread Linux core_id s).1 = false.
Proof.
  intros E Hc. unfold pin_thread, CPU_SET. destruct (Z.ltb_spec core_id CPU_SETSIZE); [lia|].
  specialize (E s). destruct (pthread_setaffinity_np ∅ s) as [ret s']. cbn in *. by apply Z.eqb_neq.
Qed.
End Pinning.
